(* ===== verification/_CoqProject ===== *)
-Q . S2P
Prelude.v
Strs.v
F64.v
Charts.v
Topic.v
Trie.v
Types.v
Acl.v
Store.v
Config.v
LoadGen.v
Db.v
Vault.v
Api.v
Access.v
Auth.v
Fanout.v
MsgStore.v
Main.v
Startup.v
Router.v
ClusterRouter.v
Inflight.v
Queue.v
Retain.v
Delayed.v
Fitter.v
Hooks.v
Session.v
SessionLoop.v
SessionAcl.v
Shared.v
Handshake.v
Standalone.v
Cluster.v
Plugin.v
Perf.v
PerfResources.v
LoadAccess.v
Fuzz.v
