(* ===== verification/Prelude.v ===== *)
(** * ciqadamq: a verification library

    ciqadamq is an MQTT broker for applications: a fork of rmqtt with its own
    user database, HTTP management API, per-user access rules, automatic
    subscriptions and a store for messages to clients that are offline. Several
    brokers form a cluster: subscriptions and session locations are replicated
    by raft, users by HTTP calls between the nodes.

    ** The program's parts

    - [src/src/config.rs], [main.rs], [vault.rs]: settings from a file, the
      environment and a secret vault; start-up.
    - [src/src/db.rs]: the users and their fast verifiers, in an embedded
      database.
    - [src/src/api.rs]: the management API and the hooks that authenticate a
      connection and check its subscriptions and publishes; it reads and
      writes the user store, keeps two caches and sends updates to the peers.
    - [src/src/fanout.rs]: subscriptions made on behalf of a client.
    - [src/src/msgstore.rs]: the offline messages.
    - [src/src/bin]: two load generators that run against a cluster, [perf.rs]
      for throughput and latency and [perf_resources.rs] for the processor and
      memory use of the brokers. They create their users with the management
      API, connect as MQTT clients and write tables and charts.
    - [src/fuzz]: two fuzz targets.
    - [src/vendor/rmqtt]: topics ([topic.rs]), the tree of subscribed filters
      ([trie.rs]), access rules ([acl.rs]), the router ([router.rs],
      [subscribe.rs]), retained messages ([retain.rs]), unacknowledged messages
      ([inflight.rs]), delivery queues ([queue.rs]), the hooks ([hook.rs]), the
      sessions ([session.rs]) and their registry ([shared.rs]), the handshakes
      ([v3.rs], [v5.rs]), delayed publishing ([delayed.rs]), the limits of
      a connection ([fitter.rs]) and the data they share ([types.rs]). It is
      built without the features [retain] and [delayed]: [Retain] and [Delayed]
      model code of the fork that ciqadamq leaves out ([ciqadamq_build] of
      [Session]).
    - [src/vendor/rmqtt-cluster-raft]: the replicated router ([router.rs],
      [message.rs]), the sessions of a cluster ([shared.rs], [handler.rs]) and
      the plugin that starts it ([lib.rs], [config.rs]).

    ** The files

    - [Prelude]: results, a state monad with its weakest preconditions, traces
      of effects ([emit], [emits]), machine integers, automation, shared
      lemmas. [Strs]: Rust's string functions on lists of bytes. [F64]: Rust's
      [f64], with parsing and printing, on the Standard Library's binary64.
    - [Topic] models [topic.rs] of the broker and [src/src/topic.rs], [Trie]
      the topic tree with its lazy iterator, [Types] the parts of [types.rs]
      the others use, [Acl] the access rules.
    - [Store]: the embedded database as an interface, with transactions.
    - [Config], [Db], [Vault], [Api], [Fanout], [MsgStore], [Main] model the
      files of [src/src] of the same name. [Access] and [Auth] hold the
      theorems on [Api]: what a user may do, and who is let in.
    - [Startup]: the order of [main]'s steps, with what can fail at each.
    - [LoadGen]: what the two load generators share; [Perf] and
      [PerfResources] model one each, [Charts] their drawings. [LoadAccess]
      puts them in front of [Api]. [Fuzz]: the fuzz targets.
    - [Router] models [router.rs] and the choice of [subscribe.rs],
      [ClusterRouter] the replicated router of rmqtt-cluster-raft, [Retain],
      [Inflight], [Queue], [Delayed] and [Fitter] the files of those names.
    - [Hooks] models [hook.rs]: the registered handlers, their order and what
      an event returns. [Session] models what a session does with a packet:
      publishing, subscribing, delivering, acknowledging, taking a session
      over, its last will and its time offline. It sees hooks, router and
      message manager through the interface [Broker]. [SessionLoop] puts these
      operations under the loops of [run_loop] and [run]: the life of a session
      from its first packet to its end, with the rest of the client's line as
      the interface [Connection]. [SessionAcl] puts the hooks of [Hooks] with
      the handlers of [Api] behind both interfaces.
    - [Shared] models [shared.rs]: which session is registered for a client,
      its subscriptions in the session and in the router, the channels of the
      sessions and the forwarding of a message into them. It sees the router
      through the class [RouterOps], whose instances are the node's own router
      and, in [Cluster], the replicated one. [Handshake] models
      the admission of a connection in [v3.rs] and [v5.rs], which kicks and
      replaces sessions in the registry. [Standalone] puts registry, router and
      message store behind [Broker]: a node on its own.
    - [Cluster] composes the registries of several nodes over one replicated
      log: the entry of a session wherever it is, forwarding to other nodes and
      what arrives there. [Plugin] models the search for a leader, the start of
      a cluster and its health.

    ** How code becomes definitions

    A struct is a [Record], an enum an [Inductive] type, a method a function
    of the state that returns its result and the new state; a definition has
    the name of the function it models where Rocq allows it. [Result] is
    [result], [?] is [let?]. A Rust hash map is a [gmap], and where the order
    of its iteration reaches a result the theorem holds for every order or
    speaks of the set of results. Integers are [Z] with their wrap-around or
    saturation written out where the code relies on it.

    Code outside the repository is an argument or an interface: redb
    ([KvTable] with [KvLaws]), bincode, argon2, HMAC and SHA-256, TOML, the
    HTTP client, the clock, random numbers, rust_box's deque map ([DequeMap]
    with [DequeMapLaws]), the futures channel, the compression libraries. What
    a theorem needs of them is a hypothesis or a law of the interface, and the
    witnesses instantiate it. In [Api] the outside world is a record [World]
    that says what happens at every tick, so that a theorem for all worlds
    holds under any timing and any failure of the storage. [Startup] has such
    a record [Machine], the load generators [Host], [Round] and [Lab]: the
    answers of the database, the sockets, the brokers, docker and the disk,
    and the clock readings. Their programs are traces of actions ([M (list _)])
    with early returns [try!]; an error ends them as [Failed], a panic of the
    main task as [Panicked]. An MQTT connection is the list of what its event
    loop delivers, with instants. Tasks that are awaited together are run in
    the order they are awaited in.

    ** What the theorems show

    - Who is let in ([Auth]): after any sequence of connections, API calls,
      sweeps and synchronisations a connection is let in only with credentials
      that argon2 has verified or that came with the creation of the user; a
      deleted user stays out until a request, a synchronisation or a lookup that
      was under way stores it again; a request without a valid token changes nothing;
      creation, replication and the token refresh do what they report. That a
      replicated password change keeps the old verifier is proved as well.
    - What a user may do ([Access], [Fanout], [Acl]): an ordinary user sees
      only topics with its own userid and the shared prefixes, and publishes
      only to the configured topics; automatic subscriptions pass the same
      check; rules are evaluated first match first, and a rule that is written
      as documented is read back.
    - The user store refines a map of records and a map of verifiers ([Db]).
    - Offline messages ([MsgStore]): an invariant of all executions, eviction
      within the bounds, delivery of exactly the pending messages and of each
      at most once per client, also across orderly restarts; after flushes that
      all succeeded reopening restores the store; ids are distinct for node ids
      below 2^16.
    - Matching ([Topic], [Trie]): the matchers decide an inductive definition
      of MQTT's matching, the tree refines a map from filters to sets, and its
      iterator yields exactly the matching filters.
    - Routing ([Router]): the router refines a map from filter and client to
      subscriptions; a published message reaches exactly the clients it should,
      and one member of every shared group.
    - The cluster ([ClusterRouter]): nodes that applied the same log route
      alike whatever their clocks; the handshake lock excludes; late messages
      of a session that was taken over change nothing; a snapshot restored
      elsewhere gives the same subscriptions and sessions.
    - Sessions of the cluster ([Cluster], [Plugin]): a message published on one
      node reaches a client of another as soon as the publisher's node has
      applied the subscription and while no later entry of the log takes it back; a session that moves to another node takes its
      state with it when its old node answers, and what happens when it does
      not; the node that is to lead never joins itself; the health report names
      a running cluster exactly when the nodes agree on one leader.
    - Delivery ([Inflight], [Queue]): fresh packet ids, windows within their
      bounds, counters that count, no value left in a queue without a token,
      first in first out.
    - Hooks and sessions ([Hooks], [Session], [SessionLoop], [SessionAcl]): once started the
      hooks return what the application decided, before that they accept
      everything; nothing is published or subscribed that the hooks refuse; an
      ordinary session hands on only the configured topics over its whole life,
      but its last will takes any topic; every packet gets the answer MQTT
      wants, but for a PUBREC with an error code; a live message is sent once and
      kept until it is acknowledged, an expired one is dropped; the keep-alive timer measures silence exactly; when the last will
      is sent, and when it is lost; a session is terminated once, unless it is
      taken over; a session that is taken over hands all its messages on, the
      unacknowledged ones in reverse and without those that wait for a PUBCOMP;
      a repeated QoS 2 publish is forwarded before its packet id is refused.
    - The registry ([Shared], [Handshake], [Standalone]): the router has exactly
      the subscriptions of the registered sessions after any sequence of
      operations, and those left over by sessions that were kicked to be
      resumed and have no successor yet; a message reaches every session that
      wants it, and a failed copy does not keep the others from theirs; a
      connection gets in by the checks on its own client id, and a refused
      one disturbs nobody unless the refusal comes after the kick; a session
      that takes over gets everything the old one had, if the handshake
      succeeds to its end; a subscription replays the stored messages, also
      those the client has received.
    - Retained messages ([Retain]): the tree refines a map with deadlines, and a
      filter finds exactly the live messages that match, each once. Delayed
      publishing ([Delayed]) and the limits of a connection ([Fitter]).
    - Start-up ([Main], [Config], [Startup]): joining a cluster ends after a
      bounded number of attempts, the precedence of the settings, the peers;
      no listener is bound before the authentication hooks are registered,
      start-up ends with the first failure or serves, and a signal flushes the
      message store exactly when messages are persisted.
    - Load generators ([LoadGen], [Perf], [PerfResources], [LoadAccess]):
      settings that load are well formed; connecting ends after at most eight
      attempts; the publishers share all messages out; the wait for the
      deliveries ends and is complete when they keep coming; when the number
      waited for can be reached at all; percentiles index in bounds; every
      level is measured with as many clients as it says, and the publishing
      tasks stop with the measurement; docker's memory units; the tables are
      rectangular; no panic; the users that are created are deleted; and the
      broker accepts these users and grants their topics.
    - The assertion of the fuzz target holds for all inputs ([Fuzz]).

    ** Bounds and fuel

    Every definition is a total function. The tree's iterator recurses on the
    length of the topic ([iter_fuel]) and is asked at most once more than it has
    filters to yield ([visited], in [collect]); [drain_matches] and
    [collect_spec] show that this is enough; the loops of [choice], [to_inflight_messages] and the eviction run
    over the list they consume, [next_id] over its 65535 rounds, [join_cluster]
    over its configured retries and [catch_up] over its thirty rounds. The wait
    of [Perf] has a fuel of 3602 rounds ([wait_fuel]): its rounds are fifty
    milliseconds apart and it gives up after three minutes, and
    [wait_terminates] shows that this is enough. The search for a leader runs
    over its rounds, at most 150 questions ([never_joins_itself]), a proposal
    over the attempts of its backoff. A session resends its timed out messages
    in as many rounds as it has messages, and one more ([resend_enough]); its
    loops run over the events they wake up for. [connect_loop] runs over its
    eight attempts, [show_hex] over the bits of its number; [show] of [F64]
    tries one to seventeen digits, which determine every binary64 number.

    ** What is not modelled

    Sockets, the MQTT codec, statistics and the end-to-end tests. A call over
    gRPC is a step that can fail, its batches and encoding are left out; the raft
    library is what it promises, one log of which every node applies a prefix
    ([Raft] of [Cluster]), without elections. Of [session.rs] the accessors of
    the session's stored data and the text of its reasons are left out, and the
    queue of a session is what its services answer. Of the
    load generators the bound of 32 concurrent connections, the outcome of
    tasks nobody awaits and the exhaustion of memory are left out. Handlers run
    to completion one after the other, except where [Router] splits an
    operation at the lock it gives up, [Auth] a lookup of a user at its read of
    the database, and [Shared] a handshake at its waits. *)

From stdpp Require Export base list option gmap strings.
From Stdlib Require Export ZArith Lia.
From Stdlib Require Import Ascii.

(** ** Results: Rust's [Result<T, E>] *)

Inductive result (E A : Type) : Type :=
| Ok (a : A)
| Err (e : E).
Arguments Ok {E A} a.
Arguments Err {E A} e.

#[export] Instance result_eq_dec {E A} `{EqDecision E, EqDecision A} : EqDecision (result E A).
Proof. solve_decision. Defined.

Declare Scope ciqada_scope.
Delimit Scope ciqada_scope with ciqada.

Definition result_bind {E A B} (r : result E A) (f : A -> result E B) : result E B :=
  match r with
  | Ok a => f a
  | Err e => Err e
  end.

(** [let? x := r in k] is Rust's [let x = r?; k]. *)
Notation "'let?' x ':=' r 'in' k" := (result_bind r (fun x => k))
  (at level 10, x pattern, r at level 100, k at level 200) : ciqada_scope.
Open Scope ciqada_scope.

(** State passing: a computation over a state [S]; [let! x := m in k] runs [m]
    and then [k] in the state [m] leaves. *)
Definition M (S A : Type) : Type := S -> A * S.

Definition ret {S A} (a : A) : M S A := fun s => (a, s).

Definition bind {S A B} (m : M S A) (k : A -> M S B) : M S B :=
  fun s => let '(a, s') := m s in k a s'.

Notation "'let!' x ':=' m 'in' k" := (bind m (fun x => k))
  (at level 10, x pattern, m at level 100, k at level 200) : ciqada_scope.

(** [wp m Q s]: running [m] from [s] ends in a result and a state satisfying
    [Q]; every computation of [M] ends. *)
Definition wp {S A} (m : M S A) (Q : A -> S -> Prop) (s : S) : Prop :=
  let '(a, s') := m s in Q a s'.

(** [try! x := m in k]: [m?] where [m] has effects; an error ends the run. *)
Definition and_then {S E A B} (m : M S (result E A)) (k : A -> M S (result E B)) : M S (result E B) :=
  let! r := m in
  match r with Ok a => k a | Err e => ret (Err e) end.

Notation "'try!' x ':=' m 'in' k" := (and_then m (fun x => k))
  (at level 10, x pattern, m at level 100, k at level 200) : ciqada_scope.

(** A computation that keeps a trace of its effects: [emit x] adds one. *)
Definition emit {X} (x : X) : M (list X) unit := fun tr => (tt, tr ++ [x]).

Definition is_ok {E A} (r : result E A) : bool :=
  match r with Ok _ => true | Err _ => false end.

Definition result_map {E A B} (f : A -> B) (r : result E A) : result E B :=
  match r with Ok a => Ok (f a) | Err e => Err e end.

Definition ok_of {E A} (r : result E A) : option A :=
  match r with Ok a => Some a | Err _ => None end.

(** [Iterator::collect::<Result<Vec<_>, E>>()]: the first error wins. *)
Fixpoint collect_results {E A} (rs : list (result E A)) : result E (list A) :=
  match rs with
  | [] => Ok []
  | r :: rs' => let? x := r in let? xs := collect_results rs' in Ok (x :: xs)
  end.

Definition is_none {A} (o : option A) : bool :=
  match o with None => true | Some _ => false end.

Definition isSome {A} (o : option A) : bool := negb (is_none o).

(** [Option::or] / [or_else] with a pure alternative. *)
Definition or_else {A} (o o' : option A) : option A :=
  match o with Some a => Some a | None => o' end.

(** [Iterator::position]. *)
Fixpoint position {A} (p : A -> bool) (l : list A) : option nat :=
  match l with
  | [] => None
  | x :: l' => if p x then Some 0 else S <$> position p l'
  end.

(** ** Machine integers *)

Local Open Scope Z_scope.

Definition u8_max : Z := 255.
Definition u16_max : Z := 65535.
Definition u64_modulus : Z := 2 ^ 64.
Definition usize_max : Z := 2 ^ 64 - 1.
Definition i64_max : Z := 2 ^ 63 - 1.
Definition i64_min : Z := - 2 ^ 63.

Definition wrap_u64 (z : Z) : Z := z mod u64_modulus.
Definition wrap_u16 (z : Z) : Z := z mod 65536.

(** [as i64] on a 64-bit (or wider) value: two's complement. *)
Definition as_i64 (z : Z) : Z :=
  let m := z mod u64_modulus in if m <=? i64_max then m else m - u64_modulus.

Definition usize_sat_add (a b : Z) : Z := Z.min usize_max (a + b).
Definition usize_sat_sub (a b : Z) : Z := Z.max 0 (a - b).
Definition i64_sat_add (a b : Z) : Z := Z.max i64_min (Z.min i64_max (a + b)).

Local Close Scope Z_scope.

(** ** Automation *)

Create HintDb ciqada discriminated.

(** Case analysis on the scrutinee of a [match] or [if] of the goal or of a
    hypothesis, remembering the equation. *)
Ltac case_goal :=
  match goal with
  | |- context [match ?x with _ => _ end] => destruct x eqn:?
  end.

Ltac case_hyp H :=
  match type of H with
  | context [match ?x with _ => _ end] => destruct x eqn:?
  end.

Ltac bool_to_prop :=
  repeat match goal with
  | H : andb _ _ = true |- _ => apply andb_true_iff in H; destruct H
  | H : negb _ = true |- _ => apply negb_true_iff in H
  | H : negb _ = false |- _ => apply negb_false_iff in H
  | H : orb _ _ = false |- _ => apply orb_false_iff in H; destruct H
  | H : bool_decide _ = true |- _ => apply bool_decide_eq_true_1 in H
  | H : bool_decide _ = false |- _ => apply bool_decide_eq_false_1 in H
  end.

(** ** Lemmas on results, options and lists *)

Lemma collect_results_ok {E A} (rs : list (result E A)) xs :
  collect_results rs = Ok xs <-> Forall2 (fun r x => r = Ok x) rs xs.
Proof.
  revert xs. induction rs as [|r rs IH]; intros xs; simpl.
  - split; [intros [= <-]; constructor | intros H; by inversion H].
  - destruct r as [a|e]; simpl.
    + destruct (collect_results rs) as [ys|e] eqn:Hc; simpl; split; intros H.
      * injection H as <-. constructor; [reflexivity|]. by apply IH.
      * inversion H as [|? y ? ys' Hy Hys]; subst. injection Hy as ->.
        apply IH in Hys. by injection Hys as ->.
      * discriminate.
      * inversion H as [|? y ? ys' Hy Hys]; subst. apply IH in Hys. discriminate.
    + split; intros H; [discriminate|]. inversion H; discriminate.
Qed.

Lemma wp_ret {S A} (a : A) (Q : A -> S -> Prop) s : Q a s -> wp (ret a) Q s.
Proof. done. Qed.

Lemma wp_bind {S A B} (m : M S A) (k : A -> M S B) Q s :
  wp m (fun a s' => wp (k a) Q s') s -> wp (bind m k) Q s.
Proof. unfold wp, bind. by destruct (m s). Qed.

Lemma wp_mono {S A} (m : M S A) (Q Q' : A -> S -> Prop) s :
  wp m Q s -> (forall a s', Q a s' -> Q' a s') -> wp m Q' s.
Proof. unfold wp. destruct (m s). eauto. Qed.

Lemma wp_any {S A} (m : M S A) s : wp m (fun _ _ => True) s.
Proof. unfold wp. by destruct (m s). Qed.

Lemma wp_run {S A} (m : M S A) (Q : A -> S -> Prop) s : wp m Q s -> Q (fst (m s)) (snd (m s)).
Proof. unfold wp. by destruct (m s). Qed.

Lemma omap_app_list {A B} (f : A -> option B) l l' : omap f (l ++ l') = omap f l ++ omap f l'.
Proof. induction l as [|x l IH]; [done|]. cbn. rewrite IH. by destruct (f x). Qed.

(** *** The effects of a traced computation *)

Section emits.
Context {X B : Type} (f : X -> option B).

(** [m] has the effects [bs] among those [f] selects, whatever it returns. *)
Definition emits {A} (m : M (list X) A) (bs : list B) : Prop :=
  forall tr, wp m (fun _ tr' => omap f tr' = omap f tr ++ bs) tr.

Lemma emits_ret {A} (a : A) : emits (ret a) [].
Proof. intros tr. unfold wp, ret. by rewrite app_nil_r. Qed.

Lemma emits_act a : emits (emit a) (match f a with Some b => [b] | None => [] end).
Proof. intros tr. unfold wp, emit. by rewrite omap_app_list. Qed.

Lemma emits_omap a : emits (emit a) (omap f [a]).
Proof. pose proof (emits_act a) as H. cbn. by destruct (f a). Qed.

Lemma emits_none a : f a = None -> emits (emit a) [].
Proof. intros Ha. pose proof (emits_act a) as H. by rewrite Ha in H. Qed.

Lemma emits_bind {A C} (m : M (list X) A) (k : A -> M (list X) C) bs bs' :
  emits m bs -> (forall a, emits (k a) bs') -> emits (bind m k) (bs ++ bs').
Proof.
  intros Hm Hk tr. apply wp_bind. eapply wp_mono; [apply Hm|]. cbn. intros a tr1 H1.
  eapply wp_mono; [apply Hk|]. cbn. intros _ tr2 ->. by rewrite H1, app_assoc.
Qed.

Lemma emits_bind_nil {A C} (m : M (list X) A) (k : A -> M (list X) C) :
  emits m [] -> (forall a, emits (k a) []) -> emits (bind m k) [].
Proof. intros Hm Hk. change [] with (@nil B ++ []). by apply emits_bind. Qed.

Lemma emits_try {E A C} (m : M (list X) (result E A)) (k : A -> M (list X) (result E C)) :
  emits m [] -> (forall a, emits (k a) []) -> emits (and_then m k) [].
Proof. intros Hm Hk. apply emits_bind_nil; [done|]. intros [a|e]; [done | apply emits_ret]. Qed.

Lemma emits_then_ret {A C} (m : M (list X) A) (g : A -> C) bs : emits m bs -> emits (let! a := m in ret (g a)) bs.
Proof. intros Hm. rewrite <- (app_nil_r bs). apply emits_bind; [done|]. intros a. apply emits_ret. Qed.

End emits.

#[export] Hint Resolve emits_ret emits_none emits_bind_nil emits_try : ciqada.

Lemma position_None {A} (p : A -> bool) l :
  position p l = None <-> Forall (fun x => p x = false) l.
Proof.
  induction l as [|x l IH]; simpl.
  - split; [constructor | reflexivity].
  - destruct (p x) eqn:Hp; rewrite Forall_cons.
    + split; [discriminate | intros [? _]; congruence].
    + rewrite fmap_None, IH. naive_solver.
Qed.

Lemma position_Some {A} (p : A -> bool) l n :
  position p l = Some n -> exists x, l !! n = Some x /\ p x = true.
Proof.
  revert n. induction l as [|x l IH]; intros n; simpl; [discriminate|].
  destruct (p x) eqn:Hp.
  - intros [= <-]. eauto.
  - destruct (position p l) as [m|] eqn:Hm; simpl; [|discriminate].
    intros [= <-]. by apply IH.
Qed.

Lemma is_none_true {A} (o : option A) : is_none o = true <-> o = None.
Proof. destruct o; simpl; split; congruence. Qed.

Lemma isSome_true {A} (o : option A) : isSome o = true <-> is_Some o.
Proof. destruct o; unfold isSome, is_Some; simpl; split; [eauto | done | done | by intros [? [=]]]. Qed.

Lemma wrap_u64_small z : (0 <= z < u64_modulus)%Z -> wrap_u64 z = z.
Proof. intros H. unfold wrap_u64. by apply Z.mod_small. Qed.

Lemma as_i64_small z : (0 <= z <= i64_max)%Z -> as_i64 z = z.
Proof.
  unfold as_i64, i64_max, u64_modulus. intros H.
  rewrite Z.mod_small by lia. destruct (Z.leb_spec z (2 ^ 63 - 1)); lia.
Qed.
