(* ===== verification/Strs.v ===== *)
(** * Rust's [str] operations

    A [&str] or [String] is a [string] of bytes (one [ascii] per byte, UTF-8
    is not decoded: every separator, prefix and class the program tests is
    ASCII, and an ASCII byte never occurs inside a multi-byte character, so
    the bytewise functions agree with Rust's character functions there).
    The definitions follow the documentation of [core::str]; they are the
    standard library the modelled code calls. *)

From S2P Require Import Prelude.
From Stdlib Require Import Ascii.
From stdpp Require Import pretty.
Local Open Scope string_scope.
Local Open Scope list_scope.
#[global] Arguments String.append (_ _)%_string_scope : simpl nomatch.

(** [s.chars().any(p)] / [.all(p)] / [s.contains([c, ...])]. *)
Fixpoint any_char (p : ascii -> bool) (s : string) : bool :=
  match s with
  | EmptyString => false
  | String c s' => p c || any_char p s'
  end.

Definition all_chars (p : ascii -> bool) (s : string) : bool :=
  negb (any_char (fun c => negb (p c)) s).

Definition starts_with_char (c : ascii) (s : string) : bool :=
  match s with
  | String d _ => bool_decide (d = c)
  | EmptyString => false
  end.

Definition str_is_empty (s : string) : bool :=
  match s with EmptyString => true | _ => false end.

(** [s.split(c)]: never empty, [""] gives one empty piece. *)
Fixpoint split_on (c : ascii) (s : string) : list string :=
  match s with
  | EmptyString => [EmptyString]
  | String d s' =>
      if decide (d = c) then EmptyString :: split_on c s'
      else match split_on c s' with
           | w :: ws => String d w :: ws
           | [] => [String d EmptyString]
           end
  end.

(** [pieces.join(sep)]. *)
Fixpoint join (sep : string) (l : list string) : string :=
  match l with
  | [] => EmptyString
  | [w] => w
  | w :: ws => (w ++ sep ++ join sep ws)%string
  end.

(** [s.split_once(c)]. *)
Fixpoint split_once (c : ascii) (s : string) : option (string * string) :=
  match s with
  | EmptyString => None
  | String d s' =>
      if decide (d = c) then Some (EmptyString, s')
      else match split_once c s' with
           | Some (a, b) => Some (String d a, b)
           | None => None
           end
  end.

(** [s.splitn(n, c)]: at most [n] pieces, the last one is the rest. *)
Fixpoint splitn (n : nat) (c : ascii) (s : string) : list string :=
  match n with
  | 0 => []
  | S 0 => [s]
  | S n' => match split_once c s with
            | Some (a, b) => a :: splitn n' c b
            | None => [s]
            end
  end.

(** [s.strip_prefix(p)]. *)
Fixpoint strip_prefix (p s : string) : option string :=
  match p, s with
  | EmptyString, _ => Some s
  | String a p', String b s' => if decide (a = b) then strip_prefix p' s' else None
  | String _ _, EmptyString => None
  end.

Definition starts_with (p s : string) : bool := isSome (strip_prefix p s).

(** [s.contains(pat)] for a string pattern. *)
Fixpoint contains_str (pat s : string) : bool :=
  starts_with pat s ||
  match s with
  | EmptyString => false
  | String _ s' => contains_str pat s'
  end.

(** [s.replace(pat, rep)] for a non-empty pattern: [skip] counts the bytes of
    a match that are still to be dropped. *)
Fixpoint replace_go (pat rep s : string) (skip : nat) : string :=
  match s with
  | EmptyString => EmptyString
  | String c s' =>
      match skip with
      | S k => replace_go pat rep s' k
      | 0 => if starts_with pat s
             then (rep ++ replace_go pat rep s' (String.length pat - 1))%string
             else String c (replace_go pat rep s' 0)
      end
  end.

Definition replace (pat rep s : string) : string := replace_go pat rep s 0.

(** [s.trim_start_matches(pat)]: strips the prefix as often as it occurs;
    every strip of a non-empty pattern shortens the string, so its length is
    enough fuel. *)
Fixpoint trim_start_fuel (fuel : nat) (pat s : string) : string :=
  match fuel with
  | 0 => s
  | S fuel' => match strip_prefix pat s with
               | Some s' => trim_start_fuel fuel' pat s'
               | None => s
               end
  end.

Definition trim_start_matches (pat s : string) : string :=
  trim_start_fuel (String.length s) pat s.

(** [s.trim_end_matches(c)]. *)
Fixpoint trim_end_matches (c : ascii) (s : string) : string :=
  match s with
  | EmptyString => EmptyString
  | String d s' =>
      match trim_end_matches c s' with
      | EmptyString => if decide (d = c) then EmptyString else String d EmptyString
      | t => String d t
      end
  end.

(** Character classes of [char]. *)
Definition is_ascii_digit (c : ascii) : bool :=
  let n := N_of_ascii c in (48 <=? n)%N && (n <=? 57)%N.

Definition is_ascii_alphanumeric (c : ascii) : bool :=
  let n := N_of_ascii c in
  ((48 <=? n)%N && (n <=? 57)%N) || ((65 <=? n)%N && (n <=? 90)%N)
  || ((97 <=? n)%N && (n <=? 122)%N).

Definition is_ascii_graphic (c : ascii) : bool :=
  let n := N_of_ascii c in (33 <=? n)%N && (n <=? 126)%N.

Definition to_ascii_lowercase (c : ascii) : ascii :=
  let n := N_of_ascii c in
  if ((65 <=? n)%N && (n <=? 90)%N) then ascii_of_N (n + 32) else c.

Fixpoint str_lower (s : string) : string :=
  match s with
  | EmptyString => EmptyString
  | String c s' => String (to_ascii_lowercase c) (str_lower s')
  end.

(** [a.eq_ignore_ascii_case(b)]. *)
Definition eq_ignore_ascii_case (a b : string) : bool :=
  bool_decide (str_lower a = str_lower b).

(** [s.parse::<uN>()]: an optional [+], then at least one digit, no overflow
    above [max]. *)
Fixpoint digits_value (acc : Z) (max : Z) (s : string) : option Z :=
  match s with
  | EmptyString => Some acc
  | String c s' =>
      if is_ascii_digit c then
        let v := (acc * 10 + (Z.of_N (N_of_ascii c) - 48))%Z in
        if (v <=? max)%Z then digits_value v max s' else None
      else None
  end.

Definition parse_uint (max : Z) (s : string) : option Z :=
  let body := match s with
              | String "+" s' => s'
              | _ => s
              end in
  if str_is_empty body then None else digits_value 0 max body.

(** [format!("{n}")] of an unsigned integer. *)
Definition show_uint (n : Z) : string := pretty (Z.to_N n).

(** [&[u8]] of a string. *)
Fixpoint str_bytes (s : string) : list Z :=
  match s with
  | EmptyString => []
  | String c s' => Z.of_N (N_of_ascii c) :: str_bytes s'
  end.

(** [s.len()] in bytes. *)
Definition str_len (s : string) : Z := Z.of_nat (String.length s).

(** The order of [String]: bytewise lexicographic. *)
Definition str_leb (a b : string) : bool := String.leb a b.

(** [s.rsplit_once(c)]. *)
Fixpoint rsplit_once (c : ascii) (s : string) : option (string * string) :=
  match s with
  | EmptyString => None
  | String d s' =>
      match rsplit_once c s' with
      | Some (a, b) => Some (String d a, b)
      | None => if decide (d = c) then Some (EmptyString, s') else None
      end
  end.

(** [String::chars().rev()] on the bytes. *)
Fixpoint str_rev_onto (acc s : string) : string :=
  match s with
  | EmptyString => acc
  | String c s' => str_rev_onto (String c acc) s'
  end.

Definition str_rev (s : string) : string := str_rev_onto EmptyString s.

(** [s.strip_suffix(p)]. *)
Definition strip_suffix (p s : string) : option string :=
  str_rev <$> strip_prefix (str_rev p) (str_rev s).

(** The UTF-8 encodings of the characters of [char::is_whitespace]. *)
Definition byte_str (l : list nat) : string :=
  foldr (fun n s => String (ascii_of_nat n) s) EmptyString l.

Definition whitespace : list string :=
  map byte_str
    ([ [9]; [10]; [11]; [12]; [13]; [32]; [194; 133]; [194; 160]; [225; 154; 128] ]
     ++ map (fun n => [226; 128; n]) (seq 128 11)
     ++ [ [226; 128; 168]; [226; 128; 169]; [226; 128; 175]; [226; 129; 159]; [227; 128; 128] ]).

(** Drops whichever of [pats] the string starts with, as often as one does;
    every round shortens the string. *)
Fixpoint strip_any (pats : list string) (s : string) : option string :=
  match pats with
  | [] => None
  | p :: pats' => match strip_prefix p s with Some s' => Some s' | None => strip_any pats' s end
  end.

Fixpoint strip_all (fuel : nat) (pats : list string) (s : string) : string :=
  match fuel with
  | 0 => s
  | S fuel' => match strip_any pats s with Some s' => strip_all fuel' pats s' | None => s end
  end.

Definition trim_start (s : string) : string := strip_all (String.length s) whitespace s.

Definition trim_end (s : string) : string :=
  str_rev (strip_all (String.length s) (map str_rev whitespace) (str_rev s)).

(** [s.trim()]. *)
Definition trim (s : string) : string := trim_end (trim_start s).

Definition dquote : string := String (ascii_of_nat 34) "".
Definition newline : string := String (ascii_of_nat 10) "".

(** [s.lines()]: the pieces that end in a line feed, without it and without a
    carriage return before it, and what remains after the last one. *)
Fixpoint lines_of (pieces : list string) : list string :=
  match pieces with
  | [] => []
  | [w] => if str_is_empty w then [] else [w]
  | w :: ws => default w (strip_suffix (byte_str [13]) w) :: lines_of ws
  end.

Definition lines (s : string) : list string := lines_of (split_on (ascii_of_nat 10) s).

(** ['x'.repeat(n)] of a character. *)
Fixpoint repeat_char (c : ascii) (n : nat) : string :=
  match n with 0 => EmptyString | S n' => String c (repeat_char c n') end.

(** Raw strings with double quotes are written with apostrophes and converted. *)
Fixpoint dq (s : string) : string :=
  match s with
  | EmptyString => EmptyString
  | String c s' => String (if decide (c = "'"%char) then ascii_of_nat 34 else c) (dq s')
  end.

(** [format!("{n:x}")] of an unsigned integer, least significant digit first
    in the loop; a number below [16 ^ fuel] needs [fuel] rounds. *)
Definition hex_digit (n : Z) : ascii :=
  if (n <? 10)%Z then ascii_of_N (Z.to_N (48 + n)) else ascii_of_N (Z.to_N (87 + n)).

Fixpoint show_hex_go (fuel : nat) (n : Z) (acc : string) : string :=
  match fuel with
  | 0 => acc
  | S fuel' =>
      let acc' := String (hex_digit (n mod 16)) acc in
      if (n <? 16)%Z then acc' else show_hex_go fuel' (n / 16) acc'
  end.

Definition show_hex (n : Z) : string := show_hex_go (S (Z.to_nat (Z.log2 n))) n "".

(** [std::str::from_utf8(b).is_ok()]: the well-formed byte sequences of the
    Unicode standard. *)
Definition in_range (lo hi : N) (c : ascii) : bool :=
  let n := N_of_ascii c in (lo <=? n)%N && (n <=? hi)%N.

Definition utf8_cont (c : ascii) : bool := in_range 128 191 c.

Fixpoint utf8_valid (s : string) : bool :=
  match s with
  | EmptyString => true
  | String a s1 =>
      if in_range 0 127 a then utf8_valid s1 else
      match s1 with
      | EmptyString => false
      | String b s2 =>
          if in_range 194 223 a then utf8_cont b && utf8_valid s2 else
          match s2 with
          | EmptyString => false
          | String c s3 =>
              let second := if in_range 224 224 a then in_range 160 191 b
                            else if in_range 237 237 a then in_range 128 159 b
                            else in_range 225 239 a && utf8_cont b in
              if in_range 224 239 a then second && utf8_cont c && utf8_valid s3 else
              match s3 with
              | EmptyString => false
              | String d s4 =>
                  (if in_range 240 240 a then in_range 144 191 b
                   else if in_range 244 244 a then in_range 128 143 b
                   else in_range 241 243 a && utf8_cont b)
                  && utf8_cont c && utf8_cont d && utf8_valid s4
              end
          end
      end
  end.

(** [String::from_utf8_lossy]: every maximal ill-formed part becomes U+FFFD.
    [need] are the ranges of the bytes the sequence in [pend] still needs. *)
Definition replacement : string := byte_str [239; 191; 189].

Definition utf8_lead (c : ascii) : option (list (N * N)) :=
  if in_range 194 223 c then Some [(128, 191)%N]
  else if in_range 224 224 c then Some [(160, 191); (128, 191)]%N
  else if in_range 237 237 c then Some [(128, 159); (128, 191)]%N
  else if in_range 225 239 c then Some [(128, 191); (128, 191)]%N
  else if in_range 240 240 c then Some [(144, 191); (128, 191); (128, 191)]%N
  else if in_range 241 243 c then Some [(128, 191); (128, 191); (128, 191)]%N
  else if in_range 244 244 c then Some [(128, 143); (128, 191); (128, 191)]%N
  else None.

Fixpoint lossy_go (pend : string) (need : list (N * N)) (s : string) : string :=
  match s with
  | EmptyString => if str_is_empty pend then EmptyString else replacement
  | String c s' =>
      let start :=
        if in_range 0 127 c then String c (lossy_go EmptyString [] s')
        else match utf8_lead c with
             | Some need' => lossy_go (String c EmptyString) need' s'
             | None => (replacement ++ lossy_go EmptyString [] s')%string
             end in
      match need with
      | [] => start
      | (lo, hi) :: need' =>
          if in_range lo hi c then
            let pend' := (pend ++ String c EmptyString)%string in
            match need' with
            | [] => (pend' ++ lossy_go EmptyString [] s')%string
            | _ => lossy_go pend' need' s'
            end
          else (replacement ++ start)%string
      end
  end.

Definition from_utf8_lossy (s : string) : string := lossy_go EmptyString [] s.

(** ** Lemmas *)

Lemma append_nil_r s : (s ++ "")%string = s.
Proof. induction s as [|c s IH]; simpl; [done | by rewrite IH]. Qed.

Lemma append_assoc_str a b c : ((a ++ b) ++ c)%string = (a ++ b ++ c)%string.
Proof. induction a as [|x a IH]; simpl; [done | by rewrite IH]. Qed.

Lemma append_cancel_l a b c : (a ++ b)%string = (a ++ c)%string -> b = c.
Proof. induction a as [|x a IH]; simpl; [done |]. intros [= H]. by apply IH. Qed.

Lemma length_append_str a b :
  String.length (a ++ b)%string = String.length a + String.length b.
Proof. induction a as [|x a IH]; simpl; [done | by rewrite IH]. Qed.

Lemma split_on_nonempty c s : split_on c s <> [].
Proof.
  destruct s as [|d s]; simpl; [done|].
  case_decide; [done|]. by destruct (split_on c s).
Qed.

Lemma any_char_append p a b :
  any_char p (a ++ b)%string = any_char p a || any_char p b.
Proof. induction a as [|x a IH]; simpl; [done|]. by rewrite IH, orb_assoc. Qed.

(** No piece of a split contains the separator. *)
Lemma split_on_no_sep c s :
  Forall (fun w => any_char (fun d => bool_decide (d = c)) w = false) (split_on c s).
Proof.
  induction s as [|d s IH]; simpl; [by repeat constructor|].
  case_decide as Hd; [by constructor|].
  destruct (split_on c s) as [|w ws]; [by apply Forall_nil in IH as _; repeat constructor; simpl; rewrite bool_decide_eq_false_2|].
  inversion_clear IH as [|? ? Hw Hws]. constructor; [|done]. simpl.
  by rewrite bool_decide_eq_false_2.
Qed.

Lemma join_cons sep w ws :
  ws <> [] -> join sep (w :: ws) = (w ++ sep ++ join sep ws)%string.
Proof. by destruct ws. Qed.

(** Joining the pieces of a split restores the string. *)
Lemma join_split_on c s : join (String c "") (split_on c s) = s.
Proof.
  induction s as [|d s IH]; [done|]. cbn [split_on]. case_decide as Hd.
  - subst. rewrite join_cons by apply split_on_nonempty. simpl. by rewrite IH.
  - pose proof (split_on_nonempty c s) as Hne.
    destruct (split_on c s) as [|w ws]; [done|].
    destruct ws as [|w' ws]; simpl in *; by rewrite IH.
Qed.

Lemma split_on_app_sep c w s :
  any_char (fun d => bool_decide (d = c)) w = false ->
  split_on c (w ++ String c s)%string = w :: split_on c s.
Proof.
  induction w as [|d w IH]; simpl; intros Hw.
  - by rewrite decide_True.
  - apply orb_false_iff in Hw as [Hd Hw]. apply bool_decide_eq_false_1 in Hd.
    rewrite decide_False by done. by rewrite IH.
Qed.

Lemma split_once_app c w s :
  any_char (fun d => bool_decide (d = c)) w = false ->
  split_once c (w ++ String c s)%string = Some (w, s).
Proof.
  induction w as [|d w IH]; cbn; intros Hw; [by rewrite decide_True|].
  apply orb_false_iff in Hw as [Hd Hw]. apply bool_decide_eq_false_1 in Hd.
  by rewrite decide_False, IH.
Qed.

Lemma split_once_Some c s a b : split_once c s = Some (a, b) -> s = (a ++ String c b)%string.
Proof.
  revert a b. induction s as [|d s IH]; cbn; intros a b; [done|]. case_decide as Hd.
  - by intros [= <- <-]; subst.
  - destruct (split_once c s) as [[a' b']|]; [|done]. intros [= <- <-]. cbn. by rewrite (IH a' b').
Qed.

Lemma split_on_atom c w :
  any_char (fun d => bool_decide (d = c)) w = false -> split_on c w = [w].
Proof.
  induction w as [|d w IH]; simpl; intros Hw; [done|].
  apply orb_false_iff in Hw as [Hd Hw]. apply bool_decide_eq_false_1 in Hd.
  rewrite decide_False by done. by rewrite IH.
Qed.

(** Splitting a join of separator-free pieces restores the pieces. *)
Lemma split_on_join c ws :
  ws <> [] ->
  Forall (fun w => any_char (fun d => bool_decide (d = c)) w = false) ws ->
  split_on c (join (String c "") ws) = ws.
Proof.
  induction ws as [|w ws IH]; [done|]. intros _ Hws.
  apply Forall_cons in Hws as [Hw Hws].
  destruct ws as [|w' ws].
  - simpl. by apply split_on_atom.
  - rewrite join_cons by done.
    change (String c "" ++ join (String c "") (w' :: ws))%string
      with (String c (join (String c "") (w' :: ws))).
    rewrite split_on_app_sep by done. by rewrite IH.
Qed.

Lemma split_on_inj c s t : split_on c s = split_on c t -> s = t.
Proof. intros H. by rewrite <- (join_split_on c s), <- (join_split_on c t), H. Qed.

Lemma strip_prefix_Some p s s' :
  strip_prefix p s = Some s' <-> s = (p ++ s')%string.
Proof.
  revert s. induction p as [|a p IH]; intros s; simpl; [naive_solver|].
  destruct s as [|b s]; [naive_solver|].
  case_decide as Hab; subst.
  - rewrite IH. naive_solver.
  - naive_solver.
Qed.

Lemma all_chars_spec p s :
  all_chars p s = true <-> any_char (fun c => negb (p c)) s = false.
Proof. unfold all_chars. by rewrite negb_true_iff. Qed.

Lemma any_char_impl p q s :
  (forall c, p c = true -> q c = true) -> any_char p s = true -> any_char q s = true.
Proof.
  intros Himp. induction s as [|c s IH]; simpl; [done|].
  rewrite !orb_true_iff. naive_solver.
Qed.

Lemma any_char_false_impl p q s :
  (forall c, p c = true -> q c = true) -> any_char q s = false -> any_char p s = false.
Proof.
  intros Himp Hq. destruct (any_char p s) eqn:Hp; [|done].
  by rewrite (any_char_impl p q s Himp Hp) in Hq.
Qed.

Lemma all_chars_impl p q s : (forall c, p c = true -> q c = true) -> all_chars p s = true -> all_chars q s = true.
Proof.
  intros Himp. rewrite !all_chars_spec. apply any_char_false_impl. intros c Hc%negb_true_iff.
  apply negb_true_iff. destruct (p c) eqn:E; [|done]. by rewrite (Himp c E) in Hc.
Qed.

Lemma split_on_app c a b :
  split_on c (a ++ String c b)%string = split_on c a ++ split_on c b.
Proof.
  induction a as [|d a IH]; simpl.
  - by rewrite decide_True.
  - rewrite IH. case_decide; [done|].
    pose proof (split_on_nonempty c a). by destruct (split_on c a).
Qed.

(** A pattern whose first byte does not occur is not contained. *)
Lemma contains_str_absent c pat s :
  any_char (fun d => bool_decide (d = c)) s = false -> contains_str (String c pat) s = false.
Proof.
  induction s as [|d s IH]; [done|]. simpl. intros [Hd Hs]%orb_false_iff.
  apply bool_decide_eq_false_1 in Hd. rewrite IH by done. unfold starts_with. simpl.
  by rewrite decide_False by congruence.
Qed.

(** *** Numbers *)

Lemma pretty_char_digit x :
  (x < 10)%N ->
  is_ascii_digit (pretty_N_char x) = true /\ (N_of_ascii (pretty_N_char x) = x + 48)%N.
Proof.
  intros Hx.
  assert (x = 0 \/ x = 1 \/ x = 2 \/ x = 3 \/ x = 4 \/ x = 5 \/ x = 6 \/ x = 7 \/ x = 8 \/ x = 9)%N as H by lia.
  repeat destruct H as [->|H]; [..|subst x]; by split.
Qed.

Lemma pretty_go_value (max : Z) x s :
  (Z.of_N x <= max)%Z -> digits_value 0 max (pretty_N_go x s) = digits_value (Z.of_N x) max s.
Proof.
  revert s. induction (N.lt_wf_0 x) as [x _ IH]. intros s Hx.
  destruct (decide (x = 0)%N) as [->|H0]; [by rewrite pretty_N_go_0|].
  rewrite pretty_N_go_step by lia.
  pose proof (N.div_lt x 10 ltac:(lia) ltac:(lia)). pose proof (N.div_mod x 10 ltac:(lia)).
  pose proof (N.mod_lt x 10 ltac:(lia)) as Hm. rewrite IH by lia.
  cbn [digits_value]. destruct (pretty_char_digit (x mod 10) Hm) as [-> ->].
  replace (Z.of_N (x / 10) * 10 + (Z.of_N (x mod 10 + 48) - 48))%Z with (Z.of_N x) by lia.
  by destruct (Z.leb_spec (Z.of_N x) max); [|lia].
Qed.

Lemma pretty_go_digits x s :
  any_char (fun c => negb (is_ascii_digit c)) s = false ->
  any_char (fun c => negb (is_ascii_digit c)) (pretty_N_go x s) = false.
Proof.
  revert s. induction (N.lt_wf_0 x) as [x _ IH]. intros s Hs.
  destruct (decide (x = 0)%N) as [->|H0]; [by rewrite pretty_N_go_0|].
  rewrite pretty_N_go_step by lia. apply IH; [apply N.div_lt; lia|].
  cbn [any_char]. destruct (pretty_char_digit (x mod 10)) as [-> _]; [apply N.mod_lt; lia|]. done.
Qed.

(** A printed number consists of digits. *)
Lemma show_uint_digits n : all_chars is_ascii_digit (show_uint n) = true.
Proof.
  apply all_chars_spec. unfold show_uint, pretty, pretty_N. case_decide; [done|]. by apply pretty_go_digits.
Qed.

Lemma show_uint_no_char n c : is_ascii_digit c = false ->
  any_char (fun d => bool_decide (d = c)) (show_uint n) = false.
Proof.
  intros Hc. pose proof (show_uint_digits n) as H. apply all_chars_spec in H.
  apply (any_char_false_impl _ (fun c => negb (is_ascii_digit c))); [|done].
  intros d ->%bool_decide_eq_true. by rewrite Hc.
Qed.

(** Printing and parsing a number. *)
Lemma parse_show_uint max n : (0 <= n <= max)%Z -> parse_uint max (show_uint n) = Some n.
Proof.
  intros Hn. pose proof (show_uint_digits n) as Hd. apply all_chars_spec in Hd.
  assert (Hv : str_is_empty (show_uint n) = false /\ digits_value 0 max (show_uint n) = Some n).
  { unfold show_uint, pretty, pretty_N in *. case_decide as H0.
    - assert (n = 0)%Z as -> by lia. split; [done|]. change (digits_value 0 max "0") with (if (0 <=? max)%Z then Some 0%Z else None).
      destruct (Z.leb_spec 0 max); [done|lia].
    - rewrite pretty_go_value by lia. cbn [digits_value]. rewrite Z2N.id by lia. split; [|done].
      destruct (pretty_N_go _ _) eqn:E; [exfalso | done].
      apply (f_equal (digits_value 0 (Z.of_N (Z.to_N n)))) in E.
      rewrite pretty_go_value in E by lia. cbn in E. injection E as E. lia. }
  destruct Hv as [He Hv]. unfold parse_uint. destruct (show_uint n) as [|c s]; [done|].
  cbn [any_char] in Hd. apply orb_false_iff in Hd as [Hc%negb_false_iff _].
  assert (c <> "+"%char) as Hp by (by intros ->).
  replace (match String c s with String "+" s' => s' | _ => String c s end) with (String c s); [by rewrite He|].
  destruct c as [[] [] [] [] [] [] [] []]; done.
Qed.

(** *** Reversal, suffixes, prefixes *)

Lemma str_rev_onto_app acc a b : str_rev_onto acc (a ++ b)%string = str_rev_onto (str_rev_onto acc a) b.
Proof. revert acc. induction a as [|c a IH]; intros acc; [done|]. apply IH. Qed.

Lemma str_rev_onto_onto acc a b :
  str_rev_onto acc (str_rev_onto b a) = str_rev_onto (a ++ acc)%string b.
Proof.
  revert acc b. induction a as [|c a IH]; intros acc b; [done|]. cbn [str_rev_onto String.append]. by rewrite IH.
Qed.

Lemma str_rev_onto_nil a acc : str_rev_onto acc a = (str_rev a ++ acc)%string.
Proof.
  unfold str_rev. revert acc. induction a as [|c a IH]; intros acc; [done|]. cbn [str_rev_onto].
  rewrite (IH (String c acc)), (IH (String c "")), append_assoc_str. done.
Qed.

Lemma str_rev_involutive a : str_rev (str_rev a) = a.
Proof. unfold str_rev. rewrite str_rev_onto_onto. cbn. apply append_nil_r. Qed.

Lemma str_rev_app a b : str_rev (a ++ b)%string = (str_rev b ++ str_rev a)%string.
Proof. unfold str_rev at 1. rewrite str_rev_onto_app. apply str_rev_onto_nil. Qed.

Lemma strip_suffix_app p a : strip_suffix p (a ++ p)%string = Some a.
Proof.
  unfold strip_suffix. rewrite str_rev_app.
  rewrite (proj2 (strip_prefix_Some (str_rev p) _ (str_rev a)) eq_refl). cbn. by rewrite str_rev_involutive.
Qed.

(** A different last byte. *)
Lemma strip_suffix_last p c d a :
  c <> d -> strip_suffix (p ++ String c "")%string (a ++ String d "")%string = None.
Proof.
  intros Hne. unfold strip_suffix. rewrite !str_rev_app. change (str_rev (String ?x "")) with (String x "").
  cbn [String.append strip_prefix]. by rewrite decide_False.
Qed.

Lemma starts_with_same_length a b :
  String.length a = String.length b -> starts_with a b = bool_decide (a = b).
Proof.
  unfold starts_with. intros Hlen. destruct (strip_prefix a b) as [s|] eqn:E.
  - apply strip_prefix_Some in E. subst b. rewrite length_append_str in Hlen.
    destruct s; [|simpl in Hlen; lia]. rewrite append_nil_r. by rewrite bool_decide_eq_true_2.
  - symmetry. apply bool_decide_eq_false_2. intros ->.
    by rewrite (proj2 (strip_prefix_Some b b "") (eq_sym (append_nil_r b))) in E.
Qed.

(** *** Length and characters of printed numbers *)

Local Open Scope Z_scope.

Lemma all_chars_cons p c s : all_chars p (String c s) = p c && all_chars p s.
Proof. unfold all_chars. cbn [any_char]. by rewrite negb_orb, negb_involutive. Qed.

Lemma all_chars_app p a b : all_chars p (a ++ b)%string = all_chars p a && all_chars p b.
Proof. induction a as [|c a IH]; [done|]. cbn [String.append]. by rewrite !all_chars_cons, IH, andb_assoc. Qed.

Lemma str_len_app a b : str_len (a ++ b)%string = str_len a + str_len b.
Proof. unfold str_len. induction a as [|c a IH]; [done|]. cbn [String.append String.length]. lia. Qed.

Lemma hex_digit_word n : 0 <= n < 16 -> is_ascii_alphanumeric (hex_digit n) = true.
Proof.
  intros Hn. assert (In n (map Z.of_nat (seq 0 16))) as Hin.
  { apply in_map_iff. exists (Z.to_nat n). rewrite in_seq. lia. }
  cbn in Hin. repeat (destruct Hin as [<-|Hin]; [vm_compute; reflexivity|]). destruct Hin.
Qed.

(** At most [fuel] characters are put in front. *)
Lemma show_hex_go_word fuel n acc :
  0 <= n -> all_chars is_ascii_alphanumeric acc = true ->
  all_chars is_ascii_alphanumeric (show_hex_go fuel n acc) = true.
Proof.
  revert n acc. induction fuel as [|fuel IH]; intros n acc Hn Hacc; [done|].
  cbn [show_hex_go].
  assert (all_chars is_ascii_alphanumeric (String (hex_digit (n mod 16)) acc) = true) as Ha.
  { rewrite all_chars_cons, Hacc, hex_digit_word; [done|]. apply Z.mod_pos_bound. lia. }
  destruct (n <? 16); [done|]. apply IH; [|done]. apply Z.div_pos; lia.
Qed.

(** A number below [16 ^ k] has at most [k] digits. *)
Lemma show_hex_go_length fuel n acc k :
  (0 < k)%nat -> 0 <= n < 16 ^ Z.of_nat k ->
  (String.length (show_hex_go fuel n acc) <= k + String.length acc)%nat.
Proof.
  revert fuel n acc. induction k as [|k IH]; intros [|fuel] n acc Hk Hn; cbn [show_hex_go]; [lia..|].
  destruct (Z.ltb_spec n 16) as [H16|H16]; [cbn; lia|].
  destruct k as [|k]; [change (16 ^ Z.of_nat 1) with 16 in Hn; lia|].
  etransitivity; [apply IH|cbn; lia]; [lia|]. split; [apply Z.div_pos; lia|].
  apply Z.div_lt_upper_bound; [lia|]. rewrite <- Z.pow_succ_r by lia.
  replace (Z.succ (Z.of_nat (S k))) with (Z.of_nat (S (S k))) by lia. apply Hn.
Qed.

Lemma pretty_go_length x s k :
  (x < 10 ^ N.of_nat k)%N -> (String.length (pretty_N_go x s) <= k + String.length s)%nat.
Proof.
  revert x s. induction k as [|k IH]; intros x s Hx.
  - assert (x = 0)%N as -> by (cbn in Hx; lia). rewrite pretty_N_go_0. lia.
  - destruct (decide (x = 0)%N) as [->|H0]; [rewrite pretty_N_go_0; lia|].
    rewrite pretty_N_go_step by lia. etransitivity; [apply IH|cbn; lia].
    apply N.Div0.div_lt_upper_bound. rewrite <- N.pow_succ_r'. by rewrite <- Nnat.Nat2N.inj_succ.
Qed.

Lemma show_uint_length n k :
  (0 < k)%nat -> n < 10 ^ Z.of_nat k -> str_len (show_uint n) <= Z.of_nat k.
Proof.
  intros Hk Hn. unfold str_len, show_uint, pretty, pretty_N. case_decide; [cbn; lia|].
  apply (Nat2Z.inj_le _ k). etransitivity; [apply (pretty_go_length _ _ k)|cbn; lia].
  apply N2Z.inj_lt. rewrite N2Z.inj_pow, nat_N_Z. destruct (decide (0 <= n)); lia.
Qed.
