(* ===== verification/F64.v ===== *)
(** * [f64]: binary64 floating point

    The load generators compute with [f64] and print what they computed. The
    arithmetic is the Standard Library's executable specification of IEEE 754
    ([SpecFloat]) at 53 bits of precision; this file adds what Rust's [core]
    has on top of it: the [as] casts, [f64::max], decimal literals,
    [str::parse::<f64>], and the two ways [format!] prints a float, with a
    number of decimals ([{:.1}]) and the shortest digits that read back as the
    same float ([{}]). All of it evaluates, so that a chart can be computed.

    The lemmas bound the rounding error: an operation's result differs from
    the exact one by at most [2^-52] of it, which is enough to show that an
    index computed in floating point stays in its array. *)

From S2P Require Import Prelude Strs.
From Stdlib Require Import SpecFloat Ascii.
Local Open Scope string_scope.
Local Open Scope list_scope.
Local Open Scope Z_scope.

Abbreviation f64 := spec_float.

Definition prec : Z := 53.
Definition emax : Z := 1024.

Definition add (x y : f64) : f64 := SFadd prec emax x y.
Definition sub (x y : f64) : f64 := SFsub prec emax x y.
Definition mul (x y : f64) : f64 := SFmul prec emax x y.
Definition div (x y : f64) : f64 := SFdiv prec emax x y.
Definition ltb (x y : f64) : bool := SFltb x y.
Definition leb (x y : f64) : bool := SFleb x y.

(** [n as f64] for an integer: the nearest float, ties to even. *)
Definition of_Z (n : Z) : f64 := binary_normalize prec emax n 0 false.

Definition f_zero : f64 := S754_zero false.
Definition f_one : f64 := of_Z 1.

(** [x as usize] (or another unsigned type, with its [max]): rounds towards
    zero and saturates; NaN gives 0. *)
Definition to_uint (max : Z) (x : f64) : Z :=
  match x with
  | S754_finite false m e => Z.min max (if 0 <=? e then Z.pos m * 2 ^ e else Z.pos m / 2 ^ (- e))
  | S754_infinity false => max
  | _ => 0
  end.

(** [f64::max]: a NaN gives way to the other argument. *)
Definition fmax (x y : f64) : f64 :=
  match x, y with
  | S754_nan, _ => y
  | _, S754_nan => x
  | _, _ => if ltb x y then y else x
  end.

(** [Duration::as_secs_f64] of nanoseconds. *)
Definition as_secs_f64 (nanos : Z) : f64 :=
  add (of_Z (nanos / 10 ^ 9)) (div (of_Z (nanos mod 10 ^ 9)) (of_Z (10 ^ 9))).

(** [Iterator::sum] of floats: from negative zero. *)
Definition f_sum (l : list f64) : f64 := fold_left add l (S754_zero true).

(** ** Decimal input *)

(** The float nearest to [m * 10^e], ties to even: how a literal or a parsed
    number becomes a float. *)
Definition of_decimal (neg : bool) (m e : Z) : f64 :=
  if m =? 0 then S754_zero neg
  else if 0 <=? e then binary_round prec emax neg (Z.to_pos (m * 10 ^ e)) 0
  else
    let '(q, e', l) := SFdiv_core_binary prec emax m 0 (10 ^ (- e)) 0 in
    binary_round_aux prec emax neg q e' l.

(** A literal of the source with [d] decimals: [lit 105 2]
    is [1.05]. *)
Definition lit (m : Z) (d : Z) : f64 := of_decimal false m (- d).

(** The digits at the start of [s], as the value of [acc] followed by them,
    their number, and the rest. *)
Fixpoint take_digits (acc : Z) (n : Z) (s : string) : Z * Z * string :=
  match s with
  | String c s' =>
      if is_ascii_digit c
      then take_digits (acc * 10 + (Z.of_N (N_of_ascii c) - 48)) (n + 1) s'
      else (acc, n, s)
  | EmptyString => (acc, n, EmptyString)
  end.

Definition sign_of (s : string) : bool * string :=
  match s with
  | String "-" s' => (true, s')
  | String "+" s' => (false, s')
  | _ => (false, s)
  end.

(** The exponent [e5], [E-3], or nothing. *)
Definition parse_exponent (s : string) : option Z :=
  match s with
  | EmptyString => Some 0
  | String c s' =>
      if bool_decide (c = "e"%char) || bool_decide (c = "E"%char) then
        let '(neg, s1) := sign_of s' in
        let '(e, n, rest) := take_digits 0 0 s1 in
        if (n =? 0) || negb (str_is_empty rest) then None
        else Some (if neg : bool then - e else e)
      else None
  end.

(** [s.parse::<f64>()]: a sign, digits with an optional point among, before or
    after them, an optional exponent; or an infinity or NaN in any case. *)
Definition parse_f64 (s : string) : option f64 :=
  let '(neg, s1) := sign_of s in
  let '(m1, n1, s2) := take_digits 0 0 s1 in
  let '(m2, n2, s3) :=
    match s2 with
    | String "." s2' => let '(m, n, r) := take_digits m1 0 s2' in (m, n, r)
    | _ => (m1, 0, s2)
    end in
  if n1 + n2 =? 0 then
    let w := str_lower s1 in
    if bool_decide (w = "inf") || bool_decide (w = "infinity") then Some (S754_infinity neg)
    else if bool_decide (w = "nan") then Some S754_nan
    else None
  else e ← parse_exponent s3; Some (of_decimal neg m2 (e - n2)).

(** ** Decimal output *)

Definition sign_str (neg : bool) : string := if neg then "-" else "".

(** [n / 10^d] in decimal, with all [d] decimals. *)
Fixpoint decimals (d : nat) (n : Z) : string :=
  match d with
  | O => ""
  | S d' => (decimals d' (n / 10) ++ String (ascii_of_N (Z.to_N (48 + n mod 10))) "")%string
  end.

Definition show_scaled (d : nat) (n : Z) : string :=
  let whole := show_uint (n / 10 ^ Z.of_nat d) in
  match d with
  | O => whole
  | S _ => (whole ++ "." ++ decimals d n)%string
  end.

(** [n / k] rounded to the nearest integer, ties to even ([k] positive). *)
Definition div_even (n k : Z) : Z :=
  let q := n / k in
  match 2 * (n mod k) ?= k with
  | Lt => q
  | Gt => q + 1
  | Eq => if Z.even q then q else q + 1
  end.

(** [10^d * m * 2^e], rounded. *)
Definition scaled (d : nat) (m : positive) (e : Z) : Z :=
  let n := Z.pos m * 10 ^ Z.of_nat d in
  if 0 <=? e then n * 2 ^ e else div_even n (2 ^ (- e)).

(** [format!("{x:.d$}")]. *)
Definition show_fixed (d : nat) (x : f64) : string :=
  match x with
  | S754_nan => "NaN"
  | S754_infinity s => (sign_str s ++ "inf")%string
  | S754_zero s => (sign_str s ++ show_scaled d 0)%string
  | S754_finite s m e => (sign_str s ++ show_scaled d (scaled d m e))%string
  end.

(** The decimal exponent of [n / k >= 1]: the [p] with
    [10^p <= n / k < 10^(p+1)]. *)
Fixpoint ilog10_up (fuel : nat) (n k p : Z) : Z :=
  match fuel with
  | O => p
  | S fuel' => if n <? k * 10 ^ (p + 1) then p else ilog10_up fuel' n k (p + 1)
  end.

(** The same for [n / k < 1], from [p = -1] downwards. *)
Fixpoint ilog10_down (fuel : nat) (n k p : Z) : Z :=
  match fuel with
  | O => p
  | S fuel' => if k <=? n * 10 ^ (- p) then p else ilog10_down fuel' n k (p - 1)
  end.

Definition ilog10 (n k : Z) : Z :=
  let fuel := S (Z.to_nat (Z.log2 n + Z.log2 k)) in
  if k <=? n then ilog10_up fuel n k 0 else ilog10_down fuel n k (-1).

(** The value is [n / k]; a decimal reads back as the same float when it lies
    between [lo / k] and [hi / k] ([incl]: or on them). [shortest] looks for
    the least number of digits with such a decimal, trying the decimals just
    below and above the value; it returns digits and exponent. *)
Section shortest.
Context (n lo hi k : Z) (incl : bool).

Definition in_interval (a b : Z) : bool :=
  if incl then (lo * b <=? a * k) && (a * k <=? hi * b)
  else (lo * b <? a * k) && (a * k <? hi * b).

(** [d * 10^p] as a fraction. *)
Definition dec_num (d p : Z) : Z := if 0 <=? p then d * 10 ^ p else d.
Definition dec_den (p : Z) : Z := if 0 <=? p then 1 else 10 ^ (- p).

Fixpoint shortest (fuel : nat) (p : Z) : Z * Z :=
  let num := n * dec_den p in
  let den := k * dec_num 1 p in
  let d := num / den in
  let below := in_interval (dec_num d p) (dec_den p) in
  let above := in_interval (dec_num (d + 1) p) (dec_den p) in
  if below && above then (if 2 * (num mod den) <? den then (d, p) else (d + 1, p))
  else if below then (d, p)
  else if above then (d + 1, p)
  else match fuel with
       | O => (d, p)
       | S fuel' => shortest fuel' (p - 1)
       end.

End shortest.

Fixpoint drop_zeros (fuel : nat) (d p : Z) : Z * Z :=
  match fuel with
  | O => (d, p)
  | S fuel' => if (p <? 0) && (d mod 10 =? 0) then drop_zeros fuel' (d / 10) (p + 1) else (d, p)
  end.

(** The shortest digits of [m * 2^e]: the neighbours are half a unit in the
    last place away, below a power of two a quarter. *)
Definition shortest_digits (m : positive) (e : Z) : Z * Z :=
  let narrow := (Pos.eqb m (2 ^ 52)) && negb (e =? emin prec emax) in
  let below := if narrow then 1 else 2 in
  let a := 4 * Z.pos m in
  let up := if 0 <=? e then 2 ^ e else 1 in
  let k := 4 * (if 0 <=? e then 1 else 2 ^ (- e)) in
  let p := ilog10 (a * up) k in
  let '(d, q) := shortest (a * up) ((a - below) * up) ((a + 2) * up) k (Z.even (Z.pos m)) 17 p in
  drop_zeros 20 d q.

(** [format!("{x}")]. *)
Definition show (x : f64) : string :=
  match x with
  | S754_nan => "NaN"
  | S754_infinity s => (sign_str s ++ "inf")%string
  | S754_zero s => (sign_str s ++ "0")%string
  | S754_finite s m e =>
      let '(d, p) := shortest_digits m e in
      let body := if 0 <=? p then show_uint (d * 10 ^ p) else show_scaled (Z.to_nat (- p)) d in
      (sign_str s ++ body)%string
  end.

(** ** Rounding *)

(** The size of a mantissa in bits. *)
Definition bits (m : positive) : Z := Zpos (digits2_pos m).

Lemma bits_bounds m : 2 ^ (bits m - 1) <= Zpos m < 2 ^ bits m.
Proof.
  unfold bits. induction m as [m IH|m IH|]; cbn [digits2_pos]; [| | simpl; lia].
  all: rewrite Pos2Z.inj_succ.
  all: replace (Z.succ (Zpos (digits2_pos m)) - 1) with (Z.succ (Zpos (digits2_pos m) - 1)) by lia.
  all: rewrite !Z.pow_succ_r by lia; lia.
Qed.

Lemma bits_unique m d : 2 ^ (d - 1) <= Zpos m < 2 ^ d -> 1 <= d -> bits m = d.
Proof.
  intros [H1 H2] Hd. pose proof (bits_bounds m) as [B1 B2].
  assert (1 <= bits m) by (unfold bits; lia).
  destruct (Z.lt_trichotomy (bits m) d) as [L|[E|G]]; [|done|].
  - assert (2 ^ bits m <= 2 ^ (d - 1)) by (apply Z.pow_le_mono_r; lia). lia.
  - assert (2 ^ d <= 2 ^ (bits m - 1)) by (apply Z.pow_le_mono_r; lia). lia.
Qed.

(** [shr_record] [x] holds [m / 2^j], and its flags say whether the bits shifted
    out were all zero. *)
Definition shifted (m j : Z) (x : shr_record) : Prop :=
  exists f, 0 <= f < 2 ^ j /\ m = shr_m x * 2 ^ j + f
            /\ (f = 0 <-> shr_r x = false /\ shr_s x = false).

Lemma shifted_init m : shifted m 0 (shr_record_of_loc m loc_Exact).
Proof. exists 0. simpl. repeat split; try lia; tauto. Qed.

Lemma shifted_step m j x : 0 <= j -> 0 <= shr_m x -> shifted m j x -> shifted m (j + 1) (shr_1 x).
Proof.
  intros Hj Hx (f & Hf & Hm & Hz). destruct x as [q r s]; simpl in *.
  assert (P : 2 ^ (j + 1) = 2 * 2 ^ j) by (rewrite Z.pow_add_r by lia; lia).
  destruct q as [|[p|p|]|p]; try lia; simpl in *.
  - exists f. simpl. rewrite P. split; [lia|]. split; [lia|]. destruct r, s; simpl; naive_solver.
  - exists (2 ^ j + f). simpl. rewrite P. split; [lia|]. split; [lia|]. split; [lia | naive_solver].
  - exists f. simpl. rewrite P. split; [lia|]. split; [lia|]. destruct r, s; simpl; naive_solver.
  - exists (2 ^ j + f). simpl. rewrite P. split; [lia|]. split; [lia|]. split; [lia | naive_solver].
Qed.

Lemma iter_pos_shr m n x j :
  0 <= j -> 0 <= shr_m x -> shifted m j x ->
  0 <= shr_m (iter_pos shr_1 n x) /\ shifted m (j + Zpos n) (iter_pos shr_1 n x).
Proof.
  assert (Hnn : forall y, 0 <= shr_m y -> 0 <= shr_m (shr_1 y)).
  { intros [q r s]; simpl. destruct q as [|[?|?|]|?]; simpl; lia. }
  revert x j. induction n as [n IH|n IH|]; intros x j Hj Hx H; cbn [iter_pos].
  - destruct (IH (shr_1 x) (j + 1)) as [H1 H2]; [lia | auto | by apply shifted_step |].
    destruct (IH _ (j + 1 + Zpos n) ltac:(lia) H1 H2) as [H3 H4]. split; [done|].
    by replace (j + Zpos n~1) with (j + 1 + Zpos n + Zpos n) by lia.
  - destruct (IH x j) as [H1 H2]; [done..|].
    destruct (IH _ (j + Zpos n) ltac:(lia) H1 H2) as [H3 H4]. split; [done|].
    by replace (j + Zpos n~0) with (j + Zpos n + Zpos n) by lia.
  - split; [auto | by apply shifted_step].
Qed.

(** Rounding a record: the quotient or the next integer, and the quotient when
    nothing was shifted out. *)
Lemma round_nearest_even_cases q x :
  let r := round_nearest_even q (loc_of_shr_record x) in
  (r = q \/ r = q + 1) /\ (shr_r x = false /\ shr_s x = false -> r = q).
Proof.
  destruct x as [q' [] []]; simpl; (split; [|naive_solver]); try (destruct (Z.even q)); lia.
Qed.

Lemma shr_fexp_small m e l :
  fexp prec emax (bits m + e) <= e -> shr_fexp prec emax (Zpos m) e l = (shr_record_of_loc (Zpos m) l, e).
Proof.
  unfold shr_fexp, shr. cbn [Zdigits2]. fold (bits m). intros H.
  destruct (fexp prec emax (bits m + e) - e) eqn:E; [done | lia | done].
Qed.

(** A mantissa that fits is not rounded. *)
Lemma round_aux_exact s m e :
  fexp prec emax (bits m + e) <= e <= emax - prec ->
  binary_round_aux prec emax s (Zpos m) e loc_Exact = S754_finite s m e.
Proof.
  intros [H1 H2]. unfold binary_round_aux. rewrite shr_fexp_small by done. cbn -[Z.sub].
  rewrite shr_fexp_small by done. cbn -[Z.sub]. by destruct (Z.leb_spec e (emax - prec)); [|lia].
Qed.

(** What rounding [m * 2^e] gives in the normal range: a float that differs
    from it by at most [2^-52] of it, and not at all when the bits to be
    dropped are zero. *)
Definition rounds_to (s : bool) (m : positive) (e : Z) (x : f64) : Prop :=
  exists m' e', x = S754_finite s m' e' /\ e <= e'
    /\ Z.abs (Zpos m' * 2 ^ (e' - e) - Zpos m) * 2 ^ 52 <= Zpos m
    /\ (forall d, Zpos m = d * 2 ^ Z.max 0 (bits m - prec) -> Zpos m' * 2 ^ (e' - e) = Zpos m).

Lemma round_carry s q k e :
  bits q = prec -> 0 <= k -> emin prec emax <= e + k -> e + k + 1 <= emax - prec ->
  forall r, r = Zpos q \/ r = Zpos q + 1 ->
  exists m' e',
    (let '(x, e'') := shr_fexp prec emax r (e + k) loc_Exact in
     match shr_m x with
     | Z0 => S754_zero s
     | Zpos m => if e'' <=? emax - prec then S754_finite s m e'' else S754_infinity s
     | _ => S754_nan
     end) = S754_finite s m' e' /\ e + k <= e' /\ Zpos m' * 2 ^ (e' - (e + k)) = r.
Proof.
  intros Hq Hk Hlo Hhi r Hr. pose proof (bits_bounds q) as Bq. rewrite Hq in Bq.
  destruct (decide (r = 2 ^ prec)) as [->|Hne].
  - exists (2 ^ 52)%positive, (e + k + 1).
    unfold shr_fexp. replace (Zdigits2 (2 ^ prec)) with 54 by reflexivity.
    replace (fexp prec emax (54 + (e + k)) - (e + k)) with 1 by (unfold fexp, prec, emin in *; lia).
    change (shr (shr_record_of_loc (2 ^ prec) loc_Exact) (e + k) 1)
      with ({| shr_m := Zpos (2 ^ 52); shr_r := false; shr_s := false |}, e + k + 1).
    cbn [shr_m]. destruct (Z.leb_spec (e + k + 1) (emax - prec)); [|lia].
    split; [done|]. split; [lia|]. replace (e + k + 1 - (e + k)) with 1 by lia. reflexivity.
  - assert (exists p, r = Zpos p) as [p ->] by (exists (Z.to_pos r); lia).
    assert (bits p = prec) as Hp by (apply bits_unique; unfold prec in *; lia).
    exists p, (e + k). rewrite shr_fexp_small by (unfold fexp, emin in *; rewrite Hp; lia).
    cbn [shr_m shr_record_of_loc]. destruct (Z.leb_spec (e + k) (emax - prec)); [|lia].
    split; [done|]. split; [lia|]. rewrite Z.sub_diag. lia.
Qed.

Lemma round_aux_bound s m e :
  emin prec emax <= bits m + e - prec -> bits m + e + 1 <= emax -> e <= emax - prec ->
  rounds_to s m e (binary_round_aux prec emax s (Zpos m) e loc_Exact).
Proof.
  intros Hlo Hhi He. destruct (Z.le_gt_cases (bits m) prec) as [Hs|Hb].
  - exists m, e. rewrite round_aux_exact by (unfold fexp, emin in *; lia).
    rewrite Z.sub_diag. simpl. split; [done|]. split; [lia|]. split; lia.
  - set (k := bits m - prec). assert (exists n, k = Zpos n) as [n Hn] by (exists (Z.to_pos k); lia).
    unfold binary_round_aux, shr_fexp at 1. cbn [Zdigits2]. fold (bits m).
    replace (fexp prec emax (bits m + e) - e) with k by (unfold fexp; subst k; lia).
    rewrite Hn at 1. cbn [shr]. rewrite <- Hn.
    destruct (iter_pos_shr (Zpos m) n (shr_record_of_loc (Zpos m) loc_Exact) 0 ltac:(lia) ltac:(simpl; lia) (shifted_init _)) as [Hq0 Hsh].
    rewrite Z.add_0_l, <- Hn in Hsh. set (x := iter_pos shr_1 n _) in *.
    destruct Hsh as (f & Hf & Hm & Hz). pose proof (bits_bounds m) as [B1 B2].
    assert (2 ^ bits m = 2 ^ prec * 2 ^ k) by (rewrite <- Z.pow_add_r; unfold prec in *; subst k; f_equal; lia).
    assert (2 ^ (bits m - 1) = 2 ^ 52 * 2 ^ k) by (rewrite <- Z.pow_add_r; unfold prec in *; subst k; f_equal; lia).
    assert (0 < 2 ^ k) by (apply Z.pow_pos_nonneg; lia).
    assert (2 ^ 52 <= shr_m x < 2 ^ prec) as Hq by (split; nia).
    assert (exists q, shr_m x = Zpos q) as [q Eq] by (exists (Z.to_pos (shr_m x)); lia).
    destruct (round_nearest_even_cases (Zpos q) x) as [Hr Hex]. rewrite Eq in *.
    destruct (round_carry s q k e) with (r := round_nearest_even (Zpos q) (loc_of_shr_record x))
      as (m' & e' & -> & He' & Hv); try (subst k; unfold prec in *; lia); [apply bits_unique; unfold prec in *; lia |].
    exists m', e'. split; [done|]. split; [lia|].
    replace (e' - e) with (e' - (e + k) + k) by lia. rewrite Z.pow_add_r, Z.mul_assoc, Hv by lia.
    split.
    + destruct Hr as [-> | ->]; nia.
    + intros d. rewrite Z.max_r by lia. fold k. intros Hd.
      assert (f = (d - Zpos q) * 2 ^ k) as Ef by nia.
      assert (f = 0) as F0 by (destruct (Z.lt_trichotomy (d - Zpos q) 0) as [?|[?|?]]; nia).
      rewrite Hex by (by apply Hz). lia.
Qed.

Lemma bits_le m d : 0 <= d -> Zpos m < 2 ^ d -> bits m <= d.
Proof.
  intros Hd H. pose proof (bits_bounds m) as [B _]. destruct (Z.le_gt_cases (bits m) d); [done|].
  assert (2 ^ d <= 2 ^ (bits m - 1)) by (apply Z.pow_le_mono_r; lia). lia.
Qed.

Lemma iter_xO m d : Zpos (Pos.iter xO m d) = Zpos m * 2 ^ Zpos d.
Proof.
  induction d as [|d IH] using Pos.peano_ind; [simpl; lia|].
  rewrite Pos.iter_succ, Pos2Z.inj_succ, Z.pow_succ_r by lia. rewrite (Pos2Z.inj_xO (Pos.iter xO m d)), IH. lia.
Qed.

(** [x] is the integer [n], exactly. *)
Definition denotes (x : f64) (n : Z) : Prop :=
  exists m e, x = S754_finite false m e /\ -52 <= e /\ Zpos m * 2 ^ (e + 52) = n * 2 ^ 52.

(** Integers of up to 53 bits are floats. *)
Lemma of_Z_denotes n : 1 <= n < 2 ^ 53 -> denotes (of_Z n) n.
Proof.
  intros Hn. destruct n as [|n|n]; [lia | | lia].
  assert (bits n <= prec) as Hb by (apply bits_le; unfold prec; lia).
  assert (1 <= bits n) by (unfold bits; lia).
  unfold of_Z, binary_normalize, binary_round. fold (bits n). rewrite Z.add_0_r.
  replace (fexp prec emax (bits n)) with (bits n - prec) by (unfold fexp, emin, prec, emax in *; lia).
  unfold shl_align. destruct (bits n - prec - 0) as [|d|d] eqn:Ed; [| lia |].
  - rewrite round_aux_exact by (unfold fexp, emin, prec, emax in *; lia).
    exists n, 0. split; [done|]. split; [lia|]. unfold prec in *. by replace (0 + 52) with 52 by lia.
  - pose proof (iter_xO n d) as Hi. pose proof (bits_bounds n) as [B1 B2].
    assert (Hbi : bits (Pos.iter xO n d) = prec).
    { apply bits_unique; [|unfold prec; lia]. rewrite Hi.
      replace (prec - 1) with (bits n - 1 + Zpos d) by lia. replace prec with (bits n + Zpos d) by lia.
      rewrite !Z.pow_add_r by lia. assert (0 < 2 ^ Zpos d) by (apply Z.pow_pos_nonneg; lia). split; nia. }
    rewrite round_aux_exact by (rewrite Hbi; unfold fexp, emin, prec, emax in *; lia).
    exists (Pos.iter xO n d), (bits n - prec). split; [done|]. split; [unfold prec; lia|].
    rewrite Hi, <- Z.mul_assoc, <- Z.pow_add_r by (unfold prec in *; lia).
    f_equal. f_equal. unfold prec in *. lia.
Qed.

Lemma shl_align_min m e : -52 <= e ->
  Zpos (fst (shl_align m e (-52))) = Zpos m * 2 ^ (e + 52).
Proof.
  intros He. unfold shl_align. destruct (-52 - e) as [|d|d] eqn:Ed; [| lia |]; simpl fst.
  - replace (e + 52) with 0 by lia. lia.
  - rewrite iter_xO. do 2 f_equal. lia.
Qed.

(** [len as f64 - 1.0]. *)
Lemma sub_one_denotes n : 2 <= n < 2 ^ 53 -> denotes (sub (of_Z n) f_one) (n - 1).
Proof.
  intros Hn. destruct (of_Z_denotes n ltac:(lia)) as (m & e & -> & He & Hm).
  change f_one with (S754_finite false (2 ^ 52) (-52)). unfold sub, SFsub.
  rewrite Z.min_r by lia. cbn [cond_Zopp]. rewrite !shl_align_min, Hm by lia.
  change (Zpos (2 ^ 52) * 2 ^ (-52 + 52)) with (1 * 2 ^ 52). rewrite <- Z.mul_sub_distr_r.
  assert (exists q, (n - 1) * 2 ^ 52 = Zpos q) as [q Hq] by (exists (Z.to_pos ((n - 1) * 2 ^ 52)); lia).
  rewrite Hq. unfold binary_normalize, binary_round. fold (bits q).
  assert (bits q <= 105) by (apply bits_le; lia).
  assert (53 <= bits q) as Hb.
  { pose proof (bits_bounds q) as [_ B]. destruct (Z.le_gt_cases 53 (bits q)); [done|].
    assert (2 ^ bits q <= 2 ^ 52) by (apply Z.pow_le_mono_r; [lia | unfold bits in *; lia]). lia. }
  replace (shl_align q (-52) (fexp prec emax (bits q + -52))) with (q, -52).
  2:{ unfold shl_align, fexp, emin, prec, emax.
      destruct (Z.max (bits q + -52 - 53) (3 - 1024 - 53) - -52) eqn:E; [done | done | lia]. }
  destruct (round_aux_bound false q (-52)) as (m' & e' & -> & He' & _ & Hex); try (unfold emin, prec, emax; lia).
  exists m', e'. split; [done|]. split; [lia|]. rewrite Hq.
  replace (e' + 52) with (e' - -52) by lia. apply (Hex ((n - 1) * 2 ^ (105 - bits q))).
  rewrite <- Hq, <- Z.mul_assoc, <- Z.pow_add_r by (unfold prec; lia). do 2 f_equal. unfold prec. lia.
Qed.

(** The integer part of [n * p] for a [p] of the form [mp * 2^-53]: [N / 2^105]
    for an [N] close to the exact product. *)
Lemma mul_index max x n mp :
  denotes x n -> 1 <= n <= 2 ^ 52 -> Zpos mp < 2 ^ 53 ->
  exists N, to_uint max (mul x (S754_finite false mp (-53))) = Z.min max (N / 2 ^ 105)
    /\ Z.abs (N - n * 2 ^ 52 * Zpos mp) * 2 ^ 52 <= n * 2 ^ 52 * Zpos mp /\ 0 <= N.
Proof.
  intros (m & e & -> & He & Hm) Hn Hmp. unfold mul, SFmul. cbn [xorb].
  assert (0 < 2 ^ (e + 52)) as Hpow by (apply Z.pow_pos_nonneg; lia).
  assert (bits (m * mp) + (e + 52) <= 157) as Hbits.
  { pose proof (bits_bounds (m * mp)) as [B _]. assert (Zpos (m * mp) * 2 ^ (e + 52) < 2 ^ 157) as Hlt by nia.
    destruct (Z.le_gt_cases (bits (m * mp) + (e + 52)) 157); [done|].
    assert (2 ^ 157 <= 2 ^ (bits (m * mp) - 1) * 2 ^ (e + 52)); [|nia].
    rewrite <- Z.pow_add_r by (unfold bits in *; lia). apply Z.pow_le_mono_r; lia. }
  assert (1 <= bits (m * mp)) by (unfold bits; lia).
  destruct (round_aux_bound false (m * mp) (e + -53)) as (m' & e' & -> & He' & Hb & _);
    try (unfold emin, prec, emax; lia).
  assert (Zpos m' * 2 ^ (e' + 105) = Zpos m' * 2 ^ (e' - (e + -53)) * 2 ^ (e + 52)) as Hsc.
  { rewrite <- Z.mul_assoc, <- Z.pow_add_r by lia. do 2 f_equal. lia. }
  exists (Zpos m' * 2 ^ (e' + 105)). split; [|split].
  - unfold to_uint. f_equal. destruct (Z.leb_spec 0 e').
    + rewrite Z.pow_add_r, Z.mul_assoc, Z.div_mul by lia. done.
    + assert (2 ^ 105 = 2 ^ (- e') * 2 ^ (e' + 105)) as -> by (rewrite <- Z.pow_add_r by lia; f_equal; lia).
      rewrite Z.div_mul_cancel_r; [done | |]; apply Z.pow_nonzero; lia.
  - rewrite Hsc. replace (n * 2 ^ 52 * Zpos mp) with (Zpos (m * mp) * 2 ^ (e + 52)) by nia.
    rewrite <- Z.mul_sub_distr_r, Z.abs_mul, (Z.abs_eq (2 ^ (e + 52))) by lia.
    rewrite <- Z.mul_assoc, (Z.mul_comm (2 ^ (e + 52))), Z.mul_assoc. apply Z.mul_le_mono_nonneg_r; lia.
  - apply Z.mul_nonneg_nonneg; [lia|]. apply Z.pow_nonneg. lia.
Qed.

(** ** Printed floats *)

(** The characters a printed float consists of. *)
Definition float_char (c : ascii) : bool :=
  is_ascii_digit c || any_char (fun d => bool_decide (c = d)) "-.NaNinf".

Lemma all_chars_append p a b : all_chars p (a ++ b)%string = all_chars p a && all_chars p b.
Proof. unfold all_chars. by rewrite any_char_append, negb_orb. Qed.

Lemma show_uint_float n : all_chars float_char (show_uint n) = true.
Proof. apply (all_chars_impl is_ascii_digit); [unfold float_char; by intros c -> | apply show_uint_digits]. Qed.

Lemma digit_float n : 0 <= n < 10 -> float_char (ascii_of_N (Z.to_N (48 + n))) = true.
Proof.
  intros Hn. assert (Forall (fun k => float_char (ascii_of_N (Z.to_N (48 + k))) = true) (map Z.of_nat (seq 0 10))) as H
    by (by repeat constructor).
  rewrite Forall_forall in H. apply H, list_elem_of_fmap. exists (Z.to_nat n). split; [lia|]. apply elem_of_seq. lia.
Qed.

Lemma decimals_float d n : all_chars float_char (decimals d n) = true.
Proof.
  revert n. induction d as [|d IH]; intros n; [done|]. cbn [decimals]. rewrite all_chars_append, IH.
  unfold all_chars. cbn [any_char]. rewrite digit_float; [done|]. apply Z.mod_pos_bound. lia.
Qed.

Lemma show_scaled_float d n : all_chars float_char (show_scaled d n) = true.
Proof.
  unfold show_scaled. destruct d; [apply show_uint_float|].
  by rewrite !all_chars_append, show_uint_float, decimals_float.
Qed.

Lemma show_fixed_float d x : all_chars float_char (show_fixed d x) = true.
Proof.
  destruct x as [s|s| |s m e]; cbn [show_fixed]; [| |done|].
  all: rewrite ?all_chars_append, ?show_scaled_float; by destruct s.
Qed.

(** A character that floats are not printed with does not occur. *)
Lemma float_char_absent c s : float_char c = false -> all_chars float_char s = true ->
  any_char (fun d => bool_decide (d = c)) s = false.
Proof.
  intros Hc Hs%all_chars_spec. apply (any_char_false_impl _ (fun c => negb (float_char c))); [|done].
  intros d ->%bool_decide_eq_true. by rewrite Hc.
Qed.
