(* ===== verification/Charts.v ===== *)
(** * The charts of the load generators

    [render_svg] of [src/bin/perf.rs] and [render_panels] of
    [src/bin/perf_resources.rs] draw the same page, panels of line charts over
    the numbers of subscribers; they differ in where the legend stands. The
    coordinates are computed and printed in floating point, operation by
    operation as in the code. *)

From Stdlib Require Import Ascii.
From S2P Require Import Prelude Strs F64.
Local Open Scope string_scope.
Local Open Scope list_scope.
Local Open Scope Z_scope.

(** A line of a panel: label, colour, values. *)
Record Series : Type := mkSeries { label : string; color : string; vals : list f64 }.

Record Panel : Type := mkPanel { title : string; series : list Series }.

Definition cat (l : list string) : string := foldr String.append "" l.

Definition format_tick (v : f64) : string :=
  if leb (of_Z 10000) v then (show_fixed 0 (div v (of_Z 1000)) ++ "k")%string
  else if leb (of_Z 100) v then show_fixed 0 v
  else show_fixed 1 v.

(** The page: its size, the margins, the gap between panels. *)
Definition w : f64 := of_Z 860.
Definition panel_h : f64 := of_Z 300.
Definition ml : f64 := of_Z 80.
Definition mr : f64 := of_Z 30.
Definition mt : f64 := of_Z 40.
Definition gap : f64 := of_Z 70.
Definition plot_w : f64 := sub (sub w ml) mr.
Definition plot_h : f64 := sub (sub panel_h mt) (of_Z 30).

(** [vals.fold(1.0, f64::max)]. *)
Definition max_from_one (l : list f64) : f64 := fold_left fmax l f_one.

Section page.
Context (lx : f64).          (* the x coordinate of the legend *)
Context (xs : list f64).

Definition x_max : f64 := mul (max_from_one xs) (lit 105 2).
Definition x_pos (v : f64) : f64 := add ml (mul (div v x_max) plot_w).

Definition top (panel_idx : nat) : f64 :=
  add mt (mul (of_Z (Z.of_nat panel_idx)) (sub (add panel_h gap) mt)).
Definition bottom (panel_idx : nat) : f64 := add (top panel_idx) plot_h.

Definition y_max (p : Panel) : f64 := mul (max_from_one (concat (map vals (series p)))) (lit 11 1).
Definition y_pos (idx : nat) (p : Panel) (v : f64) : f64 :=
  sub (bottom idx) (mul (div v (y_max p)) plot_h).

Definition axes (idx : nat) (p : Panel) : string :=
  let t := show (top idx) in
  let b := show (bottom idx) in
  cat [ dq "<text x='"; show ml; dq "' y='"; show (sub (top idx) (of_Z 12));
        dq "' font-size='14' font-weight='bold'>"; title p; "</text>";
        dq "<line x1='"; show ml; dq "' y1='"; b; dq "' x2='"; show (add ml plot_w); dq "' y2='"; b;
        dq "' stroke='black'/>";
        dq "<line x1='"; show ml; dq "' y1='"; t; dq "' x2='"; show ml; dq "' y2='"; b;
        dq "' stroke='black'/>" ].

Definition y_tick (idx : nat) (p : Panel) (t : nat) : string :=
  let yv := mul (div (y_max p) (of_Z 5)) (of_Z (Z.of_nat t)) in
  let y := y_pos idx p yv in
  cat [ dq "<line x1='"; show ml; dq "' y1='"; show y; dq "' x2='"; show (add ml plot_w); dq "' y2='"; show y;
        dq "' stroke='lightgray'/>";
        dq "<text x='"; show (sub ml (of_Z 6)); dq "' y='"; show (add y (of_Z 4)); dq "' text-anchor='end'>";
        format_tick yv; "</text>" ].

Definition x_tick (idx : nat) (x : f64) : string :=
  cat [ dq "<text x='"; show (x_pos x); dq "' y='"; show (add (bottom idx) (of_Z 18));
        dq "' text-anchor='middle'>"; show x; "</text>" ].

Definition x_title (idx : nat) : string :=
  cat [ dq "<text x='"; show (add ml (div plot_w (of_Z 2))); dq "' y='"; show (add (bottom idx) (of_Z 36));
        dq "' text-anchor='middle'>subscribers</text>" ].

Definition circle (idx : nat) (p : Panel) (s : Series) (xv : f64 * f64) : string :=
  cat [ dq "<circle cx='"; show_fixed 1 (x_pos (fst xv)); dq "' cy='"; show_fixed 1 (y_pos idx p (snd xv));
        dq "' r='3.5' fill='"; color s; dq "'/>" ].

Definition point (idx : nat) (p : Panel) (xv : f64 * f64) : string :=
  (show_fixed 1 (x_pos (fst xv)) ++ "," ++ show_fixed 1 (y_pos idx p (snd xv)))%string.

Definition render_series (idx : nat) (p : Panel) (si : nat) (s : Series) : string :=
  let ly := add (add (top idx) (of_Z 16)) (mul (of_Z (Z.of_nat si)) (of_Z 18)) in
  cat ([ dq "<polyline points='"; join " " (map (point idx p) (zip xs (vals s)));
         dq "' fill='none' stroke='"; color s; dq "' stroke-width='2'/>" ]
       ++ map (circle idx p s) (zip xs (vals s))
       ++ [ dq "<rect x='"; show lx; dq "' y='"; show (sub ly (of_Z 10));
            dq "' width='12' height='12' fill='"; color s; dq "'/>";
            dq "<text x='"; show (add lx (of_Z 18)); dq "' y='"; show ly; dq "'>"; label s; "</text>" ]).

Definition render_panel (idx : nat) (p : Panel) : string :=
  cat ([ axes idx p ] ++ map (y_tick idx p) (seq 0 6) ++ map (x_tick idx) xs ++ [ x_title idx ]
       ++ imap (render_series idx p) (series p)).

(** The whole page. *)
Definition render (panels : list Panel) : string :=
  let h := add (mul panel_h (of_Z (Z.of_nat (length panels)))) (of_Z 60) in
  cat ([ dq "<svg xmlns='http://www.w3.org/2000/svg' width='"; show w; dq "' height='"; show h;
         dq "' viewBox='0 0 "; show w; " "; show h; dq "' font-family='monospace' font-size='12'>";
         dq "<rect width='"; show w; dq "' height='"; show h; dq "' fill='white'/>" ]
       ++ imap render_panel panels ++ [ "</svg>" ]).

End page.

(** ** Lemmas *)

(** The positions of the numbers of subscribers in the chart that is kept with
    the source ([perf-results.svg]). *)
Example committed_chart_ticks :
  map (fun n => show (x_pos (map of_Z [100; 500; 1000; 2500; 5000; 10000]) (of_Z n))) [100; 500; 1000; 2500; 5000; 10000]
  = ["87.14285714285714"; "115.71428571428572"; "151.42857142857144"; "258.57142857142856";
     "437.1428571428571"; "794.2857142857142"].
Proof. by vm_compute. Qed.

Lemma cat_app l l' : cat (l ++ l') = (cat l ++ cat l')%string.
Proof. induction l as [|x l IH]; [done|]. simpl. by rewrite IH, append_assoc_str. Qed.
