(* ===== verification/Topic.v ===== *)
(** * MQTT topics: [vendor/rmqtt/src/topic.rs] and [src/topic.rs]

    Levels and topics of the broker, their parser, printer, validity check
    and filter matching ([Level], [Topic], the [matches!] macro), and the
    application's own matcher [topic_matches] used by the message store.

    Section [Spec] states MQTT's filter matching once, as an inductive
    relation; both matchers are proved against it. *)

From S2P Require Import Prelude Strs.
From Stdlib Require Import Ascii.
Local Open Scope string_scope.
Local Open Scope list_scope.

(** ** Data *)

Inductive Level : Type :=
| Normal (s : string)
| Metadata (s : string)
| Blank
| SingleWildcard
| MultiWildcard.

Inductive TopicError : Type :=
| InvalidTopic (msg : string)
| InvalidLevel (msg : string).

(** [struct Topic(Vec<Level>)]. *)
Abbreviation Topic := (list Level).

#[export] Instance Level_eq_dec : EqDecision Level.
Proof. solve_decision. Defined.

#[export] Instance TopicError_eq_dec : EqDecision TopicError.
Proof. solve_decision. Defined.

#[export] Instance Level_countable : Countable Level.
Proof.
  refine (inj_countable'
    (fun l => match l with
              | Normal s => inl (inl s)
              | Metadata s => inl (inr s)
              | Blank => inr (inl tt)
              | SingleWildcard => inr (inr true)
              | MultiWildcard => inr (inr false)
              end)
    (fun x => match x with
              | inl (inl s) => Normal s
              | inl (inr s) => Metadata s
              | inr (inl _) => Blank
              | inr (inr true) => SingleWildcard
              | inr (inr false) => MultiWildcard
              end) _).
  by intros [].
Defined.

(** ** Operations on strings and levels *)

Definition is_metadata (s : string) : bool := starts_with_char "$" s.

(** [s.contains(['+', '#'])]. *)
Definition is_wild_char (c : ascii) : bool :=
  bool_decide (c = "+"%char) || bool_decide (c = "#"%char).
Definition contains_wild (s : string) : bool := any_char is_wild_char s.

Module Level.

Definition normal (s : string) : result TopicError Level :=
  if contains_wild s
  then Err (InvalidLevel ("invalid normal level `" ++ s ++ "` contains +|#"))
  else if starts_with_char "$" s
  then Err (InvalidLevel ("invalid normal level `" ++ s ++ "` starts with $"))
  else Ok (Normal s).

Definition metadata (s : string) : result TopicError Level :=
  if contains_wild s
  then Err (InvalidLevel ("invalid metadata level `" ++ s ++ "` contains +|#"))
  else if negb (starts_with_char "$" s)
  then Err (InvalidLevel ("invalid metadata level `" ++ s ++ "` not starts with $"))
  else Ok (Metadata s).

Definition value (l : Level) : option string :=
  match l with
  | Normal s | Metadata s => Some s
  | _ => None
  end.

Definition is_normal (l : Level) : bool :=
  match l with Normal _ => true | _ => false end.

Definition is_metadata (l : Level) : bool :=
  match l with Metadata _ => true | _ => false end.

Definition is_valid (l : Level) : bool :=
  match l with
  | Normal s => negb (starts_with_char "$" s) && negb (contains_wild s)
  | Metadata s => starts_with_char "$" s && negb (contains_wild s)
  | _ => true
  end.

(** [impl FromStr for Level]. *)
Definition from_str (s : string) : result TopicError Level :=
  if decide (s = "+") then Ok SingleWildcard
  else if decide (s = "#") then Ok MultiWildcard
  else if decide (s = "") then Ok Blank
  else if contains_wild s
  then Err (InvalidLevel ("invalid level `" ++ s ++ "` contains +|#"))
  else if Topic.is_metadata s then Ok (Metadata s)
  else Ok (Normal s).

(** [impl Display for Level]. *)
Definition to_string (l : Level) : string :=
  match l with
  | Normal s | Metadata s => s
  | Blank => ""
  | SingleWildcard => "+"
  | MultiWildcard => "#"
  end.

(** [impl MatchLevel for Level]: [match_level rhs level] is
    [rhs.match_level(&level)]. *)
Definition match_level (rhs level : Level) : bool :=
  match level with
  | Normal lhs => match rhs with Normal r => bool_decide (lhs = r) | _ => false end
  | Metadata lhs => match rhs with Metadata r => bool_decide (lhs = r) | _ => false end
  | Blank => true
  | SingleWildcard | MultiWildcard => negb (is_metadata rhs)
  end.

End Level.

(** [impl<T: AsRef<str>> MatchLevel for T]. *)
Definition str_match_level (rhs : string) (level : Level) : bool :=
  match level with
  | Normal lhs => negb (is_metadata rhs) && bool_decide (lhs = rhs)
  | Metadata lhs => is_metadata rhs && bool_decide (lhs = rhs)
  | Blank => str_is_empty rhs
  | SingleWildcard | MultiWildcard => negb (is_metadata rhs)
  end.

(** The [matches!] macro: [lhs] is the iterator over the filter's levels, the
    loop runs over the topic's levels; [matches_tail] is the code after the
    loop, which [break] also reaches. *)
Definition matches_tail (lhs : list Level) : bool :=
  match lhs with
  | MultiWildcard :: _ => true
  | _ :: _ => false
  | [] => true
  end.

Fixpoint matches_loop {R} (match_level : R -> Level -> bool)
    (lhs : list Level) (levels : list R) {struct levels} : bool :=
  match levels with
  | [] => matches_tail lhs
  | rhs :: levels' =>
      match lhs with
      | SingleWildcard :: lhs' =>
          if negb (match_level rhs SingleWildcard) then matches_tail lhs'
          else matches_loop match_level lhs' levels'
      | MultiWildcard :: _ => match_level rhs MultiWildcard
      | level :: lhs' =>
          if match_level rhs level then matches_loop match_level lhs' levels' else false
      | [] => false
      end
  end.

(** [Topic::is_valid]: no invalid level, no [#] before the end, no [$] level
    after the start. *)
Fixpoint misplaced (len pos : nat) (t : Topic) : bool :=
  match t with
  | [] => false
  | level :: t' =>
      match level with
      | MultiWildcard => negb (bool_decide (pos = len - 1))
      | Metadata _ => negb (bool_decide (pos = 0))
      | _ => false
      end || misplaced len (S pos) t'
  end.

Definition is_valid (t : Topic) : bool :=
  is_none (or_else (position (fun level => negb (Level.is_valid level)) t)
                   (if misplaced (length t) 0 t then Some 0 else None)).

Definition matches (self topic : Topic) : bool := matches_loop Level.match_level self topic.

Definition matches_str (self : Topic) (topic : string) : bool :=
  matches_loop str_match_level self (split_on "/" topic).

Definition to_string_skip (self : Topic) (skip : nat) : string :=
  join "/" (map Level.to_string (drop skip self)).

(** [impl FromStr for Topic]. *)
Definition from_str (s : string) : result TopicError Topic :=
  let? topic := collect_results (map Level.from_str (split_on "/" s)) in
  if is_valid topic then Ok topic
  else Err (InvalidTopic ("invalid topic `" ++ s ++ "`")).

(** [impl Display for Topic]: the loop with its [first] flag. *)
Fixpoint fmt_loop (first : bool) (t : Topic) : string :=
  match t with
  | [] => ""
  | level :: t' =>
      ((if first then "" else "/") ++ Level.to_string level ++ fmt_loop false t')%string
  end.

Definition to_string (t : Topic) : string := fmt_loop true t.

(** [WriteTopicExt] on a [Vec<u8>]: [write] appends everything and returns
    the number of bytes. *)
Definition write_level (out : string) (level : Level) : nat * string :=
  match level with
  | Normal s | Metadata s => (String.length s, out ++ s)%string
  | Blank => (0, out)
  | SingleWildcard => (1, out ++ "+")%string
  | MultiWildcard => (1, out ++ "#")%string
  end.

Fixpoint write_topic_loop (first : bool) (n : nat) (out : string) (t : Topic) : nat * string :=
  match t with
  | [] => (n, out)
  | level :: t' =>
      let '(n1, out1) := if first then (n, out) else (n + 1, out ++ "/")%string in
      let '(m, out2) := write_level out1 level in
      write_topic_loop false (n1 + m) out2 t'
  end.

Definition write_topic (out : string) (t : Topic) : nat * string :=
  write_topic_loop true 0 out t.

(** ** The application's matcher, [src/topic.rs] *)

Fixpoint topic_matches_loop (f t : list string) : bool :=
  match f with
  | fseg :: f' =>
      if decide (fseg = "#") then true
      else match t with
           | tseg :: t' =>
               if decide (fseg = "+") then topic_matches_loop f' t'
               else if decide (fseg = tseg) then topic_matches_loop f' t'
               else false
           | [] => false
           end
  | [] => match t with [] => true | _ => false end
  end.

Definition topic_matches (topic filter : string) : bool :=
  topic_matches_loop (split_on "/" filter) (split_on "/" topic).

(** [filter.bytes().any(|b| b == b'+' || b == b'#')]. *)
Definition has_wildcard (filter : string) : bool :=
  any_char (fun b => bool_decide (b = "+"%char) || bool_decide (b = "#"%char)) filter.

(** ** Specification: MQTT filter matching on the segments of a topic name *)

Definition is_wildcard (l : Level) : bool :=
  match l with SingleWildcard | MultiWildcard => true | _ => false end.

Inductive mqtt_match : Topic -> list string -> Prop :=
| mm_end : mqtt_match [] []
| mm_multi ts : mqtt_match [MultiWildcard] ts
| mm_single f t ts : mqtt_match f ts -> mqtt_match (SingleWildcard :: f) (t :: ts)
| mm_level l f ts :
    is_wildcard l = false -> mqtt_match f ts -> mqtt_match (l :: f) (Level.to_string l :: ts).

(** No segment of the topic starts with [$]. *)
Definition plain (s : string) : bool :=
  forallb (fun w => negb (is_metadata w)) (split_on "/" s).

(** The level is what the parser returns for its text. *)
Definition canonical (l : Level) : bool :=
  bool_decide (Level.from_str (Level.to_string l) = Ok l)
  && negb (any_char (fun d => bool_decide (d = "/"%char)) (Level.to_string l)).

(** ** Lemmas *)

Lemma level_from_str_inv s l :
  Level.from_str s = Ok l ->
  (s = "+" /\ l = SingleWildcard) \/ (s = "#" /\ l = MultiWildcard) \/ (s = "" /\ l = Blank)
  \/ (contains_wild s = false /\ s <> "" /\ is_metadata s = true /\ l = Metadata s)
  \/ (contains_wild s = false /\ s <> "" /\ is_metadata s = false /\ l = Normal s).
Proof.
  unfold Level.from_str. repeat case_decide; [naive_solver..|].
  destruct (contains_wild s) eqn:?; [done|].
  destruct (is_metadata s) eqn:?; intros [= <-]; naive_solver.
Qed.

(** A parsed level prints as its text. *)
Lemma level_to_string_from_str s l : Level.from_str s = Ok l -> Level.to_string l = s.
Proof. intros H. apply level_from_str_inv in H. naive_solver. Qed.

Lemma level_from_str_valid s l : Level.from_str s = Ok l -> Level.is_valid l = true.
Proof.
  intros H. apply level_from_str_inv in H. unfold is_metadata in H.
  destruct H as [[_ ->]|[[_ ->]|[[_ ->]|[(Hw&_&Hm&->)|(Hw&_&Hm&->)]]]]; simpl; try done;
    by rewrite Hw, Hm.
Qed.

Lemma levels_to_string ws t :
  Forall2 (fun r l => r = Ok l) (map Level.from_str ws) t -> map Level.to_string t = ws.
Proof.
  revert t. induction ws as [|w ws IH]; intros t H; inversion H; subst; simpl; [done|].
  f_equal; [by apply level_to_string_from_str | by apply IH].
Qed.

Lemma levels_from_str t :
  Forall (fun l => canonical l = true) t ->
  Forall2 (fun r l => r = Ok l) (map Level.from_str (map Level.to_string t)) t.
Proof.
  induction 1 as [|l t Hl Ht IH]; simpl; constructor; [|done].
  unfold canonical in Hl. by bool_to_prop.
Qed.

(** The printing loop is a join. *)
Lemma fmt_loop_join b t :
  fmt_loop b t = (if b then "" else match t with [] => "" | _ => "/" end)
                 +:+ join "/" (map Level.to_string t).
Proof.
  revert b. induction t as [|l t IH]; intros b; [by destruct b|].
  cbn [fmt_loop]. rewrite (IH false).
  destruct t as [|l' t]; destruct b; simpl; by rewrite ?append_nil_r.
Qed.

Lemma to_string_join t : to_string t = join "/" (map Level.to_string t).
Proof. unfold to_string. by rewrite fmt_loop_join. Qed.

Lemma levels_canonical ws t :
  Forall (fun w => any_char (fun d => bool_decide (d = "/"%char)) w = false) ws ->
  Forall2 (fun r l => r = Ok l) (map Level.from_str ws) t ->
  Forall (fun l => canonical l = true) t.
Proof.
  revert t. induction ws as [|w ws IH]; intros t Hws H;
    inversion H as [|? l ? t' Hl Ht]; subst; constructor;
    apply Forall_cons in Hws as [Hw Hws]; [|by apply IH].
  unfold canonical. rewrite (level_to_string_from_str _ _ Hl), Hl, Hw.
  by rewrite bool_decide_eq_true_2.
Qed.

Lemma from_str_inv s t :
  from_str s = Ok t ->
  is_valid t = true /\ Forall2 (fun r l => r = Ok l) (map Level.from_str (split_on "/" s)) t.
Proof.
  unfold from_str. destruct (collect_results _) as [t'|e] eqn:Hc; simpl; [|done].
  destruct (is_valid t') eqn:Hv; [|done]. intros [= ->].
  by apply collect_results_ok in Hc.
Qed.

Lemma from_str_levels s t : from_str s = Ok t -> map Level.to_string t = split_on "/" s.
Proof. intros [_ H]%from_str_inv. by apply levels_to_string. Qed.

Lemma from_str_print s t : from_str s = Ok t -> to_string t = s.
Proof. intros H. by rewrite to_string_join, (from_str_levels _ _ H), join_split_on. Qed.

Lemma from_str_canonical s t : from_str s = Ok t -> Forall (fun l => canonical l = true) t.
Proof. intros [_ H]%from_str_inv. eapply levels_canonical; [apply split_on_no_sep | done]. Qed.

Lemma from_str_nonempty s t : from_str s = Ok t -> t <> [].
Proof.
  intros H%from_str_levels ->. by apply (split_on_nonempty "/" s).
Qed.

Lemma is_valid_levels t : is_valid t = true -> Forall (fun l => Level.is_valid l = true) t.
Proof.
  unfold is_valid. destruct (position _ t) eqn:Hp; simpl; [done|]. intros _.
  apply position_None in Hp. eapply Forall_impl; [exact Hp|].
  intros l Hl. by apply negb_false_iff.
Qed.

Lemma is_valid_placed t : is_valid t = true -> misplaced (length t) 0 t = false.
Proof.
  unfold is_valid. destruct (position _ t); simpl; [done|].
  by destruct (misplaced _ _ _).
Qed.

Lemma is_valid_spec t :
  is_valid t = true <->
  Forall (fun l => Level.is_valid l = true) t /\ misplaced (length t) 0 t = false.
Proof.
  split; [intros H; split; [by apply is_valid_levels | by apply is_valid_placed]|].
  intros [Hl Hm]. unfold is_valid. rewrite Hm.
  replace (position _ t) with (@None nat); [done|]. symmetry. apply position_None.
  eapply Forall_impl; [exact Hl|]. intros l H. by apply negb_false_iff.
Qed.

(** What a misplacement scan that succeeds says about each level. *)
Lemma misplaced_lookup len pos t i l :
  misplaced len pos t = false -> t !! i = Some l ->
  (l = MultiWildcard -> pos + i = len - 1) /\ (Level.is_metadata l = true -> pos + i = 0).
Proof.
  revert pos i. induction t as [|x t IH]; intros pos i Hm Hi; [done|].
  simpl in Hm. apply orb_false_iff in Hm as [Hx Hm].
  destruct i as [|i]; simpl in Hi.
  - injection Hi as ->. destruct l; simpl; split; try done; intros _; bool_to_prop; lia.
  - destruct (IH (S pos) i Hm Hi). split; intros; [rewrite <- (Nat.add_succ_comm pos i) |
      rewrite <- (Nat.add_succ_comm pos i)]; auto.
Qed.

Lemma multi_is_last t : is_valid t = true ->
  forall pre post, t = pre ++ MultiWildcard :: post -> post = [].
Proof.
  intros Hv pre post ->. apply is_valid_placed in Hv.
  destruct (misplaced_lookup _ _ _ (length pre) MultiWildcard Hv) as [H _].
  { by apply list_lookup_middle. }
  specialize (H eq_refl). rewrite length_app in H. simpl in H.
  destruct post; [done|]. simpl in H. lia.
Qed.

(** In a canonical filter, [#] only at the end: the shape matching relies on. *)
Definition well_shaped (t : Topic) : Prop :=
  Forall (fun l => canonical l = true) t
  /\ forall pre post, t = pre ++ MultiWildcard :: post -> post = [].

Lemma from_str_well_shaped s t : from_str s = Ok t -> well_shaped t.
Proof.
  intros H. split; [by eapply from_str_canonical|].
  apply multi_is_last. by destruct (from_str_inv _ _ H).
Qed.

Lemma well_shaped_cons l t : well_shaped (l :: t) ->
  canonical l = true /\ well_shaped t /\ (l = MultiWildcard -> t = []).
Proof.
  intros [Hc Hm]. apply Forall_cons in Hc as [Hl Hc]. repeat split; [done|done| |].
  - intros pre post ->. by apply (Hm (l :: pre) post).
  - intros ->. by apply (Hm [] t).
Qed.

Lemma canonical_inv l : canonical l = true -> Level.from_str (Level.to_string l) = Ok l.
Proof. unfold canonical. intros H. by bool_to_prop. Qed.

(** A canonical ordinary level matches exactly the segment it prints as. *)
Lemma str_match_level_ordinary w l :
  canonical l = true -> is_wildcard l = false ->
  str_match_level w l = bool_decide (Level.to_string l = w).
Proof.
  intros Hc%canonical_inv%level_from_str_inv Hw.
  destruct l as [s|s| | |]; simpl in *; try done.
  - assert (is_metadata s = false) as Hm by naive_solver.
    case_bool_decide; subst; [by rewrite Hm | by rewrite andb_false_r].
  - assert (is_metadata s = true) as Hm by naive_solver.
    case_bool_decide; subst; [by rewrite Hm | by rewrite andb_false_r].
  - by destruct w.
Qed.

Lemma mqtt_match_single f w ws : mqtt_match (SingleWildcard :: f) (w :: ws) <-> mqtt_match f ws.
Proof. split; [intros H; inversion H; subst; done | by constructor]. Qed.

Lemma mqtt_match_ordinary l f w ws :
  is_wildcard l = false ->
  mqtt_match (l :: f) (w :: ws) <-> Level.to_string l = w /\ mqtt_match f ws.
Proof.
  intros Hl. split; [intros H; inversion H; subst; done|].
  intros [<- H]. by constructor.
Qed.

Lemma mqtt_match_nil_r l f : mqtt_match (l :: f) [] <-> l = MultiWildcard /\ f = [].
Proof. split; [intros H; inversion H; subst; done | intros [-> ->]; constructor]. Qed.

Lemma mqtt_match_nil_l ws : mqtt_match [] ws <-> ws = [].
Proof. split; [intros H; inversion H; subst; done | intros ->; constructor]. Qed.

Lemma matches_tail_spec f : well_shaped f -> matches_tail f = true <-> mqtt_match f [].
Proof.
  intros Hs. destruct f as [|l f]; simpl; [by rewrite mqtt_match_nil_l|].
  apply well_shaped_cons in Hs as (_ & _ & Hm). rewrite mqtt_match_nil_r.
  destruct l; naive_solver.
Qed.

(** The macro's loop decides [mqtt_match] away from [$] segments. *)
Lemma matches_loop_spec f ws :
  well_shaped f -> Forall (fun w => is_metadata w = false) ws ->
  matches_loop str_match_level f ws = true <-> mqtt_match f ws.
Proof.
  intros Hs Hws. revert f Hs. induction Hws as [|w ws Hw Hws IH]; intros f Hs.
  { by apply matches_tail_spec. }
  destruct f as [|l f]; [by rewrite mqtt_match_nil_l|].
  pose proof (well_shaped_cons _ _ Hs) as (Hc & Hf & Hm).
  destruct (is_wildcard l) eqn:Hl.
  - destruct l; try done; simpl; rewrite Hw; simpl.
    + by rewrite mqtt_match_single, IH.
    + rewrite (Hm eq_refl). split; [constructor | done].
  - transitivity ((if str_match_level w l then matches_loop str_match_level f ws else false) = true).
    { destruct l; done. }
    rewrite str_match_level_ordinary, mqtt_match_ordinary by done.
    case_bool_decide; [rewrite IH by done|]; naive_solver.
Qed.

(** The application's loop decides [mqtt_match] everywhere. *)
Lemma topic_matches_loop_spec f ws :
  well_shaped f ->
  topic_matches_loop (map Level.to_string f) ws = true <-> mqtt_match f ws.
Proof.
  revert ws. induction f as [|l f IH]; intros ws Hs.
  { rewrite mqtt_match_nil_l. by destruct ws. }
  pose proof (well_shaped_cons _ _ Hs) as (Hc & Hf & Hm). cbn [map topic_matches_loop].
  destruct (is_wildcard l) eqn:Hl.
  - destruct l; try done; simpl.
    + destruct ws as [|w ws]; [by rewrite mqtt_match_nil_r; naive_solver|].
      by rewrite mqtt_match_single, IH.
    + rewrite (Hm eq_refl). split; [constructor | done].
  - assert (Level.to_string l <> "#" /\ Level.to_string l <> "+") as [H1 H2].
    { apply canonical_inv, level_from_str_inv in Hc.
      split; intros Heq; rewrite Heq in Hc; naive_solver. }
    rewrite decide_False by done. destruct ws as [|w ws].
    + rewrite mqtt_match_nil_r. naive_solver.
    + rewrite decide_False, mqtt_match_ordinary by done.
      case_decide; [rewrite IH by done|]; naive_solver.
Qed.

Lemma plain_Forall s : plain s = true <-> Forall (fun w => is_metadata w = false) (split_on "/" s).
Proof.
  unfold plain. induction (split_on "/" s) as [|w ws IH]; simpl.
  - split; [constructor | done].
  - rewrite Forall_cons, andb_true_iff, negb_true_iff, IH. done.
Qed.

(** A filter without wildcard characters has no wildcard level. *)
Lemma has_wildcard_levels fs :
  has_wildcard fs = false ->
  Forall (fun w => w <> "+" /\ w <> "#") (split_on "/" fs).
Proof.
  intros H. apply Forall_forall. intros w Hw.
  assert (forall c, c <> "/"%char -> In w (split_on "/" fs) ->
            any_char (fun d => bool_decide (d = c)) fs = false ->
            any_char (fun d => bool_decide (d = c)) w = false) as Hin.
  { clear. intros c Hc. revert w. induction fs as [|d fs IH]; simpl; intros w Hw Hf.
    - destruct Hw as [<-|[]]. done.
    - apply orb_false_iff in Hf as [Hd Hf]. case_decide as Hs.
      + destruct Hw as [<-|Hw]; [done | by apply IH].
      + destruct (split_on "/" fs) as [|v vs]; [destruct Hw as [<-|[]]; simpl; by rewrite Hd|].
        destruct Hw as [<-|Hw]; [|apply IH; [by right | done]].
        simpl. rewrite Hd. apply IH; [by left | done]. }
  rewrite list_elem_of_In in Hw. unfold has_wildcard in H.
  split; intros ->.
  - assert (any_char (fun d => bool_decide (d = "+"%char)) fs = false) as Hp.
    { eapply any_char_false_impl, H. intros c Hc. cbv beta in *. by rewrite Hc. }
    by specialize (Hin "+"%char ltac:(done) Hw Hp).
  - assert (any_char (fun d => bool_decide (d = "#"%char)) fs = false) as Hp.
    { eapply any_char_false_impl, H. intros c Hc. cbv beta in *. by rewrite Hc, orb_true_r. }
    by specialize (Hin "#"%char ltac:(done) Hw Hp).
Qed.

Lemma topic_matches_loop_literal f ws :
  Forall (fun w => w <> "+" /\ w <> "#") f ->
  topic_matches_loop f ws = true <-> ws = f.
Proof.
  intros H. revert ws. induction H as [|w f [H1 H2] Hf IH]; intros ws; [by destruct ws|].
  simpl. rewrite decide_False by done. destruct ws as [|v ws]; [done|].
  rewrite decide_False by done. case_decide; [rewrite IH|]; naive_solver.
Qed.

Lemma write_level_spec out l :
  write_level out l = (String.length (Level.to_string l), out +:+ Level.to_string l).
Proof. destruct l; simpl; by rewrite ?append_nil_r. Qed.

Lemma write_topic_loop_spec b n out t :
  write_topic_loop b n out t = (n + String.length (fmt_loop b t), out +:+ fmt_loop b t).
Proof.
  revert b n out. induction t as [|l t IH]; intros b n out.
  { simpl. by rewrite append_nil_r, Nat.add_0_r. }
  cbn [write_topic_loop fmt_loop]. destruct b; rewrite write_level_spec, IH;
    rewrite !length_append_str, !append_assoc_str; f_equal; simpl; lia.
Qed.

#[export] Hint Resolve from_str_well_shaped from_str_canonical from_str_nonempty : ciqada.

(** ** Theorems *)

(** What [from_str] accepts: the well-formed topics that print as its input. *)
Definition well_formed (t : Topic) : Prop :=
  t <> [] /\ Forall (fun l => canonical l = true) t /\ is_valid t = true.

(** parsing and printing topics are inverse: [from_str s] yields [t]
    exactly when [t] is a well-formed topic printing as [s]. *)
Theorem from_str_to_string s t :
  from_str s = Ok t <-> well_formed t /\ to_string t = s.
Proof.
  split.
  - intros H. split; [|by apply from_str_print].
    split; [by eapply from_str_nonempty|]. split; [by eapply from_str_canonical|].
    by destruct (from_str_inv _ _ H).
  - intros [(Hne & Hc & Hv) <-]. unfold from_str. rewrite to_string_join, split_on_join.
    + apply levels_from_str, collect_results_ok in Hc. rewrite Hc. simpl. by rewrite Hv.
    + by destruct t.
    + apply Forall_map. eapply Forall_impl; [exact Hc|]. unfold canonical.
      intros l Hl. by bool_to_prop.
Qed.

(** C33: the broker's matcher decides MQTT filter matching for every filter it
    accepts and every topic without [$] segments. *)
Theorem matches_str_spec fs f s :
  from_str fs = Ok f -> plain s = true ->
  matches_str f s = true <-> mqtt_match f (split_on "/" s).
Proof.
  intros Hf Hp. apply matches_loop_spec; [eauto with ciqada | by apply plain_Forall].
Qed.

Lemma matches_str_spec_witness :
  (matches_str [SingleWildcard; Normal "u1"; MultiWildcard] "chat/u1/m" = true
   <-> mqtt_match [SingleWildcard; Normal "u1"; MultiWildcard] ["chat"; "u1"; "m"]).
Proof. apply (matches_str_spec "+/u1/#"); reflexivity. Defined.

(** the application's matcher decides MQTT filter matching for every
    filter the broker accepts, on every topic. *)
Theorem topic_matches_spec fs f s :
  from_str fs = Ok f -> topic_matches s fs = true <-> mqtt_match f (split_on "/" s).
Proof.
  intros Hf. unfold topic_matches. rewrite <- (from_str_levels _ _ Hf).
  apply topic_matches_loop_spec. eauto with ciqada.
Qed.

Lemma topic_matches_spec_witness :
  (topic_matches "chat/u1" "+/u1/#" = true
   <-> mqtt_match [SingleWildcard; Normal "u1"; MultiWildcard] ["chat"; "u1"]).
Proof. apply topic_matches_spec; reflexivity. Defined.

(** the two matchers agree on every filter the broker accepts and every
    topic without [$] segments. *)
Theorem matchers_agree fs f s :
  from_str fs = Ok f -> plain s = true -> topic_matches s fs = matches_str f s.
Proof.
  intros Hf Hp. apply eq_true_iff_eq.
  unfold topic_matches. rewrite <- (from_str_levels _ _ Hf).
  rewrite topic_matches_loop_spec by eauto with ciqada.
  symmetry. apply matches_loop_spec; [eauto with ciqada | by apply plain_Forall].
Qed.

Lemma matchers_agree_witness :
  topic_matches "fanout/all" "fanout/+" = matches_str [Normal "fanout"; SingleWildcard] "fanout/all".
Proof. apply matchers_agree; reflexivity. Defined.

(** a filter without wildcard characters matches exactly the topic equal
    to it, so the message store's exact lookup is the same as matching. *)
Theorem topic_matches_literal s fs :
  has_wildcard fs = false -> topic_matches s fs = true <-> s = fs.
Proof.
  intros H. unfold topic_matches. rewrite topic_matches_loop_literal by by apply has_wildcard_levels.
  split; [apply split_on_inj | by intros ->].
Qed.

Lemma topic_matches_literal_witness :
  has_wildcard "updates" = false /\ (topic_matches "updates" "updates" = true <-> "updates" = "updates").
Proof. split; [reflexivity | apply topic_matches_literal; reflexivity]. Defined.

(** the broker's matcher lets the one-level filter [+] match every topic
    whose name starts with [$], at any depth: the [break] taken on a [$]
    segment falls through to the end-of-filter test. *)
Theorem plus_matches_dollar_topics rest :
  matches_str [SingleWildcard] (String "$" rest) = true.
Proof.
  unfold matches_str. simpl. destruct (split_on "/" rest) as [|w ws]; reflexivity.
Qed.

(** [write_topic] appends the printed topic and returns its length. *)
Theorem write_topic_spec out t :
  write_topic out t = (String.length (to_string t), out +:+ to_string t).
Proof. unfold write_topic, to_string. by rewrite write_topic_loop_spec. Qed.

(** A [Blank] level matches every level of a parsed topic, but only the empty
    segment of a topic string. *)
Lemma blank_matches_any_level l : matches [Blank] [l] = true.
Proof. by destruct l. Qed.

Lemma blank_matches_empty_segment w :
  str_match_level w Blank = true <-> w = "".
Proof. destruct w; simpl; naive_solver. Qed.
