(* ===== verification/Trie.v ===== *)
(** * The subscription tree: [vendor/rmqtt/src/trie.rs]

    [Node] is the topic tree of the router, a set of values per filter.
    [MatchedIter] is the lazy depth-first iterator over the filters that match
    a topic, with its own mutable state; [next] takes one step of it.

    The file shows that the tree is a finite map from filters to value sets
    ([contents]), that [insert] and [remove] update that map at one filter and
    never leave an empty node behind, and that the iterator, run to its end
    ([collect]), yields exactly the filters that match, each once. *)

From S2P Require Import Prelude Strs Topic.
From Stdlib Require Import Ascii.
Local Open Scope string_scope.
Local Open Scope list_scope.

Module TopicTree.
Section node.
Context {V : Type} `{Countable V}.

(** ** The tree *)

Inductive Node : Type := mkNode {
  values : gset V;
  branches : gmap Level Node
}.

Definition node_default : Node := mkNode ∅ ∅.

(** [Node::_insert]: the source reverses the levels and pops them from the
    end, which visits them from the first to the last. *)
Fixpoint _insert (path : list Level) (value : V) (n : Node) : bool * Node :=
  match path with
  | first :: path' =>
      let child := default node_default (branches n !! first) in
      let '(res, child') := _insert path' value child in
      (res, mkNode (values n) (<[first := child']> (branches n)))
  | [] => (bool_decide (value ∉ values n), mkNode ({[value]} ∪ values n) (branches n))
  end.

Definition insert (topic_filter : Topic) (value : V) (n : Node) : bool * Node :=
  _insert topic_filter value n.

Definition node_is_empty (n : Node) : bool :=
  bool_decide (values n = ∅) && bool_decide (branches n = ∅).

(** [Node::_remove]: a child left without values and branches is dropped. *)
Fixpoint _remove (path : list Level) (value : V) (n : Node) : bool * Node :=
  match path with
  | [] => (bool_decide (value ∈ values n), mkNode (values n ∖ {[value]}) (branches n))
  | t :: path' =>
      match branches n !! t with
      | Some x =>
          let '(res, x') := _remove path' value x in
          (res, mkNode (values n)
                  (if node_is_empty x' then delete t (branches n)
                   else <[t := x']> (branches n)))
      | None => (false, n)
      end
  end.

Definition remove (topic_filter : Topic) (value : V) (n : Node) : bool * Node :=
  _remove topic_filter value n.

Fixpoint values_size (n : Node) : nat :=
  size (values n) + map_fold (fun _ c acc => values_size c + acc) 0 (branches n).

Fixpoint nodes_size (n : Node) : nat :=
  size (branches n) + map_fold (fun _ c acc => nodes_size c + acc) 0 (branches n).

(** ** The matching iterator *)

Definition Item : Type := list Level * gset V.

Inductive MatchedIter : Type := mkIter {
  it_node : Node;
  it_path : list Level;
  it_sub_path : option (list Level);
  it_curr_items : list Item;
  it_sub_iters : list MatchedIter
}.

Definition new_iter (n : Node) (path sub_path : list Level) : MatchedIter :=
  mkIter n path (Some sub_path) [] [].

(** [add_to_items]. *)
Definition add_to_items (levels : list Level) (v_set : gset V) (items : list Item) : list Item :=
  if decide (v_set = ∅) then items else items ++ [(levels, v_set)].

(** The two branches of [prepare] that look at the [#] child. *)
Definition add_multi (n : Node) (sub_path : list Level) (items : list Item) : list Item :=
  match branches n !! MultiWildcard with
  | Some b_node => add_to_items (sub_path ++ [MultiWildcard]) (values b_node) items
  | None => items
  end.

Definition contains_branch (n : Node) (l : Level) : bool := isSome (branches n !! l).

(** The guard of [prepare]: a first level starting with [$] is not matched by
    the wildcards of the root. *)
Definition skip_wildcards (n : Node) (sub_path : list Level) (first : Level) : bool :=
  (match sub_path with [] => true | _ => false end)
  && negb (bool_decide (first = Blank)) && Level.is_metadata first
  && (contains_branch n MultiWildcard || contains_branch n SingleWildcard).

(** [prepare]: fills [curr_items] and [sub_iters] and takes [sub_path]. *)
Definition prepare (it : MatchedIter) : option MatchedIter :=
  let n := it_node it in
  match it_sub_path it with
  | None => None
  | Some sub_path =>
      match it_path it with
      | [] =>
          let items := add_multi n sub_path (it_curr_items it) in
          Some (mkIter n [] None (add_to_items sub_path (values n) items) (it_sub_iters it))
      | first :: path' =>
          let '(items, subs) :=
            if skip_wildcards n sub_path first then (it_curr_items it, it_sub_iters it)
            else
              (add_multi n sub_path (it_curr_items it),
               match branches n !! SingleWildcard with
               | Some b_node =>
                   it_sub_iters it ++ [new_iter b_node path' (sub_path ++ [SingleWildcard])]
               | None => it_sub_iters it
               end) in
          let subs :=
            match branches n !! first with
            | Some b_node => subs ++ [new_iter b_node path' (sub_path ++ [first])]
            | None => subs
            end in
          Some (mkIter n (first :: path') None items subs)
      end
  end.

(** [Vec::pop]. *)
Definition pop_back {A} (l : list A) : option (A * list A) :=
  match reverse l with
  | [] => None
  | x :: r => Some (x, reverse r)
  end.

(** The [while] loop of [next_item]: the first sub-iterator is stepped until
    it is exhausted, then dropped. *)
Fixpoint step_subs (step : MatchedIter -> option Item * MatchedIter)
    (subs : list MatchedIter) : option Item * list MatchedIter :=
  match subs with
  | [] => (None, [])
  | s :: subs' =>
      match step s with
      | (Some item, s') => (Some item, s' :: subs')
      | (None, _) => step_subs step subs'
      end
  end.

Definition next_item (step : MatchedIter -> option Item * MatchedIter)
    (it : MatchedIter) : option Item * MatchedIter :=
  match pop_back (it_curr_items it) with
  | Some (item, rest) =>
      (Some item, mkIter (it_node it) (it_path it) (it_sub_path it) rest (it_sub_iters it))
  | None =>
      let '(res, subs) := step_subs step (it_sub_iters it) in
      (res, mkIter (it_node it) (it_path it) (it_sub_path it) (it_curr_items it) subs)
  end.

(** [Iterator::next]. The fuel bounds the nesting of sub-iterators, which is at
    most the number of levels left in the path. *)
Fixpoint next (fuel : nat) (it : MatchedIter) : option Item * MatchedIter :=
  match fuel with
  | 0 => (None, it)
  | S fuel' =>
      match next_item (next fuel') it with
      | (Some item, it') => (Some item, it')
      | (None, it') =>
          match prepare it' with
          | None => (None, it')
          | Some it'' => next_item (next fuel') it''
          end
      end
  end.

(** The loop over an iterator, for at most [count] rounds. *)
Fixpoint drain (count fuel : nat) (it : MatchedIter) : list Item :=
  match count with
  | 0 => []
  | S count' =>
      match next fuel it with
      | (Some item, it') => item :: drain count' fuel it'
      | (None, _) => []
      end
  end.

(** [Node::matches(topic).iter()] and [is_match]. *)
Definition matches_iter (n : Node) (topic : Topic) : MatchedIter := new_iter n topic [].

Definition iter_fuel (topic : Topic) : nat := S (length topic).

(** A bound on the items: the nodes that matching visits. *)
Fixpoint visited (topic : Topic) (n : Node) : nat :=
  match topic with
  | [] => 2
  | first :: topic' =>
      1 + match branches n !! SingleWildcard with Some c => visited topic' c | None => 0 end
      + match branches n !! first with Some c => visited topic' c | None => 0 end
  end.

(** [for item in node.matches(topic).iter()]: everything the iterator yields. *)
Definition collect (n : Node) (topic : Topic) : list Item :=
  drain (S (visited topic n)) (iter_fuel topic) (matches_iter n topic).

Definition first_match (n : Node) (topic : Topic) : option Item :=
  fst (next (iter_fuel topic) (matches_iter n topic)).

Definition is_match (n : Node) (topic : Topic) : bool := isSome (first_match n topic).

(** ** Specification *)

(** The subtree at a path, and the map from filters to value sets. *)
Fixpoint subtree (n : Node) (path : list Level) : option Node :=
  match path with
  | [] => Some n
  | l :: path' => c ← branches n !! l; subtree c path'
  end.

Definition contents (n : Node) (f : Topic) : gset V :=
  match subtree n f with Some c => values c | None => ∅ end.

(** Every node below the root holds a value or leads to one. *)
Definition pruned (n : Node) : Prop :=
  forall path c, path <> [] -> subtree n path = Some c -> node_is_empty c = false.

(** The matches of a node, as a list, in the iterator's order. *)
Definition own_items (sub_path : list Level) (v_set : gset V) : list Item :=
  if decide (v_set = ∅) then [] else [(sub_path, v_set)].

Definition child_values (n : Node) (l : Level) : gset V :=
  match branches n !! l with Some c => values c | None => ∅ end.

Definition is_root (sub_path : list Level) : bool :=
  match sub_path with [] => true | _ => false end.

Fixpoint matches_list (sub_path path : list Level) (n : Node) : list Item :=
  match path with
  | [] =>
      own_items sub_path (values n)
      ++ own_items (sub_path ++ [MultiWildcard]) (child_values n MultiWildcard)
  | first :: path' =>
      (if is_root sub_path && Level.is_metadata first then []
       else own_items (sub_path ++ [MultiWildcard]) (child_values n MultiWildcard)
            ++ match branches n !! SingleWildcard with
               | Some c => matches_list (sub_path ++ [SingleWildcard]) path' c
               | None => []
               end)
      ++ match branches n !! first with
         | Some c => matches_list (sub_path ++ [first]) path' c
         | None => []
         end
  end.

(** Filter matching on levels, with the isolation of [$] topics at the first
    level. *)
Fixpoint level_match (root : bool) (f p : list Level) {struct p} : bool :=
  match p with
  | [] => bool_decide (f = []) || bool_decide (f = [MultiWildcard])
  | l :: p' =>
      let wild := negb (root && Level.is_metadata l) in
      (wild && bool_decide (f = [MultiWildcard]))
      || match f with
         | [] => false
         | x :: f' =>
             ((wild && bool_decide (x = SingleWildcard)) || bool_decide (x = l))
             && level_match false f' p'
         end
  end.


(** ** Lemmas: the tree as a map *)

Lemma node_eq (n1 n2 : Node) :
  values n1 = values n2 -> branches n1 = branches n2 -> n1 = n2.
Proof. destruct n1, n2; simpl; congruence. Qed.

Lemma contents_nil n : contents n [] = values n.
Proof. done. Qed.

Lemma contents_cons n l f :
  contents n (l :: f) = match branches n !! l with Some c => contents c f | None => ∅ end.
Proof. unfold contents. simpl. by destruct (branches n !! l). Qed.

Lemma contents_default f : contents node_default f = ∅.
Proof. destruct f; [done|]. rewrite contents_cons. simpl. by rewrite lookup_empty. Qed.

Lemma contents_child n l f :
  contents (default node_default (branches n !! l)) f = contents n (l :: f).
Proof. rewrite contents_cons. destruct (branches n !! l); [done | apply contents_default]. Qed.

Lemma _insert_contents path v n f :
  contents (snd (_insert path v n)) f
  = if decide (f = path) then {[v]} ∪ contents n f else contents n f.
Proof.
  revert n f. induction path as [|l path IH]; intros n f; simpl.
  - destruct f as [|l f]; [by rewrite decide_True|]. by rewrite decide_False.
  - specialize (IH (default node_default (branches n !! l))).
    destruct (_insert path v _) as [res c] eqn:He. simpl in *.
    destruct f as [|l' f]; [by rewrite decide_False|].
    rewrite contents_cons. simpl. destruct (decide (l' = l)) as [->|Hne].
    + rewrite lookup_insert_eq, IH, contents_child.
      case_decide; case_decide; naive_solver.
    + rewrite lookup_insert_ne, decide_False by naive_solver. by rewrite contents_cons.
Qed.

Lemma _insert_result path v n :
  fst (_insert path v n) = bool_decide (v ∉ contents n path).
Proof.
  revert n. induction path as [|l path IH]; intros n; simpl; [done|].
  rewrite <- contents_child, <- IH. by destruct (_insert path v _).
Qed.

Lemma node_is_empty_true n : node_is_empty n = true <-> n = node_default.
Proof.
  unfold node_is_empty. rewrite andb_true_iff, !bool_decide_eq_true.
  split; [intros [? ?]; by apply node_eq | by intros ->].
Qed.

Lemma _remove_contents path v n f :
  contents (snd (_remove path v n)) f
  = if decide (f = path) then contents n f ∖ {[v]} else contents n f.
Proof.
  revert n f. induction path as [|l path IH]; intros n f; simpl.
  - destruct f as [|l f]; [by rewrite decide_True|]. by rewrite decide_False.
  - destruct (branches n !! l) as [x|] eqn:Hx; simpl.
    2:{ case_decide as Hf; [|done]. subst. rewrite contents_cons, Hx. set_solver. }
    specialize (IH x). destruct (_remove path v x) as [res x'] eqn:He. simpl in *.
    destruct f as [|l' f]; [by rewrite decide_False|].
    rewrite !contents_cons. simpl. destruct (decide (l' = l)) as [->|Hne].
    + rewrite Hx. destruct (node_is_empty x') eqn:Hemp.
      * rewrite lookup_delete_eq. apply node_is_empty_true in Hemp. subst x'.
        specialize (IH f). rewrite contents_default in IH.
        case_decide; case_decide; naive_solver.
      * rewrite lookup_insert_eq, IH. case_decide; case_decide; naive_solver.
    + rewrite decide_False by naive_solver.
      destruct (node_is_empty x'); [by rewrite lookup_delete_ne | by rewrite lookup_insert_ne].
Qed.

Lemma _remove_result path v n :
  fst (_remove path v n) = bool_decide (v ∈ contents n path).
Proof.
  revert n. induction path as [|l path IH]; intros n; simpl; [done|].
  rewrite contents_cons. destruct (branches n !! l) as [x|].
  - rewrite <- IH. by destruct (_remove path v x).
  - symmetry. apply bool_decide_eq_false. set_solver.
Qed.

(** ** Lemmas: pruning *)

Lemma pruned_alt n :
  pruned n <-> map_Forall (fun _ c => node_is_empty c = false /\ pruned c) (branches n).
Proof.
  unfold pruned. split.
  - intros Hp l c Hl. split.
    + apply (Hp [l]); [done|]. simpl. by rewrite Hl.
    + intros path d Hne Hd. apply (Hp (l :: path)); [done|]. simpl. by rewrite Hl.
  - intros Hp [|l path] d Hne Hd; [done|]. simpl in Hd.
    destruct (branches n !! l) as [c|] eqn:Hl; [|done]. simpl in Hd.
    destruct (Hp _ _ Hl) as [He Hc]. destruct path as [|l' path]; [by injection Hd as <-|].
    by apply (Hc (l' :: path)).
Qed.

Lemma pruned_default : pruned node_default.
Proof. apply pruned_alt. apply map_Forall_empty. Qed.

Lemma _insert_nonempty path v n : node_is_empty (snd (_insert path v n)) = false.
Proof.
  apply not_true_iff_false. rewrite node_is_empty_true. destruct path as [|l path]; simpl.
  - intros [= He _]. set_solver.
  - destruct (_insert path v _) as [res c]. simpl. intros [= _ He].
    by apply insert_non_empty in He.
Qed.

Lemma _insert_pruned path v n : pruned n -> pruned (snd (_insert path v n)).
Proof.
  revert n. induction path as [|l path IH]; intros n Hn; simpl; [by apply pruned_alt in Hn; apply pruned_alt|].
  specialize (IH (default node_default (branches n !! l))).
  pose proof (_insert_nonempty path v (default node_default (branches n !! l))) as He.
  destruct (_insert path v _) as [res c]. simpl in *. apply pruned_alt in Hn. apply pruned_alt. simpl.
  apply map_Forall_insert_2; [|done]. split; [done|]. apply IH.
  destruct (branches n !! l) as [d|] eqn:Hd; simpl; [by apply Hn in Hd as [_ ?] | apply pruned_default].
Qed.

Lemma _remove_pruned path v n : pruned n -> pruned (snd (_remove path v n)).
Proof.
  revert n. induction path as [|l path IH]; intros n Hn; simpl; [by apply pruned_alt in Hn; apply pruned_alt|].
  destruct (branches n !! l) as [x|] eqn:Hx; [|done]. specialize (IH x).
  apply pruned_alt in Hn. pose proof (Hn _ _ Hx) as [_ Hpx].
  destruct (_remove path v x) as [res x']. simpl in *. apply pruned_alt. simpl.
  destruct (node_is_empty x') eqn:He.
  - by apply map_Forall_delete.
  - apply map_Forall_insert_2; [|done]. auto.
Qed.

(** Inserting a new value and removing it again restores a pruned tree. *)
Lemma _remove_insert path v n :
  pruned n -> v ∉ contents n path -> snd (_remove path v (snd (_insert path v n))) = n.
Proof.
  revert n. induction path as [|l path IH]; intros n Hn Hv; simpl.
  - apply node_eq; simpl; [|done]. rewrite contents_nil in Hv. set_solver.
  - rewrite <- contents_child in Hv. set (c := default node_default (branches n !! l)) in *.
    assert (pruned c) as Hc.
    { unfold c. apply pruned_alt in Hn. destruct (branches n !! l) eqn:Hl;
        [by apply Hn in Hl as [_ ?] | apply pruned_default]. }
    specialize (IH c Hc Hv). destruct (_insert path v c) as [res c'] eqn:Hi. simpl in *.
    rewrite lookup_insert_eq. destruct (_remove path v c') as [res' x']. simpl in IH |- *. subst x'.
    apply node_eq; simpl; [done|]. unfold c. apply pruned_alt in Hn.
    destruct (branches n !! l) as [d|] eqn:Hl; simpl.
    + destruct (Hn _ _ Hl) as [He _]. rewrite He, insert_insert_eq. by apply insert_id.
    + replace (node_is_empty node_default) with true by done. by apply delete_insert_id.
Qed.

(** ** Lemmas: sizes *)

Lemma values_size_unfold n :
  values_size n = size (values n) + map_fold (fun _ c acc => values_size c + acc) 0 (branches n).
Proof. by destruct n. Qed.

Lemma sum_branches_insert (m : gmap Level Node) l c :
  map_fold (fun _ c acc => values_size c + acc) 0 (<[l := c]> m)
  = values_size c + map_fold (fun _ c acc => values_size c + acc) 0 (delete l m).
Proof.
  rewrite <- insert_delete_eq. apply (map_fold_insert_L (fun _ c acc => values_size c + acc)).
  - intros. lia.
  - apply lookup_delete_eq.
Qed.

Lemma sum_branches_lookup (m : gmap Level Node) l :
  map_fold (fun _ c acc => values_size c + acc) 0 m
  = values_size (default node_default (m !! l))
    + map_fold (fun _ c acc => values_size c + acc) 0 (delete l m).
Proof.
  destruct (m !! l) as [c|] eqn:Hl; simpl.
  - rewrite <- sum_branches_insert. by rewrite insert_id.
  - by rewrite delete_id.
Qed.

Lemma _insert_values_size path v n :
  values_size (snd (_insert path v n))
  = values_size n + (if fst (_insert path v n) then 1 else 0).
Proof.
  revert n. induction path as [|l path IH]; intros n; simpl.
  - rewrite !values_size_unfold. simpl. case_bool_decide as Hv.
    + rewrite size_union, size_singleton by set_solver. lia.
    + replace ({[v]} ∪ values n) with (values n) by set_solver. lia.
  - specialize (IH (default node_default (branches n !! l))).
    destruct (_insert path v _) as [res c]. simpl in *.
    rewrite !values_size_unfold. simpl. rewrite sum_branches_insert, IH.
    rewrite (sum_branches_lookup (branches n) l). lia.
Qed.

(** ** Lemmas: the iterator *)

(** The items an iterator still has to yield, in order. *)
Fixpoint remaining (it : MatchedIter) : list Item :=
  reverse (it_curr_items it) ++ concat (map remaining (it_sub_iters it))
  ++ match it_sub_path it with
     | Some sub_path => matches_list sub_path (it_path it) (it_node it)
     | None => []
     end.

(** The nesting of sub-iterators is bounded by [k]. *)
Fixpoint iter_ok (k : nat) (it : MatchedIter) : Prop :=
  match k with
  | 0 => False
  | S k' => length (it_path it) <= k' /\ Forall (iter_ok k') (it_sub_iters it)
  end.

(** [step] yields the head of [remaining] and leaves its tail. *)
Definition step_ok (k : nat) (step : MatchedIter -> option Item * MatchedIter) : Prop :=
  forall it, iter_ok k it ->
    match remaining it with
    | [] => fst (step it) = None
    | x :: l => exists it', step it = (Some x, it') /\ remaining it' = l /\ iter_ok k it'
    end.

Lemma step_subs_spec k step subs :
  step_ok k step -> Forall (iter_ok k) subs ->
  match concat (map remaining subs) with
  | [] => step_subs step subs = (None, [])
  | x :: l => exists subs', step_subs step subs = (Some x, subs')
                /\ concat (map remaining subs') = l /\ Forall (iter_ok k) subs'
  end.
Proof.
  intros Hstep. induction 1 as [|s subs Hs Hsubs IH]; simpl; [done|].
  specialize (Hstep s Hs). destruct (remaining s) as [|x l] eqn:Hr; simpl.
  - destruct (step s) as [o s']. simpl in Hstep. by subst o.
  - destruct Hstep as (s' & -> & <- & Hs'). exists (s' :: subs). by repeat constructor.
Qed.

Lemma pop_back_spec {A} (l : list A) :
  match reverse l with
  | [] => pop_back l = None /\ l = []
  | x :: r => pop_back l = Some (x, reverse r)
  end.
Proof.
  unfold pop_back. destruct (reverse l) eqn:Hl; [|done]. split; [done|].
  apply (f_equal reverse) in Hl. by rewrite reverse_involutive in Hl.
Qed.

Lemma next_item_spec k step it :
  step_ok k step -> Forall (iter_ok k) (it_sub_iters it) ->
  match reverse (it_curr_items it) ++ concat (map remaining (it_sub_iters it)) with
  | [] => next_item step it = (None, mkIter (it_node it) (it_path it) (it_sub_path it) [] [])
  | x :: l => exists items subs,
      next_item step it = (Some x, mkIter (it_node it) (it_path it) (it_sub_path it) items subs)
      /\ reverse items ++ concat (map remaining subs) = l /\ Forall (iter_ok k) subs
  end.
Proof.
  intros Hstep Hok. unfold next_item. pose proof (pop_back_spec (it_curr_items it)) as Hp.
  destruct (reverse (it_curr_items it)) as [|x r]; simpl.
  - destruct Hp as [-> Hnil]. pose proof (step_subs_spec k step _ Hstep Hok) as Hs.
    rewrite Hnil. destruct (concat _) as [|x l]; [by rewrite Hs|].
    destruct Hs as (subs' & -> & Hl & Hok'). exists [], subs'. done.
  - rewrite Hp. exists (reverse r), (it_sub_iters it). by rewrite reverse_involutive.
Qed.

Lemma add_to_items_reverse levels v_set items :
  reverse (add_to_items levels v_set items) = own_items levels v_set ++ reverse items.
Proof. unfold add_to_items, own_items. case_decide; [done|]. by rewrite reverse_app. Qed.

Lemma add_multi_reverse n sub_path items :
  reverse (add_multi n sub_path items)
  = own_items (sub_path ++ [MultiWildcard]) (child_values n MultiWildcard) ++ reverse items.
Proof.
  unfold add_multi, child_values. destruct (branches n !! MultiWildcard).
  - apply add_to_items_reverse.
  - unfold own_items. by rewrite decide_True.
Qed.

Lemma remaining_new_iter n path sub_path :
  remaining (new_iter n path sub_path) = matches_list sub_path path n.
Proof. done. Qed.

(** Without wildcard children there is nothing the guard of [prepare] skips. *)
Lemma skip_wildcards_false n sub_path first :
  skip_wildcards n sub_path first = false ->
  is_root sub_path && Level.is_metadata first = true ->
  branches n !! MultiWildcard = None /\ branches n !! SingleWildcard = None.
Proof.
  unfold skip_wildcards, contains_branch, is_root. intros Hs Hr.
  apply andb_true_iff in Hr as [Hroot Hm]. rewrite Hroot, Hm in Hs.
  rewrite bool_decide_eq_false_2 in Hs by (by intros ->). simpl in Hs.
  apply orb_false_iff in Hs as [H1 H2].
  destruct (branches n !! MultiWildcard), (branches n !! SingleWildcard); done.
Qed.

Lemma skip_wildcards_true n sub_path first :
  skip_wildcards n sub_path first = true -> is_root sub_path && Level.is_metadata first = true.
Proof.
  unfold skip_wildcards, is_root. destruct sub_path; simpl; [|done].
  intros Hs. by bool_to_prop.
Qed.

Lemma prepare_spec k n path sub_path :
  length path <= k ->
  exists it, prepare (mkIter n path (Some sub_path) [] []) = Some it
    /\ it_node it = n /\ it_path it = path /\ it_sub_path it = None
    /\ Forall (iter_ok k) (it_sub_iters it)
    /\ reverse (it_curr_items it) ++ concat (map remaining (it_sub_iters it))
       = matches_list sub_path path n.
Proof.
  intros Hk. unfold prepare; simpl. destruct path as [|first path]; simpl.
  { eexists. repeat split; simpl; [done|].
    by rewrite add_to_items_reverse, add_multi_reverse, !app_nil_r. }
  assert (forall c sp, iter_ok k (new_iter c path sp)) as Hnew.
  { intros c sp. destruct k; simpl in *; [lia|]. split; [lia | done]. }
  destruct (skip_wildcards n sub_path first) eqn:Hs.
  - rewrite (skip_wildcards_true _ _ _ Hs).
    eexists. repeat split; simpl; destruct (branches n !! first); simpl; try done.
    + by repeat constructor.
    + by rewrite app_nil_r.
  - eexists. repeat split; simpl.
    + destruct (branches n !! SingleWildcard), (branches n !! first); simpl; by repeat constructor.
    + rewrite add_multi_reverse, app_nil_r.
      destruct (is_root sub_path && Level.is_metadata first) eqn:Hr.
      * destruct (skip_wildcards_false _ _ _ Hs Hr) as [HM HS]. unfold child_values.
        rewrite HM, HS. unfold own_items. rewrite decide_True by done. simpl.
        destruct (branches n !! first); simpl; by rewrite ?app_nil_r.
      * rewrite <- app_assoc. f_equal.
        destruct (branches n !! SingleWildcard), (branches n !! first); simpl; by rewrite ?app_nil_r.
Qed.

Lemma next_ok k : step_ok k (next k).
Proof.
  induction k as [|k IH]; intros it Hok; [done|].
  destruct it as [n path sp items subs]. destruct Hok as [Hlen Hsubs]. simpl in Hlen, Hsubs.
  pose proof (next_item_spec k (next k) (mkIter n path sp items subs) IH Hsubs) as Hni.
  simpl in Hni. simpl remaining. rewrite app_assoc. cbn [next].
  destruct (reverse items ++ concat (map remaining subs)) as [|x l] eqn:Hr; simpl.
  - rewrite Hni. destruct sp as [sub_path|]; [|done].
    destruct (prepare_spec k n path sub_path Hlen) as (it & -> & Hn & Hp & Hsp & Hok & Heq).
    pose proof (next_item_spec k (next k) it IH Hok) as Hni'. rewrite Heq in Hni'.
    destruct (matches_list sub_path path n) as [|x l]; [by rewrite Hni'|].
    destruct Hni' as (items' & subs' & -> & Hl & Hok'). eexists. split; [done|].
    rewrite Hn, Hp, Hsp. simpl. by rewrite app_assoc, app_nil_r.
  - destruct Hni as (items' & subs' & -> & Hl & Hok'). eexists. split; [done|].
    simpl. by rewrite app_assoc, Hl.
Qed.

Lemma drain_take k count it :
  iter_ok k it -> drain count k it = take count (remaining it).
Proof.
  revert it. induction count as [|count IH]; intros it Hok; simpl; [done|].
  pose proof (next_ok k it Hok) as Hn. destruct (remaining it) as [|x l].
  - destruct (next k it) as [o it']. simpl in Hn. by subst o.
  - destruct Hn as (it' & -> & <- & Hok'). simpl. f_equal. by apply IH.
Qed.

Lemma matches_iter_ok n topic : iter_ok (iter_fuel topic) (matches_iter n topic).
Proof. by split; simpl. Qed.

Lemma own_items_length sub_path v : length (own_items sub_path v) <= 1.
Proof. unfold own_items. case_decide; simpl; lia. Qed.

Lemma matches_list_length sub_path topic n : length (matches_list sub_path topic n) <= visited topic n.
Proof.
  revert sub_path n. induction topic as [|first topic IH]; intros sub_path n; cbn [matches_list visited].
  - rewrite length_app. pose proof (own_items_length sub_path (values n)).
    pose proof (own_items_length (sub_path ++ [MultiWildcard]) (child_values n MultiWildcard)). lia.
  - rewrite length_app. pose proof (own_items_length (sub_path ++ [MultiWildcard]) (child_values n MultiWildcard)).
    assert (forall l, length (match branches n !! l with Some c => matches_list (sub_path ++ [l]) topic c | None => [] end)
      <= match branches n !! l with Some c => visited topic c | None => 0 end) as Hl
      by (intros l; destruct (branches n !! l); [apply IH | done]).
    pose proof (Hl SingleWildcard). pose proof (Hl first).
    destruct (is_root sub_path && Level.is_metadata first); rewrite ?length_app; simpl; lia.
Qed.

(** Draining yields all of the list. *)
Lemma collect_list n topic : collect n topic = matches_list [] topic n.
Proof.
  unfold collect. rewrite drain_take by apply matches_iter_ok. apply take_ge.
  pose proof (matches_list_length [] topic n). simpl. lia.
Qed.

(** ** Lemmas: what the iterator yields *)

Lemma own_items_elem item sub_path v_set :
  item ∈ own_items sub_path v_set <-> v_set <> ∅ /\ item = (sub_path, v_set).
Proof. unfold own_items. case_decide; set_solver. Qed.

Lemma child_values_contents n l : child_values n l = contents n [l].
Proof. by rewrite contents_cons. Qed.

Lemma is_root_snoc (sp : list Level) l : is_root (sp ++ [l]) = false.
Proof. by destruct sp. Qed.

Lemma branch_items_elem item n l sub_path path :
  (forall sub_path n, item ∈ matches_list sub_path path n <->
    exists f, item = (sub_path ++ f, contents n f) /\ contents n f <> ∅
              /\ level_match (is_root sub_path) f path = true) ->
  item ∈ match branches n !! l with
         | Some c => matches_list (sub_path ++ [l]) path c
         | None => []
         end <->
  exists f, item = (sub_path ++ l :: f, contents n (l :: f)) /\ contents n (l :: f) <> ∅
            /\ level_match false f path = true.
Proof.
  intros IH. setoid_rewrite contents_cons. destruct (branches n !! l) as [c|].
  - rewrite IH, is_root_snoc. by setoid_rewrite <- app_assoc.
  - split; [by intros ?%not_elem_of_nil | intros (f & _ & ? & _); done].
Qed.

Lemma matches_list_elem item sub_path path n :
  item ∈ matches_list sub_path path n <->
  exists f, item = (sub_path ++ f, contents n f) /\ contents n f <> ∅
            /\ level_match (is_root sub_path) f path = true.
Proof.
  revert sub_path n. induction path as [|l path IH]; intros sub_path n.
  { simpl. rewrite elem_of_app, !own_items_elem, child_values_contents. split.
    - intros [[? ->]|[? ->]]; [exists [] | exists [MultiWildcard]]; by rewrite ?app_nil_r.
    - intros (f & -> & Hne & Hm). rewrite orb_true_iff, !bool_decide_eq_true in Hm.
      destruct Hm as [-> | ->]; rewrite ?app_nil_r; naive_solver. }
  cbn [matches_list level_match]. set (g := is_root sub_path && Level.is_metadata l).
  rewrite elem_of_app, (branch_items_elem item n l sub_path path IH).
  transitivity ((g = false /\ ((contents n [MultiWildcard] <> ∅
      /\ item = (sub_path ++ [MultiWildcard], contents n [MultiWildcard]))
      \/ exists f, item = (sub_path ++ SingleWildcard :: f, contents n (SingleWildcard :: f))
         /\ contents n (SingleWildcard :: f) <> ∅ /\ level_match false f path = true))
    \/ exists f, item = (sub_path ++ l :: f, contents n (l :: f)) /\ contents n (l :: f) <> ∅
            /\ level_match false f path = true).
  { apply or_iff_compat_r. destruct g; [set_solver|].
    rewrite elem_of_app, own_items_elem, child_values_contents.
    rewrite (branch_items_elem item n SingleWildcard sub_path path IH). naive_solver. }
  split.
  - intros [[Hg [[Hne ->]|(f & -> & Hne & Hm)]]|(f & -> & Hne & Hm)]; eexists; (split; [done|]).
    + by rewrite Hg.
    + split; [done|]. rewrite Hg, Hm. done.
    + split; [done|]. rewrite Hm, (bool_decide_eq_true_2 (l = l)) by done.
      by rewrite !orb_true_r.
  - intros (f & -> & Hne & Hm). apply orb_true_iff in Hm as [Hm|Hm].
    + apply andb_true_iff in Hm as [Hg Hf]. apply bool_decide_eq_true in Hf as ->.
      apply negb_true_iff in Hg. naive_solver.
    + destruct f as [|x f]; [done|]. apply andb_true_iff in Hm as [Hx Hm].
      apply orb_true_iff in Hx as [Hx|Hx]; [apply andb_true_iff in Hx as [Hg Hx]|];
        apply bool_decide_eq_true in Hx as ->; [apply negb_true_iff in Hg|]; naive_solver.
Qed.

Lemma matches_list_prefix sub_path path n item :
  item ∈ matches_list sub_path path n -> exists f, fst item = sub_path ++ f.
Proof. rewrite matches_list_elem. intros (f & -> & _). by exists f. Qed.

Lemma own_items_nodup sub_path v_set : NoDup (own_items sub_path v_set).*1.
Proof. unfold own_items. case_decide; repeat constructor; set_solver. Qed.

Lemma own_items_fst sub_path v_set f : f ∈ (own_items sub_path v_set).*1 -> f = sub_path.
Proof. unfold own_items. case_decide; set_solver. Qed.

Lemma branch_fst n l sub_path path f :
  f ∈ (match branches n !! l with
       | Some c => matches_list (sub_path ++ [l]) path c
       | None => []
       end).*1 -> exists f', f = sub_path ++ l :: f'.
Proof.
  destruct (branches n !! l) as [c|]; [|by intros ?%not_elem_of_nil].
  intros (item & -> & Hi)%list_elem_of_fmap. apply matches_list_prefix in Hi as [f' ->].
  exists f'. by rewrite <- app_assoc.
Qed.

(** On a topic name (no wildcard levels) every filter is yielded once. *)
Lemma matches_list_nodup sub_path path n :
  Forall (fun l => is_wildcard l = false) path -> NoDup (matches_list sub_path path n).*1.
Proof.
  intros Hp. revert sub_path n. induction Hp as [|l path Hl Hp IH]; intros sub_path n; simpl.
  - rewrite fmap_app, NoDup_app. repeat split; [apply own_items_nodup | | apply own_items_nodup].
    intros f ->%own_items_fst Hf%own_items_fst.
    by apply (f_equal length) in Hf; rewrite length_app in Hf; simpl in Hf; lia.
  - assert (forall x, NoDup (match branches n !! x with
      | Some c => matches_list (sub_path ++ [x]) path c | None => [] end).*1) as Hb.
    { intros x. destruct (branches n !! x); [apply IH | constructor]. }
    rewrite fmap_app, NoDup_app. repeat split; [destruct (_ && _); [constructor|] | | apply Hb].
    + rewrite fmap_app, NoDup_app. repeat split; [apply own_items_nodup | | apply Hb].
      intros f ->%own_items_fst (f' & Hf)%branch_fst. by apply app_inv_head in Hf.
    + intros f Hf (f' & ->)%branch_fst. destruct (_ && _); [by apply not_elem_of_nil in Hf|].
      rewrite fmap_app, elem_of_app in Hf. destruct Hf as [Hf%own_items_fst|[f'' Hf]%branch_fst];
        apply app_inv_head in Hf; injection Hf as -> ->; done.
Qed.

(** Level matching is MQTT matching on the printed levels. *)
Lemma canonical_inj l l' :
  canonical l = true -> canonical l' = true -> Level.to_string l = Level.to_string l' -> l = l'.
Proof.
  intros H1%canonical_inv H2%canonical_inv He. rewrite He, H2 in H1. by injection H1.
Qed.

Definition names (p : list Level) : Prop :=
  Forall (fun l => canonical l = true /\ is_wildcard l = false) p.

Lemma level_match_mqtt f p :
  Forall (fun l => canonical l = true) f -> names p ->
  level_match false f p = true <-> mqtt_match f (map Level.to_string p).
Proof.
  intros Hf Hp. revert f Hf. induction Hp as [|l p [Hc Hw] Hp IH]; intros f Hf.
  { simpl. rewrite orb_true_iff, !bool_decide_eq_true. destruct f as [|x f].
    - rewrite mqtt_match_nil_l. naive_solver.
    - rewrite mqtt_match_nil_r. naive_solver. }
  cbn [level_match map]. destruct f as [|x f].
  { by rewrite mqtt_match_nil_l, bool_decide_eq_false_2. }
  apply Forall_cons in Hf as [Hx Hf]. simpl. rewrite orb_true_iff, andb_true_iff, orb_true_iff.
  rewrite !bool_decide_eq_true, IH by done. destruct (is_wildcard x) eqn:Hwx.
  - destruct x; try done.
    + rewrite mqtt_match_single. naive_solver.
    + split; [intros [[= ->]|[[?|He] _]]; [constructor|done|by subst] |].
      intros Hm. left. inversion Hm; subst; done.
  - rewrite mqtt_match_ordinary by done. split.
    + intros [[= -> ->]|[[Hxs|Hxl] Hm]]; subst; done.
    + intros [He Hm]. right. split; [|done]. right. by apply canonical_inj.
Qed.

(** MQTT's isolation of [$] topics: a wildcard in first position does not
    match a first segment starting with [$]. *)
Definition isolated (f : Topic) (ws : list string) : bool :=
  match f, ws with
  | x :: _, w :: _ => negb (is_wildcard x && is_metadata w)
  | _, _ => true
  end.

Lemma level_metadata_string l :
  canonical l = true -> Level.is_metadata l = is_metadata (Level.to_string l).
Proof.
  intros Hc%canonical_inv%level_from_str_inv.
  destruct l as [s|s| | |]; simpl in *; try done; symmetry; naive_solver.
Qed.

Lemma level_match_root f p :
  Forall (fun l => canonical l = true) f -> names p ->
  level_match true f p = true
  <-> mqtt_match f (map Level.to_string p) /\ isolated f (map Level.to_string p) = true.
Proof.
  intros Hf Hp. rewrite <- level_match_mqtt by done. destruct Hp as [|l p [Hc Hw] Hp].
  { destruct f; simpl; naive_solver. }
  cbn [level_match map]. unfold isolated. rewrite <- level_metadata_string by done.
  destruct f as [|x f].
  { rewrite !(bool_decide_eq_false_2 ([] = [MultiWildcard])), !andb_false_r by done. naive_solver. }
  simpl.
  destruct (Level.is_metadata l); simpl; [|by rewrite andb_false_r; simpl; tauto].
  rewrite andb_true_r, !orb_true_iff, !andb_true_iff, orb_true_iff, !bool_decide_eq_true, negb_true_iff.
  split; [intros [-> Hm]; naive_solver|]. intros [[[= -> ->]|[[Hxs|Hxl] Hm]] Hx]; subst; done.
Qed.

(** ** The abstract tree: a function from filters to value sets *)

Inductive tree_op : Type :=
| OpInsert (f : Topic) (v : V)
| OpRemove (f : Topic) (v : V).

Definition run_op (n : Node) (o : tree_op) : bool * Node :=
  match o with
  | OpInsert f v => insert f v n
  | OpRemove f v => remove f v n
  end.

Definition run_ops (n : Node) (os : list tree_op) : Node :=
  fold_left (fun n o => snd (run_op n o)) os n.

Definition spec_op (m : Topic -> gset V) (o : tree_op) : Topic -> gset V :=
  match o with
  | OpInsert f v => fun g => if decide (g = f) then {[v]} ∪ m g else m g
  | OpRemove f v => fun g => if decide (g = f) then m g ∖ {[v]} else m g
  end.

Definition spec_result (m : Topic -> gset V) (o : tree_op) : bool :=
  match o with
  | OpInsert f v => bool_decide (v ∉ m f)
  | OpRemove f v => bool_decide (v ∈ m f)
  end.

Lemma run_op_pruned n o : pruned n -> pruned (snd (run_op n o)).
Proof. destruct o; [apply _insert_pruned | apply _remove_pruned]. Qed.

Lemma run_op_contents n o f : contents (snd (run_op n o)) f = spec_op (contents n) o f.
Proof. destruct o; [apply _insert_contents | apply _remove_contents]. Qed.

#[local] Hint Resolve run_op_pruned pruned_default matches_iter_ok : ciqada.

Lemma run_ops_spec n os m :
  pruned n -> (forall f, contents n f = m f) ->
  pruned (run_ops n os) /\ forall f, contents (run_ops n os) f = fold_left spec_op os m f.
Proof.
  revert n m. induction os as [|o os IH]; intros n m Hp Hm; simpl; [done|].
  apply IH; [by auto with ciqada|]. intros f. rewrite run_op_contents.
  destruct o; simpl; by rewrite Hm.
Qed.

(** The levels of a topic name. *)
Lemma from_str_names s topic : from_str s = Ok topic -> has_wildcard s = false -> names topic.
Proof.
  intros Hs Hw. pose proof (from_str_canonical _ _ Hs) as Hc. apply has_wildcard_levels in Hw.
  rewrite <- (from_str_levels _ _ Hs), Forall_map in Hw.
  unfold names. rewrite Forall_and. split; [done|]. eapply Forall_impl; [exact Hw|].
  intros []; simpl; naive_solver.
Qed.

(** The matching filters of a topic name, by MQTT's rules. *)
Lemma matches_list_iff s topic n f v_set :
  from_str s = Ok topic -> has_wildcard s = false -> Forall (fun l => canonical l = true) f ->
  (f, v_set) ∈ matches_list [] topic n
  <-> v_set = contents n f /\ v_set <> ∅
      /\ mqtt_match f (split_on "/" s) /\ isolated f (split_on "/" s) = true.
Proof.
  intros Hs Hw Hf. pose proof (from_str_names _ _ Hs Hw) as Hn.
  rewrite matches_list_elem, <- (from_str_levels _ _ Hs). simpl. split.
  - intros (f' & [= <- ->] & Hne & Hm). rewrite level_match_root in Hm by done. done.
  - intros (-> & Hne & Hm). exists f. by rewrite level_match_root.
Qed.

Lemma is_match_iff n topic :
  is_match n topic = true
  <-> exists f, contents n f <> ∅ /\ level_match true f topic = true.
Proof.
  unfold is_match, first_match. rewrite isSome_true.
  pose proof (next_ok _ _ (matches_iter_ok n topic)) as Hn.
  simpl remaining in Hn.
  destruct (matches_list [] topic n) as [|x l] eqn:Hl.
  - rewrite Hn. split; [by intros [? ?]|]. intros (f & Hne & Hm).
    assert ((f, contents n f) ∈ matches_list [] topic n) as Hin
      by (apply matches_list_elem; by exists f).
    rewrite Hl in Hin. by apply not_elem_of_nil in Hin.
  - destruct Hn as (it' & -> & _). split; [|by eauto]. intros _.
    assert (x ∈ matches_list [] topic n) as Hx by (rewrite Hl; left).
    apply matches_list_elem in Hx as (f & _ & Hne & Hm). by exists f.
Qed.

(** ** Theorems *)

(** the tree refines a map from filters to value sets: after any sequence
    of insertions and removals each filter holds exactly the values inserted
    and not removed since, and no empty node is left behind. *)
Theorem run_ops_refines os :
  pruned (run_ops node_default os)
  /\ forall f, contents (run_ops node_default os) f = fold_left spec_op os (fun _ => ∅) f.
Proof. apply run_ops_spec; [apply pruned_default | apply contents_default]. Qed.

(** [insert] and [remove] return whether they changed the set of their
    filter. *)
Theorem run_op_result n o : fst (run_op n o) = spec_result (contents n) o.
Proof. destruct o; [apply _insert_result | apply _remove_result]. Qed.

(** removing a value that was just inserted for the first time restores
    the tree, nodes included. *)
Theorem remove_insert f v n :
  pruned n -> v ∉ contents n f -> snd (remove f v (snd (insert f v n))) = n.
Proof. apply _remove_insert. Qed.

(** draining the iterator yields the matching filters of [matches_list] in
    order, and nothing after them. *)
Theorem drain_matches n topic count :
  drain count (iter_fuel topic) (matches_iter n topic) = take count (matches_list [] topic n).
Proof. by rewrite drain_take by auto with ciqada. Qed.

(** C31: for a topic name the iterator of the tree yields exactly the filters
    with values (of canonical levels, as the parser makes them) that match it
    under MQTT's rules, [$] topics isolated from wildcards, each once and with
    all its values; then it ends: it yields the same however often it is asked
    beyond that. *)
Theorem collect_spec s topic n :
  from_str s = Ok topic -> has_wildcard s = false ->
  NoDup (collect n topic).*1
  /\ (forall f v_set, Forall (fun l => canonical l = true) f ->
       ((f, v_set) ∈ collect n topic
        <-> v_set = contents n f /\ v_set <> ∅
            /\ mqtt_match f (split_on "/" s) /\ isolated f (split_on "/" s) = true))
  /\ forall count, visited topic n < count -> drain count (iter_fuel topic) (matches_iter n topic) = collect n topic.
Proof.
  intros Hs Hw. rewrite collect_list. split; [|split; [by intros; apply matches_list_iff|]].
  - apply matches_list_nodup. eapply Forall_impl; [by eapply from_str_names|]. naive_solver.
  - intros count Hc. rewrite drain_take by auto with ciqada. apply take_ge.
    pose proof (matches_list_length [] topic n). simpl. lia.
Qed.

(** [is_match] says whether some stored filter matches the topic. *)
Theorem is_match_spec n topic :
  is_match n topic = true
  <-> exists f, contents n f <> ∅ /\ level_match true f topic = true.
Proof. apply is_match_iff. Qed.

(** [values_size] counts the stored values: an insertion adds one exactly
    when it reports a new value. *)
Theorem insert_values_size f v n :
  values_size (snd (insert f v n)) = values_size n + (if fst (insert f v n) then 1 else 0).
Proof. apply _insert_values_size. Qed.

End node.

Arguments Node V {_ _}.
Arguments MatchedIter V {_ _}.
Arguments Item V {_ _}.
End TopicTree.

(** ** Witnesses *)

Module TreeExample.

Definition tree : TopicTree.Node unit :=
  TopicTree.run_ops TopicTree.node_default
    [TopicTree.OpInsert [SingleWildcard; Normal "u1"; MultiWildcard] ();
     TopicTree.OpInsert [Normal "chat"; Normal "u1"] ()].

Lemma remove_insert_witness :
  (() ∉ TopicTree.contents tree [Normal "x"])
  /\ snd (TopicTree.remove [Normal "x"] () (snd (TopicTree.insert [Normal "x"] () tree))) = tree.
Proof.
  assert (() ∉ TopicTree.contents tree [Normal "x"]) as Hx.
  { apply (bool_decide_eq_true_1 (() ∉ TopicTree.contents tree [Normal "x"])).
    vm_compute. reflexivity. }
  split; [exact Hx|].
  apply (TopicTree.remove_insert [Normal "x"] () tree); [|exact Hx].
  apply TopicTree.run_ops_spec with (m := fun _ => ∅).
  - apply TopicTree.pruned_default.
  - apply TopicTree.contents_default.
Defined.

Lemma collect_spec_witness :
  ([Normal "chat"; Normal "u1"], {[ () ]}) ∈ TopicTree.collect tree [Normal "chat"; Normal "u1"]
  /\ ([Normal "chat"; Normal "u2"], ∅) ∉ TopicTree.collect tree [Normal "chat"; Normal "u1"].
Proof.
  destruct (TopicTree.collect_spec "chat/u1" [Normal "chat"; Normal "u1"] tree) as (_ & Hm & _); [reflexivity..|].
  split.
  - apply Hm; [by repeat constructor|]. split; [vm_compute; reflexivity|].
    split; [apply (bool_decide_unpack _); vm_compute; exact I|]. split; [|reflexivity].
    apply (mm_level (Normal "chat")); [reflexivity|]. apply (mm_level (Normal "u1")); [reflexivity|]. apply mm_end.
  - rewrite Hm by (by repeat constructor). by intros (_ & Hne & _).
Defined.

End TreeExample.
