(* ===== verification/Types.v ===== *)
(** * Broker types: [vendor/rmqtt/src/types.rs]

    Client identities, subscription options, subscribe requests with the
    [$share/], [$limit/] and [$exclusive/] prefixes, access-control results
    and the collector that merges a client's overlapping subscriptions.

    The build enables the [shared-subscription] and [msgstore] features and
    not [limit-subscription], so options have a [shared_group] and no
    [limit_subs]. Socket addresses are opaque strings; packet ids,
    subscription identifiers and node ids are integers. *)

From S2P Require Import Prelude Strs.
From Stdlib Require Import Ascii.
Local Open Scope string_scope.
Local Open Scope list_scope.

(** ** Identities *)

Abbreviation NodeId := Z.
Abbreviation ClientId := string.
Abbreviation TopicFilter := string.
Abbreviation TopicName := string.
Abbreviation SharedGroup := string.
Abbreviation TimestampMillis := Z.

Record Id : Type := mkId {
  node_id : NodeId;
  lid : Z;
  local_addr : option string;
  remote_addr : option string;
  client_id : ClientId;
  username : option string;
  create_time : TimestampMillis
}.

#[export] Instance Id_eq_dec : EqDecision Id.
Proof. solve_decision. Defined.

(** [impl PartialEq<Id> for Id], field by field in the source's order. *)
Definition Id_eq (a o : Id) : bool :=
  bool_decide (node_id a = node_id o)
  && bool_decide (lid a = lid o)
  && bool_decide (client_id a = client_id o)
  && bool_decide (local_addr a = local_addr o)
  && bool_decide (remote_addr a = remote_addr o)
  && bool_decide (username a = username o)
  && bool_decide (create_time a = create_time o).

(** [Id::from]: the clock reading is an argument. *)
Definition Id_from (now : TimestampMillis) (node : NodeId) (cid : ClientId) : Id :=
  mkId node 0 None None cid None now.

(** The parts of [ConnectInfo] the hooks read; the packet itself is decoded by
    the codec crate. *)
Inductive ConnectInfo : Type :=
| ConnV3 (id : Id) (user : option string) (pass : option string)
| ConnV5 (id : Id) (user : option string) (pass : option string).

Definition conn_client_id (ci : ConnectInfo) : ClientId :=
  match ci with
  | ConnV3 id _ _ => client_id id
  | ConnV5 id _ _ => client_id id
  end.

Definition conn_username (ci : ConnectInfo) : option string :=
  match ci with
  | ConnV3 _ user _ => user
  | ConnV5 _ user _ => user
  end.

Definition conn_password (ci : ConnectInfo) : option string :=
  match ci with
  | ConnV3 _ _ pass => pass
  | ConnV5 _ _ pass => pass
  end.

(** ** Subscription options *)

Inductive QoS : Type := AtMostOnce | AtLeastOnce | ExactlyOnce.

#[export] Instance QoS_eq_dec : EqDecision QoS.
Proof. solve_decision. Defined.

Inductive RetainHandling : Type := AtSubscribe | AtSubscribeNew | NoAtSubscribe.

#[export] Instance RetainHandling_eq_dec : EqDecision RetainHandling.
Proof. solve_decision. Defined.

Record SubOptionsV3 : Type := mkV3 {
  v3_qos : QoS;
  v3_shared_group : option SharedGroup
}.

Record SubOptionsV5 : Type := mkV5 {
  v5_qos : QoS;
  v5_shared_group : option SharedGroup;
  v5_no_local : bool;
  v5_retain_as_published : bool;
  v5_retain_handling : RetainHandling;
  v5_id : option Z
}.

Inductive SubscriptionOptions : Type :=
| OptV3 (o : SubOptionsV3)
| OptV5 (o : SubOptionsV5).

#[export] Instance SubscriptionOptions_eq_dec : EqDecision SubscriptionOptions.
Proof.
  assert (EqDecision SubOptionsV3) by solve_decision.
  assert (EqDecision SubOptionsV5) by solve_decision.
  solve_decision.
Defined.

Definition opts_default : SubscriptionOptions := OptV3 (mkV3 AtMostOnce None).

Definition no_local (o : SubscriptionOptions) : option bool :=
  match o with OptV3 _ => None | OptV5 o => Some (v5_no_local o) end.

Definition retain_as_published (o : SubscriptionOptions) : option bool :=
  match o with OptV3 _ => None | OptV5 o => Some (v5_retain_as_published o) end.

Definition retain_handling (o : SubscriptionOptions) : option RetainHandling :=
  match o with OptV3 _ => None | OptV5 o => Some (v5_retain_handling o) end.

Definition subscription_identifier (o : SubscriptionOptions) : option Z :=
  match o with OptV3 _ => None | OptV5 o => v5_id o end.

Definition qos (o : SubscriptionOptions) : QoS :=
  match o with OptV3 o => v3_qos o | OptV5 o => v5_qos o end.

(** The numeric value of a QoS level is the codec crate's [QoS::value]. *)
Definition qos_value (value : QoS -> Z) (o : SubscriptionOptions) : Z :=
  match o with OptV3 o => value (v3_qos o) | OptV5 o => value (v5_qos o) end.

Definition set_qos (q : QoS) (o : SubscriptionOptions) : SubscriptionOptions :=
  match o with
  | OptV3 o => OptV3 (mkV3 q (v3_shared_group o))
  | OptV5 o => OptV5 (mkV5 q (v5_shared_group o) (v5_no_local o) (v5_retain_as_published o)
                        (v5_retain_handling o) (v5_id o))
  end.

Definition shared_group (o : SubscriptionOptions) : option SharedGroup :=
  match o with OptV3 o => v3_shared_group o | OptV5 o => v5_shared_group o end.

Definition has_shared_group (o : SubscriptionOptions) : bool :=
  match o with
  | OptV3 o => isSome (v3_shared_group o)
  | OptV5 o => isSome (v5_shared_group o)
  end.

Definition is_v3 (o : SubscriptionOptions) : bool :=
  match o with OptV3 _ => true | OptV5 _ => false end.

Definition is_v5 (o : SubscriptionOptions) : bool :=
  match o with OptV3 _ => false | OptV5 _ => true end.

(** The wire encodings [serialize_qos] / [deserialize_qos] and
    [serialize_retain_handling] / [deserialize_retain_handling]. *)
Definition deserialize_qos (v : Z) : result string QoS :=
  if (v =? 0)%Z then Ok AtMostOnce
  else if (v =? 1)%Z then Ok AtLeastOnce
  else if (v =? 2)%Z then Ok ExactlyOnce
  else Err ("invalid QoS value, " ++ show_uint v)%string.

Definition serialize_qos (value : QoS -> Z) (q : QoS) : Z := value q.

Definition serialize_retain_handling (rh : RetainHandling) : Z :=
  match rh with AtSubscribe => 0 | AtSubscribeNew => 1 | NoAtSubscribe => 2 end.

Definition deserialize_retain_handling (v : Z) : result string RetainHandling :=
  if (v =? 0)%Z then Ok AtSubscribe
  else if (v =? 1)%Z then Ok AtSubscribeNew
  else if (v =? 2)%Z then Ok NoAtSubscribe
  else Err ("invalid RetainHandling value, " ++ show_uint v)%string.

(** The codec's v5 options, the fields [From] reads. *)
Record SubscriptionOptionsV5 : Type := mkCodecV5 {
  c5_qos : QoS;
  c5_no_local : bool;
  c5_retain_as_published : bool;
  c5_retain_handling : RetainHandling
}.

Definition opts_from_v3 (q : QoS) (group : option SharedGroup) : SubscriptionOptions :=
  OptV3 (mkV3 q group).

Definition opts_from_v5 (o : SubscriptionOptionsV5) (group : option SharedGroup)
    (id : option Z) : SubscriptionOptions :=
  OptV5 (mkV5 (c5_qos o) group (c5_no_local o) (c5_retain_as_published o)
           (c5_retain_handling o) id).

(** ** Subscribe requests *)

Inductive filter_error : Type :=
| IllegalTopicFilter (topic_filter : string)
| SharedNotEnabled (topic_filter : string)
| LimitNotEnabled (topic_filter : string).

(** [parse_topic_filter]: strips the [$share/group/], [$limit/n/] and
    [$exclusive/] prefixes. *)
Definition parse_topic_filter (topic_filter : string)
    (shared_subscription limit_subscription : bool)
    : result filter_error (TopicFilter * option SharedGroup * option Z) :=
  let? parts :=
    if shared_subscription || limit_subscription then
      let levels := splitn 3 "/" topic_filter in
      let level1 := levels !! 1 in
      let level2 := levels !! 2 in
      if decide (levels !! 0 = Some "$share") then
        match shared_subscription, level1, level2 with
        | true, Some group, Some tf => Ok (tf, Some group, None)
        | true, _, _ => Err (IllegalTopicFilter topic_filter)
        | false, _, _ => Err (SharedNotEnabled topic_filter)
        end
      else if decide (levels !! 0 = Some "$limit") then
        match limit_subscription, level1, level2 with
        | true, Some limit, Some tf =>
            match parse_uint usize_max limit with
            | Some n => Ok (tf, None, Some n)
            | None => Err (IllegalTopicFilter topic_filter)
            end
        | true, _, _ => Err (IllegalTopicFilter topic_filter)
        | false, _, _ => Err (LimitNotEnabled topic_filter)
        end
      else if decide (levels !! 0 = Some "$exclusive") then
        if limit_subscription
        then Ok (trim_start_matches "$exclusive/" topic_filter, None, Some 1%Z)
        else Err (LimitNotEnabled topic_filter)
      else Ok (topic_filter, None, None)
    else Ok (topic_filter, None, None) in
  let '(topic, shared_group, limit_subs) := parts in
  if str_is_empty topic then Err (IllegalTopicFilter topic_filter)
  else Ok (topic, shared_group, limit_subs).

Record Subscribe : Type := mkSubscribe {
  topic_filter : TopicFilter;
  opts : SubscriptionOptions
}.

Definition from_v3 (tf : string) (q : QoS) (shared_subscription limit_subscription : bool)
    : result filter_error Subscribe :=
  let? (tf, group, _) := parse_topic_filter tf shared_subscription limit_subscription in
  Ok (mkSubscribe tf (opts_from_v3 q group)).

Definition from_v5 (tf : string) (o : SubscriptionOptionsV5)
    (shared_subscription limit_subscription : bool) (sub_id : option Z)
    : result filter_error Subscribe :=
  let? (tf, group, _) := parse_topic_filter tf shared_subscription limit_subscription in
  Ok (mkSubscribe tf (opts_from_v5 o group sub_id)).

Record Unsubscribe : Type := mkUnsubscribe {
  unsub_topic_filter : TopicFilter;
  unsub_shared_group : option SharedGroup
}.

Definition unsub_from (tf : string) (shared_subscription limit_subscription : bool)
    : result filter_error Unsubscribe :=
  let? (tf, group, _) := parse_topic_filter tf shared_subscription limit_subscription in
  Ok (mkUnsubscribe tf group).

(** ** Access-control results *)

Inductive SubscribeAckReason : Type :=
| GrantedQos0 | GrantedQos1 | GrantedQos2 | AckNotAuthorized.

#[export] Instance SubscribeAckReason_eq_dec : EqDecision SubscribeAckReason.
Proof. solve_decision. Defined.

Record SubscribeReturn : Type := mkSubscribeReturn {
  ack_reason : SubscribeAckReason;
  prev_opts : option SubscriptionOptions
}.

Definition new_success (q : QoS) (prev : option SubscriptionOptions) : SubscribeReturn :=
  mkSubscribeReturn
    (match q with
     | AtMostOnce => GrantedQos0
     | AtLeastOnce => GrantedQos1
     | ExactlyOnce => GrantedQos2
     end) prev.

Definition new_failure (reason : SubscribeAckReason) : SubscribeReturn :=
  mkSubscribeReturn reason None.

Definition success (r : SubscribeReturn) : option QoS :=
  match ack_reason r with
  | GrantedQos0 => Some AtMostOnce
  | GrantedQos1 => Some AtLeastOnce
  | GrantedQos2 => Some ExactlyOnce
  | _ => None
  end.

Definition failure (r : SubscribeReturn) : bool :=
  match ack_reason r with
  | GrantedQos0 | GrantedQos1 | GrantedQos2 => false
  | _ => true
  end.

Inductive PublishAckReason : Type := PubSuccess | PubNotAuthorized.

Record PublishResult : Type := mkPublishResult {
  reason_code : PublishAckReason;
  reason_string : option string;
  disconnect : bool
}.

Definition publish_acl_allow : PublishResult := mkPublishResult PubSuccess None false.

Definition publish_acl_rejected (disconnect : bool) (reason : option string) : PublishResult :=
  mkPublishResult PubNotAuthorized (Some (default "PublishRefused" reason)) disconnect.

Definition publish_acl_is_allow (r : PublishResult) : bool :=
  match reason_code r with PubSuccess => true | _ => false end.

(** The answer to the question whether a message has expired. *)
Inductive MessageExpiryCheckResult : Type :=
| Expiry
| Remaining (secs : option Z).

Definition is_expiry (r : MessageExpiryCheckResult) : bool :=
  match r with Expiry => true | Remaining _ => false end.

Definition remaining_secs (r : MessageExpiryCheckResult) : option Z :=
  match r with Expiry => None | Remaining i => i end.

(** The codec's publish packet: the fields the modelled code reads. *)
Record CodecPublish : Type := mkCodec {
  cp_dup : bool;
  cp_retain : bool;
  cp_qos : QoS;
  cp_topic : TopicName;
  cp_packet_id : option Z;
  cp_payload : string
}.

Record Publish : Type := mkPublish {
  packet : CodecPublish;
  target_clientid : option ClientId;
  delay_interval : option Z;
  publish_time : option Z
}.

(** [Deref]: the packet's fields. *)
Definition topic (p : Publish) : TopicName := cp_topic (packet p).
Definition payload (p : Publish) : string := cp_payload (packet p).
Definition pub_qos (p : Publish) : QoS := cp_qos (packet p).
Definition retain (p : Publish) : bool := cp_retain (packet p).
Definition packet_id (p : Publish) : option Z := cp_packet_id (packet p).

Definition publish_from (p : CodecPublish) : Publish := mkPublish p None None None.

Definition with_target_clientid (c : ClientId) (p : Publish) : Publish :=
  mkPublish (packet p) (Some c) (delay_interval p) (publish_time p).

Definition with_delay_interval (d : Z) (p : Publish) : Publish :=
  mkPublish (packet p) (target_clientid p) (Some d) (publish_time p).

Definition with_create_time (t : Z) (p : Publish) : Publish :=
  mkPublish (packet p) (target_clientid p) (delay_interval p) (Some t).

#[export] Instance CodecPublish_eq_dec : EqDecision CodecPublish.
Proof. solve_decision. Defined.

#[export] Instance Publish_eq_dec : EqDecision Publish.
Proof. solve_decision. Defined.

(** Where a message comes from, [From] and [FromType]. *)
Inductive FromType : Type := FromCustom | FromAdmin | FromSystem | FromLastWill | FromBridge.

Record MsgFrom : Type := mkFrom { from_id : Id; typ : FromType }.

(** ** The subscription collector *)

Definition SharedGroupType : Type := SharedGroup * bool * list ClientId.

Definition SubRelation : Type :=
  TopicFilter * ClientId * SubscriptionOptions * option (list Z) * option SharedGroupType.

Record Collector : Type := mkCollector {
  v3_rels : list SubRelation;
  v5_rels : gmap ClientId
    (TopicFilter * SubscriptionOptions * option (list Z) * option SharedGroupType)
}.

Definition collector_default : Collector := mkCollector [] ∅.

(** [SubscriptioRelationsCollector::add]: a v5 client gets one entry, the
    identifiers of its further matching subscriptions are appended to it. *)
Definition collector_add (c : Collector) (tf : TopicFilter) (cid : ClientId)
    (o : SubscriptionOptions) (group : option SharedGroupType) : Collector :=
  if is_v3 o then mkCollector (v3_rels c ++ [(tf, cid, o, None, group)]) (v5_rels c)
  else
    let entry :=
      match v5_rels c !! cid with
      | Some (tf0, o0, sub_ids, group0) =>
          let sub_ids :=
            match subscription_identifier o with
            | Some sub_id =>
                match sub_ids with
                | Some ids => Some (ids ++ [sub_id])
                | None => Some [sub_id]
                end
            | None => sub_ids
            end in
          (tf0, o0, sub_ids, group0)
      | None => (tf, o, (fun id => [id]) <$> subscription_identifier o, group)
      end in
    mkCollector (v3_rels c) (<[cid := entry]> (v5_rels c)).

(** [From<SubscriptioRelationsCollector> for SubRelations]. *)
Definition collector_into (c : Collector) : list SubRelation :=
  v3_rels c
  ++ map (fun '(cid, (tf, o, sub_ids, group)) => (tf, cid, o, sub_ids, group))
         (map_to_list (v5_rels c)).

(** ** Lemmas *)

Lemma Id_eq_spec a o : Id_eq a o = bool_decide (a = o).
Proof.
  apply eq_true_iff_eq. unfold Id_eq.
  rewrite !andb_true_iff, !bool_decide_eq_true. destruct a, o; simpl.
  split; [naive_solver | by intros [= -> -> -> -> -> -> ->]].
Qed.

(** MQTT's encoding of the levels, which the codec's [QoS::value] returns. *)
Definition qos_code (q : QoS) : Z :=
  match q with AtMostOnce => 0 | AtLeastOnce => 1 | ExactlyOnce => 2 end.

Lemma deserialize_serialize_qos value q :
  (forall q, value q = qos_code q) -> deserialize_qos (serialize_qos value q) = Ok q.
Proof. intros H. unfold serialize_qos. rewrite H. by destruct q. Qed.

Lemma deserialize_serialize_retain_handling rh :
  deserialize_retain_handling (serialize_retain_handling rh) = Ok rh.
Proof. by destruct rh. Qed.

Lemma failure_success r : failure r = is_none (success r).
Proof. unfold failure, success. by destruct (ack_reason r). Qed.
