(* ===== verification/Acl.v ===== *)
(** * Access control: [vendor/rmqtt/src/acl.rs]

    Rules, their topics with [${username}] / [${clientid}] placeholders, and
    the evaluation of subscribe and publish requests against a client's rule
    list. Hook results are the values the hook manager passes on: [false] stops
    the handler chain. Rules are read from JSON, whose values enter through the
    interface [JsonValue]. *)

From S2P Require Import Prelude Strs Topic Types.
From Stdlib Require Import Ascii.
Local Open Scope string_scope.
Local Open Scope list_scope.

(** ** Data *)

Definition PLACEHOLDER_USERNAME : string := "${username}".
Definition PLACEHOLDER_CLIENTID : string := "${clientid}".

Inductive Permission : Type := Allow | Deny.

Inductive Action : Type := ActAll | ActPublish | ActSubscribe.

Record AclTopic : Type := mkAclTopic {
  eq_topic_filter : option string;
  acl_topic_filter : option Topic
}.

Record Rule : Type := mkRule {
  permission : Permission;
  action : Action;
  rule_qos : option (list QoS);
  rule_retain : option bool;
  rule_topic : AclTopic
}.

(** [expire_at] is a [Duration] since the epoch, in milliseconds. *)
Record AuthInfo : Type := mkAuthInfo {
  superuser : bool;
  expire_at : option Z;
  rules : list Rule
}.

(** [hook::HookResult], the variants the access-control hooks return, and
    [hook::ReturnType]. *)
Inductive AuthResult : Type :=
| AuthAllow (superuser : bool) (info : option AuthInfo)
| AuthNotFound
| BadUsernameOrPassword
| AuthNotAuthorized.

Inductive HookResult : Type :=
| HookAuthResult (r : AuthResult)
| HookSubscribeAclResult (r : SubscribeReturn)
| HookPublishAclResult (r : PublishResult).

Definition ReturnType : Type := bool * option HookResult.

Inductive acl_error : Type :=
| UnknownPermission
| UnknownAction
| UsernameMissing
| BadTopicConfig (topic_cfg : string)
| BadTopic (e : TopicError)
| RuleConfig
| UnknownQoS
| BadQoS (e : string).

(** ** Operations *)

Definition permission_try_from (s : string) : result acl_error Permission :=
  if decide (s = "allow") then Ok Allow
  else if decide (s = "deny") then Ok Deny
  else Err UnknownPermission.

Definition action_try_from (s : string) : result acl_error Action :=
  if decide (s = "all") then Ok ActAll
  else if decide (s = "publish") then Ok ActPublish
  else if decide (s = "subscribe") then Ok ActSubscribe
  else Err UnknownAction.

(** [replaces]: placeholder substitution. *)
Definition replaces (topic_cfg : string) (ci : ConnectInfo) : result acl_error string :=
  match contains_str PLACEHOLDER_USERNAME topic_cfg,
        contains_str PLACEHOLDER_CLIENTID topic_cfg with
  | true, true =>
      match conn_username ci with
      | Some username =>
          Ok (replace PLACEHOLDER_CLIENTID (conn_client_id ci)
                (replace PLACEHOLDER_USERNAME username topic_cfg))
      | None => Err UsernameMissing
      end
  | true, false =>
      match conn_username ci with
      | Some username => Ok (replace PLACEHOLDER_USERNAME username topic_cfg)
      | None => Err UsernameMissing
      end
  | false, true => Ok (replace PLACEHOLDER_CLIENTID (conn_client_id ci) topic_cfg)
  | false, false => Ok topic_cfg
  end.

(** [TryFrom<(&str, &ConnectInfo)> for Topic]. *)
Definition acl_topic_try_from (topic_cfg : string) (ci : ConnectInfo)
    : result acl_error AclTopic :=
  match strip_prefix "eq " topic_cfg with
  | Some stripped =>
      let? t := replaces stripped ci in Ok (mkAclTopic (Some t) None)
  | None =>
      if negb (str_is_empty topic_cfg) then
        let? t := replaces topic_cfg ci in
        match from_str t with
        | Ok tf => Ok (mkAclTopic None (Some tf))
        | Err e => Err (BadTopic e)
        end
      else Err (BadTopicConfig topic_cfg)
  end.

Definition is_match (t : AclTopic) (topic : string) : bool :=
  match eq_topic_filter t with
  | Some eq => bool_decide (eq = topic)
  | None =>
      match acl_topic_filter t with
      | Some tf => matches_str tf topic
      | None => false
      end
  end.

(** [qos.contains(&q)] when a QoS list is configured. *)
Definition qos_hit (r : Rule) (q : QoS) : bool :=
  match rule_qos r with
  | Some qs => bool_decide (q ∈ qs)
  | None => true
  end.

Definition subscribe_hit (r : Rule) (s : Subscribe) : bool :=
  match action r with
  | ActSubscribe | ActAll =>
      if negb (qos_hit r (qos (opts s))) then false
      else if negb (is_match (rule_topic r) (topic_filter s)) then false
      else true
  | ActPublish => false
  end.

Definition publish_hit (r : Rule) (p : Publish) : bool :=
  match action r with
  | ActPublish | ActAll =>
      if negb (qos_hit r (pub_qos p)) then false
      else if negb (is_match (rule_topic r) (topic p)) then false
      else true
  | ActSubscribe => false
  end.

Definition publish_allow_hit (r : Rule) (p : Publish) : bool :=
  match rule_retain r with
  | Some ret => if negb ret && retain p then false else publish_hit r p
  | None => publish_hit r p
  end.

Definition publish_deny_hit (r : Rule) (p : Publish) : bool :=
  match rule_retain r with
  | Some ret => if xorb ret (retain p) then false else publish_hit r p
  | None => publish_hit r p
  end.

Fixpoint subscribe_acl_loop (rs : list Rule) (s : Subscribe) : option ReturnType :=
  match rs with
  | [] => None
  | r :: rs' =>
      if negb (subscribe_hit r s) then subscribe_acl_loop rs' s
      else
        match permission r with
        | Allow => Some (false, Some (HookSubscribeAclResult (new_success (qos (opts s)) None)))
        | Deny => Some (false, Some (HookSubscribeAclResult (new_failure AckNotAuthorized)))
        end
  end.

Definition subscribe_acl (a : AuthInfo) (s : Subscribe) : option ReturnType :=
  if superuser a
  then Some (false, Some (HookSubscribeAclResult (new_success (qos (opts s)) None)))
  else subscribe_acl_loop (rules a) s.

Fixpoint publish_acl_loop (rs : list Rule) (p : Publish) (disconnect_if_pub_rejected : bool)
    : option ReturnType :=
  match rs with
  | [] => None
  | r :: rs' =>
      match permission r with
      | Allow =>
          if publish_allow_hit r p
          then Some (false, Some (HookPublishAclResult publish_acl_allow))
          else publish_acl_loop rs' p disconnect_if_pub_rejected
      | Deny =>
          if publish_deny_hit r p
          then Some (false, Some (HookPublishAclResult
                      (publish_acl_rejected disconnect_if_pub_rejected None)))
          else publish_acl_loop rs' p disconnect_if_pub_rejected
      end
  end.

Definition publish_acl (a : AuthInfo) (p : Publish) (disconnect_if_pub_rejected : bool)
    : option ReturnType :=
  if superuser a then Some (false, Some (HookPublishAclResult publish_acl_allow))
  else publish_acl_loop (rules a) p disconnect_if_pub_rejected.

(** [AuthInfo::is_expired] at clock reading [now]. *)
Definition is_expired (now : Z) (a : AuthInfo) : bool :=
  match expire_at a with
  | Some exp => (exp <? now)%Z
  | None => false
  end.

(** What a hook result grants. *)
Definition grants_subscribe (r : ReturnType) : bool :=
  match r with
  | (_, Some (HookSubscribeAclResult s)) => negb (failure s)
  | _ => false
  end.

Definition grants_publish (r : ReturnType) : bool :=
  match r with
  | (_, Some (HookPublishAclResult p)) => publish_acl_is_allow p
  | _ => false
  end.

(** ** Rules from JSON *)

(** What the parser asks of a [serde_json::Value]: the lookup of an object, the
    elements of an array, and the scalars. *)
Class JsonValue (J : Type) : Type := {
  as_object : J -> option (string -> option J);
  as_array : J -> option (list J);
  as_u64 : J -> option Z;
  as_str : J -> option string;
  as_bool : J -> option bool
}.

Section rule_try_from.
Context {J : Type} `{JsonValue J}.
(** The codec's [QoS::try_from] of a [u8]. *)
Context (qos_try_from : Z -> result string QoS).

(** The field of the object as a string, as [f] reads it; [ok_or_else(err_msg)??]. *)
Definition string_field {A} (k : string) (f : string -> result acl_error A) (obj : string -> option J)
    : result acl_error A :=
  match obj k ≫= as_str with
  | Some s => f s
  | None => Err RuleConfig
  end.

(** [q as u8] keeps the lowest eight bits. *)
Definition qos_of_u64 (q : Z) : result acl_error QoS :=
  match qos_try_from (q mod 256)%Z with Ok q => Ok q | Err e => Err (BadQoS e) end.

(** The [flat_map] goes over the results of its closure: what is no unsigned
    integer is an [Err], which has no elements. *)
Definition qos_of_json (j : J) : result acl_error (list QoS) :=
  match as_array j with
  | Some l => collect_results (map qos_of_u64 (omap as_u64 l))
  | None =>
      match as_u64 j with
      | Some q => let? q := qos_of_u64 q in Ok [q]
      | None => Err UnknownQoS
      end
  end.

(** [TryFrom<(&Value, &ConnectInfo)> for Rule]. *)
Definition rule_try_from (acl_cfg : J) (ci : ConnectInfo) : result acl_error Rule :=
  match as_object acl_cfg with
  | Some obj =>
      let? perm := string_field "permission" permission_try_from obj in
      let? act := string_field "action" action_try_from obj in
      let? qos :=
        match obj "qos" with
        | Some q => let? qs := qos_of_json q in Ok (Some qs)
        | None => Ok None
        end in
      let retain := obj "retain" ≫= as_bool in
      let? t := string_field "topic" (fun t => acl_topic_try_from t ci) obj in
      Ok (mkRule perm act qos retain t)
  | None => Err RuleConfig
  end.

End rule_try_from.

(** ** Specification: the first rule that applies decides *)

Definition publish_applies (p : Publish) (r : Rule) : bool :=
  match permission r with
  | Allow => publish_allow_hit r p
  | Deny => publish_deny_hit r p
  end.

Definition decision {A} (applies : A -> bool) (perm : A -> Permission) (rs : list A)
    : option Permission :=
  perm <$> (snd <$> list_find (fun r => applies r = true) rs).

(** ** Lemmas *)

Lemma new_success_granted q prev : failure (new_success q prev) = false.
Proof. by destruct q. Qed.

Lemma subscribe_hit_spec r s :
  subscribe_hit r s = true <->
  action r <> ActPublish /\ qos_hit r (qos (opts s)) = true
  /\ is_match (rule_topic r) (topic_filter s) = true.
Proof.
  unfold subscribe_hit. destruct (action r), (qos_hit _ _), (is_match _ _); naive_solver.
Qed.

Lemma publish_hit_spec r p :
  publish_hit r p = true <->
  action r <> ActSubscribe /\ qos_hit r (pub_qos p) = true
  /\ is_match (rule_topic r) (topic p) = true.
Proof.
  unfold publish_hit. destruct (action r), (qos_hit _ _), (is_match _ _); naive_solver.
Qed.

Lemma decision_cons {A} (applies : A -> bool) perm r rs :
  decision applies perm (r :: rs)
  = if applies r then Some (perm r) else decision applies perm rs.
Proof.
  unfold decision. simpl. case_decide as Hr.
  - by rewrite Hr.
  - apply not_true_is_false in Hr. rewrite Hr.
    by destruct (list_find (fun r => applies r = true) rs) as [[i x]|].
Qed.

Lemma subscribe_acl_loop_spec rs s :
  subscribe_acl_loop rs s
  = (fun perm => (false, Some (HookSubscribeAclResult
                  (match perm with
                   | Allow => new_success (qos (opts s)) None
                   | Deny => new_failure AckNotAuthorized
                   end)))) <$> decision (fun r => subscribe_hit r s) permission rs.
Proof.
  induction rs as [|r rs IH]; [done|]. rewrite decision_cons. simpl.
  destruct (subscribe_hit r s); simpl; [by destruct (permission r) | done].
Qed.

Lemma publish_acl_loop_spec rs p d :
  publish_acl_loop rs p d
  = (fun perm => (false, Some (HookPublishAclResult
                  (match perm with
                   | Allow => publish_acl_allow
                   | Deny => publish_acl_rejected d None
                   end)))) <$> decision (publish_applies p) permission rs.
Proof.
  induction rs as [|r rs IH]; [done|]. rewrite decision_cons. unfold publish_applies at 1. simpl.
  by destruct (permission r); [destruct (publish_allow_hit r p) | destruct (publish_deny_hit r p)].
Qed.

(** A granted subscription that is not a superuser's comes from an allow rule. *)
Lemma subscribe_acl_granted a s r :
  subscribe_acl a s = Some r -> grants_subscribe r = true -> superuser a = false ->
  exists rule, In rule (rules a) /\ permission rule = Allow /\ subscribe_hit rule s = true.
Proof.
  unfold subscribe_acl. intros Hs Hg Hsu. rewrite Hsu, subscribe_acl_loop_spec in Hs.
  unfold decision in Hs. destruct (list_find _ (rules a)) as [[i rule]|] eqn:Hf; [|done].
  apply list_find_Some in Hf as (Hi & Hhit & _). simpl in Hs. injection Hs as <-. simpl in Hg.
  exists rule. split; [by apply list_elem_of_In; eapply list_elem_of_lookup_2|].
  split; [|done]. by destruct (permission rule).
Qed.

Lemma publish_acl_granted a p d r :
  publish_acl a p d = Some r -> grants_publish r = true -> superuser a = false ->
  exists rule, In rule (rules a) /\ permission rule = Allow /\ publish_hit rule p = true.
Proof.
  unfold publish_acl. intros Hs Hg Hsu. rewrite Hsu, publish_acl_loop_spec in Hs.
  unfold decision in Hs. destruct (list_find _ (rules a)) as [[i rule]|] eqn:Hf; [|done].
  apply list_find_Some in Hf as (Hi & Hhit & _). simpl in Hs. injection Hs as <-. simpl in Hg.
  exists rule. split; [by apply list_elem_of_In; eapply list_elem_of_lookup_2|].
  unfold publish_applies in Hhit. destruct (permission rule); [|done]. split; [done|].
  unfold publish_allow_hit in Hhit. destruct (rule_retain rule); [|done].
  by destruct (negb _ && _).
Qed.

(** ** Theorems *)

(** rules are evaluated first match wins: without the superuser flag the
    answer is the permission of the first rule that applies, and no answer
    when none does. *)
Theorem acl_first_match a s p d :
  superuser a = false ->
  subscribe_acl a s
  = (fun perm => (false, Some (HookSubscribeAclResult
                  (match perm with
                   | Allow => new_success (qos (opts s)) None
                   | Deny => new_failure AckNotAuthorized
                   end)))) <$> decision (fun r => subscribe_hit r s) permission (rules a)
  /\ publish_acl a p d
  = (fun perm => (false, Some (HookPublishAclResult
                  (match perm with
                   | Allow => publish_acl_allow
                   | Deny => publish_acl_rejected d None
                   end)))) <$> decision (publish_applies p) permission (rules a).
Proof.
  intros Hsu. unfold subscribe_acl, publish_acl. rewrite Hsu.
  split; [apply subscribe_acl_loop_spec | apply publish_acl_loop_spec].
Qed.

Definition deny_all_publish : AuthInfo :=
  mkAuthInfo false None
    [mkRule Deny ActPublish None None (mkAclTopic None (Some [MultiWildcard]));
     mkRule Allow ActAll None None (mkAclTopic None (Some [MultiWildcard]))].

Lemma acl_first_match_witness :
  publish_acl deny_all_publish (publish_from (mkCodec false false AtMostOnce "a/b" None "x")) true
  = Some (false, Some (HookPublishAclResult (publish_acl_rejected true None))).
Proof.
  destruct (acl_first_match deny_all_publish (mkSubscribe "a" opts_default)
              (publish_from (mkCodec false false AtMostOnce "a/b" None "x")) true eq_refl) as [_ ->].
  vm_compute. reflexivity.
Defined.

(** A rule as its documentation writes it. *)
Definition permission_name (p : Permission) : string := match p with Allow => "allow" | Deny => "deny" end.

Definition action_name (a : Action) : string :=
  match a with ActAll => "all" | ActPublish => "publish" | ActSubscribe => "subscribe" end.

Section written.
Context {J : Type} `{JsonValue J} (qos_try_from : Z -> result string QoS).

Record written (obj : string -> option J) (perm : Permission) (act : Action) (qos : option (list QoS))
    (retain : option bool) (t : string) : Prop := {
  w_permission : (obj "permission" ≫= as_str : option string) = Some (permission_name perm);
  w_action : (obj "action" ≫= as_str : option string) = Some (action_name act);
  w_qos : match obj "qos", qos with
          | Some q, Some qs => exists l : list J, as_array q = Some l /\ omap as_u64 l = map qos_code qs
          | None, None => True
          | _, _ => False
          end;
  w_retain : (obj "retain" ≫= as_bool : option bool) = retain;
  w_topic : (obj "topic" ≫= as_str : option string) = Some t
}.

(** A written rule is read back, and fails only for its topic. *)
Theorem rule_written j obj perm act qos retain t ci :
  (forall q, qos_try_from (qos_code q) = Ok q) -> as_object j = Some obj -> written obj perm act qos retain t ->
  rule_try_from qos_try_from j ci
  = let? t := acl_topic_try_from t ci in Ok (mkRule perm act qos retain t).
Proof.
  intros Hq Ho [Hp Ha Hqos <- Ht]. unfold rule_try_from, string_field. rewrite Ho, Hp, Ha, Ht.
  replace (permission_try_from _) with (Ok perm : result acl_error Permission) by (by destruct perm).
  replace (action_try_from _) with (Ok act : result acl_error Action) by (by destruct act).
  cbn [result_bind]. destruct (obj "qos") as [q|], qos as [qs|]; cbn in Hqos; try done.
  destruct Hqos as (l & Hl & Hn). unfold qos_of_json. rewrite Hl, Hn.
  replace (collect_results _) with (Ok qs : result acl_error (list QoS)); [done|]. symmetry.
  apply collect_results_ok. clear -Hq. induction qs as [|q0 qs IH]; [constructor|]. constructor; [|exact IH].
  unfold qos_of_u64. by rewrite Z.mod_small, Hq by (destruct q0; cbn; lia).
Qed.

(** What is in the list of a rule's levels and is no unsigned integer is
    dropped without an error. *)
Lemma rule_qos_dropped j j' l :
  as_array j = Some l -> as_array j' = Some (List.filter (fun x => isSome (as_u64 x)) l) ->
  qos_of_json qos_try_from j = qos_of_json qos_try_from j'.
Proof.
  intros Hj Hj'. unfold qos_of_json. rewrite Hj, Hj'. do 2 f_equal. clear. induction l as [|x l IH]; [done|].
  cbn. destruct (as_u64 x) as [n|] eqn:Hn; cbn; [|done]. rewrite Hn. by f_equal.
Qed.

End written.

Module AclExample.

(** Documents of strings, integers, arrays and objects. *)
Inductive Doc : Type :=
| DStr (s : string)
| DInt (n : Z)
| DArr (l : list Doc)
| DObj (fields : list (string * Doc)).

Fixpoint doc_get (fields : list (string * Doc)) (k : string) : option Doc :=
  match fields with
  | [] => None
  | (k', v) :: fields' => if String.eqb k' k then Some v else doc_get fields' k
  end.

#[export] Instance doc_value : JsonValue Doc := {|
  as_object := fun d => match d with DObj fields => Some (doc_get fields) | _ => None end;
  as_array := fun d => match d with DArr l => Some l | _ => None end;
  as_u64 := fun d => match d with DInt n => if ((0 <=? n) && (n <? u64_modulus))%Z then Some n else None | _ => None end;
  as_str := fun d => match d with DStr s => Some s | _ => None end;
  as_bool := fun _ => None
|}.

Definition client : ConnectInfo := ConnV3 (Id_from 0 1 "c") None None.

(** A rule that denies publishing at the level "1", written as a string, denies
    nothing; one for the level 256 applies to level 0. *)
Definition denying (q : Doc) : Doc :=
  DObj [("permission", DStr "deny"); ("action", DStr "publish"); ("qos", DArr [q]); ("topic", DStr "#")].

Example denied_levels :
  map (fun j => (fun r => map (fun q => publish_deny_hit r (publish_from (mkCodec false false q "a" None "x")))
                            [AtMostOnce; AtLeastOnce; ExactlyOnce])
                <$> ok_of (rule_try_from deserialize_qos (denying j) client))
      [DInt 1; DStr "1"; DInt 256]
  = [Some [false; true; false]; Some [false; false; false]; Some [true; false; false]].
Proof. by vm_compute. Qed.

Definition a_rule : Doc :=
  DObj [("permission", DStr "allow"); ("action", DStr "all"); ("qos", DArr [DInt 1; DInt 2]);
        ("topic", DStr "a/${clientid}")].

Lemma rule_written_witness :
  rule_try_from deserialize_qos a_rule client
  = Ok (mkRule Allow ActAll (Some [AtLeastOnce; ExactlyOnce]) None (mkAclTopic None (Some [Normal "a"; Normal "c"]))).
Proof.
  erewrite (rule_written deserialize_qos a_rule _ Allow ActAll (Some [AtLeastOnce; ExactlyOnce]) None "a/${clientid}").
  - by vm_compute.
  - by intros [].
  - reflexivity.
  - constructor; cbn; eauto.
Defined.

End AclExample.
