(* ===== verification/Store.v ===== *)
(** * The embedded database as an interface

    The program keeps its tables in redb, a library outside the repository.
    [KvTable] lists the table operations the program calls and [KvLaws] the
    behaviour it relies on, redb's documented one: a table is a finite map,
    iteration visits every row once. [write_txn] is a write transaction: a step
    that fails drops the transaction, which leaves the database as it was.

    The finite maps of stdpp are an instance, used by the witnesses. *)

From S2P Require Import Prelude.

(** Byte strings, [Vec<u8>]: every element is between 0 and 255. *)
Abbreviation Bytes := (list Z).

Definition is_byte (b : Z) : Prop := (0 <= b < 256)%Z.

Class KvTable (T K A : Type) : Type := {
  kv_get : T -> K -> option A;
  kv_insert : T -> K -> A -> T;
  kv_remove : T -> K -> T;
  kv_iter : T -> list (K * A)
}.

Class KvLaws (T K A : Type) `{KvTable T K A} : Prop := {
  kv_get_insert t k a : kv_get (kv_insert t k a) k = Some a;
  kv_get_insert_ne t k k' a : k <> k' -> kv_get (kv_insert t k a) k' = kv_get t k';
  kv_get_remove t k : kv_get (kv_remove t k) k = None;
  kv_get_remove_ne t k k' : k <> k' -> kv_get (kv_remove t k) k' = kv_get t k';
  kv_iter_elem t k a : (k, a) ∈ kv_iter t <-> kv_get t k = Some a;
  kv_iter_nodup t : NoDup (kv_iter t).*1
}.

#[export] Instance gmap_kv {K A} `{Countable K} : KvTable (gmap K A) K A := {
  kv_get t k := t !! k;
  kv_insert t k a := <[k := a]> t;
  kv_remove t k := delete k t;
  kv_iter t := map_to_list t
}.

#[export] Instance gmap_kv_laws {K A} `{Countable K} : KvLaws (gmap K A) K A.
Proof.
  split; simpl; intros.
  - apply lookup_insert_eq.
  - by apply lookup_insert_ne.
  - apply lookup_delete_eq.
  - by apply lookup_delete_ne.
  - apply elem_of_map_to_list.
  - apply NoDup_fst_map_to_list.
Qed.

(** ** Transactions *)

(** Which steps of a transaction fail: opening the transaction, opening or
    accessing a table, committing. *)
Record TxnFaults (E : Type) : Type := mkFaults {
  begin_fault : option E;
  table_fault : option E;
  commit_fault : option E
}.
Arguments mkFaults {E}.
Arguments begin_fault {E}.
Arguments table_fault {E}.
Arguments commit_fault {E}.

Definition no_faults {E} : TxnFaults E := mkFaults None None None.

Definition write_txn {E S A} (io : TxnFaults E) (f : S -> result E (A * S)) (s : S)
    : result E A * S :=
  match begin_fault io with
  | Some e => (Err e, s)
  | None =>
      match table_fault io with
      | Some e => (Err e, s)
      | None =>
          match f s with
          | Err e => (Err e, s)
          | Ok (a, s') =>
              match commit_fault io with
              | Some e => (Err e, s)
              | None => (Ok a, s')
              end
          end
      end
  end.

Definition read_txn {E S A} (io : TxnFaults E) (f : S -> result E A) (s : S) : result E A :=
  match begin_fault io with
  | Some e => Err e
  | None =>
      match table_fault io with
      | Some e => Err e
      | None => f s
      end
  end.

(** ** Lemmas *)

Lemma kv_get_insert_dec {T K A} `{KvLaws T K A, EqDecision K} t k k' a :
  kv_get (kv_insert t k a) k' = if decide (k = k') then Some a else kv_get t k'.
Proof. case_decide; subst; [apply kv_get_insert | by apply kv_get_insert_ne]. Qed.

Lemma kv_get_remove_dec {T K A} `{KvLaws T K A, EqDecision K} t k k' :
  kv_get (kv_remove t k) k' = if decide (k = k') then None else kv_get t k'.
Proof. case_decide; subst; [apply kv_get_remove | by apply kv_get_remove_ne]. Qed.

(** A transaction commits the whole of its effect or none of it. *)
Lemma write_txn_spec {E S A} (io : TxnFaults E) (f : S -> result E (A * S)) s :
  (exists a s', f s = Ok (a, s') /\ write_txn io f s = (Ok a, s'))
  \/ (exists e, write_txn io f s = (Err e, s)).
Proof.
  unfold write_txn. destruct (begin_fault io); [by eauto|].
  destruct (table_fault io); [by eauto|].
  destruct (f s) as [[a s']|e]; [|by eauto].
  destruct (commit_fault io); by eauto.
Qed.

Lemma write_txn_no_faults {E S A} (f : S -> result E (A * S)) s :
  write_txn no_faults f s
  = match f s with Ok (a, s') => (Ok a, s') | Err e => (Err e, s) end.
Proof. unfold write_txn. simpl. by destruct (f s) as [[a s']|e]. Qed.
