(* ===== verification/Config.v ===== *)
(** * Configuration: [src/config.rs]

    The configuration records with their defaults, and [Config::load]: the
    TOML file if it exists, the defaults otherwise, then the environment
    overrides. The file system, the environment and the TOML parser are
    arguments. *)

From S2P Require Import Prelude Strs.
Local Open Scope string_scope.
Local Open Scope list_scope.
Local Open Scope Z_scope.

(** [SocketAddr], host and port. *)
Record SocketAddr : Type := mkAddr { ip : string; port : Z }.

Record MqttConfig : Type := mkMqtt {
  tcp_addr : SocketAddr;
  ws_addr : SocketAddr;
  message_expiry_secs : Z;
  max_mqueue_len : Z;
  max_inflight : Z;
  busy_check : bool;
  persist_messages : bool
}.

Record ApiConfig : Type := mkApi { api_addr : SocketAddr; api_token : option string }.

Record DbConfig : Type := mkDbConfig { url : string }.

Record FanoutConfig : Type := mkFanout { auto_subscribe : bool; fanout_qos : Z }.

Record ClusterConfig : Type := mkCluster {
  cluster_enabled : bool;
  cluster_node_id : Z;
  grpc_laddr : SocketAddr;
  raft_laddr : string;
  node_grpc_addrs : list string;
  raft_peer_addrs : list string;
  leader_id : Z;
  join_max_retries : Z;
  join_retry_secs : Z
}.

Record AclConfig : Type := mkAcl {
  acl_enabled : bool;
  publish_topics : list string;
  fanout_prefixes : list string;
  admin_prefixes : list string
}.

Record Config : Type := mkConfig {
  mqtt : MqttConfig;
  api : ApiConfig;
  db : DbConfig;
  fanout : FanoutConfig;
  acl : AclConfig;
  cluster : ClusterConfig
}.

(** ** Defaults *)

Definition ClusterConfig_default : ClusterConfig :=
  mkCluster false 1 (mkAddr "0.0.0.0" 5363) "0.0.0.0:6003" [] [] 1 10 5.

Definition MqttConfig_default : MqttConfig :=
  mkMqtt (mkAddr "0.0.0.0" 1883) (mkAddr "0.0.0.0" 8083) (20 * 60) 1000 65535 false false.

Definition ApiConfig_default : ApiConfig := mkApi (mkAddr "0.0.0.0" 8090) None.

Definition DbConfig_default : DbConfig := mkDbConfig "redb://data/users.redb".

Definition FanoutConfig_default : FanoutConfig := mkFanout false 1.

Definition AclConfig_default : AclConfig :=
  mkAcl true ["chatsync"; "updates"] ["fanout"] ["adminfanout"].

Definition Config_default : Config :=
  mkConfig MqttConfig_default ApiConfig_default DbConfig_default FanoutConfig_default
    AclConfig_default ClusterConfig_default.

(** ** Loading *)

Inductive load_error : Type :=
| ReadingFailed (path : string)
| ParsingFailed (path : string)
| NodeIdInvalid.

Section load.
(** [toml::from_str]. *)
Context (toml_from_str : string -> option Config).
(** The file system: [None] where no file exists, [Some None] where reading
    fails. *)
Context (fs : string -> option (option string)).
(** [std::env::var(..).ok()]. *)
Context (env : string -> option string).

Definition set_token (token : string) (c : Config) : Config :=
  mkConfig (mqtt c) (mkApi (api_addr (api c)) (Some token)) (db c) (fanout c) (acl c) (cluster c).

Definition set_url (u : string) (c : Config) : Config :=
  mkConfig (mqtt c) (api c) (mkDbConfig u) (fanout c) (acl c) (cluster c).

Definition set_node_id (n : Z) (c : Config) : Config :=
  let k := cluster c in
  mkConfig (mqtt c) (api c) (db c) (fanout c) (acl c)
    (mkCluster (cluster_enabled k) n (grpc_laddr k) (raft_laddr k) (node_grpc_addrs k)
       (raft_peer_addrs k) (leader_id k) (join_max_retries k) (join_retry_secs k)).

Definition load (path : string) : result load_error Config :=
  let? cfg :=
    match fs path with
    | Some (Some raw) =>
        match toml_from_str raw with
        | Some cfg => Ok cfg
        | None => Err (ParsingFailed path)
        end
    | Some None => Err (ReadingFailed path)
    | None => Ok Config_default
    end in
  let cfg := match env "API_TOKEN" with Some token => set_token token cfg | None => cfg end in
  let cfg := match env "DB_URL" with Some u => set_url u cfg | None => cfg end in
  match env "NODE_ID" with
  | Some id =>
      match parse_uint usize_max id with
      | Some n => Ok (set_node_id n cfg)
      | None => Err NodeIdInvalid
      end
  | None => Ok cfg
  end.

(** The base configuration, before the environment. *)
Definition base (path : string) : result load_error Config :=
  match fs path with
  | Some (Some raw) =>
      match toml_from_str raw with Some cfg => Ok cfg | None => Err (ParsingFailed path) end
  | Some None => Err (ReadingFailed path)
  | None => Ok Config_default
  end.

(** the environment overrides exactly the API token, the database URL and
    the node id of the file's configuration, and a node id that is not an
    unsigned integer is an error. *)
Theorem load_overrides path c :
  base path = Ok c ->
  load path
  = match env "NODE_ID" with
    | Some id =>
        match parse_uint usize_max id with
        | Some n =>
            Ok (mkConfig (mqtt c)
                  (mkApi (api_addr (api c)) (or_else (env "API_TOKEN") (api_token (api c))))
                  (mkDbConfig (default (url (db c)) (env "DB_URL")))
                  (fanout c) (acl c) (cluster (set_node_id n c)))
        | None => Err NodeIdInvalid
        end
    | None =>
        Ok (mkConfig (mqtt c)
              (mkApi (api_addr (api c)) (or_else (env "API_TOKEN") (api_token (api c))))
              (mkDbConfig (default (url (db c)) (env "DB_URL")))
              (fanout c) (acl c) (cluster c))
    end.
Proof.
  unfold base, load. intros ->. simpl. destruct c as [m [a t] [u] f ac k].
  destruct (env "API_TOKEN"), (env "DB_URL"), (env "NODE_ID") as [id|];
    try destruct (parse_uint usize_max id); reflexivity.
Qed.

(** A file that cannot be read or parsed is an error, whatever the
    environment. *)
Lemma load_base_error path e : base path = Err e -> load path = Err e.
Proof. unfold base, load. by intros ->. Qed.

End load.

Lemma load_overrides_witness :
  load (fun _ => None) (fun _ => None)
    (fun k => if decide (k = "NODE_ID") then Some "3" else None) "config.toml"
  = Ok (set_node_id 3 Config_default).
Proof.
  rewrite (load_overrides (fun _ => None) (fun _ => None)
    (fun k => if decide (k = "NODE_ID") then Some "3" else None) "config.toml" Config_default eq_refl).
  vm_compute. reflexivity.
Defined.

(** The node id 0 is accepted, although the error text asks for a positive
    integer. *)
Lemma load_accepts_zero_node_id toml fs path c :
  base toml fs path = Ok c ->
  load toml fs (fun k => if decide (k = "NODE_ID") then Some "0" else None) path
  = Ok (set_node_id 0 c).
Proof. unfold base, load. by intros ->. Qed.
