(* ===== verification/LoadGen.v ===== *)
(** * What the load generators share: [src/bin/perf.rs], [src/bin/perf_resources.rs]

    The two programs repeat the same code for their settings, for creating and
    deleting users and for connecting a subscriber. This file has the pieces
    that are the same in both; [Perf] and [PerfResources] have the rest.

    The MQTT client library is an argument: connecting gives an [Attempt], the
    instant it starts and what successive [poll()] calls of its event loop
    return and when. An event loop that ends in the model is one that stays
    silent for ever. Instants are nanoseconds of the monotonic clock, [wall]
    reads the system clock at an instant. Errors are [anyhow] chains, the
    outermost message first; a panic is told apart from an error. Allocations
    are taken to succeed. *)

From S2P Require Import Prelude Strs Config.
From Stdlib Require Import Ascii.
Local Open Scope string_scope.
Local Open Scope list_scope.
Local Open Scope Z_scope.

(** [anyhow::Error]. *)
Abbreviation error := (list string).

Definition context {A} (msg : string) (r : result error A) : result error A :=
  match r with Ok a => Ok a | Err e => Err (msg :: e) end.

(** How a run that does not finish ends. *)
Inductive Stop : Type :=
| Failed (e : error)
| Panicked (msg : string).

Definition fail_on {A} (r : result error A) : result Stop A :=
  match r with Ok a => Ok a | Err e => Err (Failed e) end.

(** ** Settings *)

Definition env_or (env : string -> option string) (key default_ : string) : string :=
  default default_ (env key).

(** [s.parse()] of an integer type with [max], as a [Result]; the message of
    [ParseIntError] is given by the text that failed. *)
Definition parse_int (max : Z) (s : string) : result error Z :=
  match parse_uint max s with
  | Some n => Ok n
  | None => Err [("not an integer in range: " ++ s)%string]
  end.

Definition node_addr (s : string) : result error (string * Z) :=
  match rsplit_once ":" (trim s) with
  | None => Err [("bad node addr: " ++ s)%string]
  | Some (h, p) => let? port := parse_int u16_max p in Ok (h, port)
  end.

Definition parse_nodes (env : string -> option string) : result error (list (string * Z)) :=
  collect_results
    (map node_addr
       (split_on "," (env_or env "PERF_NODES" "127.0.0.1:1883,127.0.0.1:1884,127.0.0.1:1885"))).

Definition parse_counts (msg : string) (s : string) : result error (list Z) :=
  collect_results (map (fun p => context msg (parse_int usize_max (trim p))) (split_on "," s)).

(** ** HTTP *)

Inductive Method : Type := POST | DELETE.

(** A request: for a creation the fields of its JSON body. *)
Record NewUserBody : Type := mkNewUser {
  nu_username : string;
  nu_userid : string;
  nu_password : string;
  nu_superuser : bool
}.

Record HttpRequest : Type := mkHttp {
  method : Method;
  http_url : string;
  bearer_token : string;
  json : option NewUserBody
}.

Definition create_request (api token username userid : string) (superuser : bool) : HttpRequest :=
  mkHttp POST (api ++ "/api/v1/users")%string token
    (Some (mkNewUser username userid "perf-pass" superuser)).

Definition delete_request (api token username : string) : HttpRequest :=
  mkHttp DELETE (api ++ "/api/v1/users/" ++ username)%string token None.

(** The services of a run besides the brokers' MQTT ports: the management API,
    the file system, and the time provisioning takes. *)
Record Host : Type := mkHost {
  environment : string -> option string;
  http : HttpRequest -> result error Z;
  show_status : Z -> string;
  write_file : string -> result error unit;
  wall_at_start : Z;
  provisioning : Z
}.

(** ** The MQTT client *)

(** [ConnAck]: refused with the code's text, or accepted; [SubAck]: for every
    filter, whether the code is [Success(_)]. *)
Inductive Packet : Type :=
| ConnAck (refused : option string)
| SubAck (success : list bool)
| Publish (payload : string)
| OtherPacket.

Inductive Event : Type :=
| Incoming (p : Packet)
| OutgoingDisconnect
| OutgoingOther.

Abbreviation EventLoop := (list (Z * result string Event)).

(** The options of a connection: host and port, client id, user name (the
    password is always the same). *)
Record Login : Type := mkLogin { login_node : string * Z; login_id : string; login_user : string }.

Record Attempt : Type := mkAttempt { started : Z; events : EventLoop }.

Definition secs (n : Z) : Z := n * 10 ^ 9.

(** [timeout(30 s, async { loop { match eventloop.poll().await .. } })]:
    [decide] ends the loop on a packet, a failed poll ends it with [failed].
    Returns the instant it ends and what the event loop has left. *)
Fixpoint poll_until (decide : Packet -> option (result error unit)) (failed : string -> error)
    (elapsed : string) (deadline : Z) (el : EventLoop) : result error (Z * EventLoop) :=
  let timed_out := Err [elapsed; "deadline has elapsed"] in
  match el with
  | [] => timed_out
  | (t, ev) :: el' =>
      if deadline <? t then timed_out
      else
        match ev with
        | Ok (Incoming p) =>
            match decide p with
            | Some (Ok _) => Ok (t, el')
            | Some (Err e) => Err e
            | None => poll_until decide failed elapsed deadline el'
            end
        | Ok _ => poll_until decide failed elapsed deadline el'
        | Err e => Err (failed e)
        end
  end.

Definition try_connect (a : Attempt) : result error (Z * EventLoop) :=
  poll_until
    (fun p => match p with
              | ConnAck (Some code) => Some (Err [("rejected: " ++ code)%string])
              | ConnAck None => Some (Ok tt)
              | _ => None
              end)
    (fun e => [("connect failed: " ++ e)%string])
    "connack timeout" (started a + secs 30) (events a).

(** The subscription made at instant [now]; [subscribed] is the result of
    handing it to the client. *)
Definition await_suback (client_id : string) (subscribed : result error unit) (now : Z)
    (el : EventLoop) : result error (Z * EventLoop) :=
  let? _ := subscribed in
  poll_until
    (fun p => match p with
              | SubAck codes =>
                  match codes with
                  | true :: _ => Some (Ok tt)
                  | _ => Some (Err [(client_id ++ " subscribe denied")%string])
                  end
              | _ => None
              end)
    (fun e => [(client_id ++ " suback failed: " ++ e)%string])
    "suback timeout" (now + secs 30) el.

(** What a subscriber's connections do: the attempt of each number, and
    whether the client takes the subscription. *)
Record Peer : Type := mkPeer {
  attempts : Z -> Attempt;
  subscribed : result error unit
}.

(** The qualities of service the programs publish with. *)
Inductive QoS : Type := AtLeastOnce | ExactlyOnce.

(** What the program does besides returning: pauses, output, the messages given
    to the publishers, commands run, publishing tasks started for topics, the
    flag that keeps them running, requests, files. *)
Inductive Action : Type :=
| Sleep (ms : Z)
| Log (line : string)
| Print (line : string)
| Publishing (messages : list (string * string))
| Exec (args : list string)
| Spawn (qos : QoS) (topics : list string)
| Running (on : bool)
| Http (r : HttpRequest)
| Write (path contents : string).

Abbreviation Run := (M (list Action)).

Definition act (a : Action) : Run unit := emit a.

(** The answer to a creation: the status, or the error of [send]. *)
Definition created (h : Host) (username : string) (resp : result error Z) : result error unit :=
  let? status := resp in
  if (status =? 201) || (status =? 409) then Ok tt
  else Err [("creating " ++ username ++ ": " ++ show_status h status)%string].

(** [create_user]. *)
Definition create_user (h : Host) (api token username userid : string) (superuser : bool)
    : Run (result error unit) :=
  let r := create_request api token username userid superuser in
  let! _ := act (Http r) in
  ret (created h username (http h r)).

(** [delete_user]: the answer is ignored. *)
Definition delete_user (h : Host) (api token username : string) : Run unit :=
  act (Http (delete_request api token username)).

(** A task for each of [l], awaited in order: all of them run, and the first
    error in that order is the result. *)
Fixpoint join_all {A} (task : A -> Run (result error unit)) (l : list A) : Run (result error unit) :=
  match l with
  | [] => ret (Ok tt)
  | a :: l' =>
      let! r := task a in
      let! rs := join_all task l' in
      ret (let? _ := r in rs)
  end.

Fixpoint for_each {A} (task : A -> Run unit) (l : list A) : Run unit :=
  match l with
  | [] => ret tt
  | a :: l' => let! _ := task a in for_each task l'
  end.

(** [fs::write(path, contents)]. *)
Definition write (h : Host) (path contents : string) : Run (result error unit) :=
  let! _ := act (Write path contents) in ret (write_file h path).

Definition lift {A} (m : Run (result error A)) : Run (result Stop A) :=
  let! r := m in ret (fail_on r).

(** [format!("{:x}", now_nanos() / 1_000_000)]. *)
Definition run_id_of (h : Host) : string := show_hex (wall_at_start h / 10 ^ 6).

(** [*counts.iter().max().unwrap_or(&0)]; the counts are not negative. *)
Definition max_of (counts : list Z) : Z := foldr Z.max 0 counts.

Definition max_attempts : Z := 8.

(** The loop over the attempts in [l]; [unreachable!()] after it. *)
Fixpoint connect_loop (client_id : string) (p : Peer) (l : list Z)
    : Run (result Stop (Z * EventLoop)) :=
  match l with
  | [] => ret (Err (Panicked "internal error: entered unreachable code"))
  | attempt :: l' =>
      match try_connect (attempts p attempt) with
      | Ok (now, el) => ret (fail_on (await_suback client_id (subscribed p) now el))
      | Err e =>
          if attempt <? max_attempts then
            let! _ := if 3 <=? attempt
                      then act (Log (client_id ++ " connect attempt " ++ show_uint attempt ++ " failed ("
                                     ++ default "" (head e) ++ "), retrying"))
                      else ret tt in
            let! _ := act (Sleep (500 * attempt)) in
            connect_loop client_id p l'
          else
            ret (Err (Failed ((client_id ++ " gave up after " ++ show_uint max_attempts ++ " attempts")%string :: e)))
      end
  end.

(** [connect_subscriber] up to the spawn of the receiving task: what is left of
    the event loop is what that task will see. *)
Definition connect_subscriber (client_id : string) (p : Peer) : Run (result Stop (Z * EventLoop)) :=
  connect_loop client_id p (map Z.of_nat (seq 1 (Z.to_nat max_attempts))).

(** The receiving task: the publishes it counts, with their instant. *)
Fixpoint receive (el : EventLoop) : list (Z * string) :=
  match el with
  | [] => []
  | (t, ev) :: el' =>
      match ev with
      | Ok (Incoming (Publish payload)) => (t, payload) :: receive el'
      | Ok OutgoingDisconnect => []
      | Ok _ => receive el'
      | Err _ => []
      end
  end.

(** [delivered.load()] at instant [now]: every task has added one for each
    publish received by then. *)
Definition delivered_at (now : Z) (boxes : list EventLoop) : Z :=
  Z.of_nat (length (filter (fun d => (fst d <= now)%Z) (concat (map receive boxes)))).

(** ** Work shared out *)

(** [(n + k - 1) / k] on [usize]; [None]: division by zero. *)
Definition ceil_div (n k : Z) : option Z :=
  if k =? 0 then None else Some (wrap_u64 (n + k - 1) / k).

(** The user and the node of subscriber [i]. *)
Definition user_of (devices_per_user i : Z) : Z := i / devices_per_user.

Definition node_of {A} (nodes : list A) (i : Z) : option A :=
  nodes !! Z.to_nat (i mod Z.of_nat (length nodes)).

Definition username (run_id : string) (i : Z) : string := ("tok-" ++ run_id ++ "-" ++ show_uint i)%string.
Definition userid (run_id : string) (i : Z) : string := ("uid-" ++ run_id ++ "-" ++ show_uint i)%string.
Definition chat_topic (uid : string) : string := ("chat/" ++ uid ++ "/m/all")%string.

(** [0..n]. *)
Definition range (n : Z) : list Z := map Z.of_nat (seq 0 (Z.to_nat n)).

(** ** Connecting *)

Definition sleep_of (a : Action) : option Z := match a with Sleep ms => Some ms | _ => None end.

(** The pauses of a run, in milliseconds. *)
Definition sleeps (tr : list Action) : list Z := omap sleep_of tr.

(** The first attempt of [l] that is accepted; before it only failures. *)
Inductive first_accepted (p : Peer) : list Z -> Z -> Z * EventLoop -> Prop :=
| fa_now a l r : try_connect (attempts p a) = Ok r -> first_accepted p (a :: l) a r
| fa_later a l k r e :
    try_connect (attempts p a) = Err e -> first_accepted p l k r -> first_accepted p (a :: l) k r.

Lemma sleeps_app tr tr' : sleeps (tr ++ tr') = sleeps tr ++ sleeps tr'.
Proof. apply omap_app_list. Qed.

(** One failed attempt that is not the last one. *)
Lemma connect_loop_retry client_id p a l e tr :
  try_connect (attempts p a) = Err e -> a < max_attempts ->
  exists tr', sleeps tr' = sleeps tr ++ [500 * a]
    /\ connect_loop client_id p (a :: l) tr = connect_loop client_id p l tr'.
Proof.
  intros He Ha. cbn [connect_loop]. rewrite He. destruct (Z.ltb_spec a max_attempts); [|lia].
  unfold bind. destruct (3 <=? a); cbn [act emit ret].
  - eexists. split; [|reflexivity]. rewrite !sleeps_app. cbn. by rewrite app_nil_r.
  - eexists. split; [|reflexivity]. by rewrite sleeps_app.
Qed.

Lemma connect_loop_accepted client_id p l k r :
  first_accepted p l k r -> Forall (fun a => a < max_attempts) (take (length l - 1) l) ->
  forall tr, exists tr', connect_loop client_id p l tr
    = (fail_on (await_suback client_id (subscribed p) (fst r) (snd r)), tr')
    /\ exists n, l !! n = Some k /\ sleeps tr' = sleeps tr ++ map (Z.mul 500) (take n l).
Proof.
  induction 1 as [a l [t el] Hr|a l k r e He Hf IH]; intros Hl tr.
  - cbn [connect_loop]. rewrite Hr. eexists. split; [done|]. exists 0%nat. split; [done|]. by rewrite app_nil_r.
  - assert (exists b l', l = b :: l') as (b & l' & ->) by (inversion Hf; eauto).
    cbn in Hl. apply Forall_cons in Hl as [Ha Hl].
    specialize (IH ltac:(cbn; rewrite Nat.sub_0_r; exact Hl)).
    destruct (connect_loop_retry client_id p a (b :: l') e tr He Ha) as (tr1 & Hs1 & ->).
    destruct (IH tr1) as (tr' & -> & n & Hn & Hs).
    eexists. split; [done|]. exists (S n). split; [done|]. by rewrite Hs, Hs1, <- app_assoc.
Qed.

Lemma connect_loop_gave_up client_id p l :
  Forall (fun a => exists e, try_connect (attempts p a) = Err e) (l ++ [max_attempts]) ->
  Forall (fun a => a < max_attempts) l ->
  forall tr, exists e tr', try_connect (attempts p max_attempts) = Err e
    /\ connect_loop client_id p (l ++ [max_attempts]) tr
       = (Err (Failed ((client_id ++ " gave up after 8 attempts")%string :: e)), tr')
    /\ sleeps tr' = sleeps tr ++ map (Z.mul 500) l.
Proof.
  induction l as [|a l IH]; intros Hf Hl tr.
  - apply Forall_cons in Hf as [[e He] _]. exists e, tr. cbn [app connect_loop]. rewrite He.
    split; [done|]. split; [done|]. by rewrite app_nil_r.
  - apply Forall_cons in Hf as [[e1 He1] Hf]. apply Forall_cons in Hl as [Ha Hl].
    destruct (connect_loop_retry client_id p a (l ++ [max_attempts]) e1 tr He1 Ha) as (tr1 & Hs1 & E).
    destruct (IH Hf Hl tr1) as (e & tr' & He & E' & Hs). exists e, tr'.
    split; [done|]. split; [exact (eq_trans E E')|]. by rewrite Hs, Hs1, <- app_assoc.
Qed.

Lemma first_accepted_dec p l :
  (exists k r, first_accepted p l k r) \/ Forall (fun a => exists e, try_connect (attempts p a) = Err e) l.
Proof.
  induction l as [|a l IH]; [by right|].
  destruct (try_connect (attempts p a)) as [r|e] eqn:E; [left; eauto using fa_now|].
  destruct IH as [(k & r & Hf)|Hf]; [left; eauto using fa_later | right; constructor; eauto].
Qed.

(** An attempt's answer is taken within its thirty seconds. *)
Lemma poll_until_deadline decide failed elapsed deadline el t rest :
  poll_until decide failed elapsed deadline el = Ok (t, rest) ->
  t <= deadline /\ exists pre ev, el = pre ++ (t, ev) :: rest.
Proof.
  induction el as [|[u ev] el IH]; cbn [poll_until]; [done|].
  destruct (Z.ltb_spec deadline u); [done|]. intros Hr.
  assert (Hrec : poll_until decide failed elapsed deadline el = Ok (t, rest) ->
    t <= deadline /\ exists pre ev', (u, ev) :: el = pre ++ (t, ev') :: rest).
  { intros Hr'. destruct (IH Hr') as (? & pre & ev' & ->). split; [done|]. by exists ((u, ev) :: pre), ev'. }
  destruct ev as [[p| |]|e]; [|eauto..|done]. destruct (decide p) as [[[]|]|]; [|done|eauto].
  injection Hr as <- <-. split; [done|]. by exists [], (Ok (Incoming p)).
Qed.

(** ** Work shared out *)

Lemma ceil_div_spec n k :
  0 <= n -> 0 < k -> n + k <= 2 ^ 64 ->
  exists q, ceil_div n k = Some q /\ n <= q * k /\ q * k < n + k /\ 0 <= q.
Proof.
  intros Hn Hk Hb. exists ((n + k - 1) / k). unfold ceil_div. destruct (Z.eqb_spec k 0); [lia|].
  rewrite wrap_u64_small by (unfold u64_modulus; lia).
  pose proof (Z.div_mod (n + k - 1) k ltac:(lia)). pose proof (Z.mod_pos_bound (n + k - 1) k ltac:(lia)).
  split; [done|]. nia.
Qed.

Lemma range_spec n i : i ∈ range n <-> 0 <= i < n.
Proof.
  unfold range. rewrite list_elem_of_In, in_map_iff. split.
  - intros (k & <- & Hk). apply in_seq in Hk. lia.
  - intros Hi. exists (Z.to_nat i). split; [lia|]. apply in_seq. lia.
Qed.

(** ** Properties *)

(** connecting a subscriber ends after at most eight attempts: with the
    answer to the subscription on the first connection that is accepted, or,
    when none of the eight is, with an error that says so; the pauses before
    attempt [k] are 500, 1000, ... milliseconds, one for every failure. *)
Theorem connect_subscriber_outcome client_id p tr :
  (exists k r, 1 <= k <= 8 /\ first_accepted p [1; 2; 3; 4; 5; 6; 7; 8] k r
     /\ fst (connect_subscriber client_id p tr)
        = fail_on (await_suback client_id (subscribed p) (fst r) (snd r))
     /\ sleeps (snd (connect_subscriber client_id p tr))
        = sleeps tr ++ map (Z.mul 500) (take (Z.to_nat (k - 1)) [1; 2; 3; 4; 5; 6; 7; 8]))
  \/ (Forall (fun a => exists e, try_connect (attempts p a) = Err e) [1; 2; 3; 4; 5; 6; 7; 8]
     /\ exists e, try_connect (attempts p 8) = Err e
     /\ fst (connect_subscriber client_id p tr)
        = Err (Failed ((client_id ++ " gave up after 8 attempts")%string :: e))
     /\ sleeps (snd (connect_subscriber client_id p tr))
        = sleeps tr ++ [500; 1000; 1500; 2000; 2500; 3000; 3500]).
Proof.
  unfold connect_subscriber. change (map Z.of_nat (seq 1 (Z.to_nat max_attempts))) with [1; 2; 3; 4; 5; 6; 7; 8].
  assert (Forall (fun a => a < max_attempts) [1; 2; 3; 4; 5; 6; 7]) as H7
    by (repeat constructor; unfold max_attempts; lia).
  destruct (first_accepted_dec p [1; 2; 3; 4; 5; 6; 7; 8]) as [(k & r & Hf)|Hf].
  - left. destruct (connect_loop_accepted client_id p _ k r Hf H7 tr) as (tr' & -> & n & Hn & Hs).
    apply (lookup_lt_Some _ _ _) in Hn as Hlt. cbn in Hlt.
    assert (k = Z.of_nat n + 1) as -> by (do 8 (destruct n as [|n]; [injection Hn as <-; lia|]); lia).
    exists (Z.of_nat n + 1), r. split; [lia|]. split; [done|]. split; [done|].
    replace (Z.to_nat (Z.of_nat n + 1 - 1)) with n by lia. exact Hs.
  - right. split; [done|].
    destruct (connect_loop_gave_up client_id p [1; 2; 3; 4; 5; 6; 7] Hf H7 tr) as (e & tr' & He & E & Hs).
    exists e. split; [done|]. unfold max_attempts in E. cbn [app] in E. rewrite E. done.
Qed.

(** ** Parsed settings *)

Lemma digits_value_bounds acc max s n : 0 <= acc ->
  digits_value acc max s = Some n -> 0 <= n /\ (acc <= max -> n <= max).
Proof.
  revert acc. induction s as [|c s IH]; intros acc Ha; cbn [digits_value]; [intros [= <-]; lia|].
  destruct (is_ascii_digit c) eqn:Ed; [|done]. destruct (Z.leb_spec (acc * 10 + (Z.of_N (N_of_ascii c) - 48)) max); [|done].
  unfold is_ascii_digit in Ed. apply andb_true_iff in Ed as [E1%N.leb_le _].
  intros Hd. apply IH in Hd as [? ?]; lia.
Qed.

Lemma parse_int_bounds max s n : 0 <= max -> parse_int max s = Ok n -> 0 <= n <= max.
Proof.
  unfold parse_int, parse_uint. intros Hm. destruct (str_is_empty _); [done|].
  destruct (digits_value _ _ _) as [v|] eqn:E; [|done]. intros [= <-].
  apply digits_value_bounds in E as [? ?]; lia.
Qed.

Lemma collect_results_Forall {A B E} (f : A -> result E B) (P : B -> Prop) l l' :
  (forall a b, f a = Ok b -> P b) -> collect_results (map f l) = Ok l' -> Forall P l' /\ length l' = length l.
Proof.
  intros Hf H%collect_results_ok. revert l' H. induction l as [|a l IH]; intros l' H; inversion H; subst; [by split|].
  destruct (IH _ H4) as [? ?]. split; [constructor; eauto | simpl; congruence].
Qed.

Lemma parse_nodes_wf env nodes : parse_nodes env = Ok nodes ->
  nodes <> [] /\ Forall (fun n => 0 <= snd n <= u16_max) nodes.
Proof.
  unfold parse_nodes. intros H. apply (collect_results_Forall _ (fun n => 0 <= snd n <= u16_max)) in H as [HP Hlen].
  - split; [|done]. intros ->. destruct (split_on _ _) eqn:E; [by apply split_on_nonempty in E | done].
  - intros a b. unfold node_addr. destruct (rsplit_once _ _) as [[h p]|]; [|done].
    unfold result_bind. destruct (parse_int u16_max p) as [n|] eqn:E; [|done]. intros [= <-].
    by apply parse_int_bounds in E.
Qed.

Lemma parse_counts_wf msg s counts : parse_counts msg s = Ok counts ->
  counts <> [] /\ Forall (fun c => 0 <= c <= usize_max) counts.
Proof.
  unfold parse_counts. intros H. apply (collect_results_Forall _ (fun c => 0 <= c <= usize_max)) in H as [HP Hlen].
  - split; [|done]. intros ->. destruct (split_on _ _) eqn:E; [by apply split_on_nonempty in E | done].
  - intros a b. unfold context. destruct (parse_int _ _) as [n|] eqn:E; [|done]. intros [= <-].
    by apply parse_int_bounds in E.
Qed.

Lemma result_bind_ok {E A B} (r : result E A) (f : A -> result E B) b :
  result_bind r f = Ok b -> exists a, r = Ok a /\ f a = Ok b.
Proof. destruct r; simpl; [eauto | done]. Qed.

Lemma node_of_Some {A} (nodes : list A) i : nodes <> [] -> 0 <= i -> is_Some (node_of nodes i).
Proof.
  intros Hn Hi. unfold node_of. apply lookup_lt_is_Some.
  assert (0 < Z.of_nat (length nodes)) by (destruct nodes; [done | simpl; lia]).
  pose proof (Z.mod_pos_bound i (Z.of_nat (length nodes)) ltac:(lia)). lia.
Qed.

(** Every subscriber's user has been created: [q] users of [d] devices are
    enough for [n] subscribers. *)
Lemma user_of_bound n d q i : 0 < d -> ceil_div n d = Some q -> n + d <= 2 ^ 64 -> 0 <= i < n ->
  0 <= user_of d i < q.
Proof.
  intros Hd Hq Hb Hi. destruct (ceil_div_spec n d ltac:(lia) Hd Hb) as (q' & Hq' & H1 & H2 & _).
  assert (q' = q) as -> by congruence. unfold user_of. split; [apply Z.div_pos; lia|].
  apply Z.div_lt_upper_bound; lia.
Qed.

(** ** The effects of a run *)

Lemma emits_lift {B A} (f : Action -> option B) (m : Run (result error A)) bs : emits f m bs -> emits f (lift m) bs.
Proof. apply emits_then_ret. Qed.

#[export] Hint Resolve emits_lift : ciqada.

(** Connecting only logs and sleeps. *)
Lemma emits_connect_loop {B} (f : Action -> option B) client_id p l :
  (forall line, f (Log line) = None) -> (forall ms, f (Sleep ms) = None) ->
  emits f (connect_loop client_id p l) [].
Proof.
  intros Hlog Hsleep. induction l as [|a l IH]; cbn [connect_loop]; [apply emits_ret|].
  destruct (try_connect _) as [[now el]|e]; [apply emits_ret|].
  destruct (a <? max_attempts); [|apply emits_ret].
  apply emits_bind_nil; [destruct (3 <=? a); [by apply emits_none | apply emits_ret]|]. intros _.
  apply emits_bind_nil; [by apply emits_none | done].
Qed.

(** The requests. *)
Definition request_of (a : Action) : option HttpRequest := match a with Http r => Some r | _ => None end.

Abbreviation requests tr := (omap request_of tr).
Abbreviation makes := (emits request_of).
Abbreviation quiet m := (makes m []).

Lemma quiet_connect_loop client_id p l : quiet (connect_loop client_id p l).
Proof. by apply emits_connect_loop. Qed.

Lemma quiet_write h path contents : quiet (write h path contents).
Proof. apply emits_bind_nil; [by apply emits_none | auto with ciqada]. Qed.

Lemma makes_create_user h api token username userid superuser :
  makes (create_user h api token username userid superuser)
    [create_request api token username userid superuser].
Proof.
  apply (emits_bind _ _ _ [_] []); [apply (emits_act request_of (Http _)) | intros; apply emits_ret].
Qed.

Lemma makes_delete_user h api token username :
  makes (delete_user h api token username) [delete_request api token username].
Proof. apply (emits_act request_of (Http _)). Qed.

Lemma makes_join_all {A} (task : A -> Run (result error unit)) (r : A -> HttpRequest) l :
  (forall a, makes (task a) [r a]) -> makes (join_all task l) (map r l).
Proof.
  intros Ht. induction l as [|a l IH]; cbn [join_all map]; [apply emits_ret|].
  apply (emits_bind _ _ _ [r a]); [apply Ht|]. intros x. rewrite <- (app_nil_r (map r l)).
  apply emits_bind; [done|]. intros y. apply emits_ret.
Qed.

Lemma makes_for_each {A} (task : A -> Run unit) (r : A -> HttpRequest) l :
  (forall a, makes (task a) [r a]) -> makes (for_each task l) (map r l).
Proof.
  intros Ht. induction l as [|a l IH]; cbn [for_each map]; [apply emits_ret|].
  by apply (emits_bind _ _ _ [r a]).
Qed.

(** ** Runs that do not panic *)

Definition no_panic {A} (r : result Stop A) : Prop := forall msg, r <> Err (Panicked msg).

(** [m] never panics, and what it returns satisfies [P]. *)
Definition safe {A} (m : Run (result Stop A)) (P : A -> Prop) : Prop :=
  forall tr, wp m (fun r _ => no_panic r /\ forall a, r = Ok a -> P a) tr.

Lemma safe_ret {A} (a : A) (P : A -> Prop) : P a -> safe (ret (Ok a)) P.
Proof. intros HP tr. apply wp_ret. split; [by intros msg | by intros ? [= <-]]. Qed.

Lemma safe_failed {A} e (P : A -> Prop) : safe (ret (Err (Failed e))) P.
Proof. intros tr. apply wp_ret. by split. Qed.

Lemma safe_then {A B} (m : Run A) (k : A -> Run (result Stop B)) P :
  (forall a, safe (k a) P) -> safe (bind m k) P.
Proof. intros Hk tr. apply wp_bind. eapply wp_mono; [apply wp_any|]. intros a tr1 _. apply Hk. Qed.

Lemma safe_try {A B} (m : Run (result Stop A)) (k : A -> Run (result Stop B)) P Q :
  safe m P -> (forall a, P a -> safe (k a) Q) -> safe (and_then m k) Q.
Proof.
  intros Hm Hk tr. apply wp_bind. eapply wp_mono; [apply Hm|]. intros [a|e] tr1 [Hp Ha].
  - by apply Hk, Ha.
  - apply wp_ret. split; [|done]. intros msg [= ->]. by apply (Hp msg).
Qed.

Lemma safe_lift {A} (m : Run (result error A)) (P : A -> Prop) :
  (forall tr, wp m (fun r _ => forall a, r = Ok a -> P a) tr) -> safe (lift m) P.
Proof.
  intros Hm tr. apply wp_bind. eapply wp_mono; [apply Hm|]. intros r tr1 Hr. apply wp_ret.
  destruct r; (split; [by intros msg|]); [by intros ? [= <-]; apply Hr | done].
Qed.

Lemma safe_mono {A} (m : Run (result Stop A)) (P Q : A -> Prop) :
  safe m P -> (forall a, P a -> Q a) -> safe m Q.
Proof.
  intros Hm HPQ tr. eapply wp_mono; [apply Hm|]. intros r tr1 [Hp Ha]. split; [done|].
  intros a Ea. by apply HPQ, Ha.
Qed.

(** Connecting a subscriber never panics: the eighth attempt is the last. *)
Lemma connect_loop_safe client_id p l :
  Forall (fun a => a < max_attempts) l -> safe (connect_loop client_id p (l ++ [max_attempts])) (fun _ => True).
Proof.
  induction 1 as [|a l Ha Hl IH]; cbn [app connect_loop]; destruct (try_connect _) as [[now el]|e].
  1, 3: intros tr; apply wp_ret; destruct (await_suback _ _ _ _); by split.
  - rewrite Z.ltb_irrefl. apply safe_failed.
  - destruct (Z.ltb_spec a max_attempts); [|lia]. apply safe_then. intros _. by apply safe_then.
Qed.

Lemma connect_subscriber_safe client_id p : safe (connect_subscriber client_id p) (fun _ => True).
Proof.
  apply (connect_loop_safe client_id p [1; 2; 3; 4; 5; 6; 7]).
  repeat (apply Forall_cons_2; [unfold max_attempts; lia|]). apply Forall_nil_2.
Qed.
