(* ===== verification/Db.v ===== *)
(** * User store and password hashing: [src/db.rs]

    [RedbStore] keeps the user records and the fast password verifiers in two
    tables of one database. Records are stored encoded; the encoder is
    bincode's, an argument with its round trip as a hypothesis. Each trait
    method of [UserStore] is one constructor of [StoreOp]; [exec] is its body,
    a transaction that may fail ([TxnFaults]).

    The abstract store is a map of records and a map of verifiers; [exec]
    refines it, and a failing operation leaves the database as it was.

    The cryptographic functions (argon2, HMAC) are arguments too; what the
    program computes around them, the framing of the MAC input and the
    constant-time comparison, is defined and proved. *)

From stdpp Require Import sorting.
From S2P Require Import Prelude Strs Store.
Local Open Scope string_scope.
Local Open Scope list_scope.

(** ** Data *)

Record UserRecord : Type := mkUser {
  username : string;
  userid : string;
  password_hash : string;
  superuser : bool;
  admin : bool
}.

#[export] Instance UserRecord_eq_dec : EqDecision UserRecord.
Proof. solve_decision. Defined.

(** [NewUser] has the fields of [UserRecord]. *)
Record NewUser : Type := mkNewUser {
  nu_username : string;
  nu_userid : string;
  nu_password_hash : string;
  nu_superuser : bool;
  nu_admin : bool
}.

(** The record the write operations build from a [NewUser]. *)
Definition record_of (u : NewUser) : UserRecord :=
  mkUser (nu_username u) (nu_userid u) (nu_password_hash u) (nu_superuser u) (nu_admin u).

Inductive db_error : Type :=
| StorageError (msg : string)
| EncodeError (msg : string)
| DecodeError (msg : string)
| UnsupportedUrl (url : string).

(** ** Passwords and verifiers *)

(** [db::open]: the part that is not I/O, the path inside the URL. *)
Definition open_path (url : string) : result db_error string :=
  match strip_prefix "redb://" url with
  | Some path => Ok path
  | None => Err (UnsupportedUrl url)
  end.

Definition env_u32 (env : string -> option string) (key : string) (dflt : Z) : Z :=
  default dflt (env key ≫= parse_uint (2 ^ 32 - 1)).

Definition redb_cache_bytes (env : string -> option string) : Z :=
  default (64 * 1024 * 1024)%Z (env "REDB_CACHE_BYTES" ≫= parse_uint usize_max).

Section crypto.
(** Argon2 and HMAC-SHA256: the parameters are checked by [params_new], the
    hash is a PHC string, [phc_parse] is [PasswordHash::new]. *)
Context {Params Phc : Type}.
Context (params_new : Z -> Z -> Z -> result string Params).
Context (argon2_hash : Params -> Bytes -> string -> result string string).
Context (phc_parse : string -> option Phc).
Context (argon2_verify : Phc -> Bytes -> bool).
Context (hmac_sha256 : Bytes -> Bytes -> Bytes).

(** The salt drawn from the operating system's generator is an argument. *)
Definition hash_password (env : string -> option string) (salt password : string)
    : result string string :=
  match params_new (env_u32 env "ARGON2_M_COST" 9216) (env_u32 env "ARGON2_T_COST" 2)
                   (env_u32 env "ARGON2_P_COST" 1) with
  | Err e => Err ("argon2 params: " ++ e)%string
  | Ok params =>
      match argon2_hash params (str_bytes password) salt with
      | Err e => Err ("password hashing failed: " ++ e)%string
      | Ok h => Ok h
      end
  end.

Definition verify_password (stored_hash password : string) : bool :=
  match phc_parse stored_hash with
  | Some parsed => argon2_verify parsed (str_bytes password)
  | None => false
  end.

(** The bytes the three [mac.update] calls feed. *)
Definition mac_input (username password : string) : Bytes :=
  str_bytes username ++ [0%Z] ++ str_bytes password.

(** [for (dst, src) in verifier.iter_mut().zip(out.iter())] into [[0u8; 32]]. *)
Fixpoint copy_zip (dst src : Bytes) : Bytes :=
  match dst, src with
  | _ :: dst', s :: src' => s :: copy_zip dst' src'
  | _, _ => dst
  end.

Definition compute_verifier (pepper : Bytes) (username password : string) : Bytes :=
  copy_zip (replicate 32 0%Z) (hmac_sha256 pepper (mac_input username password)).

(** [diff |= x ^ y] over the zipped bytes. *)
Fixpoint ct_diff (diff : Z) (a b : Bytes) : Z :=
  match a, b with
  | x :: a', y :: b' => ct_diff (Z.lor diff (Z.lxor x y)) a' b'
  | _, _ => diff
  end.

Definition ct_eq (a b : Bytes) : bool :=
  if negb (bool_decide (length a = length b)) then false
  else (ct_diff 0 a b =? 0)%Z.

Definition verify_fast (pepper : Bytes) (username password : string) (stored : Bytes) : bool :=
  ct_eq (compute_verifier pepper username password) stored.

End crypto.

(** ** The store *)

Section redb.
Context {T : Type} `{KvTable T string Bytes}.
(** [bincode::serde::encode_to_vec] and [decode_from_slice]. *)
Context (bincode_encode : UserRecord -> result string Bytes).
Context (bincode_decode : Bytes -> result string UserRecord).

Definition enc (r : UserRecord) : result db_error Bytes :=
  match bincode_encode r with
  | Ok b => Ok b
  | Err e => Err (EncodeError ("bincode encode: " ++ e)%string)
  end.

Definition dec (b : Bytes) : result db_error UserRecord :=
  match bincode_decode b with
  | Ok r => Ok r
  | Err e => Err (DecodeError ("bincode decode: " ++ e)%string)
  end.

(** The two tables [USERS_TABLE] and [VERIFIERS_TABLE]. *)
Record Tables : Type := mkTables { users : T; verifiers : T }.

Definition insert_user (io : TxnFaults db_error) (user : NewUser) (db : Tables)
    : result db_error bool * Tables :=
  let rec := record_of user in
  match enc rec with
  | Err e => (Err e, db)
  | Ok bytes =>
      write_txn io (fun db =>
        if isSome (kv_get (users db) (username rec)) then Ok (false, db)
        else Ok (true, mkTables (kv_insert (users db) (username rec) bytes) (verifiers db))) db
  end.

Definition upsert_user (io : TxnFaults db_error) (user : NewUser) (db : Tables)
    : result db_error unit * Tables :=
  let rec := record_of user in
  match enc rec with
  | Err e => (Err e, db)
  | Ok bytes =>
      write_txn io (fun db =>
        Ok (tt, mkTables (kv_insert (users db) (username rec) bytes) (verifiers db))) db
  end.

(** The [for user in users] loop inside one transaction. *)
Fixpoint upsert_loop (us : list NewUser) (t : T) : result db_error T :=
  match us with
  | [] => Ok t
  | user :: us' =>
      let rec := record_of user in
      let? bytes := enc rec in
      upsert_loop us' (kv_insert t (username rec) bytes)
  end.

Definition upsert_many (io : TxnFaults db_error) (us : list NewUser) (db : Tables)
    : result db_error unit * Tables :=
  match us with
  | [] => (Ok tt, db)
  | _ =>
      write_txn io (fun db =>
        let? t := upsert_loop us (users db) in Ok (tt, mkTables t (verifiers db))) db
  end.

Definition delete_user (io : TxnFaults db_error) (name : string) (db : Tables)
    : result db_error bool * Tables :=
  write_txn io (fun db =>
    let existed := isSome (kv_get (users db) name) in
    Ok (existed, mkTables (kv_remove (users db) name) (kv_remove (verifiers db) name))) db.

(** The loop of [list_users] that decodes every row. *)
Fixpoint decode_rows (rows : list (string * Bytes)) : result db_error (list UserRecord) :=
  match rows with
  | [] => Ok []
  | (_, v) :: rows' =>
      let? rec := dec v in
      let? out := decode_rows rows' in
      Ok (rec :: out)
  end.

(** [out.sort_by(|a, b| a.username.cmp(&b.username))]. *)
Definition user_le (a b : UserRecord) : Prop := String.leb (username a) (username b) = true.

#[export] Instance user_le_dec : RelDecision user_le.
Proof. intros a b. unfold user_le. apply _. Defined.

Definition list_users (io : TxnFaults db_error) (db : Tables)
    : result db_error (list UserRecord) :=
  read_txn io (fun db =>
    let? out := decode_rows (kv_iter (users db)) in
    Ok (merge_sort user_le out)) db.

Definition get_user (io : TxnFaults db_error) (name : string) (db : Tables)
    : result db_error (option UserRecord) :=
  read_txn io (fun db =>
    match kv_get (users db) name with
    | Some v => let? rec := dec v in Ok (Some rec)
    | None => Ok None
    end) db.

Definition get_verifier (io : TxnFaults db_error) (name : string) (db : Tables)
    : result db_error (option Bytes) :=
  read_txn io (fun db => Ok (kv_get (verifiers db) name)) db.

Definition set_verifier (io : TxnFaults db_error) (name : string) (verifier : Bytes) (db : Tables)
    : result db_error unit * Tables :=
  write_txn io (fun db =>
    Ok (tt, mkTables (users db) (kv_insert (verifiers db) name verifier))) db.

(** ** The trait [UserStore] *)

Inductive StoreOp : Type :=
| InsertUser (u : NewUser)
| UpsertUser (u : NewUser)
| UpsertMany (us : list NewUser)
| DeleteUser (name : string)
| ListUsers
| GetUser (name : string)
| GetVerifier (name : string)
| SetVerifier (name : string) (v : Bytes).

Inductive StoreRes : Type :=
| RBool (b : bool)
| RUnit
| RUsers (us : list UserRecord)
| RUser (u : option UserRecord)
| RVerifier (v : option Bytes).

Definition exec (io : TxnFaults db_error) (o : StoreOp) (db : Tables)
    : result db_error StoreRes * Tables :=
  let lift {A} (f : A -> StoreRes) (x : result db_error A * Tables) :=
    (result_map f (fst x), snd x) in
  match o with
  | InsertUser u => lift RBool (insert_user io u db)
  | UpsertUser u => lift (fun _ => RUnit) (upsert_user io u db)
  | UpsertMany us => lift (fun _ => RUnit) (upsert_many io us db)
  | DeleteUser n => lift RBool (delete_user io n db)
  | ListUsers => (result_map RUsers (list_users io db), db)
  | GetUser n => (result_map RUser (get_user io n db), db)
  | GetVerifier n => (result_map RVerifier (get_verifier io n db), db)
  | SetVerifier n v => lift (fun _ => RUnit) (set_verifier io n v db)
  end.

(** ** Specification: two maps *)

Record Spec : Type := mkSpec {
  s_users : gmap string UserRecord;
  s_verifiers : gmap string Bytes
}.

(** The abstract step: the result a call may return and the next state. *)
Definition spec_next (o : StoreOp) (s : Spec) : Spec :=
  match o with
  | InsertUser u =>
      match s_users s !! nu_username u with
      | Some _ => s
      | None => mkSpec (<[nu_username u := record_of u]> (s_users s)) (s_verifiers s)
      end
  | UpsertUser u => mkSpec (<[nu_username u := record_of u]> (s_users s)) (s_verifiers s)
  | UpsertMany us =>
      mkSpec (fold_left (fun m u => <[nu_username u := record_of u]> m) us (s_users s))
             (s_verifiers s)
  | DeleteUser n => mkSpec (delete n (s_users s)) (delete n (s_verifiers s))
  | SetVerifier n v => mkSpec (s_users s) (<[n := v]> (s_verifiers s))
  | _ => s
  end.

Definition spec_result (o : StoreOp) (s : Spec) (r : StoreRes) : Prop :=
  match o with
  | InsertUser u => r = RBool (is_none (s_users s !! nu_username u))
  | DeleteUser n => r = RBool (isSome (s_users s !! n))
  | ListUsers =>
      exists us, r = RUsers us /\ us ≡ₚ (map_to_list (s_users s)).*2 /\ Sorted user_le us
  | GetUser n => r = RUser (s_users s !! n)
  | GetVerifier n => r = RVerifier (s_verifiers s !! n)
  | _ => r = RUnit
  end.

(** The abstraction relation: every row decodes to the record of its key. *)
Definition store_rel (db : Tables) (s : Spec) : Prop :=
  (forall k, match kv_get (users db) k with
        | Some b => exists r, dec b = Ok r /\ s_users s !! k = Some r
        | None => s_users s !! k = None
        end)
  /\ (forall k, kv_get (verifiers db) k = s_verifiers s !! k)
  /\ (forall k r, s_users s !! k = Some r -> username r = k).

End redb.

Arguments Tables T : clear implicits.

(** ** Lemmas: the constant-time comparison and the MAC input *)

Lemma ct_diff_zero diff a b :
  length a = length b -> ct_diff diff a b = 0%Z <-> diff = 0%Z /\ a = b.
Proof.
  revert diff b. induction a as [|x a IH]; intros diff [|y b] Hl; try done; simpl.
  - naive_solver.
  - rewrite IH by (simpl in Hl; lia). rewrite Z.lor_eq_0_iff, Z.lxor_eq_0_iff. naive_solver.
Qed.

Lemma ct_eq_spec a b : ct_eq a b = bool_decide (a = b).
Proof.
  unfold ct_eq. case_bool_decide as Hl; simpl.
  - apply eq_true_iff_eq. rewrite Z.eqb_eq, ct_diff_zero, bool_decide_eq_true by done. naive_solver.
  - symmetry. apply bool_decide_eq_false. by intros ->.
Qed.

Lemma copy_zip_full dst src : length src = length dst -> copy_zip dst src = src.
Proof.
  revert src. induction dst as [|d dst IH]; intros [|x src] Hl; try done.
  simpl. rewrite IH; [done|]. simpl in Hl. lia.
Qed.

Lemma str_bytes_inj s t : str_bytes s = str_bytes t -> s = t.
Proof.
  revert t. induction s as [|c s IH]; intros [|d t]; try done. simpl. intros [= Hc Ht].
  apply N2Z.inj in Hc. apply IH in Ht. subst.
  by rewrite <- (Ascii.ascii_N_embedding c), Hc, Ascii.ascii_N_embedding.
Qed.

(** No byte of the string is 0. *)
Definition nul_free (s : string) : Prop := Forall (fun b => b <> 0%Z) (str_bytes s).

Lemma split_at_nul u u' (p p' : Bytes) :
  Forall (fun b => b <> 0%Z) u -> Forall (fun b => b <> 0%Z) u' ->
  u ++ [0%Z] ++ p = u' ++ [0%Z] ++ p' -> u = u' /\ p = p'.
Proof.
  intros Hu. revert u'. induction Hu as [|b u Hb Hu IH]; intros u' Hu'; destruct Hu' as [|b' u' Hb' Hu'];
    simpl; intros [= ]; try congruence; try done.
  subst. destruct (IH u' Hu') as [-> ->]; done.
Qed.

(** ** Lemmas: the store *)

Section refinement.
Context {T : Type} `{KvLaws T string Bytes}.
Context (bincode_encode : UserRecord -> result string Bytes).
Context (bincode_decode : Bytes -> result string UserRecord).
(** Encoding a record succeeds and decodes to it again. *)
Context (bincode_roundtrip :
  forall r, exists b, bincode_encode r = Ok b /\ bincode_decode b = Ok r).

Local Abbreviation store_rel := (store_rel (T := T) bincode_decode).
Local Abbreviation exec := (exec (T := T) bincode_encode bincode_decode).

Lemma enc_dec r : exists b, enc bincode_encode r = Ok b /\ dec bincode_decode b = Ok r.
Proof.
  destruct (bincode_roundtrip r) as (b & He & Hd). exists b.
  unfold enc, dec. by rewrite He, Hd.
Qed.

Lemma rel_user db s k : store_rel db s -> isSome (kv_get (users db) k) = isSome (s_users s !! k).
Proof.
  intros (Hu & _ & _). specialize (Hu k). destruct (kv_get (users db) k).
  - by destruct Hu as (r & _ & ->).
  - by rewrite Hu.
Qed.

Lemma rel_insert db s r b :
  store_rel db s -> dec bincode_decode b = Ok r ->
  store_rel (mkTables (kv_insert (users db) (username r) b) (verifiers db))
            (mkSpec (<[username r := r]> (s_users s)) (s_verifiers s)).
Proof.
  intros (Hu & Hv & Hk) Hd. repeat split; simpl; [|done|].
  - intros k. rewrite kv_get_insert_dec. case_decide as Heq; subst.
    + exists r. by rewrite lookup_insert_eq.
    + rewrite lookup_insert_ne by done. apply Hu.
  - intros k r'. rewrite lookup_insert_Some. intros [[<- <-]|[_ Hr']]; eauto.
Qed.

Lemma rel_delete db s n :
  store_rel db s ->
  store_rel (mkTables (kv_remove (users db) n) (kv_remove (verifiers db) n))
            (mkSpec (delete n (s_users s)) (delete n (s_verifiers s))).
Proof.
  intros (Hu & Hv & Hk). repeat split; simpl.
  - intros k. rewrite kv_get_remove_dec. case_decide as Heq; subst.
    + by rewrite lookup_delete_eq.
    + rewrite lookup_delete_ne by done. apply Hu.
  - intros k. rewrite kv_get_remove_dec. case_decide as Heq; subst.
    + by rewrite lookup_delete_eq.
    + by rewrite lookup_delete_ne.
  - intros k r. rewrite lookup_delete_Some. naive_solver.
Qed.

Lemma rel_set_verifier db s n v :
  store_rel db s ->
  store_rel (mkTables (users db) (kv_insert (verifiers db) n v))
            (mkSpec (s_users s) (<[n := v]> (s_verifiers s))).
Proof.
  intros (Hu & Hv & Hk). repeat split; simpl; [done| |done].
  intros k. rewrite kv_get_insert_dec, lookup_insert. case_decide; [done|]. apply Hv.
Qed.

Lemma rel_upsert_loop us db s :
  store_rel db s ->
  exists t, upsert_loop bincode_encode us (users db) = Ok t
    /\ store_rel (mkTables t (verifiers db))
         (mkSpec (fold_left (fun m u => <[nu_username u := record_of u]> m) us (s_users s))
                 (s_verifiers s)).
Proof.
  revert db s. induction us as [|u us IH]; intros db s Hrel; simpl.
  - exists (users db). split; [done|]. by destruct db, s.
  - destruct (enc_dec (record_of u)) as (b & -> & Hd). simpl.
    apply (IH _ _ (rel_insert db s (record_of u) b Hrel Hd)).
Qed.

Lemma rel_decode_rows db s (rows : list (string * Bytes)) :
  store_rel db s -> (forall k b, (k, b) ∈ rows -> kv_get (users db) k = Some b) ->
  exists rs, decode_rows bincode_decode rows = Ok rs
    /\ Forall2 (fun row r => s_users s !! row.1 = Some r) rows rs.
Proof.
  intros Hrel. induction rows as [|[k b] rows IH]; intros Hrows; simpl.
  - exists []. by constructor.
  - destruct Hrel as (Hu & Hrest). pose proof (Hu k) as Hk.
    rewrite (Hrows k b) in Hk by (left; done). destruct Hk as (r & -> & Hr). simpl.
    destruct IH as (rs & -> & HF); [intros k' b' Hin; apply Hrows; by right|].
    exists (r :: rs). split; [done|]. by constructor.
Qed.

(** The rows of the user table are the values of the abstract map. *)
Lemma rel_iter db s rs :
  store_rel db s ->
  Forall2 (fun row r => s_users s !! row.1 = Some r) (kv_iter (users db)) rs ->
  rs ≡ₚ (map_to_list (s_users s)).*2.
Proof.
  intros Hrel HF. pose proof (kv_iter_nodup (users db)) as Hnd.
  assert (zip (kv_iter (users db)).*1 rs ≡ₚ map_to_list (s_users s)) as Hperm.
  { apply NoDup_Permutation; [| apply NoDup_map_to_list |].
    - apply (NoDup_fmap_1 fst). rewrite fst_zip; [done|].
      rewrite length_fmap. by rewrite (Forall2_length _ _ _ HF).
    - intros [k r]. rewrite elem_of_map_to_list. split.
      + intros (i & Hi)%list_elem_of_lookup.
        apply lookup_zip_Some in Hi as [Hk Hr]. apply list_lookup_fmap_Some in Hk as ([k' b] & -> & Hkb).
        by apply (Forall2_lookup_lr _ _ _ _ _ _ HF Hkb Hr).
      + intros Hr. destruct Hrel as (Hu & _ & _). pose proof (Hu k) as Hk.
        destruct (kv_get (users db) k) as [b|] eqn:Hb; [|congruence].
        apply kv_iter_elem, list_elem_of_lookup in Hb as (i & Hi).
        destruct (Forall2_lookup_l _ _ _ _ _ HF Hi) as (r' & Hr' & Hs). simpl in Hs.
        apply list_elem_of_lookup. exists i. apply lookup_zip_Some. split; [|congruence].
        by rewrite list_lookup_fmap, Hi. }
  rewrite <- Hperm, snd_zip; [done|]. rewrite length_fmap. by rewrite (Forall2_length _ _ _ HF).
Qed.

#[export] Instance user_le_total : Total user_le.
Proof. intros a b. apply String.leb_total. Qed.

Lemma list_users_spec db s :
  store_rel db s ->
  exists us, list_users bincode_decode no_faults db = Ok us
    /\ us ≡ₚ (map_to_list (s_users s)).*2 /\ Sorted user_le us.
Proof.
  intros Hrel. destruct (rel_decode_rows db s (kv_iter (users db)) Hrel) as (rs & Hd & HF).
  { intros k b. apply kv_iter_elem. }
  unfold list_users, read_txn. simpl. rewrite Hd. simpl. eexists. split; [done|]. split.
  - rewrite merge_sort_Permutation. by apply (rel_iter db).
  - apply (Sorted_merge_sort user_le).
Qed.

Lemma read_txn_fault {S A} io (f : S -> result db_error A) s :
  read_txn io f s = read_txn no_faults f s \/ exists e, read_txn io f s = Err e.
Proof.
  unfold read_txn. destruct (begin_fault io); [by eauto|].
  destruct (table_fault io); by eauto.
Qed.

Lemma write_txn_fault {S A} io (f : S -> result db_error (A * S)) s :
  write_txn io f s = write_txn no_faults f s \/ exists e, write_txn io f s = (Err e, s).
Proof.
  unfold write_txn. destruct (begin_fault io); [by eauto|].
  destruct (table_fault io); [by eauto|].
  destruct (f s) as [[a s']|e]; [|by eauto]. simpl. destruct (commit_fault io); by eauto.
Qed.

(** A fault makes the call return an error without touching the tables. *)
Lemma exec_fault io o db :
  exec io o db = exec no_faults o db \/ exists e, exec io o db = (Err e, db).
Proof.
  destruct o; simpl; unfold insert_user, upsert_user, upsert_many, delete_user, list_users,
    get_user, get_verifier, set_verifier.
  1,2: destruct (enc bincode_encode _); [|by left].
  3: destruct us; [by left|].
  all: try match goal with
  | |- context [write_txn ?i ?f ?d] =>
      destruct (write_txn_fault i f d) as [->|[e ->]]; [by left | right; by exists e]
  | |- context [read_txn ?i ?f ?d] =>
      destruct (read_txn_fault i f d) as [->|[e ->]]; [by left | right; by exists e]
  end.
Qed.

Lemma exec_no_faults o db s :
  store_rel db s ->
  exists r db', exec no_faults o db = (Ok r, db')
    /\ spec_result o s r /\ store_rel db' (spec_next o s).
Proof.
  intros Hrel. destruct o as [u|u|us|n| |n|n|n v]; cbn [exec spec_next spec_result].
  - unfold insert_user. destruct (enc_dec (record_of u)) as (b & -> & Hd).
    rewrite write_txn_no_faults. simpl. rewrite (rel_user db s) by done. simpl.
    destruct (s_users s !! nu_username u) eqn:Hu; simpl; eexists _, _; (split; [done|]);
      (split; [done|]); [done|]. by apply (rel_insert db s (record_of u) b).
  - unfold upsert_user. destruct (enc_dec (record_of u)) as (b & -> & Hd).
    rewrite write_txn_no_faults. simpl. eexists _, _. split; [done|]. split; [done|].
    by apply (rel_insert db s (record_of u) b).
  - destruct us as [|u us]; [eexists _, _; split; [done|]; split; [done|]; by destruct s|].
    unfold upsert_many. rewrite write_txn_no_faults.
    destruct (rel_upsert_loop (u :: us) db s Hrel) as (t & -> & Ht). simpl.
    eexists _, _. split; [done|]. by split.
  - unfold delete_user. rewrite write_txn_no_faults. simpl. rewrite (rel_user db s) by done.
    eexists _, _. split; [done|]. split; [done|]. by apply rel_delete.
  - destruct (list_users_spec db s Hrel) as (us & -> & Hp & Hs). simpl.
    eexists _, _. split; [done|]. split; [by exists us | done].
  - unfold get_user, read_txn. simpl. destruct Hrel as (Hu & Hrest). pose proof (Hu n) as Hn.
    destruct (kv_get (users db) n).
    + destruct Hn as (r & -> & ->). simpl. eexists _, _. split; [done|]. by split.
    + rewrite Hn. simpl. eexists _, _. split; [done|]. by split.
  - unfold get_verifier, read_txn. simpl. eexists _, _. split; [done|]. split; [|done].
    by destruct Hrel as (_ & -> & _).
  - unfold set_verifier. rewrite write_txn_no_faults. simpl. eexists _, _.
    split; [done|]. split; [done|]. by apply rel_set_verifier.
Qed.

(** C32: every method of the user store refines the abstract maps of records
    and verifiers: a call returns what the maps say and moves to the next
    maps, or fails and leaves both tables as they were; without a storage
    fault it does not fail. *)
Theorem exec_refines io o db s :
  store_rel db s ->
  (forall r db', exec io o db = (Ok r, db') ->
     spec_result o s r /\ store_rel db' (spec_next o s))
  /\ (forall e db', exec io o db = (Err e, db') -> db' = db)
  /\ is_ok (fst (exec no_faults o db)) = true.
Proof.
  intros Hrel. destruct (exec_no_faults o db s Hrel) as (r & db' & He & Hr & Hs).
  rewrite He. split; [|split; [|done]].
  - intros r' db'' Hx. destruct (exec_fault io o db) as [Heq|[e Heq]]; rewrite Heq in Hx; [|done].
    rewrite He in Hx. by injection Hx as <- <-.
  - intros e db'' Hx. destruct (exec_fault io o db) as [Heq|[e' Heq]]; congruence.
Qed.

End refinement.

(** ** Theorems on verifiers *)

(** the constant-time comparison decides equality of byte strings. *)
Theorem ct_eq_correct a b : ct_eq a b = true <-> a = b.
Proof. by rewrite ct_eq_spec, bool_decide_eq_true. Qed.

(** the fast check accepts exactly the stored bytes equal to the MAC of the
    username and password; in particular a freshly computed verifier. *)
Theorem verify_fast_spec (hmac : Bytes -> Bytes -> Bytes) pepper u p stored :
  (forall k m, length (hmac k m) = 32) ->
  (verify_fast hmac pepper u p stored = true <-> stored = hmac pepper (mac_input u p))
  /\ verify_fast hmac pepper u p (compute_verifier hmac pepper u p) = true.
Proof.
  intros Hlen. unfold verify_fast. rewrite !ct_eq_spec, !bool_decide_eq_true. split; [|done].
  unfold compute_verifier. rewrite copy_zip_full by by rewrite Hlen, length_replicate. naive_solver.
Qed.

Lemma verify_fast_spec_witness :
  verify_fast (fun _ _ => replicate 32 7%Z) [1%Z] "u" "p" (replicate 32 7%Z) = true.
Proof.
  apply (verify_fast_spec (fun _ _ => replicate 32 7%Z) [1%Z] "u" "p" (replicate 32 7%Z));
    reflexivity.
Defined.

(** the MAC input separates username and password: for usernames without
    NUL bytes, equal inputs come from equal credentials. *)
Theorem mac_input_inj u p u' p' :
  nul_free u -> nul_free u' -> mac_input u p = mac_input u' p' -> u = u' /\ p = p'.
Proof.
  intros Hu Hu' Heq. destruct (split_at_nul _ _ _ _ Hu Hu' Heq) as [H1 H2].
  split; by apply str_bytes_inj.
Qed.

Lemma mac_input_inj_witness :
  nul_free "ab" /\ (mac_input "ab" "c" = mac_input "ab" "c" -> "ab" = "ab" /\ "c" = "c").
Proof.
  assert (nul_free "ab") as H by (repeat constructor; done).
  split; [exact H|]. apply (mac_input_inj "ab" "c" "ab" "c" H H).
Defined.

(** ** A concrete encoder, for the witnesses *)

Definition tuple_of (r : UserRecord) : string * string * string * bool * bool :=
  (username r, userid r, password_hash r, superuser r, admin r).

Definition toy_encode (r : UserRecord) : result string Bytes :=
  Ok [Z.pos (encode (tuple_of r))].

Definition toy_decode (b : Bytes) : result string UserRecord :=
  match b with
  | [Z.pos p] =>
      match decode (A := string * string * string * bool * bool) p with
      | Some (u, i, h, s, a) => Ok (mkUser u i h s a)
      | None => Err "bad row"
      end
  | _ => Err "bad row"
  end.

Lemma toy_roundtrip r : exists b, toy_encode r = Ok b /\ toy_decode b = Ok r.
Proof.
  eexists. split; [done|]. unfold toy_decode. rewrite decode_encode. by destruct r.
Qed.

Definition empty_tables : Tables (gmap string Bytes) := mkTables ∅ ∅.

Lemma exec_refines_witness :
  is_ok (fst (exec (T := gmap string Bytes) toy_encode toy_decode no_faults
               (InsertUser (mkNewUser "u" "id" "h" false false)) empty_tables)) = true.
Proof.
  apply (exec_refines (T := gmap string Bytes) toy_encode toy_decode toy_roundtrip no_faults
           (InsertUser (mkNewUser "u" "id" "h" false false)) empty_tables (mkSpec ∅ ∅)).
  repeat split; simpl; intros; rewrite ?lookup_empty; done.
Defined.
