(* ===== verification/Vault.v ===== *)
(** * Secrets client: [src/vault.rs]

    The HTTP exchange is an argument: [http_get] is the reply to a URL,
    [parse_secret] what [serde] reads from a body. The name of a secret is
    percent-encoded into one path segment, and can be read back from it. *)

From S2P Require Import Prelude Strs.
From Stdlib Require Import Ascii.
Local Open Scope string_scope.
Local Open Scope list_scope.

Record VaultClient : Type := mkVault { addr : string }.

(** [VaultClient::from_env]. *)
Definition from_env (env : string -> option string) : option VaultClient :=
  match env "VAULT_ADDR" with
  | Some s =>
      if negb (str_is_empty s) then Some (mkVault (trim_end_matches "/" s)) else None
  | None => None
  end.

Definition encode_name (name : string) : string :=
  replace "/" "%2F" (replace "%" "%25" name).

Record HttpResponse (Body : Type) : Type := mkResp { resp_status : Z; resp_body : Body }.
Arguments mkResp {Body}.
Arguments resp_status {Body}.
Arguments resp_body {Body}.

Section get_value.
Context {Body : Type}.
Context (http_get : string -> result string (HttpResponse Body)).
(** [Response::json::<SecretValue>], projected on the field [value]. *)
Context (parse_secret : Body -> result string (option string)).

(** [Response::error_for_status]: 4xx and 5xx are errors. *)
Definition error_for_status (r : HttpResponse Body) : result string (HttpResponse Body) :=
  if ((400 <=? resp_status r) && (resp_status r <=? 599))%Z then Err "HTTP status error" else Ok r.

Definition secret_url (client : VaultClient) (name : string) : string :=
  (addr client ++ "/v1/secrets/" ++ encode_name name)%string.

Definition get_value (client : VaultClient) (name : string) : result string (option string) :=
  let? resp := http_get (secret_url client name) in
  if (resp_status resp =? 404)%Z then Ok None
  else
    let? resp := error_for_status resp in
    parse_secret (resp_body resp).

End get_value.

(** ** Lemmas *)

(** The percent-decoding of the two escapes [encode_name] produces. *)
Fixpoint decode_name (s : string) : string :=
  match s with
  | String "%" (String "2" (String "5" s')) => String "%" (decode_name s')
  | String "%" (String "2" (String "F" s')) => String "/" (decode_name s')
  | String c s' => String c (decode_name s')
  | EmptyString => EmptyString
  end.

Fixpoint subst_char (c : ascii) (rep s : string) : string :=
  match s with
  | EmptyString => EmptyString
  | String d s' => if decide (d = c) then (rep ++ subst_char c rep s')%string
                   else String d (subst_char c rep s')
  end.

Lemma replace_char c rep s : replace (String c "") rep s = subst_char c rep s.
Proof.
  unfold replace. induction s as [|d s IH]; [done|].
  cbn [replace_go subst_char]. unfold starts_with. cbn [strip_prefix].
  case_decide as Hd; case_decide as Hd'; subst; try done; cbn; by rewrite IH.
Qed.

Lemma subst_char_app c rep a b :
  subst_char c rep (a ++ b)%string = (subst_char c rep a ++ subst_char c rep b)%string.
Proof.
  induction a as [|d a IH]; simpl; [done|]. case_decide; rewrite IH; [|done].
  by rewrite append_assoc_str.
Qed.

Lemma encode_name_cons c s :
  encode_name (String c s)
  = ((if decide (c = "%"%char) then "%25" else if decide (c = "/"%char) then "%2F"
      else String c "") ++ encode_name s)%string.
Proof.
  unfold encode_name. rewrite !replace_char. cbn [subst_char]. case_decide as Hc.
  - by rewrite subst_char_app.
  - cbn [subst_char]. by case_decide.
Qed.

Lemma decode_name_cons c s :
  c <> "%"%char -> decode_name (String c s) = String c (decode_name s).
Proof. intros Hc. destruct c as [[] [] [] [] [] [] [] []]; try done. Qed.

(** ** Theorems *)

(** encoding a secret's name into the URL loses nothing: the name is
    recovered by percent-decoding, and the encoded name is one path segment. *)
Theorem encode_name_roundtrip name :
  decode_name (encode_name name) = name
  /\ any_char (fun c => bool_decide (c = "/"%char)) (encode_name name) = false.
Proof.
  induction name as [|c s [IHd IHs]]; [done|]. rewrite encode_name_cons, any_char_append, IHs.
  case_decide as Hp; [subst; simpl; by rewrite IHd|].
  case_decide as Hs; [subst; simpl; by rewrite IHd|].
  rewrite orb_false_r. split; [|by cbn; rewrite bool_decide_eq_false_2].
  change ((String c "" ++ encode_name s)%string) with (String c (encode_name s)).
  by rewrite decode_name_cons, IHd.
Qed.
