(* ===== verification/Api.v ===== *)
(** * Management API and MQTT authentication: [src/api.rs]

    The handlers run in the state monad over [Broker], what a node keeps: the
    user database, the bearer tokens, the two credential caches and the
    requests it has sent to its peers. Reading the clock, running a storage
    transaction and joining a blocking task take one tick each; the world
    ([World]) says what happens at every tick, so a theorem that holds for all
    worlds holds for every timing and every failure. Handlers are atomic, but for
    [lookup_user]: [lookup_ends] is what is left of one that other handlers
    interrupt between its read and its insertion into the cache. Lock poisoning
    and the semaphore that bounds concurrent hashing are not modelled.

    Passwords are hashed and verified by the functions of [Db]; the SHA-256 of
    the cache key is an argument. Responses carry their status and, for each
    [json!] literal of the source, a constructor of [Body]. *)

From S2P Require Import Prelude Strs Topic Types Acl Store Config Db Vault.
From Stdlib Require Import Ascii.
Local Open Scope string_scope.
Local Open Scope list_scope.
Local Open Scope Z_scope.

(** ** Data *)

(** Instants and durations are nanoseconds. *)
Definition from_secs (n : Z) : Z := n * 10 ^ 9.

Record TokenPair : Type := mkTokens {
  current : string;
  previous : option string;
  refreshed_at : option Z
}.

(** [AuthCache]: SHA-256 keys to the superuser flag and the expiry. *)
Record AuthCache : Type := mkAuthCache { auth_map : gmap Bytes (bool * Z); auth_ttl : Z }.

Record UserCache : Type := mkUserCache {
  user_map : gmap string (UserRecord * Z);
  user_ttl : Z
}.

(** Bodies of [/internal/replicate]. *)
Inductive ReplOp : Type :=
| Upsert (user : UserRecord)
| Delete (name : string).

Record CreateUser : Type := mkCreateUser {
  cu_username : string;
  cu_userid : string;
  cu_password : string;
  cu_superuser : bool;
  cu_admin : bool
}.

Inductive Health : Type :=
| HealthOf (h : string)
| HealthError (e : string)
| BrokerInitializing.

Inductive Body : Type :=
| Empty
| Text (s : string)
| ErrorBody (msg : string)
| Created (username userid : string)
| UserList (users : list (string * string * bool * bool))
| UsersFull (users : list UserRecord)
| ClusterBody (node_id : Z) (enabled : bool) (leader_id : Z)
    (node_grpc_addrs raft_peer_addrs : list string) (health : Health).

Record Response : Type := mkResponse { status : Z; body : Body }.

Definition OK : Z := 200.
Definition CREATED : Z := 201.
Definition NO_CONTENT : Z := 204.
Definition BAD_REQUEST : Z := 400.
Definition UNAUTHORIZED : Z := 401.
Definition NOT_FOUND : Z := 404.
Definition CONFLICT : Z := 409.
Definition INTERNAL_SERVER_ERROR : Z := 500.

Definition bad_request (msg : string) : Response := mkResponse BAD_REQUEST (ErrorBody msg).

Definition internal_error : Response :=
  mkResponse INTERNAL_SERVER_ERROR (ErrorBody "internal error").

(** ** Caches: the clock reading is an argument *)

Definition AuthCache_new (ttl : Z) : AuthCache := mkAuthCache ∅ ttl.

Definition AuthCache_get (now : Z) (key : Bytes) (c : AuthCache) : option bool :=
  match auth_map c !! key with
  | Some (superuser, expiry) => if now <? expiry then Some superuser else None
  | None => None
  end.

Definition AuthCache_insert (now : Z) (key : Bytes) (superuser : bool) (c : AuthCache) : AuthCache :=
  if auth_ttl c =? 0 then c
  else mkAuthCache (<[key := (superuser, now + auth_ttl c)]> (auth_map c)) (auth_ttl c).

(** [purge_user] clears the whole cache, whatever the user. *)
Definition AuthCache_purge_user (_username : string) (c : AuthCache) : AuthCache :=
  mkAuthCache ∅ (auth_ttl c).

Definition AuthCache_sweep (now : Z) (c : AuthCache) : AuthCache :=
  mkAuthCache (filter (fun kv => now < snd (snd kv)) (auth_map c)) (auth_ttl c).

Definition UserCache_new (ttl : Z) : UserCache := mkUserCache ∅ ttl.

Definition UserCache_get (now : Z) (name : string) (c : UserCache) : option UserRecord :=
  match user_map c !! name with
  | Some (record, expiry) => if now <? expiry then Some record else None
  | None => None
  end.

Definition UserCache_insert (now : Z) (name : string) (record : UserRecord) (c : UserCache)
    : UserCache :=
  if user_ttl c =? 0 then c
  else mkUserCache (<[name := (record, now + user_ttl c)]> (user_map c)) (user_ttl c).

Definition UserCache_purge (name : string) (c : UserCache) : UserCache :=
  mkUserCache (delete name (user_map c)) (user_ttl c).

Definition UserCache_sweep (now : Z) (c : UserCache) : UserCache :=
  mkUserCache (filter (fun kv => now < snd (snd kv)) (user_map c)) (user_ttl c).

(** ** Validation *)

Definition valid_segment (s : string) : bool :=
  negb (str_is_empty s) && (str_len s <=? 64)
  && all_chars (fun c => is_ascii_alphanumeric c || bool_decide (c = "_"%char)
                         || bool_decide (c = "-"%char)) s.

Definition valid_username (s : string) : bool :=
  negb (str_is_empty s) && (str_len s <=? 128) && all_chars is_ascii_graphic s.

(** ** Access rules of a user *)

Definition push_rule (action : Action) (cfg : string) (ci : ConnectInfo) (rules : list Rule)
    : list Rule :=
  match acl_topic_try_from cfg ci with
  | Ok topic => rules ++ [mkRule Allow action None None topic]
  | Err _ => rules
  end.

Definition prefix_filter (p : string) : string := (p ++ "/#")%string.

(** The filters of a user, shared by the rules and the auto-subscription. *)
Definition user_filters (record : UserRecord) (fanout_prefixes admin_prefixes : list string)
    : list string :=
  [("+/" ++ userid record ++ "/#")%string]
  ++ map prefix_filter fanout_prefixes
  ++ (if admin record then map prefix_filter admin_prefixes else []).

Definition build_auth_info (record : UserRecord) (acl : AclConfig) (ci : ConnectInfo) : AuthInfo :=
  if Db.superuser record then mkAuthInfo true None []
  else
    let filters := user_filters record (fanout_prefixes acl) (admin_prefixes acl) in
    let rules := fold_left (fun rules f => push_rule ActSubscribe f ci rules) filters [] in
    let rules := fold_left (fun rules t => push_rule ActPublish ("eq " ++ t)%string ci rules)
                   (publish_topics acl) rules in
    mkAuthInfo false None rules.

Definition deny_auth : ReturnType := (false, Some (HookAuthResult BadUsernameOrPassword)).

(** The record [replicate] and [catch_up] copy field by field. *)
Definition new_user_of (u : UserRecord) : NewUser :=
  mkNewUser (username u) (userid u) (password_hash u) (Db.superuser u) (admin u).

Definition replicate_url (base : string) : string := (base ++ "/internal/replicate")%string.
Definition users_full_url (base : string) : string := (base ++ "/internal/users-full")%string.

(** ** The broker and the world around it *)

Record Request (J : Type) : Type := mkRequest {
  req_url : string;
  req_token : string;
  req_body : J
}.
Arguments mkRequest {J}.

(** The part of [AppState] that does not change after start-up. *)
Record Settings : Type := mkSettings {
  acl : AclConfig;
  peers : list string;
  auth_disabled : bool;
  pepper : option Bytes;
  vault : option VaultClient;
  cluster : ClusterConfig
}.

(** What happens outside the handlers, by tick. *)
Record World : Type := mkWorld {
  clock : nat -> Z;
  io : nat -> TxnFaults db_error;
  join_ok : nat -> bool;
  salt : nat -> string;
  environment : string -> option string;
  vault_reply : nat -> VaultClient -> string -> result string (option string);
  users_reply : nat -> string -> string -> option (list UserRecord);
  health_reply : nat -> Health
}.

Record Broker (T J : Type) : Type := mkBroker {
  tables : Tables T;
  token : TokenPair;
  auth_cache : AuthCache;
  user_cache : UserCache;
  outbox : list (Request J);
  ticks : nat
}.
Arguments mkBroker {T J}.
Arguments tables {T J}.
Arguments token {T J}.
Arguments auth_cache {T J}.
Arguments user_cache {T J}.
Arguments outbox {T J}.
Arguments ticks {T J}.

Section handlers.
Context {T : Type} `{KvTable T string Bytes}.
Context (bincode_encode : UserRecord -> result string Bytes).
Context (bincode_decode : Bytes -> result string UserRecord).
Context {Params Phc : Type}.
Context (params_new : Z -> Z -> Z -> result string Params).
Context (argon2_hash : Params -> Bytes -> string -> result string string).
Context (phc_parse : string -> option Phc).
Context (argon2_verify : Phc -> Bytes -> bool).
Context (hmac_sha256 : Bytes -> Bytes -> Bytes).
Context (sha256 : Bytes -> Bytes).
(** [serde_json::to_value] on a replication request. *)
Context {J : Type} (to_value : ReplOp -> result string J).
(** [std::str::from_utf8(p).ok()]. *)
Context (from_utf8 : string -> option string).
Context (cfg : Settings) (w : World).

Local Abbreviation Broker := (Broker T J).
Local Abbreviation Act := (M Broker).

Definition set_tables (d : Tables T) (b : Broker) : Broker :=
  mkBroker d (token b) (auth_cache b) (user_cache b) (outbox b) (ticks b).
Definition set_tokens (t : TokenPair) (b : Broker) : Broker :=
  mkBroker (tables b) t (auth_cache b) (user_cache b) (outbox b) (ticks b).
Definition set_auth_cache (c : AuthCache) (b : Broker) : Broker :=
  mkBroker (tables b) (token b) c (user_cache b) (outbox b) (ticks b).
Definition set_user_cache (c : UserCache) (b : Broker) : Broker :=
  mkBroker (tables b) (token b) (auth_cache b) c (outbox b) (ticks b).

Definition send (r : Request J) : Act unit :=
  fun b => (tt, mkBroker (tables b) (token b) (auth_cache b) (user_cache b) (outbox b ++ [r]) (ticks b)).

(** The current tick, which is then over. *)
Definition tick : Act nat :=
  fun b => (ticks b,
    mkBroker (tables b) (token b) (auth_cache b) (user_cache b) (outbox b) (S (ticks b))).

Definition now : Act Z := let! n := tick in ret (clock w n).

(** [spawn_blocking(f).await]: [None] is a join error. *)
Definition spawn_blocking {A} (a : A) : Act (option A) :=
  let! n := tick in ret (if join_ok w n then Some a else None).

(** A method of [UserStore]. *)
Definition run_db {A} (f : TxnFaults db_error -> Tables T -> result db_error A * Tables T)
    : Act (result db_error A) :=
  let! n := tick in
  fun b => let '(r, d) := f (io w n) (tables b) in (r, set_tables d b).

Definition read_db {A} (f : TxnFaults db_error -> Tables T -> result db_error A)
    : Act (result db_error A) :=
  let! n := tick in fun b => (f (io w n) (tables b), b).

Definition modify (f : Broker -> Broker) : Act unit := fun b => (tt, f b).
Definition gets {A} (f : Broker -> A) : Act A := fun b => (f b, b).

Local Abbreviation insert_user := (insert_user bincode_encode).
Local Abbreviation upsert_user := (upsert_user bincode_encode).
Local Abbreviation upsert_many := (upsert_many bincode_encode).
Local Abbreviation db_list_users := (Db.list_users bincode_decode).
Local Abbreviation get_user := (get_user bincode_decode).
Local Abbreviation verify_password := (verify_password phc_parse argon2_verify).
Local Abbreviation compute_verifier := (compute_verifier hmac_sha256).
Local Abbreviation verify_fast := (verify_fast hmac_sha256).

(** ** Tokens *)

Definition matches_token (presented : string) (t : TokenPair) : bool :=
  bool_decide (presented = current t) || bool_decide (previous t = Some presented).

Definition token_matches (presented : string) : Act bool :=
  gets (fun b => matches_token presented (token b)).

Definition current_token : Act string := gets (fun b => current (token b)).

(** [at.elapsed()] saturates at zero. *)
Definition elapsed (now at_ : Z) : Z := Z.max 0 (now - at_).

Definition refresh_token : Act unit :=
  match vault cfg with
  | None => ret tt
  | Some client =>
      let! t0 := now in
      let! g := gets token in
      if match refreshed_at g with
         | Some at_ => elapsed t0 at_ <? from_secs 5
         | None => false
         end
      then ret tt
      else
        let! t1 := now in
        let! _ := modify (fun b => set_tokens
                    (mkTokens (current (token b)) (previous (token b)) (Some t1)) b) in
        let! n := tick in
        match vault_reply w n client "ciqada/api-token" with
        | Ok (Some new) =>
            modify (fun b =>
              let g := token b in
              if negb (bool_decide (current g = new))
              then set_tokens (mkTokens new (Some (current g)) (refreshed_at g)) b
              else b)
        | _ => ret tt
        end
  end.

(** The bearer token of the [Authorization] header, when it is text. *)
Definition bearer (authorization : option string) : option string :=
  authorization ≫= strip_prefix "Bearer ".

Definition authorize (authorization : option string) : Act bool :=
  match bearer authorization with
  | Some token =>
      let! ok := token_matches token in
      if ok then ret true
      else
        let! _ := refresh_token in
        token_matches token
  | None => ret false
  end.

Definition require_token (authorization : option string) (next : Act Response) : Act Response :=
  let! authorized := authorize authorization in
  if authorized then next
  else ret (mkResponse UNAUTHORIZED (ErrorBody "invalid or missing bearer token")).

(** ** Replication to the peers *)

(** The loop that spawns one request per peer; their replies are only logged. *)
Fixpoint fanout_loop (bases : list string) (body : J) : Act unit :=
  match bases with
  | [] => ret tt
  | base :: bases' =>
      let! token := current_token in
      let! _ := send (mkRequest (replicate_url base) token body) in
      fanout_loop bases' body
  end.

Definition fanout (op : ReplOp) : Act unit :=
  match peers cfg with
  | [] => ret tt
  | _ =>
      match to_value op with
      | Err _ => ret tt
      | Ok body => fanout_loop (peers cfg) body
      end
  end.

(** ** Handlers *)

Definition create_user (req : CreateUser) : Act Response :=
  if negb (valid_username (cu_username req)) then
    ret (bad_request "username must be 1-128 printable ascii chars without spaces")
  else if negb (valid_segment (cu_userid req)) then
    ret (bad_request "userid must be 1-64 chars of [A-Za-z0-9_-]")
  else if str_is_empty (cu_password req) || (512 <? str_len (cu_password req)) then
    ret (bad_request "password must be 1-512 bytes")
  else
    let password := cu_password req in
    let verifier := (fun p => compute_verifier p (cu_username req) password) <$> pepper cfg in
    let! n := tick in
    let! hashed := spawn_blocking
                     (hash_password params_new argon2_hash (environment w) (salt w n) password) in
    match hashed with
    | Some (Ok hash) =>
        let user := mkNewUser (cu_username req) (cu_userid req) hash
                      (cu_superuser req) (cu_admin req) in
        let! inserted := run_db (fun io => insert_user io user) in
        match inserted with
        | Ok true =>
            let! _ := match verifier with
                      | Some v =>
                          let! _ := run_db (fun io => set_verifier io (cu_username req) v) in ret tt
                      | None => ret tt
                      end in
            let rec := mkUser (cu_username req) (cu_userid req) hash
                         (cu_superuser req) (cu_admin req) in
            let! _ := fanout (Upsert rec) in
            ret (mkResponse CREATED (Created (cu_username req) (cu_userid req)))
        | Ok false => ret (mkResponse CONFLICT (ErrorBody "user already exists"))
        | Err _ => ret internal_error
        end
    | Some (Err _) => ret internal_error
    | None => ret internal_error
    end.

(** [state.auth_cache.purge_user(..); state.users.purge(..)]. *)
Definition purge_caches (name : string) : Act unit :=
  let! _ := modify (fun b => set_auth_cache (AuthCache_purge_user name (auth_cache b)) b) in
  modify (fun b => set_user_cache (UserCache_purge name (user_cache b)) b).

Definition delete_user (name : string) : Act Response :=
  let! r := run_db (fun io => Db.delete_user io name) in
  match r with
  | Ok true =>
      let! _ := purge_caches name in
      let! _ := fanout (Delete name) in
      ret (mkResponse NO_CONTENT Empty)
  | Ok false => ret (mkResponse NOT_FOUND (ErrorBody "user not found"))
  | Err _ => ret internal_error
  end.

Definition list_users : Act Response :=
  let! r := read_db db_list_users in
  match r with
  | Ok users =>
      ret (mkResponse OK (UserList
             (map (fun u => (username u, userid u, Db.superuser u, admin u)) users)))
  | Err _ => ret internal_error
  end.

Definition replicate (op : ReplOp) : Act Response :=
  match op with
  | Upsert user =>
      let name := username user in
      let! r := run_db (fun io => upsert_user io (new_user_of user)) in
      match r with
      | Err _ => ret internal_error
      | Ok _ => let! _ := purge_caches name in ret (mkResponse NO_CONTENT Empty)
      end
  | Delete name =>
      let! r := run_db (fun io => Db.delete_user io name) in
      match r with
      | Err _ => ret internal_error
      | Ok _ => let! _ := purge_caches name in ret (mkResponse NO_CONTENT Empty)
      end
  end.

Definition users_full : Act Response :=
  let! r := read_db db_list_users in
  match r with
  | Ok users => ret (mkResponse OK (UsersFull users))
  | Err _ => ret internal_error
  end.

Definition cluster_status : Act Response :=
  let! n := tick in
  let c := cluster cfg in
  ret (mkResponse OK (ClusterBody (cluster_node_id c) (cluster_enabled c) (leader_id c)
         (node_grpc_addrs c) (raft_peer_addrs c) (health_reply w n))).

(** ** Start-up synchronisation *)

(** One pass over the peers: [true] when a snapshot was received. *)
Fixpoint catch_up_round (bases : list string) : Act bool :=
  match bases with
  | [] => ret false
  | base :: bases' =>
      let! token := current_token in
      let! n := tick in
      match users_reply w n (users_full_url base) token with
      | Some users =>
          let! _ := run_db (fun io => upsert_many io (map new_user_of users)) in
          ret true
      | None => catch_up_round bases'
      end
  end.

Fixpoint catch_up_loop (rounds : nat) : Act unit :=
  match rounds with
  | O => ret tt
  | S rounds' =>
      let! done := catch_up_round (peers cfg) in
      if done then ret tt
      else let! _ := tick in catch_up_loop rounds'
  end.

Definition catch_up : Act unit :=
  match peers cfg with
  | [] => ret tt
  | _ => catch_up_loop 30
  end.

(** ** MQTT authentication *)

(** The bytes the three [h.update] calls feed. *)
Definition auth_key (name password : string) : Bytes := sha256 (mac_input name password).

(** [state.users.insert]. *)
Definition cache_user (name : string) (record : UserRecord) : Act unit :=
  let! t := now in
  modify (fun b => set_user_cache (UserCache_insert t name record (user_cache b)) b).

Definition lookup_user (name : string) : Act (result Response (option UserRecord)) :=
  let! t := now in
  let! cached := gets (fun b => UserCache_get t name (user_cache b)) in
  match cached with
  | Some record => ret (Ok (Some record))
  | None =>
      let! r := read_db (fun io => get_user io name) in
      match r with
      | Ok (Some record) =>
          let! _ := cache_user name record in
          ret (Ok (Some record))
      | Ok None => ret (Ok None)
      | Err _ => ret (Err internal_error)
      end
  end.

(** What is left of a [lookup_user] that missed the cache and read the tables
    [d] before other tasks ran: the insertion of the record it has read. *)
Definition lookup_ends (io : TxnFaults db_error) (name : string) (d : Tables T) : Act unit :=
  match get_user io name d with
  | Ok (Some record) => cache_user name record
  | _ => ret tt
  end.

Definition cache_success (key : Bytes) (record : UserRecord) : Act unit :=
  let! t := now in
  modify (fun b => set_auth_cache
    (AuthCache_insert t key (Db.superuser record) (auth_cache b)) b).

(** The check of the stored verifier, when a pepper is set. *)
Definition fast_check (name password : string) (key : Bytes) (record : UserRecord) : Act bool :=
  match pepper cfg with
  | Some pepper =>
      let! r := read_db (fun io => get_verifier io name) in
      match r with
      | Ok (Some v) =>
          if verify_fast pepper name password v
          then let! _ := cache_success key record in ret true
          else ret false
      | _ => ret false
      end
  | None => ret false
  end.

(** The argon2 check, which stores a verifier for the next time. *)
Definition slow_check (name password : string) (key : Bytes) (record : UserRecord) : Act bool :=
  let! checked := spawn_blocking (verify_password (password_hash record) password) in
  match checked with
  | Some true =>
      let! _ := cache_success key record in
      let! _ := match pepper cfg with
                | Some pepper =>
                    let v := compute_verifier pepper name password in
                    let! _ := run_db (fun io => set_verifier io name v) in ret tt
                | None => ret tt
                end in
      ret true
  | _ => ret false
  end.

Definition credentials (ci : ConnectInfo) : option (string * string) :=
  match conn_username ci, conn_password ci ≫= from_utf8 with
  | Some name, Some password => Some (name, password)
  | _, _ => None
  end.

Definition authenticate (ci : ConnectInfo) : Act ReturnType :=
  if auth_disabled cfg then ret (false, Some (HookAuthResult (AuthAllow true None)))
  else
    match credentials ci with
    | None => ret deny_auth
    | Some (name, password) =>
        if str_is_empty name || str_is_empty password then ret deny_auth
        else
          let! found := lookup_user name in
          match found with
          | Err _ => ret (false, Some (HookAuthResult AuthNotAuthorized))
          | Ok None => ret deny_auth
          | Ok (Some record) =>
              let key := auth_key name password in
              let! t := now in
              let! verified := gets (fun b => isSome (AuthCache_get t key (auth_cache b))) in
              let! verified := if verified then ret true
                               else fast_check name password key record in
              let! verified := if verified then ret true
                               else slow_check name password key record in
              if verified then
                ret (false, Some (HookAuthResult (AuthAllow (Db.superuser record)
                       (Some (build_auth_info record (acl cfg) ci)))))
              else ret deny_auth
          end
    end.

(** ** Hook handlers *)

Inductive Parameter_ : Type :=
| ClientAuthenticate (ci : ConnectInfo)
| ClientSubscribeCheckAcl (auth_info : option AuthInfo) (s : Subscribe)
| MessagePublishCheckAcl (auth_info : option AuthInfo) (p : Publish)
| MessageDropped
| OtherParameter.

Definition subscribe_check (auth_info : option AuthInfo) (s : Subscribe) : ReturnType :=
  if negb (acl_enabled (acl cfg)) then
    (false, Some (HookSubscribeAclResult (new_success (qos (opts s)) None)))
  else
    match auth_info ≫= (fun a => subscribe_acl a s) with
    | Some res => res
    | None => (false, Some (HookSubscribeAclResult (new_failure AckNotAuthorized)))
    end.

Definition publish_check (auth_info : option AuthInfo) (p : Publish) : ReturnType :=
  if negb (acl_enabled (acl cfg)) then (false, Some (HookPublishAclResult publish_acl_allow))
  else
    match auth_info ≫= (fun a => publish_acl a p true) with
    | Some res => res
    | None => (false, Some (HookPublishAclResult (publish_acl_rejected true None)))
    end.

Definition hook (param : Parameter_) (acc : option HookResult) : Act ReturnType :=
  match param with
  | ClientAuthenticate ci => authenticate ci
  | ClientSubscribeCheckAcl auth_info s => ret (subscribe_check auth_info s)
  | MessagePublishCheckAcl auth_info p => ret (publish_check auth_info p)
  | _ => ret (true, acc)
  end.

(** [DropLogger] only logs. *)
Definition drop_logger_hook (param : Parameter_) (acc : option HookResult) : Act ReturnType :=
  ret (true, acc).

(** ** The router *)

Inductive Call : Type :=
| CallHealth
| CallListUsers
| CallCreateUser (req : CreateUser)
| CallDeleteUser (name : string)
| CallReplicate (op : ReplOp)
| CallUsersFull
| CallClusterStatus.

(** The layer guards every route but [/health]. *)
Definition management_router (authorization : option string) (c : Call) : Act Response :=
  match c with
  | CallHealth => ret (mkResponse OK (Text "ok"))
  | CallListUsers => require_token authorization list_users
  | CallCreateUser req => require_token authorization (create_user req)
  | CallDeleteUser name => require_token authorization (delete_user name)
  | CallReplicate op => require_token authorization (replicate op)
  | CallUsersFull => require_token authorization users_full
  | CallClusterStatus => require_token authorization cluster_status
  end.

(** The sweeper task of [main]. *)
Definition sweep : Act unit :=
  let! t := now in
  let! _ := modify (fun b => set_auth_cache (AuthCache_sweep t (auth_cache b)) b) in
  let! t' := now in
  modify (fun b => set_user_cache (UserCache_sweep t' (user_cache b)) b).

End handlers.
