(* ===== verification/Access.v ===== *)
(** * What an authenticated user may subscribe to and publish

    Theorems on the access rules [build_auth_info] gives a user and on the
    checks of the hook handlers: an ordinary user is confined to the topics of
    its own userid and to the configured shared prefixes, and publishes only
    to the configured topics. *)

From S2P Require Import Prelude Strs Topic Types Acl Store Config Db Vault Api.
From Stdlib Require Import Ascii.
Local Open Scope string_scope.
Local Open Scope list_scope.

Definition is_dollar (c : ascii) : bool := bool_decide (c = "$"%char).

(** A configured prefix without wildcards and placeholders, and which the rule
    parser does not take for an exact topic. *)
Definition literal_prefix (p : string) : bool :=
  negb (has_wildcard p) && negb (any_char is_dollar p) && negb (starts_with "eq " p).

(** The prefixes that apply to a user. *)
Definition user_prefixes (record : UserRecord) (acl : AclConfig) : list string :=
  fanout_prefixes acl ++ (if admin record then admin_prefixes acl else []).

(** The topics a client may publish to, placeholders substituted. *)
Definition allowed_topics (acl : AclConfig) (ci : ConnectInfo) : list string :=
  omap (fun t => ok_of (replaces t ci)) (publish_topics acl).

(** ** Lemmas *)

Lemma allowed_topics_elem acl ci x :
  x ∈ allowed_topics acl ci <-> exists t, In t (publish_topics acl) /\ replaces t ci = Ok x.
Proof.
  unfold allowed_topics. rewrite list_elem_of_omap. setoid_rewrite list_elem_of_In.
  split; intros (t & Ht & Hr); exists t; (split; [done|]); destruct (replaces t ci); naive_solver.
Qed.

Lemma push_rules action (mk : string -> string) ci cfgs acc r :
  In r (fold_left (fun rules f => push_rule action (mk f) ci rules) cfgs acc) <->
  In r acc \/ exists f t, In f cfgs /\ acl_topic_try_from (mk f) ci = Ok t
                     /\ r = mkRule Allow action None None t.
Proof.
  revert acc. induction cfgs as [|f cfgs IH]; intros acc; simpl; [naive_solver|].
  rewrite IH. unfold push_rule at 1. destruct (acl_topic_try_from (mk f) ci) as [t|e] eqn:Ht.
  - rewrite in_app_iff. simpl. split.
    + intros [[?|[<-|[]]]|(f' & t' & ? & ? & ?)]; [by left| |]; right; naive_solver.
    + intros [?|(f' & t' & [->|Hf] & Ht' & ->)]; [by left; left | | right; by eauto].
      left. right. left. congruence.
  - split; [naive_solver|]. intros [?|(f' & t' & [->|Hf] & Ht' & ->)]; [by left | congruence | right; by eauto].
Qed.

Lemma build_auth_info_rules record acl ci r :
  Db.superuser record = false ->
  In r (rules (build_auth_info record acl ci)) <->
  (exists f t, In f (user_filters record (fanout_prefixes acl) (admin_prefixes acl))
          /\ acl_topic_try_from f ci = Ok t /\ r = mkRule Allow ActSubscribe None None t)
  \/ (exists t topic, In t (publish_topics acl) /\ acl_topic_try_from ("eq " ++ t)%string ci = Ok topic
          /\ r = mkRule Allow ActPublish None None topic).
Proof.
  intros Hsu. unfold build_auth_info. rewrite Hsu. cbn [rules].
  rewrite (push_rules ActPublish (fun t => ("eq " ++ t)%string)), (push_rules ActSubscribe (fun f => f)).
  simpl. naive_solver.
Qed.

Lemma build_auth_info_superuser record acl ci :
  Acl.superuser (build_auth_info record acl ci) = Db.superuser record.
Proof. unfold build_auth_info. by destruct (Db.superuser record). Qed.

Lemma replaces_plain s ci : any_char is_dollar s = false -> replaces s ci = Ok s.
Proof. intros H. unfold replaces, PLACEHOLDER_USERNAME, PLACEHOLDER_CLIENTID.
  by rewrite !contains_str_absent. Qed.

Lemma eq_topic_rule t ci :
  acl_topic_try_from ("eq " ++ t)%string ci
  = result_map (fun x => mkAclTopic (Some x) None) (replaces t ci).
Proof. unfold acl_topic_try_from. simpl. by destruct (replaces t ci). Qed.

Lemma filter_rule f ci :
  any_char is_dollar f = false -> strip_prefix "eq " f = None -> f <> "" ->
  acl_topic_try_from f ci
  = match from_str f with
    | Ok tf => Ok (mkAclTopic None (Some tf))
    | Err e => Err (BadTopic e)
    end.
Proof.
  intros Hd He Hne. unfold acl_topic_try_from. rewrite He, replaces_plain by done.
  by destruct f.
Qed.

(** Valid userids are ordinary topic levels. *)
Lemma valid_segment_chars s (p : ascii -> bool) :
  valid_segment s = true ->
  (forall c, is_ascii_alphanumeric c = true -> p c = false) ->
  p "_"%char = false -> p "-"%char = false ->
  any_char p s = false /\ s <> "".
Proof.
  unfold valid_segment. intros H Ha Hu Hh. bool_to_prop. split; [|by destruct s].
  eapply any_char_false_impl; [|by apply all_chars_spec].
  intros c Hc. simpl. apply negb_true_iff. rewrite !orb_false_iff, !bool_decide_eq_false.
  repeat split; [|congruence..]. destruct (is_ascii_alphanumeric c) eqn:He; [|done].
  rewrite Ha in Hc; done.
Qed.

Ltac char_class := intros [[] [] [] [] [] [] [] []]; vm_compute; congruence.

Lemma valid_segment_level s :
  valid_segment s = true ->
  Level.from_str s = Ok (Normal s)
  /\ any_char (fun d => bool_decide (d = "/"%char)) s = false
  /\ any_char is_dollar s = false.
Proof.
  intros Hv.
  destruct (valid_segment_chars s is_wild_char Hv) as [Hw Hne]; [char_class|done|done|].
  destruct (valid_segment_chars s (fun d => bool_decide (d = "/"%char)) Hv) as [Hs _]; [char_class|done|done|].
  destruct (valid_segment_chars s is_dollar Hv) as [Hd _]; [char_class|done|done|].
  repeat split; [|done|done]. unfold Level.from_str.
  rewrite !decide_False by (intros ->; done).
  unfold contains_wild. rewrite Hw. destruct (is_metadata s) eqn:Hm; [|done].
  destruct s as [|c s]; [done|]. unfold is_metadata in Hm. simpl in Hm, Hd.
  unfold is_dollar in Hd at 1. by rewrite Hm in Hd.
Qed.

Lemma own_filter_split uid :
  any_char (fun d => bool_decide (d = "/"%char)) uid = false ->
  split_on "/" ("+/" ++ uid ++ "/#")%string = ["+"; uid; "#"].
Proof.
  intros H. change ("+/" ++ uid ++ "/#")%string with ("+" ++ String "/" (uid ++ String "/" "#"))%string.
  by rewrite split_on_app_sep, split_on_app_sep.
Qed.

Lemma own_filter_rule uid ci :
  valid_segment uid = true ->
  acl_topic_try_from ("+/" ++ uid ++ "/#")%string ci
  = Ok (mkAclTopic None (Some [SingleWildcard; Normal uid; MultiWildcard])).
Proof.
  intros (Hl & Hs & Hd)%valid_segment_level. rewrite filter_rule; [| |done|done].
  - unfold from_str. rewrite own_filter_split by done. cbn [map]. rewrite Hl. simpl.
    apply level_from_str_valid in Hl. unfold is_valid. simpl in *. by rewrite Hl.
  - change ("+/" ++ uid ++ "/#")%string with (String "+" (String "/" (uid ++ "/#"))).
    simpl. rewrite any_char_append, Hd. done.
Qed.

(** ** Matching with a literal beginning *)

Lemma matches_literal_prefix lits ws :
  Forall (fun l => canonical l = true /\ is_wildcard l = false) lits ->
  matches_loop str_match_level (lits ++ [MultiWildcard]) ws = true ->
  map Level.to_string lits `prefix_of` ws.
Proof.
  intros Hl. revert ws. induction Hl as [|l lits [Hc Hw] Hl IH]; intros ws Hm; [apply prefix_nil|].
  destruct ws as [|w ws]; [by destruct l|].
  pose proof (str_match_level_ordinary w l Hc Hw) as Ho.
  assert (Level.to_string l = w /\ matches_loop str_match_level (lits ++ [MultiWildcard]) ws = true)
    as [<- Hm'].
  { cbn [matches_loop app] in Hm. destruct l; try done;
      (rewrite Ho in Hm; case_bool_decide; [by split | done]). }
  simpl. apply prefix_cons. by apply IH.
Qed.

Lemma own_filter_matches uid ws :
  matches_loop str_match_level [SingleWildcard; Normal uid; MultiWildcard] ws = true ->
  exists w ws', ws = w :: uid :: ws'.
Proof.
  destruct ws as [|w [|w' ws]]; simpl; [done| |].
  - by destruct (negb (negb (is_metadata w))).
  - destruct (negb (negb (is_metadata w))); [done|]. destruct (is_metadata w'); simpl; [done|].
    case_bool_decide; [|done]. subst. eauto.
Qed.

(** A filter that begins with literal levels only matches topics that begin
    with them. *)
Lemma mqtt_match_literal_prefix lits f ws :
  Forall (fun s => s <> "+" /\ s <> "#") lits ->
  lits `prefix_of` map Level.to_string f -> mqtt_match f ws -> lits `prefix_of` ws.
Proof.
  intros Hl. revert f ws. induction Hl as [|s lits [H1 H2] Hl IH]; intros f ws Hp Hm.
  { apply prefix_nil. }
  destruct f as [|l f]; [by apply prefix_nil_inv in Hp|].
  simpl in Hp. pose proof (prefix_cons_inv_1 _ _ _ _ Hp) as ->. apply prefix_cons_inv_2 in Hp.
  inversion Hm; subst; [done|done|]. apply prefix_cons. by eapply IH.
Qed.

Lemma own_filter_topics uid F f ws :
  from_str F = Ok f -> uid <> "+" -> uid <> "#" ->
  (exists w ws', split_on "/" F = w :: uid :: ws') -> mqtt_match f ws -> ws !! 1%nat = Some uid.
Proof.
  intros Hf H1 H2 (w & ws' & Hs) Hm. pose proof (from_str_levels _ _ Hf) as Hl.
  rewrite Hs in Hl. destruct f as [|l f]; [done|]. injection Hl as <- Hl.
  destruct (well_shaped_cons _ _ (from_str_well_shaped _ _ Hf)) as (_ & _ & Hmulti).
  assert (exists t ts, ws = t :: ts /\ mqtt_match f ts) as (t & ts & -> & Hm').
  { inversion Hm; subst; [done | eauto | eauto]. }
  simpl. apply (mqtt_match_literal_prefix [uid] f) in Hm'; [| by repeat constructor |].
  - destruct Hm' as [k ->]. done.
  - rewrite Hl. by exists ws'.
Qed.

Lemma strip_eq_app p x :
  strip_prefix "eq " p = None -> strip_prefix "eq " (p ++ String "/" x)%string = None.
Proof.
  destruct p as [|c1 [|c2 [|c3 p]]]; simpl; intros Hp; repeat (case_decide; subst; try done); done.
Qed.

Lemma prefix_rule p ci t :
  literal_prefix p = true -> acl_topic_try_from (prefix_filter p) ci = Ok t ->
  exists lits, t = mkAclTopic None (Some (lits ++ [MultiWildcard]))
    /\ map Level.to_string lits = split_on "/" p
    /\ Forall (fun l => canonical l = true /\ is_wildcard l = false) lits.
Proof.
  unfold literal_prefix, prefix_filter. intros Hp Ht. bool_to_prop.
  match goal with H : has_wildcard p = false |- _ => pose proof (has_wildcard_levels p H) as Hw end.
  match goal with H : starts_with _ p = false |- _ =>
    unfold starts_with, isSome in H; apply negb_false_iff, is_none_true in H; rename H into He end.
  rewrite filter_rule in Ht; [| | by apply strip_eq_app | by destruct p].
  2:{ rewrite any_char_append. by apply orb_false_iff. }
  destruct (from_str (p ++ "/#")%string) as [f|] eqn:Hf; [|done]. injection Ht as <-.
  pose proof (from_str_levels _ _ Hf) as Hl. pose proof (from_str_canonical _ _ Hf) as Hc.
  rewrite split_on_app in Hl. simpl in Hl.
  apply map_eq_app in Hl as (lits & last & -> & Hlits & Hlast).
  apply Forall_app in Hc as [Hc Hclast].
  destruct last as [|l [|]]; try done. injection Hlast as Hlast.
  apply Forall_inv, canonical_inv in Hclast. rewrite Hlast in Hclast. injection Hclast as <-.
  exists lits. split; [done|]. split; [done|]. rewrite <- Hlits, Forall_map in Hw.
  rewrite Forall_and. split; [done|]. eapply Forall_impl; [exact Hw|]. intros []; simpl; naive_solver.
Qed.

(** What a filter granted by a user's subscription rule looks like. *)
Lemma granted_filter record acl ci f t F :
  valid_segment (userid record) = true -> Forall (fun p => literal_prefix p = true) (user_prefixes record acl) ->
  In f (user_filters record (fanout_prefixes acl) (admin_prefixes acl)) ->
  acl_topic_try_from f ci = Ok t -> is_match t F = true ->
  (exists w ws, split_on "/" F = w :: userid record :: ws)
  \/ (exists p, p ∈ user_prefixes record acl /\ split_on "/" p `prefix_of` split_on "/" F).
Proof.
  intros Hv Hlit Hf Ht Hm. unfold user_filters in Hf. rewrite !in_app_iff in Hf.
  assert (f = ("+/" ++ userid record ++ "/#")%string
          \/ exists p, p ∈ user_prefixes record acl /\ f = prefix_filter p) as [->|(p & Hp & ->)].
  { destruct Hf as [[<-|[]]|[Hf|Hf]]; [by left|..]; right.
    - apply in_map_iff in Hf as (p & <- & Hp). exists p. split; [|done].
      unfold user_prefixes. rewrite elem_of_app, !list_elem_of_In. by left.
    - destruct (admin record) eqn:Ha; [|done]. apply in_map_iff in Hf as (p & <- & Hp).
      exists p. split; [|done]. unfold user_prefixes. rewrite Ha, elem_of_app, !list_elem_of_In. by right. }
  - rewrite own_filter_rule in Ht by done. injection Ht as <-. left. by apply own_filter_matches.
  - right. exists p. split; [done|]. rewrite Forall_forall in Hlit.
    destruct (prefix_rule p ci t (Hlit p Hp) Ht) as (lits & -> & <- & Hl).
    by apply matches_literal_prefix.
Qed.

Lemma granted_rule cfg record ci s :
  acl_enabled (acl cfg) = true -> Db.superuser record = false ->
  grants_subscribe (subscribe_check cfg (Some (build_auth_info record (acl cfg) ci)) s) = true ->
  exists f t, In f (user_filters record (fanout_prefixes (acl cfg)) (admin_prefixes (acl cfg)))
    /\ acl_topic_try_from f ci = Ok t /\ is_match t (topic_filter s) = true.
Proof.
  intros Hen Hsu Hg. unfold subscribe_check in Hg. rewrite Hen in Hg. simpl in Hg.
  destruct (subscribe_acl _ s) as [r|] eqn:Hs; [|done].
  destruct (subscribe_acl_granted _ _ _ Hs Hg) as (rule & Hin & _ & Hhit);
    [by rewrite build_auth_info_superuser|].
  apply subscribe_hit_spec in Hhit as (Ha & _ & Hm).
  apply build_auth_info_rules in Hin as [(f & t & Hf & Ht & ->)|(f & t & Hf & Ht & ->)]; simpl in *;
    [by eauto | done | done].
Qed.

(** The subscription rules come first, the userid's before the others. *)
Lemma push_rules_head action (mk : string -> string) ci cfgs r acc :
  exists rs, fold_left (fun rules f => push_rule action (mk f) ci rules) cfgs (r :: acc) = r :: rs.
Proof.
  revert acc. induction cfgs as [|f cfgs IH]; intros acc; simpl; [eauto|].
  unfold push_rule at 2. destruct (acl_topic_try_from (mk f) ci); apply IH.
Qed.

Lemma first_rule record acl ci t :
  acl_topic_try_from ("+/" ++ userid record ++ "/#")%string ci = Ok t -> Db.superuser record = false ->
  exists rs, rules (build_auth_info record acl ci) = mkRule Allow ActSubscribe None None t :: rs.
Proof.
  intros Ht Hsu. unfold build_auth_info. rewrite Hsu. cbn [rules].
  unfold user_filters. cbn [app fold_left].
  unfold push_rule at 3. rewrite Ht. cbn [app].
  destruct (push_rules_head ActSubscribe (fun f => f) ci
    (map prefix_filter (fanout_prefixes acl)
     ++ (if admin record then map prefix_filter (admin_prefixes acl) else []))
    (mkRule Allow ActSubscribe None None t) []) as [rs ->].
  apply (push_rules_head ActPublish (fun t => ("eq " ++ t)%string)).
Qed.

Lemma own_filter_plain uid F :
  plain F = true ->
  matches_str [SingleWildcard; Normal uid; MultiWildcard] F = true
  <-> exists w ws, split_on "/" F = w :: uid :: ws.
Proof.
  intros Hp%plain_Forall. split; [apply own_filter_matches|]. intros (w & ws & Hs).
  unfold matches_str. rewrite Hs in *. apply Forall_cons in Hp as [Hw Hp].
  apply Forall_cons in Hp as [Hu Hp]. simpl. rewrite Hw, Hu, bool_decide_true by done. simpl.
  destruct Hp as [|w' ws' Hw' _]; simpl; [done|]. by rewrite Hw'.
Qed.

(** Decisions over a rule list that only allows. *)
Lemma allow_decision (applies : Rule -> bool) rs :
  (forall r, In r rs -> permission r = Allow) -> (exists r, In r rs /\ applies r = true) ->
  decision applies permission rs = Some Allow.
Proof.
  induction rs as [|r rs IH]; intros Hall (x & Hx & Ha); [done|].
  rewrite decision_cons. destruct (applies r) eqn:Hr; [by rewrite Hall by (by left)|].
  apply IH; [by intros y Hy; apply Hall; right|]. destruct Hx as [->|Hx]; [congruence | eauto].
Qed.

Lemma no_decision (applies : Rule -> bool) rs :
  (forall r, In r rs -> applies r = false) -> decision applies permission rs = None.
Proof.
  induction rs as [|r rs IH]; intros Hall; [done|].
  rewrite decision_cons, Hall by by left. apply IH. intros x Hx. apply Hall. by right.
Qed.

(** ** Theorems *)

(** C2: tenant isolation. Whatever filter an ordinary user is granted, every
    topic it can ever match has the user's own userid as its second segment or
    lies under one of the shared prefixes that apply to the user. *)
Theorem tenant_isolation cfg record ci s f ws :
  acl_enabled (acl cfg) = true -> Db.superuser record = false ->
  valid_segment (userid record) = true ->
  Forall (fun p => literal_prefix p = true) (user_prefixes record (acl cfg)) ->
  grants_subscribe (subscribe_check cfg (Some (build_auth_info record (acl cfg) ci)) s) = true ->
  from_str (topic_filter s) = Ok f -> mqtt_match f ws ->
  ws !! 1%nat = Some (userid record)
  \/ exists p, p ∈ user_prefixes record (acl cfg) /\ split_on "/" p `prefix_of` ws.
Proof.
  intros Hen Hsu Hv Hlit Hg Hf Hm.
  destruct (granted_rule cfg record ci s Hen Hsu Hg) as (g & t & Hin & Ht & Hmatch).
  destruct (granted_filter record (acl cfg) ci g t (topic_filter s) Hv Hlit Hin Ht Hmatch)
    as [Hown|(p & Hp & Hpre)].
  - left. apply (own_filter_topics _ (topic_filter s) f); try done;
      intros Heq; rewrite Heq in Hv; done.
  - right. exists p. split; [done|]. rewrite Forall_forall in Hlit. specialize (Hlit p Hp).
    apply (mqtt_match_literal_prefix _ f); [|by rewrite (from_str_levels _ _ Hf)|done].
    apply has_wildcard_levels. unfold literal_prefix in Hlit. by bool_to_prop.
Qed.

(** a user's own topics are granted: every filter whose second segment is
    the userid and which has no [$] segment passes the subscription check. *)
Theorem own_topics_granted cfg record ci s w ws :
  valid_segment (userid record) = true ->
  plain (topic_filter s) = true -> split_on "/" (topic_filter s) = w :: userid record :: ws ->
  grants_subscribe (subscribe_check cfg (Some (build_auth_info record (acl cfg) ci)) s) = true.
Proof.
  intros Hv Hp Hs. unfold subscribe_check.
  destruct (acl_enabled (acl cfg)); simpl; [|by rewrite new_success_granted].
  destruct (Db.superuser record) eqn:Hsu.
  { unfold build_auth_info. rewrite Hsu. simpl. by rewrite new_success_granted. }
  assert (exists rs, rules (build_auth_info record (acl cfg) ci)
    = mkRule Allow ActSubscribe None None
        (mkAclTopic None (Some [SingleWildcard; Normal (userid record); MultiWildcard])) :: rs) as [rs Hrs].
  { apply first_rule; [by apply own_filter_rule | done]. }
  unfold subscribe_acl. rewrite build_auth_info_superuser, Hsu, Hrs. cbn [subscribe_acl_loop].
  unfold subscribe_hit. simpl. unfold is_match. simpl.
  rewrite (proj2 (own_filter_plain (userid record) (topic_filter s) Hp)) by eauto. simpl.
  by rewrite new_success_granted.
Qed.

(** an ordinary user may publish exactly to the configured topics, after
    substitution of the client's placeholders; any other publish is rejected
    and disconnects the client. *)
Theorem publish_allowlist cfg record ci p :
  acl_enabled (acl cfg) = true -> Db.superuser record = false ->
  publish_check cfg (Some (build_auth_info record (acl cfg) ci)) p
  = (false, Some (HookPublishAclResult
      (if bool_decide (topic p ∈ allowed_topics (acl cfg) ci)
       then publish_acl_allow else publish_acl_rejected true None))).
Proof.
  intros Hen Hsu. unfold publish_check. rewrite Hen. simpl. unfold publish_acl.
  rewrite build_auth_info_superuser, Hsu, publish_acl_loop_spec.
  case_bool_decide as Hex.
  - rewrite allow_decision; [done| |].
    + intros r. rewrite build_auth_info_rules by done. naive_solver.
    + apply allowed_topics_elem in Hex as (t & Ht & Hr).
      exists (mkRule Allow ActPublish None None (mkAclTopic (Some (topic p)) None)).
      rewrite build_auth_info_rules by done. split; [right; exists t, (mkAclTopic (Some (topic p)) None)|].
      * by rewrite eq_topic_rule, Hr.
      * unfold publish_applies. simpl. unfold publish_allow_hit, publish_hit. simpl.
        unfold is_match. simpl. by rewrite bool_decide_true.
  - rewrite no_decision; [done|]. intros r Hin. destruct (publish_applies p r) eqn:Ha; [|done].
    exfalso. apply Hex. apply build_auth_info_rules in Hin as [(f & t & Hf & Ht & ->)|(t & tp & Hf & Ht & ->)];
      [done| |done].
    rewrite eq_topic_rule in Ht. unfold publish_applies, publish_allow_hit, publish_hit in Ha. simpl in Ha.
    destruct (replaces t ci) as [x|] eqn:Hr; [|done]. injection Ht as <-.
    unfold is_match in Ha. simpl in Ha. case_bool_decide; [|done]. subst.
    apply allowed_topics_elem. eauto.
Qed.

(** A [$] segment after the userid is refused, although the topic's second
    segment is the userid. *)
Lemma dollar_below_userid_denied :
  matches_str [SingleWildcard; Normal "u1"; MultiWildcard] "chat/u1/$meta" = false.
Proof. reflexivity. Qed.

(** ** Witnesses: the default configuration *)

Definition default_settings : Settings :=
  mkSettings AclConfig_default [] false None None ClusterConfig_default.

Definition alice : UserRecord := mkUser "alice" "u1" "hash" false false.

Definition alice_conn : ConnectInfo := ConnV3 (Id_from 0 1 "c1") (Some "alice") (Some "pw").

Lemma tenant_isolation_witness :
  mqtt_match [Normal "chat"; Normal "u1"; MultiWildcard] ["chat"; "u1"; "m"]
  /\ (["chat"; "u1"; "m"] !! 1%nat = Some "u1"
      \/ exists p, p ∈ user_prefixes alice AclConfig_default /\ split_on "/" p `prefix_of` ["chat"; "u1"; "m"]).
Proof.
  assert (mqtt_match [Normal "chat"; Normal "u1"; MultiWildcard] ["chat"; "u1"; "m"]) as Hm.
  { apply (mm_level (Normal "chat")); [done|]. apply (mm_level (Normal "u1")); [done|]. apply mm_multi. }
  split; [exact Hm|].
  apply (tenant_isolation default_settings alice alice_conn
    (mkSubscribe "chat/u1/#" opts_default) [Normal "chat"; Normal "u1"; MultiWildcard] ["chat"; "u1"; "m"]);
    try reflexivity; [repeat constructor | exact Hm].
Defined.

Lemma own_topics_granted_witness :
  grants_subscribe (subscribe_check default_settings
    (Some (build_auth_info alice AclConfig_default alice_conn)) (mkSubscribe "chat/u1/#" opts_default)) = true.
Proof.
  apply (own_topics_granted default_settings alice alice_conn (mkSubscribe "chat/u1/#" opts_default)
    "chat" ["#"]); reflexivity.
Defined.

Lemma publish_allowlist_witness :
  publish_check default_settings (Some (build_auth_info alice AclConfig_default alice_conn))
    (publish_from (mkCodec false false AtMostOnce "secret" None "x"))
  = (false, Some (HookPublishAclResult (publish_acl_rejected true None))).
Proof. rewrite (publish_allowlist default_settings alice alice_conn) by reflexivity. reflexivity. Defined.
