(* ===== verification/Auth.v ===== *)
(** * Who is let in: theorems on authentication and the management API

    The invariant [creds_ok V] says that every entry of the authentication
    cache and every stored verifier comes from credentials in [V]. It is kept
    by every handler when [V] grows by the credentials the handler vouches
    for: those of a user it creates, and those argon2 verifies against the
    user's record. So a connection that is let in presents vouched-for
    credentials, up to a collision of the digests.

    A deleted user stays out until something stores it again; among the things
    that do is a lookup that was under way ([lookup_race]). *)

From S2P Require Import Prelude Strs Topic Types Acl Store Config Db Vault Api.
Local Open Scope string_scope.
Local Open Scope list_scope.
Local Open Scope Z_scope.

Section auth.
Context {T : Type} `{KvLaws T string Bytes}.
Context (bincode_encode : UserRecord -> result string Bytes).
Context (bincode_decode : Bytes -> result string UserRecord).
Context {Params Phc : Type}.
Context (params_new : Z -> Z -> Z -> result string Params).
Context (argon2_hash : Params -> Bytes -> string -> result string string).
Context (phc_parse : string -> option Phc).
Context (argon2_verify : Phc -> Bytes -> bool).
Context (hmac_sha256 : Bytes -> Bytes -> Bytes).
Context (sha256 : Bytes -> Bytes).
Context {J : Type} (to_value : ReplOp -> result string J).
Context (from_utf8 : string -> option string).
Context (cfg : Settings) (w : World).

Local Abbreviation Broker := (Broker T J).
Local Abbreviation dec := (dec bincode_decode).
Local Abbreviation verify_password := (verify_password phc_parse argon2_verify).
Local Abbreviation compute_verifier := (compute_verifier hmac_sha256).
Local Abbreviation auth_key := (auth_key sha256).
Local Abbreviation credentials := (credentials from_utf8).
Local Abbreviation create_user :=
  (create_user bincode_encode params_new argon2_hash hmac_sha256 to_value cfg w).
Local Abbreviation delete_user := (delete_user to_value cfg w).
Local Abbreviation replicate := (replicate bincode_encode w).
Local Abbreviation lookup_user := (lookup_user bincode_decode w).
Local Abbreviation lookup_ends := (lookup_ends bincode_decode w).
Local Abbreviation authenticate :=
  (authenticate bincode_decode phc_parse argon2_verify hmac_sha256 sha256 from_utf8 cfg w).
Local Abbreviation router :=
  (management_router bincode_encode bincode_decode params_new argon2_hash hmac_sha256 to_value cfg w).
Local Abbreviation catch_up := (catch_up bincode_encode cfg w).
Local Abbreviation fanout := (fanout to_value cfg).

(** ** Definitions *)

(** The record of [name] a lookup can return: cached or stored. *)
Definition visible (b : Broker) (name : string) (r : UserRecord) : Prop :=
  (exists e, user_map (user_cache b) !! name = Some (r, e))
  \/ (exists bytes, kv_get (users (tables b)) name = Some bytes /\ dec bytes = Ok r).

(** The username and password have the MAC of a password in [V] of the same
    user; credentials in [V] do. *)
Definition mac_vouched (V : string -> string -> Prop) (u p : string) : Prop :=
  exists pep pep' p', V u p' /\ compute_verifier pep u p = compute_verifier pep' u p'.

Definition creds_ok (V : string -> string -> Prop) (b : Broker) : Prop :=
  (forall key e, auth_map (auth_cache b) !! key = Some e ->
     exists u p, mac_vouched V u p /\ key = auth_key u p)
  /\ (forall u v, kv_get (verifiers (tables b)) u = Some v ->
     exists pep p, V u p /\ v = compute_verifier pep u p).

(** Credentials argon2 accepts against a visible record of the user. *)
Definition verified (b : Broker) (u p : string) : Prop :=
  exists r, visible b u r /\ verify_password (password_hash r) p = true.

(** The credentials are verified, or have the digest of vouched-for ones. *)
Definition genuine (V : string -> string -> Prop) (b : Broker) (u p : string) : Prop :=
  verified b u p \/ exists u' p', mac_vouched V u' p' /\ auth_key u p = auth_key u' p'.

(** The connection is let in, with this flag and these rules. *)
Definition allowed (r : ReturnType) : option (bool * option AuthInfo) :=
  match r with
  | (_, Some (HookAuthResult (AuthAllow su info))) => Some (su, info)
  | _ => None
  end.

(** ** Executions of a node

    An event is a handler that runs without the others in between. The one
    place where this would hide something is [lookup_user], whose read of the
    database and insertion into the cache can have other handlers in between:
    [EvLookupEnds] is the insertion of a record that a lookup has read from
    tables [d], of any time. *)

Inductive Event : Type :=
| EvConnect (ci : ConnectInfo)
| EvCall (authorization : option string) (c : Call)
| EvSweep
| EvCatchUp
| EvLookupEnds (io : TxnFaults db_error) (name : string) (d : Tables T).

Definition step (e : Event) (b : Broker) : Broker :=
  match e with
  | EvConnect ci => snd (authenticate ci b)
  | EvCall authorization c => snd (router authorization c b)
  | EvSweep => snd (sweep w b)
  | EvCatchUp => snd (catch_up b)
  | EvLookupEnds io name d => snd (lookup_ends io name d b)
  end.

Definition run (es : list Event) (b : Broker) : Broker := fold_left (fun b e => step e b) es b.

(** What a call with this response, and an event, vouch for. *)
Definition vouches_call (c : Call) (r : Response) (u p : string) : Prop :=
  match c with
  | CallCreateUser req => status r = CREATED /\ cu_username req = u /\ cu_password req = p
  | _ => False
  end.

Definition vouches (e : Event) (b : Broker) (u p : string) : Prop :=
  match e with
  | EvConnect ci => credentials ci = Some (u, p) /\ verified b u p
  | EvCall authorization c => vouches_call c (fst (router authorization c b)) u p
  | _ => False
  end.

Fixpoint vouched (V : string -> string -> Prop) (es : list Event) (b : Broker)
    : string -> string -> Prop :=
  match es with
  | [] => V
  | e :: es' => vouched (fun u p => V u p \/ vouches e b u p) es' (step e b)
  end.

(** ** Lemmas: the primitives *)

(** Two brokers with the same credential stores. *)
Definition same_creds (b b' : Broker) : Prop :=
  auth_map (auth_cache b') = auth_map (auth_cache b)
  /\ verifiers (tables b') = verifiers (tables b).

Lemma creds_ok_same V b b' : same_creds b b' -> creds_ok V b -> creds_ok V b'.
Proof. intros [Ha Hv] [Hc1 Hc2]. split; [by rewrite Ha | by rewrite Hv]. Qed.

Lemma creds_ok_mono (V V' : string -> string -> Prop) b :
  (forall u p, V u p -> V' u p) -> creds_ok V b -> creds_ok V' b.
Proof.
  intros Hi [H1 H2]. split.
  - intros key e Hk. destruct (H1 key e Hk) as (u & p & (pep & pep' & p' & ? & ?) & ?).
    exists u, p. split; [|done]. exists pep, pep', p'. eauto.
  - intros u v Hv. destruct (H2 u v Hv) as (pep & p & ? & ?). eauto.
Qed.

Lemma wp_tick (Q : nat -> Broker -> Prop) b :
  Q (ticks b) (mkBroker (tables b) (token b) (auth_cache b) (user_cache b) (outbox b) (S (ticks b))) ->
  wp tick Q b.
Proof. done. Qed.

Lemma wp_gets {A} (f : Broker -> A) (Q : A -> Broker -> Prop) b : Q (f b) b -> wp (gets f) Q b.
Proof. done. Qed.

Lemma wp_modify f (Q : unit -> Broker -> Prop) b : Q tt (f b) -> wp (modify f) Q b.
Proof. done. Qed.

(** [same_but b b']: only the number of ticks differs. *)
Definition same_but (b b' : Broker) : Prop :=
  tables b' = tables b /\ token b' = token b /\ auth_cache b' = auth_cache b
  /\ user_cache b' = user_cache b /\ outbox b' = outbox b.

Lemma wp_now (Q : Z -> Broker -> Prop) b :
  (forall t b', same_but b b' -> Q t b') -> wp (now w) Q b.
Proof. intros HQ. apply HQ. done. Qed.

Lemma wp_tick_any (Q : nat -> Broker -> Prop) b :
  (forall n b', same_but b b' -> Q n b') -> wp tick Q b.
Proof. intros HQ. apply HQ. done. Qed.

Lemma wp_spawn {A} (a : A) (Q : option A -> Broker -> Prop) b :
  (forall o b', same_but b b' -> o = Some a \/ o = None -> Q o b') -> wp (spawn_blocking w a) Q b.
Proof. intros HQ. apply HQ; [done|]. destruct (join_ok w _); eauto. Qed.

Lemma wp_read_db {A} (f : TxnFaults db_error -> Tables T -> result db_error A) Q b :
  (forall io b', same_but b b' -> Q (f io (tables b)) b') -> wp (read_db w f) Q b.
Proof.
  intros HQ. apply (HQ _ (mkBroker (tables b) (token b) (auth_cache b) (user_cache b)
                            (outbox b) (S (ticks b)))). done.
Qed.

(** Without storage faults the transaction is the plain function. *)
Lemma wp_read_db_ok {A} (f : TxnFaults db_error -> Tables T -> result db_error A) Q b :
  (forall n, io w n = no_faults) ->
  (forall b', same_but b b' -> Q (f no_faults (tables b)) b') -> wp (read_db w f) Q b.
Proof.
  intros Hio HQ. specialize (HQ (mkBroker (tables b) (token b) (auth_cache b) (user_cache b)
                            (outbox b) (S (ticks b)))).
  unfold read_db, bind, tick, wp. simpl. rewrite Hio. by apply HQ.
Qed.

Lemma wp_run_db {A} (f : TxnFaults db_error -> Tables T -> result db_error A * Tables T) Q b :
  (forall io b', same_but b b' -> Q (fst (f io (tables b))) (set_tables (snd (f io (tables b))) b')) ->
  wp (run_db w f) Q b.
Proof.
  intros HQ. unfold run_db, bind, tick, wp. simpl.
  specialize (HQ (io w (ticks b)) (mkBroker (tables b) (token b) (auth_cache b) (user_cache b)
                            (outbox b) (S (ticks b)))).
  destruct (f (io w (ticks b)) (tables b)) as [r d]. by apply HQ.
Qed.

(** ** Lemmas: the store's methods on the tables *)

Lemma set_verifier_tables io u v d :
  snd (set_verifier io u v d) = d
  \/ snd (set_verifier io u v d) = mkTables (users d) (kv_insert (verifiers d) u v).
Proof.
  unfold set_verifier.
  match goal with |- context [write_txn io ?f d] =>
    destruct (write_txn_spec io f d) as [(a & s' & Hf & ->)|(e & ->)] end; [|by left].
  right. by injection Hf as <- <-.
Qed.

Lemma insert_user_tables io nu d :
  (exists r, r <> Ok true /\ insert_user bincode_encode io nu d = (r, d))
  \/ exists bytes, enc bincode_encode (record_of nu) = Ok bytes
     /\ kv_get (users d) (nu_username nu) = None
     /\ insert_user bincode_encode io nu d
        = (Ok true, mkTables (kv_insert (users d) (nu_username nu) bytes) (verifiers d)).
Proof.
  unfold insert_user. destruct (enc _ _) as [bytes|e]; [|left; by exists (Err e)].
  match goal with |- context [write_txn io ?f d] =>
    destruct (write_txn_spec io f d) as [(a' & s' & Hf & ->)|(e & ->)] end;
    [|left; by exists (Err e)].
  simpl in Hf. destruct (kv_get (users d) (nu_username nu)) eqn:Hk; injection Hf as <- <-.
  - left. by exists (Ok false).
  - right. by exists bytes.
Qed.

Lemma upsert_user_tables io nu d :
  (exists e, upsert_user bincode_encode io nu d = (Err e, d))
  \/ exists bytes, enc bincode_encode (record_of nu) = Ok bytes
     /\ upsert_user bincode_encode io nu d
        = (Ok tt, mkTables (kv_insert (users d) (nu_username nu) bytes) (verifiers d)).
Proof.
  unfold upsert_user. destruct (enc _ _) as [bytes|]; [|by eauto].
  match goal with |- context [write_txn io ?f d] =>
    destruct (write_txn_spec io f d) as [(a' & s' & Hf & ->)|(e & ->)] end; [|by eauto].
  right. exists bytes. by injection Hf as <- <-.
Qed.

Lemma upsert_many_tables io us d :
  verifiers (snd (upsert_many bincode_encode io us d)) = verifiers d.
Proof.
  unfold upsert_many. destruct us as [|u us]; [done|].
  match goal with |- context [write_txn io ?f d] =>
    destruct (write_txn_spec io f d) as [(a' & s' & Hf & ->)|(e & ->)] end; [|done].
  destruct (upsert_loop _ _ _); [|done]. by injection Hf as <- <-.
Qed.

Lemma delete_user_tables io name d :
  (exists e, Db.delete_user io name d = (Err e, d))
  \/ Db.delete_user io name d
     = (Ok (isSome (kv_get (users d) name)),
        mkTables (kv_remove (users d) name) (kv_remove (verifiers d) name)).
Proof.
  unfold Db.delete_user.
  match goal with |- context [write_txn io ?f d] =>
    destruct (write_txn_spec io f d) as [(a' & s' & Hf & ->)|(e & ->)] end; [|by eauto].
  right. by injection Hf as <- <-.
Qed.

Lemma get_user_result io name d r :
  get_user bincode_decode io name d = Ok (Some r) ->
  exists bytes, kv_get (users d) name = Some bytes /\ dec bytes = Ok r.
Proof.
  unfold get_user, read_txn. destruct (begin_fault io), (table_fault io); try done.
  destruct (kv_get (users d) name) as [v|]; [|done]. destruct (Db.dec _ v) as [r'|] eqn:Hd; [|done].
  simpl. intros [= ->]. eauto.
Qed.

Lemma get_verifier_result io name d v :
  get_verifier io name d = Ok (Some v) -> kv_get (verifiers d) name = Some v.
Proof.
  unfold get_verifier, read_txn. destruct (begin_fault io), (table_fault io); try done.
  by intros [= ->].
Qed.

(** ** Lemmas: a connection *)

(** [b'] shows no record that [b] does not. *)
Definition shows_less (b b' : Broker) : Prop := forall n r, visible b' n r -> visible b n r.

Lemma same_but_visible b b' : same_but b b' -> shows_less b b'.
Proof.
  intros (Ht & _ & _ & Hu & _) n r. unfold visible. by rewrite Ht, Hu.
Qed.

Lemma same_but_creds b b' : same_but b b' -> same_creds b b'.
Proof. intros (Ht & _ & Ha & _). split; [by rewrite Ha | by rewrite Ht]. Qed.

Lemma wp_lookup_user name (Q : result Response (option UserRecord) -> Broker -> Prop) b :
  (forall r b', same_creds b b' -> shows_less b b' ->
     (forall rec, r = Ok (Some rec) -> visible b name rec) -> Q r b') ->
  wp (lookup_user name) Q b.
Proof.
  intros HQ. apply wp_bind, wp_now. intros t b1 Hb1. apply wp_bind, wp_gets.
  pose proof (same_but_creds _ _ Hb1) as Hs1. pose proof (same_but_visible _ _ Hb1) as Hv1.
  destruct (UserCache_get t name (user_cache b1)) as [rec|] eqn:Hc.
  { apply wp_ret, HQ; [done|done|]. intros rec' [= <-]. apply Hv1. left.
    unfold UserCache_get in Hc. destruct (user_map (user_cache b1) !! name) as [[r e]|]; [|done].
    destruct (t <? e)%Z; [|done]. injection Hc as ->. eauto. }
  apply wp_bind, wp_read_db. intros io b2 Hb2.
  pose proof (same_but_creds _ _ Hb2) as Hs2. pose proof (same_but_visible _ _ Hb2) as Hv2.
  assert (same_creds b b2) as Hs by (destruct Hs1, Hs2; split; congruence).
  assert (shows_less b b2) as Hv by (intros n r Hr; eauto).
  destruct (get_user bincode_decode io name (tables b1)) as [[rec|]|e] eqn:Hg.
  - apply get_user_result in Hg as (bytes & Hk & Hd).
    assert (visible b name rec) as Hrec by (apply Hv1; right; eauto).
    apply wp_bind, wp_bind, wp_now. intros t' b3 Hb3. apply wp_modify, wp_ret, HQ.
    + pose proof (same_but_creds _ _ Hb3) as Hs3. destruct Hs, Hs3. split; simpl; congruence.
    + intros n r Hr. pose proof (same_but_visible _ _ Hb3) as Hv3.
      unfold set_user_cache, UserCache_insert in Hr. simpl in Hr.
      destruct (user_ttl (user_cache b3) =? 0)%Z; [by eauto|].
      destruct Hr as [(e & He)|Hr]; simpl in *.
      * apply lookup_insert_Some in He as [[<- [= <- _]]|[_ He]]; [done|].
        apply Hv, Hv3. left. eauto.
      * apply Hv, Hv3. by right.
    + by intros ? [= <-].
  - by apply wp_ret, HQ.
  - by apply wp_ret, HQ.
Qed.

Lemma wp_lookup_ends io name d (Q : unit -> Broker -> Prop) b :
  (forall b', tables b' = tables b -> auth_cache b' = auth_cache b ->
     (forall n e, n <> name \/ kv_get (users d) name = None ->
        user_map (user_cache b') !! n = Some e -> user_map (user_cache b) !! n = Some e) -> Q tt b') ->
  wp (lookup_ends io name d) Q b.
Proof.
  intros HQ. unfold lookup_ends. destruct (get_user _ _ _ _) as [[rec|]|e] eqn:Hg; [|by apply wp_ret, HQ..].
  apply get_user_result in Hg as (bytes & Hk & _).
  apply wp_bind, wp_now. intros t b1 (Ht & _ & Ha & Hu & _). apply wp_modify, HQ; simpl; [done|done|].
  intros n e Hn. unfold UserCache_insert. rewrite Hu. destruct (user_ttl _ =? 0)%Z; [done|]. simpl.
  rewrite lookup_insert_ne; [done|]. destruct Hn; congruence.
Qed.

Lemma wp_cache_success key record (Q : unit -> Broker -> Prop) b :
  (forall b', tables b' = tables b -> user_cache b' = user_cache b ->
     (forall k e, auth_map (auth_cache b') !! k = Some e ->
        k = key \/ exists e', auth_map (auth_cache b) !! k = Some e') -> Q tt b') ->
  wp (cache_success w key record) Q b.
Proof.
  intros HQ. apply wp_bind, wp_now. intros t b1 (Ht & _ & Ha & Hu & _). apply wp_modify, HQ; simpl; [done|done|].
  intros k e. unfold AuthCache_insert. rewrite Ha. destruct (auth_ttl _ =? 0)%Z; [eauto|]. simpl.
  intros [[-> _]|[_ Hk]]%lookup_insert_Some; eauto.
Qed.

Lemma creds_ok_cached V b b' u p :
  creds_ok V b -> mac_vouched V u p -> verifiers (tables b') = verifiers (tables b) ->
  (forall k e, auth_map (auth_cache b') !! k = Some e ->
     k = auth_key u p \/ exists e', auth_map (auth_cache b) !! k = Some e') ->
  creds_ok V b'.
Proof.
  intros [H1 H2] HV Hv Ha. split; [|by rewrite Hv].
  intros k e [->|(e' & He)]%Ha; eauto.
Qed.

Lemma mac_vouched_self V u p : V u p -> mac_vouched V u p.
Proof. intros HV. by exists [], [], p. Qed.

Lemma visible_same b b' :
  tables b' = tables b -> user_cache b' = user_cache b -> shows_less b b'.
Proof. intros Ht Hu n r. unfold visible. by rewrite Ht, Hu. Qed.

Local Abbreviation fast_check := (fast_check hmac_sha256 cfg w).
Local Abbreviation slow_check := (slow_check phc_parse argon2_verify hmac_sha256 cfg w).

Lemma wp_fast_check V u p rec (Q : bool -> Broker -> Prop) b :
  creds_ok V b ->
  (forall ok b', creds_ok V b' -> shows_less b b' -> (ok = true -> mac_vouched V u p) -> Q ok b') ->
  wp (fast_check u p (auth_key u p) rec) Q b.
Proof.
  intros HV HQ. assert (shows_less b b) as Hrefl by (by intros ? ?).
  unfold fast_check. destruct (pepper cfg) as [pep|]; [|by apply wp_ret, HQ].
  apply wp_bind, wp_read_db. intros io b1 Hb1.
  pose proof (creds_ok_same _ _ _ (same_but_creds _ _ Hb1) HV) as HV1.
  pose proof (same_but_visible _ _ Hb1) as Hv1.
  destruct (get_verifier io u (tables b)) as [[v|]|e] eqn:Hg; [|by apply wp_ret, HQ..].
  apply get_verifier_result in Hg.
  destruct (verify_fast hmac_sha256 pep u p v) eqn:Hf; [|by apply wp_ret, HQ].
  assert (mac_vouched V u p) as HM.
  { destruct HV as [_ H2]. destruct (H2 u v Hg) as (pep' & p' & Hp' & ->).
    unfold verify_fast in Hf. rewrite ct_eq_spec in Hf. apply bool_decide_eq_true in Hf.
    by exists pep, pep', p'. }
  apply wp_bind, wp_cache_success. intros b2 Ht Hu Ha. apply wp_ret, HQ; [| |done].
  - eapply creds_ok_cached; [exact HV1 | exact HM | by rewrite Ht | done].
  - intros n r Hr. apply Hv1. by eapply visible_same.
Qed.

Lemma wp_slow_check V u p rec (Q : bool -> Broker -> Prop) b :
  creds_ok V b -> (verify_password (password_hash rec) p = true -> V u p) ->
  (forall ok b', creds_ok V b' -> shows_less b b' ->
     (ok = true -> verify_password (password_hash rec) p = true) -> Q ok b') ->
  wp (slow_check u p (auth_key u p) rec) Q b.
Proof.
  intros HV Hvp HQ. apply wp_bind, wp_spawn. intros o b1 Hb1 Ho.
  pose proof (creds_ok_same _ _ _ (same_but_creds _ _ Hb1) HV) as HV1.
  pose proof (same_but_visible _ _ Hb1) as Hv1.
  destruct o as [[]|]; [|by apply wp_ret, HQ..].
  destruct Ho as [[= Ho]|]; [symmetry in Ho|done]. specialize (Hvp Ho).
  apply wp_bind, wp_cache_success. intros b2 Ht Hu Ha.
  assert (creds_ok V b2) as HV2
    by (eapply creds_ok_cached; [exact HV1 | by apply mac_vouched_self | by rewrite Ht | done]).
  assert (shows_less b b2) as Hv2 by (intros n r Hr; apply Hv1; by eapply visible_same).
  apply wp_bind. destruct (pepper cfg) as [pep|]; [|by apply wp_ret, wp_ret, HQ].
  apply wp_bind, wp_run_db. intros io b3 Hb3. apply wp_ret, wp_ret, HQ; [| |done].
  - pose proof (creds_ok_same _ _ _ (same_but_creds _ _ Hb3) HV2) as [H1 H2]. split; [done|].
    simpl. destruct Hb3 as (Ht3 & _).
    intros u' v. destruct (set_verifier_tables io u (compute_verifier pep u p) (tables b2)) as [->| ->].
    + rewrite <- Ht3. by apply H2.
    + simpl. rewrite kv_get_insert_dec. case_decide; [|rewrite <- Ht3; by apply H2].
      subst. intros [= <-]. eauto.
  - intros n r Hr. apply Hv2. destruct Hb3 as (Ht3 & _ & _ & Hu3 & _).
    destruct Hr as [Hr|Hr]; [left; simpl in Hr; by rewrite Hu3 in Hr|right; simpl in Hr].
    by destruct (set_verifier_tables io u (compute_verifier pep u p) (tables b2)) as [Hs|Hs];
      rewrite Hs in Hr.
Qed.

(** What a connection guarantees: it keeps the invariant with what it
    verifies, shows no new records, and is let in only with genuine
    credentials, the flag and the rules of the user's record. *)
Definition connect_post V ci (b : Broker) (r : ReturnType) (b' : Broker) : Prop :=
  creds_ok (fun u p => V u p \/ vouches (EvConnect ci) b u p) b' /\ shows_less b b'
  /\ forall su info, allowed r = Some (su, info) ->
     exists u p rec, credentials ci = Some (u, p) /\ u <> "" /\ p <> "" /\ visible b u rec
       /\ genuine V b u p
       /\ su = Db.superuser rec /\ info = Some (build_auth_info rec (acl cfg) ci).

Lemma connect_denied V ci b r b' :
  allowed r = None -> creds_ok (fun u p => V u p \/ vouches (EvConnect ci) b u p) b' ->
  shows_less b b' -> connect_post V ci b r b'.
Proof. intros Hr HV Hv. split; [done|]. split; [done|]. intros su info Ha. congruence. Qed.

Lemma cache_hit V b t u p key :
  creds_ok V b -> key = auth_key u p -> isSome (AuthCache_get t key (auth_cache b)) = true ->
  exists u' p', mac_vouched V u' p' /\ auth_key u p = auth_key u' p'.
Proof.
  intros [H1 _] -> Hg. unfold AuthCache_get in Hg.
  destruct (auth_map (auth_cache b) !! _) as [e|] eqn:He; [|done]. eauto.
Qed.

Lemma wp_authenticate V ci b :
  auth_disabled cfg = false -> creds_ok V b ->
  wp (authenticate ci) (connect_post V ci b) b.
Proof.
  intros Hdis HV. assert (shows_less b b) as Hrefl by (by intros ? ?).
  assert (forall V0 b0, creds_ok V0 b0 -> creds_ok (fun u p => V0 u p \/ vouches (EvConnect ci) b u p) b0)
    as Hmono by (intros; eapply creds_ok_mono; [|done]; by left).
  unfold authenticate. rewrite Hdis.
  destruct (credentials ci) as [[u p]|] eqn:Hc; [|apply wp_ret, connect_denied; eauto].
  destruct (str_is_empty u || str_is_empty p) eqn:Hne; [apply wp_ret, connect_denied; by eauto|].
  apply orb_false_iff in Hne as [Hu Hp].
  apply wp_bind, wp_lookup_user. intros r b1 Hs1 Hv1 Hr.
  pose proof (creds_ok_same _ _ _ Hs1 HV) as HV1.
  destruct r as [[rec|]|resp]; [|apply wp_ret, connect_denied; by eauto..].
  specialize (Hr rec eq_refl).
  apply wp_bind, wp_now. intros t b2 Hb2. apply wp_bind, wp_gets.
  pose proof (creds_ok_same _ _ _ (same_but_creds _ _ Hb2) HV1) as HV2.
  assert (shows_less b b2) as Hv2 by (intros n x Hx; by eapply Hv1, same_but_visible).
  assert (forall b', creds_ok (fun u p => V u p \/ vouches (EvConnect ci) b u p) b' ->
    shows_less b b' -> genuine V b u p -> connect_post V ci b
      (false, Some (HookAuthResult (AuthAllow (Db.superuser rec)
          (Some (build_auth_info rec (acl cfg) ci))))) b') as Hallow.
  { intros b' ? ? ?. split; [done|]. split; [done|]. intros su info [= <- <-].
    exists u, p, rec. repeat split; try done; by intros ->. }
  apply wp_bind. destruct (isSome (AuthCache_get t _ (auth_cache b2))) eqn:Hhit.
  { apply wp_ret, wp_bind, wp_ret, wp_ret, Hallow; [by eauto | done |].
    right. by eapply cache_hit. }
  apply (wp_fast_check V); [done|]. intros ok b3 HV3 Hv3 Hok. destruct ok.
  { apply wp_bind, wp_ret, wp_ret, Hallow; [by eauto | by intros n x Hx; eauto |].
    right. exists u, p. eauto. }
  apply wp_bind, (wp_slow_check (fun u p => V u p \/ vouches (EvConnect ci) b u p)); [by eauto| |].
  { intros Hvp. right. split; [done|]. by exists rec. }
  intros ok b4 HV4 Hv4 Hok4. assert (shows_less b b4) as Hv by (intros n x Hx; eauto).
  destruct ok; apply wp_ret; [apply Hallow; [done|done|] | by apply connect_denied].
  left. exists rec. eauto.
Qed.

(** ** Lemmas: the management calls *)

(** Everything but the tokens and the clock. *)
Definition same_data (b b' : Broker) : Prop :=
  tables b' = tables b /\ auth_cache b' = auth_cache b /\ user_cache b' = user_cache b
  /\ outbox b' = outbox b.

Lemma same_but_data b b' : same_but b b' -> same_data b b'.
Proof. intros (? & ? & ? & ? & ?). done. Qed.

Lemma same_data_trans b1 b2 b3 : same_data b1 b2 -> same_data b2 b3 -> same_data b1 b3.
Proof. intros (? & ? & ? & ?) (? & ? & ? & ?). repeat split; congruence. Qed.

Lemma same_data_creds b b' : same_data b b' -> same_creds b b'.
Proof. intros (Ht & Ha & _). split; [by rewrite Ha | by rewrite Ht]. Qed.

Lemma same_data_visible b b' : same_data b b' -> shows_less b b'.
Proof. intros (Ht & _ & Hu & _). by apply visible_same. Qed.

(** The requests [fanout] sends. *)
Definition fanout_requests (op : ReplOp) (token : string) : list (Request J) :=
  match to_value op with
  | Ok body => map (fun base => mkRequest (replicate_url base) token body) (peers cfg)
  | Err _ => []
  end.

(** [b'] is [b] after a call of [fanout] with [op]. *)
Definition after_fanout (op : ReplOp) (b b' : Broker) : Prop :=
  tables b' = tables b /\ auth_cache b' = auth_cache b /\ user_cache b' = user_cache b
  /\ outbox b' = outbox b ++ fanout_requests op (current (token b)).

Lemma wp_fanout op (Q : unit -> Broker -> Prop) b :
  (forall b', after_fanout op b b' -> Q tt b') -> wp (fanout op) Q b.
Proof.
  intros HQ. unfold fanout.
  assert (forall body bases (b0 : Broker), (forall b', tables b' = tables b0 ->
    auth_cache b' = auth_cache b0 -> user_cache b' = user_cache b0 ->
    outbox b' = outbox b0 ++ map (fun base => mkRequest (replicate_url base) (current (token b0)) body) bases ->
    Q tt b') -> wp (fanout_loop bases body) Q b0) as Hloop.
  { intros body bases. induction bases as [|base bases IH]; intros b0 Hb0; simpl.
    - apply Hb0; [done..|]. by rewrite app_nil_r.
    - apply IH. simpl. intros b' ? ? ? Ho. apply Hb0; try done. by rewrite Ho, <- app_assoc. }
  destruct (peers cfg) as [|peer ps] eqn:Hpeers; [| destruct (to_value op) as [body|e] eqn:Hv].
  - apply wp_ret, HQ. repeat split. unfold fanout_requests. rewrite Hpeers.
    destruct (to_value op); by rewrite app_nil_r.
  - apply Hloop. intros b' Ht Ha Hu Ho. apply HQ. repeat split; try done.
    unfold fanout_requests. by rewrite Hv, Hpeers.
  - apply wp_ret, HQ. repeat split. unfold fanout_requests. by rewrite Hv, app_nil_r.
Qed.

Lemma wp_refresh_token (Q : unit -> Broker -> Prop) b :
  (forall b', same_data b b' -> Q tt b') -> wp (refresh_token cfg w) Q b.
Proof.
  intros HQ. unfold refresh_token. destruct (vault cfg) as [client|]; [|by apply wp_ret, HQ].
  apply wp_bind, wp_now. intros t0 b1 Hb1%same_but_data. apply wp_bind, wp_gets.
  destruct (match refreshed_at _ with Some _ => _ | None => _ end); [by apply wp_ret, HQ|].
  apply wp_bind, wp_now. intros t1 b2 Hb2%same_but_data. apply wp_bind, wp_modify.
  apply wp_bind, wp_tick_any. intros n b3 Hb3%same_but_data.
  assert (same_data b b3) as Hb
    by (eapply same_data_trans; [exact Hb1|]; eapply same_data_trans; [exact Hb2 | exact Hb3]).
  destruct (vault_reply _ _ _ _) as [[new|]|e]; [|by apply wp_ret, HQ..].
  apply wp_modify, HQ. by destruct (negb _).
Qed.

Lemma wp_require_token authorization next (Q : Response -> Broker -> Prop) b :
  (forall b', same_data b b' -> wp next Q b') ->
  (forall b', same_data b b' ->
     Q (mkResponse UNAUTHORIZED (ErrorBody "invalid or missing bearer token")) b') ->
  wp (require_token cfg w authorization next) Q b.
Proof.
  intros Hnext HQ. assert (same_data b b) as Hrefl by done.
  apply wp_bind. unfold authorize. destruct (bearer authorization) as [tok|]; [|by apply wp_ret, wp_ret, HQ].
  apply wp_bind, wp_gets. destruct (matches_token tok (token b)); [by apply wp_ret, Hnext|].
  apply wp_bind, wp_refresh_token. intros b1 Hb1. apply wp_gets.
  destruct (matches_token tok (token b1)); [by apply Hnext | by apply wp_ret, HQ].
Qed.

(** The store written by a successful creation. *)
Definition created (req : CreateUser) (b b' : Broker) : Prop :=
  exists hash salt bytes,
    hash_password params_new argon2_hash (environment w) salt (cu_password req) = Ok hash
    /\ let rec := mkUser (cu_username req) (cu_userid req) hash (cu_superuser req) (cu_admin req) in
       enc bincode_encode rec = Ok bytes
       /\ kv_get (users (tables b)) (cu_username req) = None
       /\ users (tables b') = kv_insert (users (tables b)) (cu_username req) bytes
       /\ (verifiers (tables b') = verifiers (tables b)
           \/ exists pep, pepper cfg = Some pep
              /\ verifiers (tables b') = kv_insert (verifiers (tables b)) (cu_username req)
                   (compute_verifier pep (cu_username req) (cu_password req)))
       /\ auth_cache b' = auth_cache b /\ user_cache b' = user_cache b
       /\ outbox b' = outbox b ++ fanout_requests (Upsert rec) (current (token b)).

Definition valid_request (req : CreateUser) : bool :=
  valid_username (cu_username req) && valid_segment (cu_userid req)
  && negb (str_is_empty (cu_password req)) && (str_len (cu_password req) <=? 512).

Lemma wp_create_user req (Q : Response -> Broker -> Prop) b :
  (forall r b', status r <> CREATED -> same_data b b' -> Q r b') ->
  (forall r b', status r = CREATED -> valid_request req = true -> created req b b' -> Q r b') ->
  wp (create_user req) Q b.
Proof.
  intros Hfail Hok. assert (same_data b b) as Hrefl by done. unfold create_user.
  destruct (valid_username (cu_username req)) eqn:H1; simpl; [|by apply wp_ret, Hfail].
  destruct (valid_segment (cu_userid req)) eqn:H2; simpl; [|by apply wp_ret, Hfail].
  destruct (str_is_empty (cu_password req) || (512 <? str_len (cu_password req))) eqn:H3;
    [by apply wp_ret, Hfail|].
  apply orb_false_iff in H3 as [H3 H4].
  assert (valid_request req = true) as Hvalid.
  { unfold valid_request. rewrite H1, H2, H3. simpl. apply Z.leb_le. apply Z.ltb_ge in H4. lia. }
  apply wp_bind, wp_tick_any. intros n b1 Hb1. apply wp_bind, wp_spawn. intros o b2 Hb2 Ho.
  assert (same_but b b2) as Hb by (destruct Hb1 as (?&?&?&?&?), Hb2 as (?&?&?&?&?); repeat split; congruence).
  pose proof (same_but_data _ _ Hb) as Hd.
  destruct o as [[hash|e]|]; [|by apply wp_ret, Hfail..].
  destruct Ho as [[= Ho]|]; [symmetry in Ho|done].
  apply wp_bind, wp_run_db. intros io b3 Hb3.
  match goal with |- context [insert_user _ io ?nu ?d] =>
    destruct (insert_user_tables io nu d) as [(r & Hr & ->)|(bytes & He & Hk & ->)] end; simpl.
  - assert (same_data b (set_tables (tables b2) b3)) as Hd3.
    { destruct Hd as (?&?&?&?), Hb3 as (?&?&?&?&?). repeat split; simpl; congruence. }
    destruct r as [[]|]; [done|by apply wp_ret, Hfail..].
  - apply wp_bind.
    set (rec := mkUser (cu_username req) (cu_userid req) hash (cu_superuser req) (cu_admin req)).
    set (d1 := mkTables _ _). set (b4 := set_tables d1 b3).
    assert (forall b5, users (tables b5) = users d1 ->
      (verifiers (tables b5) = verifiers d1
       \/ exists pep, pepper cfg = Some pep /\ verifiers (tables b5) = kv_insert (verifiers d1)
            (cu_username req) (compute_verifier pep (cu_username req) (cu_password req))) ->
      same_data b (set_tables (tables b) b5) -> token b5 = token b ->
      wp (bind (fanout (Upsert rec)) (fun _ => ret (mkResponse CREATED (Created (cu_username req) (cu_userid req))))) Q b5)
      as Hrest.
    { intros b5 Hu5 Hv5 (_ & Ha5 & Hc5 & Ho5) Htok5. apply wp_bind, wp_fanout.
      intros b6 (Ht6 & Ha6 & Hc6 & Ho6). apply wp_ret, Hok; [done|done|].
      destruct Hd as (Ht2 & _). exists hash, (salt w n), bytes. simpl in *.
      rewrite Ht6, Ha6, Hc6, Ho6, Hu5, Htok5, <- Ht2. repeat split; try done; try congruence.
      by rewrite Ho5. }
    assert (same_data b (set_tables (tables b) b4) /\ token b4 = token b) as [Hd4 Htok4].
    { destruct Hb as (?&?&?&?&?), Hb3 as (?&?&?&?&?). repeat split; simpl; congruence. }
    destruct (pepper cfg) as [pep|] eqn:Hpep; simpl; [|apply wp_ret, Hrest; by eauto].
    apply wp_bind, wp_run_db. intros io' b5 Hb5. apply wp_ret, Hrest.
    + simpl. by match goal with |- context [set_verifier io' ?u ?v ?d] =>
        destruct (set_verifier_tables io' u v d) as [->| ->] end.
    + simpl. match goal with |- context [set_verifier io' ?u ?v ?d] =>
        destruct (set_verifier_tables io' u v d) as [->| ->] end; [by left | right; by exists pep].
    + destruct Hd4 as (?&?&?&?), Hb5 as (?&?&?&?&?). repeat split; simpl in *; congruence.
    + destruct Hb5 as (_ & Ht5 & _). simpl. congruence.
Qed.

(** The state after a purge of both caches. *)
Lemma wp_purge_caches name (Q : unit -> Broker -> Prop) b :
  (forall b', tables b' = tables b -> token b' = token b -> outbox b' = outbox b ->
     auth_map (auth_cache b') = ∅ ->
     user_map (user_cache b') = delete name (user_map (user_cache b)) -> Q tt b') ->
  wp (purge_caches name) Q b.
Proof. intros HQ. by apply HQ. Qed.

(** The state after the removal of a user. *)
Definition removed (name : string) (b b' : Broker) : Prop :=
  tables b' = mkTables (kv_remove (users (tables b)) name) (kv_remove (verifiers (tables b)) name)
  /\ auth_map (auth_cache b') = ∅
  /\ user_map (user_cache b') = delete name (user_map (user_cache b)).

Lemma wp_delete_user name (Q : Response -> Broker -> Prop) b :
  (forall r b', status r = NO_CONTENT -> isSome (kv_get (users (tables b)) name) = true ->
     removed name b b' -> outbox b' = outbox b ++ fanout_requests (Delete name) (current (token b)) ->
     Q r b') ->
  (forall r b', status r = NOT_FOUND -> kv_get (users (tables b)) name = None ->
     tables b' = mkTables (kv_remove (users (tables b)) name) (kv_remove (verifiers (tables b)) name) ->
     auth_cache b' = auth_cache b -> user_cache b' = user_cache b -> outbox b' = outbox b -> Q r b') ->
  (forall r b', status r = INTERNAL_SERVER_ERROR -> same_data b b' -> Q r b') ->
  wp (delete_user name) Q b.
Proof.
  intros H1 H2 H3. apply wp_bind, wp_run_db. intros io b1 (Ht1 & Htok1 & Ha1 & Hu1 & Ho1).
  destruct (delete_user_tables io name (tables b)) as [(e & ->)| ->]; simpl.
  - apply wp_ret, H3; [done|]. by repeat split.
  - destruct (isSome (kv_get (users (tables b)) name)) eqn:Hex.
    + apply wp_bind, wp_purge_caches. intros b2 Ht2 Htok2 Ho2 Ha2 Hu2.
      apply wp_bind, wp_fanout. intros b3 (Ht3 & Ha3 & Hu3 & Ho3). apply wp_ret, H1; [done|done| |].
      * repeat split; simpl in *; congruence.
      * simpl in *. by rewrite Ho3, Ho2, Htok2, Ho1, Htok1.
    + apply wp_ret, H2; [done| |done..]. by destruct (kv_get (users (tables b)) name).
Qed.

Lemma wp_replicate_upsert user (Q : Response -> Broker -> Prop) b :
  (forall r b' bytes, status r = NO_CONTENT -> enc bincode_encode user = Ok bytes ->
     tables b' = mkTables (kv_insert (users (tables b)) (username user) bytes) (verifiers (tables b)) ->
     auth_map (auth_cache b') = ∅ ->
     user_map (user_cache b') = delete (username user) (user_map (user_cache b)) ->
     outbox b' = outbox b -> Q r b') ->
  (forall r b', status r = INTERNAL_SERVER_ERROR -> same_data b b' -> Q r b') ->
  wp (replicate (Upsert user)) Q b.
Proof.
  intros H1 H2. apply wp_bind, wp_run_db. intros io b1 (Ht1 & Htok1 & Ha1 & Hu1 & Ho1).
  destruct (upsert_user_tables io (new_user_of user) (tables b)) as [(e & ->)|(bytes & He & ->)]; simpl.
  - apply wp_ret, H2; [done|]. by repeat split.
  - apply wp_bind, wp_purge_caches. intros b2 Ht2 Htok2 Ho2 Ha2 Hu2.
    apply wp_ret, (H1 _ _ bytes); try done; simpl in *; try congruence.
    rewrite <- He. f_equal. by destruct user.
Qed.

Lemma wp_replicate_delete name (Q : Response -> Broker -> Prop) b :
  (forall r b', status r = NO_CONTENT -> removed name b b' -> outbox b' = outbox b -> Q r b') ->
  (forall r b', status r = INTERNAL_SERVER_ERROR -> same_data b b' -> Q r b') ->
  wp (replicate (Delete name)) Q b.
Proof.
  intros H1 H2. apply wp_bind, wp_run_db. intros io b1 (Ht1 & Htok1 & Ha1 & Hu1 & Ho1).
  destruct (delete_user_tables io name (tables b)) as [(e & ->)| ->]; simpl.
  - apply wp_ret, H2; [done|]. by repeat split.
  - apply wp_bind, wp_purge_caches. intros b2 Ht2 Htok2 Ho2 Ha2 Hu2.
    apply wp_ret, H1; [done| |]; simpl in *; [|congruence]. repeat split; congruence.
Qed.

(** A call that only reads. *)
Lemma wp_read_only {A} (f : TxnFaults db_error -> Tables T -> result db_error A)
    (k : result db_error A -> Response) (Q : Response -> Broker -> Prop) b :
  (forall r b', same_data b b' -> Q r b') ->
  wp (bind (read_db w f) (fun r => ret (k r))) Q b.
Proof. intros HQ. apply wp_bind, wp_read_db. intros io b1 Hb1%same_but_data. by apply wp_ret, HQ. Qed.

(** ** Lemmas: every event keeps the invariant *)

Lemma creds_ok_removed V name b b' :
  creds_ok V b ->
  verifiers (tables b') = kv_remove (verifiers (tables b)) name ->
  (auth_map (auth_cache b') = ∅ \/ auth_cache b' = auth_cache b) -> creds_ok V b'.
Proof.
  intros [H1 H2] Hv Ha. split.
  - intros k e Hk. destruct Ha as [Ha|Ha]; rewrite Ha in Hk; [by rewrite lookup_empty in Hk | eauto].
  - intros u v. rewrite Hv, kv_get_remove_dec. case_decide; [done|]. apply H2.
Qed.

Lemma creds_ok_purged V b b' :
  creds_ok V b -> verifiers (tables b') = verifiers (tables b) -> auth_map (auth_cache b') = ∅ ->
  creds_ok V b'.
Proof.
  intros [H1 H2] Hv Ha. split; [|by rewrite Hv].
  intros k e Hk. by rewrite Ha, lookup_empty in Hk.
Qed.

Lemma creds_ok_created V req b b' :
  creds_ok V b -> V (cu_username req) (cu_password req) -> created req b b' -> creds_ok V b'.
Proof.
  intros [H1 H2] HV (hash & s & bytes & _ & _ & _ & _ & Hv & Ha & _). split; [by rewrite Ha|].
  intros u v Hk. destruct Hv as [Hv|(pep & _ & Hv)]; rewrite Hv in Hk; [by apply H2|].
  rewrite kv_get_insert_dec in Hk. case_decide; [|by apply H2]. subst. injection Hk as <-. eauto.
Qed.

Lemma creds_ok_data V b b' : same_data b b' -> creds_ok V b -> creds_ok V b'.
Proof. intros Hd. by apply creds_ok_same, same_data_creds. Qed.

Lemma router_creds V authorization c b :
  creds_ok V b ->
  wp (router authorization c) (fun r b' =>
    creds_ok (fun u p => V u p \/ vouches_call c r u p) b') b.
Proof.
  intros HV.
  assert (forall (P : string -> string -> Prop) b', creds_ok V b' -> creds_ok (fun u p => V u p \/ P u p) b')
    as Hmono by (intros; eapply creds_ok_mono; [|done]; by left).
  destruct c as [| |req|name|[user|name]| |]; simpl; [by apply wp_ret, Hmono|..];
    (apply wp_require_token; [intros b0 Hb0 | intros b0 Hb0; by apply Hmono, (creds_ok_data _ b)]);
    pose proof (creds_ok_data V b b0 Hb0 HV) as HV0.
  - apply wp_bind, wp_read_db. intros io b1 Hb1%same_but_data.
    destruct (Db.list_users _ _ _); by apply wp_ret, Hmono, (creds_ok_data _ b0).
  - apply wp_create_user; intros r b1 Hr; [intros Hd; by apply Hmono, (creds_ok_data _ b0)|].
    intros _ Hc. apply (creds_ok_created _ req b0); [by apply Hmono | by right | done].
  - apply wp_delete_user; intros r b1 Hr.
    + intros _ (Ht & Ha & _) _. apply Hmono. eapply creds_ok_removed; [done | by rewrite Ht | by left].
    + intros _ Ht Ha _ _. apply Hmono. eapply creds_ok_removed; [done | by rewrite Ht | by right].
    + intros Hd. by apply Hmono, (creds_ok_data _ b0).
  - apply wp_replicate_upsert; intros r b1.
    + intros bytes _ _ Ht Ha _ _. apply Hmono. eapply creds_ok_purged; [done | by rewrite Ht | done].
    + intros _ Hd. by apply Hmono, (creds_ok_data _ b0).
  - apply wp_replicate_delete; intros r b1.
    + intros _ (Ht & Ha & _) _. apply Hmono. eapply creds_ok_removed; [done | by rewrite Ht | by left].
    + intros _ Hd. by apply Hmono, (creds_ok_data _ b0).
  - apply wp_bind, wp_read_db. intros io b1 Hb1%same_but_data.
    destruct (Db.list_users _ _ _); by apply wp_ret, Hmono, (creds_ok_data _ b0).
  - apply wp_bind, wp_tick_any. intros n b1 Hb1%same_but_data.
    by apply wp_ret, Hmono, (creds_ok_data _ b0).
Qed.

Lemma wp_catch_up (I : Broker -> Prop) b :
  (forall b1 b2, same_data b1 b2 -> I b1 -> I b2) ->
  (forall b1 d, I b1 -> verifiers d = verifiers (tables b1) -> I (set_tables d b1)) ->
  I b -> wp catch_up (fun _ => I) b.
Proof.
  intros Hdata Htab HI.
  assert (forall bases b, I b -> wp (catch_up_round bincode_encode w bases) (fun _ => I) b) as Hround.
  { clear b HI. induction bases as [|base bases IH]; intros b HI; [by apply wp_ret|].
    apply wp_bind, wp_gets, wp_bind, wp_tick_any. intros n b1 Hb1%same_but_data.
    destruct (users_reply _ _ _ _) as [us|]; [|by apply IH, (Hdata b)].
    apply wp_bind, wp_run_db. intros io b2 Hb2%same_but_data. apply wp_ret, Htab.
    - apply (Hdata b1); [done|]. by apply (Hdata b).
    - rewrite upsert_many_tables. by destruct Hb2 as [-> _]. }
  assert (forall rounds b, I b -> wp (catch_up_loop bincode_encode cfg w rounds) (fun _ => I) b) as Hloop.
  { clear b HI. induction rounds as [|rounds IH]; intros b HI; [by apply wp_ret|].
    apply wp_bind. eapply wp_mono; [by apply Hround|]. intros [] b1 HI1; [by apply wp_ret|].
    apply wp_bind, wp_tick_any. intros n b2 Hb2%same_but_data. by apply IH, (Hdata b1). }
  unfold catch_up. destruct (peers cfg); [by apply wp_ret | by apply Hloop].
Qed.

Lemma sweep_data (Q : unit -> Broker -> Prop) b :
  (forall b', tables b' = tables b -> outbox b' = outbox b ->
     auth_map (auth_cache b') ⊆ auth_map (auth_cache b) ->
     user_map (user_cache b') ⊆ user_map (user_cache b) -> Q tt b') ->
  wp (sweep w) Q b.
Proof.
  intros HQ. apply wp_bind, wp_now. intros t b1 (Ht1 & _ & Ha1 & Hu1 & Ho1).
  apply wp_bind, wp_modify, wp_bind, wp_now. intros t' b2 (Ht2 & _ & Ha2 & Hu2 & Ho2).
  apply wp_modify, HQ; simpl in *; [congruence..| |].
  - rewrite Ha2, Ha1. simpl. apply map_filter_subseteq.
  - rewrite Hu2, Hu1. simpl. apply map_filter_subseteq.
Qed.

Lemma step_creds V e b :
  auth_disabled cfg = false -> creds_ok V b ->
  creds_ok (fun u p => V u p \/ vouches e b u p) (step e b).
Proof.
  intros Hdis HV. destruct e as [ci|authorization c| | |io name d]; unfold step.
  - apply (wp_run _ _ _ (wp_authenticate V ci b Hdis HV)).
  - apply (wp_run _ _ _ (router_creds V authorization c b HV)).
  - eapply creds_ok_mono; [by left|]. apply (wp_run (sweep w) (fun _ => creds_ok V)), sweep_data.
    intros b' Ht _ Ha _. destruct HV as [H1 H2]. split; [|by rewrite Ht].
    intros k e He. eapply H1, lookup_weaken; [exact He | done].
  - eapply creds_ok_mono; [by left|]. apply (wp_run catch_up (fun _ => creds_ok V)), wp_catch_up; [| |done].
    + intros b1 b2. apply creds_ok_data.
    + intros b1 d [H1 H2] Hv. split; [done|]. simpl. by rewrite Hv.
  - eapply creds_ok_mono; [by left|]. apply (wp_run (lookup_ends io name d) (fun _ => creds_ok V)), wp_lookup_ends.
    intros b' Ht Ha _. apply (creds_ok_same V b); [|done]. split; [by rewrite Ha | by rewrite Ht].
Qed.

Lemma run_creds V es b :
  auth_disabled cfg = false -> creds_ok V b -> creds_ok (vouched V es b) (run es b).
Proof.
  intros Hdis. revert V b. induction es as [|e es IH]; intros V b HV; [done|].
  apply IH. by apply step_creds.
Qed.

(** ** Lemmas: deleted users stay out *)

(** The events that may store a record of [name], a synchronisation with
    the peers of any. *)
Definition writes (name : string) (e : Event) : Prop :=
  match e with
  | EvCall _ (CallCreateUser req) => cu_username req = name
  | EvCall _ (CallReplicate (Upsert user)) => username user = name
  | EvCatchUp => True
  | EvLookupEnds _ name' d => name' = name /\ is_Some (kv_get (users d) name)
  | _ => False
  end.

Definition hidden (name : string) (b : Broker) : Prop := forall r, ~ visible b name r.

Lemma hidden_less name b b' : shows_less b b' -> hidden name b -> hidden name b'.
Proof. intros Hl Hh r Hr. by apply (Hh r), Hl. Qed.

Lemma hidden_data name b b' : same_data b b' -> hidden name b -> hidden name b'.
Proof. intros Hd. by apply hidden_less, same_data_visible. Qed.

(** A change of the stores that leaves [name] alone or removes it. *)
Lemma hidden_change name b b' :
  (kv_get (users (tables b')) name = kv_get (users (tables b)) name
   \/ kv_get (users (tables b')) name = None) ->
  user_map (user_cache b') ⊆ user_map (user_cache b) -> hidden name b -> hidden name b'.
Proof.
  intros Ht Hu Hh r [(e & He)|(bytes & Hk & Hd)]; apply (Hh r).
  - left. exists e. by eapply lookup_weaken.
  - right. exists bytes. destruct Ht as [Ht|Ht]; rewrite Ht in Hk; done.
Qed.

Lemma hidden_removed name name' b b' : removed name' b b' -> hidden name b -> hidden name b'.
Proof.
  intros (Ht & _ & Hu). apply hidden_change.
  - rewrite Ht. simpl. rewrite kv_get_remove_dec. case_decide; eauto.
  - rewrite Hu. apply delete_subseteq.
Qed.

Lemma removed_hidden name b b' : removed name b b' -> hidden name b'.
Proof.
  intros (Ht & _ & Hu) r [(e & He)|(bytes & Hk & _)].
  - by rewrite Hu, lookup_delete_eq in He.
  - rewrite Ht in Hk. simpl in Hk. by rewrite kv_get_remove in Hk.
Qed.

Lemma router_hidden name authorization c b :
  ~ writes name (EvCall authorization c) -> hidden name b ->
  wp (router authorization c) (fun _ => hidden name) b.
Proof.
  intros Hw Hh.
  destruct c as [| |req|name'|[user|name']| |]; simpl in *; [by apply wp_ret|..];
    (apply wp_require_token; [intros b0 Hb0 | intros b0 Hb0; by eapply hidden_data]);
    pose proof (hidden_data name b b0 Hb0 Hh) as Hh0.
  - apply wp_bind, wp_read_db. intros io b1 Hb1%same_but_data.
    destruct (Db.list_users _ _ _); by apply wp_ret, (hidden_data _ b0).
  - apply wp_create_user; intros r b1 Hr; [intros Hd; by apply (hidden_data _ b0)|].
    intros _ (hash & s & bytes & _ & _ & _ & Hu & _ & _ & Hc & _).
    apply (hidden_change _ b0); [|by rewrite Hc | done]. left.
    by rewrite Hu, kv_get_insert_dec, decide_False.
  - apply wp_delete_user; intros r b1 Hr.
    + intros _ Hrm _. by apply (hidden_removed _ name' b0).
    + intros _ Ht Ha Hu _. apply (hidden_change _ b0); [|by rewrite Hu | done].
      rewrite Ht. simpl. rewrite kv_get_remove_dec. case_decide; eauto.
    + intros Hd. by apply (hidden_data _ b0).
  - apply wp_replicate_upsert; intros r b1.
    + intros bytes _ _ Ht _ Hu _. apply (hidden_change _ b0); [| |done].
      * left. rewrite Ht. simpl. by rewrite kv_get_insert_dec, decide_False.
      * rewrite Hu. apply delete_subseteq.
    + intros _ Hd. by apply (hidden_data _ b0).
  - apply wp_replicate_delete; intros r b1.
    + intros _ Hrm _. by apply (hidden_removed _ name' b0).
    + intros _ Hd. by apply (hidden_data _ b0).
  - apply wp_bind, wp_read_db. intros io b1 Hb1%same_but_data.
    destruct (Db.list_users _ _ _); by apply wp_ret, (hidden_data _ b0).
  - apply wp_bind, wp_tick_any. intros n b1 Hb1%same_but_data. by apply wp_ret, (hidden_data _ b0).
Qed.

Lemma run_hidden name es b :
  auth_disabled cfg = false -> Forall (fun e => ~ writes name e) es ->
  creds_ok (fun _ _ => True) b -> hidden name b -> hidden name (run es b).
Proof.
  intros Hdis Hes. revert b. induction Hes as [|e es He Hes IH]; intros b HV Hh; [done|].
  simpl. apply IH.
  { eapply creds_ok_mono; [|by apply (step_creds (fun _ _ => True))]. done. }
  destruct e as [ci|authorization c| | |io name' d]; unfold step.
  - destruct (wp_run _ _ _ (wp_authenticate _ ci b Hdis HV)) as (_ & Hl & _). by eapply hidden_less.
  - by apply (wp_run _ _ _ (router_hidden name authorization c b He Hh)).
  - apply (wp_run (sweep w) (fun _ => hidden name)), sweep_data.
    intros b' Ht _ _ Hu. apply (hidden_change _ b); [|done|done]. left. by rewrite Ht.
  - by destruct He.
  - apply (wp_run (lookup_ends io name' d) (fun _ => hidden name)), wp_lookup_ends.
    intros b' Ht _ Hu r [(x & Hx)|Hr]; apply (Hh r); [left; exists x|right; by rewrite <- Ht].
    apply Hu; [|done]. destruct (decide (name' = name)) as [->|]; [|by left; congruence].
    right. apply eq_None_not_Some. intros Hs. by apply He.
Qed.

(** ** Theorems *)

(** C1: authentication is sound. After any sequence of connections, API calls,
    sweeps and synchronisations, under any timing and any storage or network
    failure, a connection is let in only if argon2 accepts its password
    against the user's record, or its digests are those of credentials vouched
    for before; and it gets the superuser flag and rules of that record. *)
Theorem authentication_sound V es b ci su info :
  auth_disabled cfg = false -> creds_ok V b ->
  allowed (fst (authenticate ci (run es b))) = Some (su, info) ->
  exists u p rec, credentials ci = Some (u, p) /\ u <> "" /\ p <> ""
    /\ visible (run es b) u rec /\ genuine (vouched V es b) (run es b) u p
    /\ su = Db.superuser rec /\ info = Some (build_auth_info rec (acl cfg) ci).
Proof.
  intros Hdis HV Ha.
  destruct (wp_run _ _ _ (wp_authenticate _ ci _ Hdis (run_creds V es b Hdis HV))) as (_ & _ & Hall).
  by apply Hall.
Qed.

(** C3: revocation. Once a deletion of a user has been answered with 204, no
    connection as that user whose authentication starts then is let in,
    whatever happens next, until one of three things: a request stores the user
    again, the node copies the users of a peer, or a lookup of this user that
    read the database before the deletion puts the record back into the
    cache. *)
Theorem deleted_user_denied authorization c name b es ci p :
  auth_disabled cfg = false -> creds_ok (fun _ _ => True) b ->
  c = CallDeleteUser name \/ c = CallReplicate (Delete name) ->
  status (fst (router authorization c b)) = NO_CONTENT ->
  Forall (fun e => ~ writes name e) es -> credentials ci = Some (name, p) ->
  allowed (fst (authenticate ci (run es (snd (router authorization c b))))) = None.
Proof.
  intros Hdis HV Hc Hst Hes Hci.
  assert (creds_ok (fun _ _ => True) (snd (router authorization c b))) as HV1.
  { eapply creds_ok_mono; [|by apply (wp_run _ _ _ (router_creds _ authorization c b HV))]. done. }
  assert (hidden name (snd (router authorization c b))) as Hh.
  { revert Hst. apply (wp_run _ (fun r b' => status r = NO_CONTENT -> hidden name b')).
    destruct Hc as [-> | ->]; simpl;
      (apply wp_require_token; [intros b0 Hb0 | by intros b0 Hb0 Hst]).
    - apply wp_delete_user; intros r b1 Hr;
        [|by intros; match goal with Hx : status r = NO_CONTENT |- _ => rewrite Hr in Hx end..].
      intros _ Hrm _ _. by eapply removed_hidden.
    - apply wp_replicate_delete; intros r b1 Hr;
        [|by intros; match goal with Hx : status r = NO_CONTENT |- _ => rewrite Hr in Hx end].
      intros Hrm _ _. by eapply removed_hidden. }
  pose proof (run_hidden name es _ Hdis Hes HV1 Hh) as Hrun.
  assert (creds_ok (vouched (fun _ _ => True) es (snd (router authorization c b)))
            (run es (snd (router authorization c b)))) as HV2 by by apply run_creds.
  destruct (allowed _) as [[su info]|] eqn:Ha; [|done]. exfalso.
  destruct (wp_run _ _ _ (wp_authenticate _ ci _ Hdis HV2)) as (_ & _ & Hall).
  destruct (Hall su info Ha) as (u & p' & rec & Hci' & _ & _ & Hvis & _).
  rewrite Hci in Hci'. injection Hci' as <- <-. by apply (Hrun rec).
Qed.

(** C34: a request to any route but [/health] without a valid token is answered
    401 and changes neither the database, the caches nor what was sent to the
    peers. *)
Theorem unauthorized_inert authorization c (b : Broker) :
  c <> CallHealth ->
  match bearer authorization with
  | Some tok => matches_token tok (token b) = false
                /\ matches_token tok (token (snd (refresh_token cfg w b))) = false
  | None => True
  end ->
  status (fst (router authorization c b)) = UNAUTHORIZED
  /\ same_data b (snd (router authorization c b)).
Proof.
  intros Hc Ht.
  assert (forall next, wp (require_token cfg w authorization next)
    (fun r b' => status r = UNAUTHORIZED /\ same_data b b') b) as Hreq.
  { intros next. apply wp_bind. unfold authorize.
    destruct (bearer authorization) as [tok|]; [|by apply wp_ret, wp_ret].
    destruct Ht as [H1 H2]. apply wp_bind, wp_gets. rewrite H1. apply wp_bind.
    pose proof (wp_refresh_token (fun _ b' => same_data b b') b (fun b' Hb' => Hb')) as Hr.
    apply wp_run in Hr. unfold wp. destruct (refresh_token cfg w b) as [[] b1]. simpl in *.
    by rewrite H2. }
  destruct c; [done|..]; apply (wp_run _ _ _ (Hreq _)).
Qed.

(** A valid request is never refused for its form: it fails with 409 or 500. *)
Lemma create_user_accepts req b :
  valid_request req = true -> wp (create_user req) (fun r _ => status r <> BAD_REQUEST) b.
Proof.
  unfold valid_request. intros [[[H1 H2]%andb_true_iff H3]%andb_true_iff H4%Z.leb_le]%andb_true_iff.
  apply negb_true_iff in H3. unfold create_user. rewrite H1, H2, H3. cbn [negb orb].
  destruct (Z.ltb_spec 512 (str_len (cu_password req))); [lia|].
  assert (forall A (m : M Broker A) k (P : Response -> Broker -> Prop) b,
    (forall a b', wp (k a) P b') -> wp (bind m k) P b) as Hany.
  { intros A m k P b1 Hk. apply wp_bind. eapply wp_mono; [apply wp_any|]. intros a b2 _. apply Hk. }
  apply Hany. intros n b1. apply Hany. intros [[hash|e]|] b2; [|by apply wp_ret..].
  apply Hany. intros [[]|e] b3; [|by apply wp_ret..]. apply Hany. intros _ b4.
  apply Hany. intros _ b5. by apply wp_ret.
Qed.

(** C35: creating a user succeeds exactly as documented: a 201 means the request
    was valid, the name was free, the record with a fresh password hash is
    stored and sent to every peer once; any other answer leaves the data as it
    was. *)
Theorem create_user_spec req b :
  wp (create_user req) (fun r b' =>
    (status r = CREATED /\ valid_request req = true /\ created req b b')
    \/ (status r <> CREATED /\ same_data b b')) b.
Proof. apply wp_create_user; naive_solver. Qed.

(** after a replicated update the next lookup of the user returns the new
    record or fails; a cached older record is never used. *)
Theorem replicate_visible user (b : Broker) :
  wp (replicate (Upsert user)) (fun r b' =>
    status r = NO_CONTENT -> forall bytes rec,
      enc bincode_encode user = Ok bytes -> dec bytes = Ok user ->
      visible b' (username user) rec -> rec = user) b.
Proof.
  apply wp_replicate_upsert; intros r b'; [|by intros ->].
  intros bytes _ He Ht _ Hu _ _ bytes' rec He' Hd [(e & Hx)|(x & Hk & Hdx)].
  - by rewrite Hu, lookup_delete_eq in Hx.
  - rewrite Ht in Hk. simpl in Hk. rewrite kv_get_insert in Hk. injection Hk as <-. congruence.
Qed.

(** C36: a replicated update keeps the old verifier of the user: when one is
    stored for the old password, and storage and the pepper are available, the
    old password still gets in after the update, whatever the new hash. *)
Theorem stale_verifier_accepted user pep old ci (b : Broker) :
  auth_disabled cfg = false -> (forall n, io w n = no_faults) ->
  pepper cfg = Some pep -> credentials ci = Some (username user, old) ->
  username user <> "" -> old <> "" ->
  (forall bytes, enc bincode_encode user = Ok bytes -> dec bytes = Ok user) ->
  kv_get (verifiers (tables b)) (username user) = Some (compute_verifier pep (username user) old) ->
  status (fst (replicate (Upsert user) b)) = NO_CONTENT ->
  is_Some (allowed (fst (authenticate ci (snd (replicate (Upsert user) b))))).
Proof.
  intros Hdis Hio Hpep Hci Hu Hp Hrt Hver. apply (wp_run _ (fun r b' => status r = NO_CONTENT ->
    is_Some (allowed (fst (authenticate ci b'))))).
  apply wp_replicate_upsert; intros r b1; [|by intros ->].
  intros bytes _ He Ht _ Huc _ _.
  apply (wp_run (authenticate ci) (fun r _ => is_Some (allowed r))).
  unfold authenticate. rewrite Hdis, Hci. destruct (username user) eqn:Hun; [done|]. destruct old eqn:Hold; [done|].
  cbn [str_is_empty orb]. rewrite <- Hun, <- Hold in *. clear Hun Hold.
  apply wp_bind.
  assert (wp (lookup_user (username user)) (fun r b' => r = Ok (Some user) /\ tables b' = tables b1) b1) as Hl.
  { apply wp_bind, wp_now. intros t b2 Hb2. destruct Hb2 as (Ht2 & _ & _ & Hu2 & _).
    apply wp_bind, wp_gets. unfold UserCache_get. rewrite Hu2, Huc, lookup_delete_eq.
    apply wp_bind, wp_read_db_ok; [done|]. intros b3 (Ht3 & _).
    unfold get_user, read_txn. simpl. rewrite Ht2, Ht. simpl. rewrite kv_get_insert, (Hrt _ He). simpl.
    apply wp_bind, wp_bind, wp_now. intros t' b4 (Ht4 & _). apply wp_modify, wp_ret.
    split; [done|]. simpl. by rewrite Ht4, Ht3, Ht2. }
  eapply wp_mono; [exact Hl|]. intros r2 b2 [-> Ht2].
  apply wp_bind, wp_now. intros t b3 (Ht3 & _). apply wp_bind, wp_gets, wp_bind.
  destruct (isSome _); [by apply wp_ret, wp_bind, wp_ret, wp_ret|].
  unfold fast_check. rewrite Hpep. apply wp_bind, wp_read_db_ok; [done|].
  intros b3' _. unfold get_verifier, read_txn. simpl. rewrite Ht3, Ht2, Ht. simpl. rewrite Hver.
  unfold verify_fast. rewrite ct_eq_spec, bool_decide_true by done.
  apply wp_bind, wp_cache_success. intros b4 _ _ _. by apply wp_ret, wp_bind, wp_ret, wp_ret.
Qed.

(** refreshing keeps the token in use valid, accepts besides it only what
    the vault returned, and does nothing within five seconds of the last
    refresh. *)
Theorem refresh_token_spec (b : Broker) :
  let b' := snd (refresh_token cfg w b) in
  matches_token (current (token b)) (token b') = true
  /\ (forall tok, matches_token tok (token b') = true ->
        matches_token tok (token b) = true
        \/ exists n client, vault cfg = Some client
             /\ vault_reply w n client "ciqada/api-token" = Ok (Some tok))
  /\ (forall at_, refreshed_at (token b) = Some at_ ->
        elapsed (clock w (ticks b)) at_ < from_secs 5 -> token b' = token b).
Proof.
  set (P := fun b' : Broker => matches_token (current (token b)) (token b') = true
    /\ (forall tok, matches_token tok (token b') = true -> matches_token tok (token b) = true
        \/ exists n client, vault cfg = Some client
             /\ vault_reply w n client "ciqada/api-token" = Ok (Some tok))
    /\ (forall at_, refreshed_at (token b) = Some at_ ->
        elapsed (clock w (ticks b)) at_ < from_secs 5 -> token b' = token b)).
  assert (matches_token (current (token b)) (token b) = true) as Hself
    by (unfold matches_token; by rewrite bool_decide_true).
  assert (forall b', token b' = token b -> P b') as Hsame
    by (intros b' Hb'; unfold P; rewrite Hb'; eauto).
  change (P (snd (refresh_token cfg w b))). apply (wp_run _ (fun _ => P)).
  unfold refresh_token. destruct (vault cfg) as [client|] eqn:Hvault; [|by apply wp_ret, Hsame].
  apply wp_bind, wp_bind, wp_tick, wp_ret, wp_bind, wp_gets. simpl.
  destruct (match refreshed_at (token b) with Some _ => _ | None => _ end) eqn:Hrate; [by apply wp_ret, Hsame|].
  assert (forall at_, refreshed_at (token b) = Some at_ -> ~ elapsed (clock w (ticks b)) at_ < from_secs 5)
    as Hold by (intros at_ He; rewrite He in Hrate; by apply Z.ltb_nlt).
  apply wp_bind, wp_bind, wp_tick, wp_ret, wp_bind, wp_modify, wp_bind, wp_tick. simpl.
  destruct (vault_reply _ _ _ _) as [[new|]|e] eqn:Hreply.
  2,3: (split; [|split]; [done | by left | by intros at_ He Hlt; destruct (Hold at_ He)]).
  apply wp_modify. simpl. case_bool_decide as Hnew; simpl;
    (split; [|split]; [| |by intros at_ He Hlt; destruct (Hold at_ He)]).
  - done.
  - by left.
  - unfold matches_token. simpl. by rewrite (bool_decide_true (Some _ = Some _)), orb_true_r.
  - intros tok. unfold matches_token. simpl. rewrite orb_true_iff, !bool_decide_eq_true.
    intros [->|[= <-]]; [right; by eauto | left]. by rewrite bool_decide_true.
Qed.

End auth.

(** ** Witnesses: a node with toy cryptography *)

Module AuthExample.

Definition toy_hash (_ : unit) (password : Bytes) (_ : string) : result string string :=
  Ok (if decide (password = str_bytes "pw") then "hash-of-pw" else "other").

Definition toy_verify (phc : string) (password : Bytes) : bool :=
  bool_decide (Ok phc = toy_hash tt password "").

Definition toy_hmac (key msg : Bytes) : Bytes := take 32%nat (msg ++ key ++ repeat 0 32%nat).

Definition settings : Settings :=
  mkSettings AclConfig_default ["http://n2:8090"] false (Some [7]) None ClusterConfig_default.

Definition world : World :=
  mkWorld Z.of_nat (fun _ => no_faults) (fun _ => true) (fun _ => "salt") (fun _ => None)
    (fun _ _ _ => Ok None) (fun _ _ _ => None) (fun _ => BrokerInitializing).

Definition init : Broker (gmap string Bytes) ReplOp :=
  mkBroker empty_tables (mkTokens "tok" None None) (AuthCache_new (from_secs 300))
    (UserCache_new (from_secs 300)) [] 0.

Definition request : CreateUser := mkCreateUser "alice" "u1" "pw" false false.

Definition conn : ConnectInfo := ConnV3 (Id_from 0 1 "c1") (Some "alice") (Some "pw").

Abbreviation auth := (authenticate toy_decode (fun s => Some s) toy_verify toy_hmac (fun b => b)
  (fun s => Some s) settings world).
Abbreviation route := (management_router toy_encode toy_decode (fun _ _ _ => Ok tt) toy_hash toy_hmac
  (fun op => Ok op) settings world).
Abbreviation exec_events := (run toy_encode toy_decode (fun _ _ _ => Ok tt) toy_hash (fun s => Some s)
  toy_verify toy_hmac (fun b => b) (fun op => Ok op) (fun s => Some s) settings world).

Definition create_event : Event (T := gmap string Bytes) := EvCall (Some "Bearer tok") (CallCreateUser request).

Lemma init_creds V :
  creds_ok toy_hmac (fun b => b) V init.
Proof. split; intros ? ?; simpl; by rewrite lookup_empty. Qed.

Lemma authentication_sound_witness :
  exists info u p rec, allowed (fst (auth conn (exec_events [create_event] init))) = Some (false, info)
    /\ (fun s => Some s) "alice" = Some u /\ p <> "" /\ visible toy_decode (exec_events [create_event] init) u rec.
Proof.
  assert (exists info, allowed (fst (auth conn (exec_events [create_event] init))) = Some (false, info))
    as [info Hall] by (eexists; vm_compute; reflexivity).
  destruct (authentication_sound toy_encode toy_decode (fun _ _ _ => Ok tt) toy_hash (fun s => Some s)
    toy_verify toy_hmac (fun b => b) (fun op => Ok op) (fun s => Some s) settings world
    (fun _ _ => False) [create_event] init conn false info eq_refl (init_creds _) Hall)
    as (u & p & rec & Hc & _ & Hp & Hv & _).
  exists info, u, p, rec. split; [exact Hall|]. injection Hc as <- <-. repeat split; done.
Defined.

Definition after_create := exec_events [create_event] init.

Lemma deleted_user_denied_witness :
  allowed (fst (auth conn (exec_events [EvSweep; EvConnect conn]
    (snd (route (Some "Bearer tok") (CallDeleteUser "alice") after_create))))) = None.
Proof.
  apply (deleted_user_denied toy_encode toy_decode (fun _ _ _ => Ok tt) toy_hash (fun s => Some s)
    toy_verify toy_hmac (fun b => b) (fun op => Ok op) (fun s => Some s) settings world
    (Some "Bearer tok") (CallDeleteUser "alice") "alice" after_create [EvSweep; EvConnect conn] conn "pw");
    [reflexivity | | by left | vm_compute; reflexivity | | reflexivity].
  - eapply creds_ok_mono; [|apply run_creds; [reflexivity | apply (init_creds (fun _ _ => True))]].
    done.
  - repeat constructor; by intros [].
Defined.

(** A lookup that read the record before the deletion and caches it afterwards:
    the deleted user is let in. *)
Definition deleted := snd (route (Some "Bearer tok") (CallDeleteUser "alice") after_create).

Example lookup_race :
  status (fst (route (Some "Bearer tok") (CallDeleteUser "alice") after_create)) = NO_CONTENT
  /\ allowed (fst (auth conn deleted)) = None
  /\ exists info, allowed (fst (auth conn (exec_events [EvLookupEnds no_faults "alice" (tables after_create)] deleted)))
                 = Some (false, info).
Proof. split; [|split]; [vm_compute; reflexivity..|]. eexists. vm_compute. reflexivity. Qed.

Lemma unauthorized_inert_witness :
  status (fst (route (Some "Bearer wrong") CallListUsers init)) = UNAUTHORIZED.
Proof.
  apply (unauthorized_inert toy_encode toy_decode (fun _ _ _ => Ok tt) toy_hash toy_hmac
    (fun op => Ok op) settings world (Some "Bearer wrong") CallListUsers init);
    [done | by split].
Defined.

(** A node that kept the verifier of "old" while it missed the deletion of the
    user, and then receives the record created with the new password. *)
Definition stale : Broker (gmap string Bytes) ReplOp :=
  set_tables (mkTables ∅ {[ "alice" := compute_verifier toy_hmac [7] "alice" "old" ]}) init.

Definition new_record : UserRecord := mkUser "alice" "u1" "hash-of-pw" false false.

Lemma replicate_visible_witness :
  wp (replicate toy_encode world (Upsert new_record)) (fun r b' =>
    status r = NO_CONTENT -> forall bytes rec,
      enc toy_encode new_record = Ok bytes -> dec toy_decode bytes = Ok new_record ->
      visible toy_decode b' "alice" rec -> rec = new_record) stale.
Proof. apply (replicate_visible toy_encode toy_decode world new_record stale). Defined.

Lemma stale_verifier_accepted_witness :
  is_Some (allowed (fst (auth (ConnV3 (Id_from 0 1 "c1") (Some "alice") (Some "old"))
    (snd (replicate toy_encode world (Upsert new_record) stale))))).
Proof.
  apply (stale_verifier_accepted toy_encode toy_decode (fun s => Some s) toy_verify toy_hmac (fun b => b)
    (fun s => Some s) settings world new_record [7] "old"
    (ConnV3 (Id_from 0 1 "c1") (Some "alice") (Some "old")) stale); try reflexivity; try done.
  intros bytes [= <-]. vm_compute. reflexivity.
Defined.

End AuthExample.
