(* ===== verification/Fanout.v ===== *)
(** * Automatic subscriptions: [src/fanout.rs]

    A client that connects is subscribed to the topics of its userid and to
    the shared prefixes. The filters are those of the access rules
    ([user_filters] of [Api]); the theorem says that the two components agree:
    every automatic subscription would pass the user's own access check. The
    codec's [QoS::try_from] is an argument. *)

From S2P Require Import Prelude Strs Topic Types Acl Store Config Db Vault Api Access.
From Stdlib Require Import Ascii.
Local Open Scope string_scope.
Local Open Scope list_scope.

Record UseridAutoSubscription : Type := mkAutoSub {
  as_qos : QoS;
  as_fanout_prefixes : list string;
  as_admin_prefixes : list string
}.

(** [UseridAutoSubscription::new]. *)
Definition new (qos_try_from : Z -> option QoS) (fanout : FanoutConfig) (acl : AclConfig)
    : UseridAutoSubscription :=
  mkAutoSub (default AtLeastOnce (qos_try_from (Z.min (fanout_qos fanout) 2)))
    (fanout_prefixes acl) (admin_prefixes acl).

Definition subscription (self : UseridAutoSubscription) (filter : string)
    : result filter_error Subscribe :=
  let opts := mkCodecV5 (as_qos self) false false AtSubscribe in
  from_v5 filter opts true true None.

(** [subs.push(self.subscription(f)?)] for every filter. *)
Fixpoint subscribe_all (self : UseridAutoSubscription) (filters : list string)
    : result filter_error (list Subscribe) :=
  match filters with
  | [] => Ok []
  | f :: filters' =>
      let? s := subscription self f in
      let? subs := subscribe_all self filters' in
      Ok (s :: subs)
  end.

Section subscribes.
Context {T : Type} `{KvTable T string Bytes}.
Context (bincode_decode : Bytes -> result string UserRecord).

Definition subscribes (self : UseridAutoSubscription) (io : TxnFaults db_error) (db : Tables T)
    (id : Id) : result filter_error (list Subscribe) :=
  match Types.username id with
  | None => Ok []
  | Some name =>
      match get_user bincode_decode io name db with
      | Ok (Some record) =>
          subscribe_all self
            (user_filters record (as_fanout_prefixes self) (as_admin_prefixes self))
      | Ok None => Ok []
      | Err _ => Ok []
      end
  end.

End subscribes.

(** ** Lemmas *)

Lemma subscribe_all_spec self fs subs :
  subscribe_all self fs = Ok subs <-> Forall2 (fun f s => subscription self f = Ok s) fs subs.
Proof.
  revert subs. induction fs as [|f fs IH]; intros subs; simpl.
  - split; [intros [= <-]; constructor | by inversion 1].
  - destruct (subscription self f) as [s|e] eqn:Hs; simpl.
    + destruct (subscribe_all self fs) as [ss|e]; simpl; split.
      * intros [= <-]. constructor; [done|]. by apply IH.
      * inversion 1 as [|? x ? xs Hx Hxs]; subst. apply IH in Hxs. congruence.
      * done.
      * inversion 1 as [|? x ? xs Hx Hxs]; subst. by apply IH in Hxs.
    + split; [done|]. inversion 1 as [|? x ? xs Hx Hxs]; subst. congruence.
Qed.

Lemma split_once_split c s :
  split_once c s = None /\ split_on c s = [s]
  \/ exists a b, split_once c s = Some (a, b) /\ split_on c s = a :: split_on c b.
Proof.
  induction s as [|d s IH]; simpl; [by left|]. case_decide; [right; by eauto|].
  destruct IH as [[-> ->]|(a & b & -> & ->)]; [by left | right; eauto].
Qed.

Lemma splitn_head n c s : splitn (S (S n)) c s !! 0 = split_on c s !! 0.
Proof.
  change (splitn (S (S n)) c s) with
    (match split_once c s with Some (a, b) => a :: splitn (S n) c b | None => [s] end).
  destruct (split_once_split c s) as [[-> ->]|(a & b & -> & ->)]; done.
Qed.

(** A filter that does not start with [$] is taken as it is. *)
Lemma parse_topic_filter_plain tf shared limit :
  tf <> "" -> is_metadata tf = false -> parse_topic_filter tf shared limit = Ok (tf, None, None).
Proof.
  intros Hne Hm. unfold parse_topic_filter.
  assert (forall kw, is_metadata kw = true -> splitn 3 "/" tf !! 0 <> Some kw) as Hkw.
  { intros kw Hk Heq. rewrite (splitn_head 1) in Heq. destruct tf as [|c tf]; [done|].
    simpl in Heq. case_decide; [by injection Heq as <-|].
    destruct (split_on "/" tf) as [|x xs]; injection Heq as <-;
      unfold is_metadata in *; simpl in *; congruence. }
  rewrite !decide_False by (apply Hkw; reflexivity).
  by destruct (shared || limit), tf.
Qed.

Lemma subscription_plain self f :
  f <> "" -> is_metadata f = false ->
  subscription self f = Ok (mkSubscribe f (opts_from_v5 (mkCodecV5 (as_qos self) false false AtSubscribe) None None)).
Proof. intros Hne Hm. unfold subscription, from_v5. by rewrite parse_topic_filter_plain. Qed.

Lemma any_char_head p c s : any_char p (String c s) = false -> p c = false.
Proof. simpl. by intros [? _]%orb_false_iff. Qed.

Lemma no_dollar_not_metadata s : any_char is_dollar s = false -> is_metadata s = false.
Proof. destruct s as [|c s]; [done|]. intros H%any_char_head. done. Qed.

(** The segments of a string have its characters. *)
Lemma split_on_chars p c s :
  any_char p s = false -> Forall (fun w => any_char p w = false) (split_on c s).
Proof.
  induction s as [|d s IH]; simpl; intros Hs; [by repeat constructor|].
  apply orb_false_iff in Hs as [Hd Hs]. specialize (IH Hs). case_decide; [by constructor|].
  destruct (split_on c s) as [|x xs]; [by repeat constructor; simpl; rewrite Hd|].
  apply Forall_cons in IH as [Hx Hxs]. constructor; [simpl; by rewrite Hd, Hx | done].
Qed.

(** A literal prefix is a list of literal levels, so its filter parses. *)
Definition literal_level (s : string) : Level := if str_is_empty s then Blank else Normal s.

Lemma literal_level_from_str s :
  any_char is_wild_char s = false -> any_char is_dollar s = false ->
  Level.from_str s = Ok (literal_level s).
Proof.
  intros Hw Hd%no_dollar_not_metadata. unfold Level.from_str, literal_level.
  destruct s as [|c s]; [done|]. rewrite !decide_False by (intros [=]; subst; done).
  unfold contains_wild. rewrite Hw, Hd. done.
Qed.

Lemma literal_levels_from_str ws :
  Forall (fun w => any_char is_wild_char w = false) ws ->
  Forall (fun w => any_char is_dollar w = false) ws ->
  collect_results (map Level.from_str (ws ++ ["#"])) = Ok (map literal_level ws ++ [MultiWildcard]).
Proof.
  induction 1 as [|x ws Hx Hws IH]; intros Hd; [done|]. apply Forall_cons in Hd as [Hdx Hd].
  simpl. rewrite literal_level_from_str, IH by done. done.
Qed.

Lemma literal_misplaced len pos ws :
  len = pos + length ws + 1 -> misplaced len pos (map literal_level ws ++ [MultiWildcard]) = false.
Proof.
  revert pos. induction ws as [|x ws IH]; intros pos Hl; simpl in *.
  - rewrite bool_decide_true by lia. done.
  - rewrite IH by lia. unfold literal_level. by destruct x.
Qed.

Lemma literal_prefix_from_str p :
  literal_prefix p = true ->
  from_str (prefix_filter p) = Ok (map literal_level (split_on "/" p) ++ [MultiWildcard]).
Proof.
  unfold literal_prefix. intros Hp. bool_to_prop. unfold from_str, prefix_filter.
  rewrite split_on_app. change (split_on "/" "#") with ["#"].
  rewrite (literal_levels_from_str (split_on "/" p)).
  2,3: by apply split_on_chars.
  simpl. replace (is_valid _) with true; [done|]. symmetry. apply is_valid_spec. split.
  - apply Forall_app. split; [|by repeat constructor]. apply Forall_map.
    assert (Forall (fun w => any_char is_wild_char w = false /\ any_char is_dollar w = false) (split_on "/" p))
      as Hs by (apply Forall_and; split; by apply split_on_chars).
    eapply Forall_impl; [exact Hs|]. intros w [Hw Hd].
    by eapply level_from_str_valid, literal_level_from_str.
  - apply literal_misplaced. rewrite length_app, length_map. simpl. lia.
Qed.

Lemma literal_matches_itself ws :
  Forall (fun w => any_char is_dollar w = false) ws ->
  matches_loop str_match_level (map literal_level ws ++ [MultiWildcard]) (ws ++ ["#"]) = true.
Proof.
  induction 1 as [|x ws Hx Hws IH]; [done|]. pose proof (no_dollar_not_metadata x Hx) as Hm.
  unfold literal_level at 1. destruct x as [|c x]; [done|].
  cbn [app map str_is_empty matches_loop str_match_level].
  by rewrite Hm, bool_decide_true.
Qed.

(** The rule made from a filter of the user hits the subscription to it. *)
Lemma own_rule_hits record acl ci f :
  valid_segment (userid record) = true ->
  Forall (fun p => literal_prefix p = true) (user_prefixes record acl) ->
  In f (user_filters record (fanout_prefixes acl) (admin_prefixes acl)) ->
  f <> "" /\ is_metadata f = false
  /\ exists t, acl_topic_try_from f ci = Ok t /\ is_match t f = true.
Proof.
  intros Hv Hlit Hf. unfold user_filters in Hf. rewrite !in_app_iff in Hf.
  assert (f = ("+/" ++ userid record ++ "/#")%string
          \/ exists p, literal_prefix p = true /\ f = prefix_filter p) as [->|(p & Hp & ->)].
  { unfold user_prefixes in Hlit. rewrite Forall_app, !Forall_forall in Hlit. destruct Hlit as [H1 H2].
    destruct Hf as [[<-|[]]|[Hf|Hf]]; [by left|..]; right.
    - apply in_map_iff in Hf as (p & <- & Hp). exists p. split; [|done]. by apply H1, list_elem_of_In.
    - destruct (admin record); [|done]. apply in_map_iff in Hf as (p & <- & Hp).
      exists p. split; [|done]. by apply H2, list_elem_of_In. }
  - split; [done|]. split; [done|]. eexists. split; [by apply own_filter_rule|].
    destruct (valid_segment_level _ Hv) as (_ & Hs & Hd). unfold is_match, matches_str.
    cbn [eq_topic_filter acl_topic_filter]. rewrite own_filter_split by done. simpl. rewrite (no_dollar_not_metadata _ Hd), bool_decide_true by done.
    done.
  - pose proof (literal_prefix_from_str p Hp) as Hfs. unfold literal_prefix in Hp. bool_to_prop.
    assert (any_char is_dollar (prefix_filter p) = false) as Hd
      by (unfold prefix_filter; rewrite any_char_append; by apply orb_false_iff).
    split; [by destruct p|]. split; [by apply no_dollar_not_metadata|].
    rewrite filter_rule, Hfs; [|done| |by destruct p].
    + eexists. split; [done|]. unfold is_match, matches_str. simpl.
      unfold prefix_filter. rewrite split_on_app. simpl. apply literal_matches_itself.
      by apply split_on_chars.
    + apply strip_eq_app. unfold starts_with in *.
      match goal with H : isSome _ = false |- _ => unfold isSome in H; by apply negb_false_iff, is_none_true in H end.
Qed.

Lemma subscribe_hit_granted cfg record ci s r :
  Db.superuser record = false -> In r (rules (build_auth_info record (acl cfg) ci)) ->
  subscribe_hit r s = true ->
  grants_subscribe (subscribe_check cfg (Some (build_auth_info record (acl cfg) ci)) s) = true.
Proof.
  intros Hsu Hin Hhit. unfold subscribe_check.
  destruct (acl_enabled (acl cfg)); simpl; [|by rewrite new_success_granted].
  unfold subscribe_acl. rewrite build_auth_info_superuser, Hsu, subscribe_acl_loop_spec.
  rewrite allow_decision; [simpl; by rewrite new_success_granted | | by eauto].
  intros x. rewrite build_auth_info_rules by done. naive_solver.
Qed.

(** ** Theorems *)

Section agree.
Context {T : Type} `{KvTable T string Bytes}.
Context (bincode_decode : Bytes -> result string UserRecord).

(** C37: automatic subscriptions agree with the access rules: for a stored user
    with a valid userid, [subscribes] succeeds, returns one subscription per
    filter of the user, in order, and each passes the user's own subscription
    check. *)
Theorem auto_subscriptions_granted qos_try_from fanout cfg io db id name record ci :
  Types.username id = Some name -> get_user bincode_decode io name db = Ok (Some record) ->
  valid_segment (userid record) = true ->
  Forall (fun p => literal_prefix p = true) (user_prefixes record (acl cfg)) ->
  exists subs, subscribes bincode_decode (new qos_try_from fanout (acl cfg)) io db id = Ok subs
    /\ map topic_filter subs = user_filters record (fanout_prefixes (acl cfg)) (admin_prefixes (acl cfg))
    /\ Forall (fun s => grants_subscribe
         (subscribe_check cfg (Some (build_auth_info record (acl cfg) ci)) s) = true) subs.
Proof.
  intros Hid Hget Hv Hlit. unfold subscribes. rewrite Hid, Hget.
  cbn [new as_fanout_prefixes as_admin_prefixes].
  set (fs := user_filters record _ _).
  set (self := new qos_try_from fanout (acl cfg)).
  set (mk := fun f => mkSubscribe f (opts_from_v5 (mkCodecV5 (as_qos self) false false AtSubscribe) None None)).
  exists (map mk fs). split; [|split].
  - apply subscribe_all_spec, Forall2_fmap_r, Forall_Forall2_diag, Forall_forall.
    intros f Hf%list_elem_of_In.
    destruct (own_rule_hits record (acl cfg) ci f Hv Hlit Hf) as (Hne & Hm & _). by apply subscription_plain.
  - rewrite map_map. apply map_id.
  - apply Forall_map, Forall_forall. intros f Hf%list_elem_of_In.
    destruct (own_rule_hits record (acl cfg) ci f Hv Hlit Hf) as (_ & _ & t & Ht & Hmatch).
    destruct (Db.superuser record) eqn:Hsu.
    + unfold subscribe_check, build_auth_info. rewrite Hsu.
      destruct (acl_enabled (acl cfg)); simpl; by rewrite new_success_granted.
    + apply (subscribe_hit_granted _ _ _ _ (mkRule Allow ActSubscribe None None t)); [done| |].
      * apply build_auth_info_rules; [done|]. left. by exists f, t.
      * apply subscribe_hit_spec. by simpl.
Qed.

End agree.

Definition alice_db : Tables (gmap string Bytes) :=
  mkTables {[ "alice" := match toy_encode alice with Ok b => b | Err _ => [] end ]} ∅.

Lemma auto_subscriptions_granted_witness :
  exists subs, subscribes toy_decode (new (fun _ => Some AtLeastOnce) FanoutConfig_default AclConfig_default)
      no_faults alice_db (mkId 1 0 None None "c1" (Some "alice") 0) = Ok subs
    /\ map topic_filter subs = ["+/u1/#"; "fanout/#"].
Proof.
  destruct (auto_subscriptions_granted toy_decode (fun _ => Some AtLeastOnce) FanoutConfig_default
    default_settings no_faults alice_db (mkId 1 0 None None "c1" (Some "alice") 0) "alice" alice alice_conn)
    as (subs & Hs & Hm & _); [reflexivity | vm_compute; reflexivity | reflexivity | repeat constructor |].
  exists subs. split; [exact Hs | exact Hm].
Defined.
