(* ===== verification/MsgStore.v ===== *)
(** * Message store: [src/msgstore.rs]

    Messages live in memory ([MemState]) behind a mutex; a writer task takes
    new ones from a channel, [flush] writes the changed ones to the database
    and [open] reads them back. The model keeps the channel as a list, takes
    every clock reading as an argument and the database as a [KvTable]; each
    critical section of the mutex is one step.

    [HashMap]s and [HashSet]s are finite maps and sets; where the code
    iterates over one, the order is the model's and no theorem depends on it.
    Message ids and counters are 64-bit, byte counts saturate at [usize::MAX].
    Lock poisoning is not modelled.

    The invariant has two parts. [mem_ok] holds in every execution in which the
    sizes fit; [wf] says besides that the index is exact, which needs that no
    message replaces one of another topic under its id ([stale_topic] shows
    why). An execution may contain restarts ([Life]): an orderly one flushes,
    and opens the database again. *)

From stdpp Require Import sorting.
From S2P Require Import Prelude Strs Topic Types Store.
Local Open Scope string_scope.
Local Open Scope list_scope.
Local Open Scope Z_scope.

(** ** Data *)

Definition COUNTER_MASK : Z := 0xFFFFFFFFFFFF.

Record StoredMsg : Type := mkMsg {
  from : MsgFrom;
  publish : Publish;
  expiry_at : Z;
  delivered_to : gset string
}.

(** [approx_size]. *)
Definition approx_size (m : StoredMsg) : Z :=
  str_len (payload (publish m)) + str_len (topic (publish m)) + 384.

Record MemState : Type := mkMem {
  msgs : gmap Z StoredMsg;
  order : list Z;
  by_topic : gmap string (gset Z);
  bytes : Z;
  dirty : gset Z;
  removed : gset Z
}.

(** ** Eviction *)

Definition over_cap (max_msgs max_bytes : Z) (st : MemState) : bool :=
  ((0 <? max_msgs) && (max_msgs <? Z.of_nat (size (msgs st))))
  || ((0 <? max_bytes) && (max_bytes <? bytes st)).

Definition expired (now id : Z) (st : MemState) : bool :=
  match msgs st !! id with
  | Some m => expiry_at m <=? now
  | None => true
  end.

(** [ids.remove(&id)] and the removal of the entry when it is then empty. *)
Definition unindex (t : string) (id : Z) (idx : gmap string (gset Z)) : gmap string (gset Z) :=
  match idx !! t with
  | Some ids =>
      let ids := ids ∖ {[id]} in
      if decide (ids = ∅) then delete t idx else <[t := ids]> idx
  | None => idx
  end.

(** The body of the loop after [pop_front]. *)
Definition evict_one (id : Z) (st : MemState) : MemState :=
  match msgs st !! id with
  | Some m =>
      mkMem (delete id (msgs st)) (order st) (unindex (topic (publish m)) id (by_topic st))
        (usize_sat_sub (bytes st) (approx_size m)) (dirty st ∖ {[id]}) (removed st ∪ {[id]})
  | None => st
  end.

Definition set_order (o : list Z) (st : MemState) : MemState :=
  mkMem (msgs st) o (by_topic st) (bytes st) (dirty st) (removed st).

(** The loop, over the queue it consumes. *)
Fixpoint evict_loop (now max_msgs max_bytes : Z) (queue : list Z) (st : MemState) : MemState :=
  match queue with
  | [] => st
  | id :: queue' =>
      if negb (over_cap max_msgs max_bytes st) && negb (expired now id st) then st
      else evict_loop now max_msgs max_bytes queue' (evict_one id (set_order queue' st))
  end.

Definition evict (now max_msgs max_bytes : Z) (st : MemState) : MemState :=
  evict_loop now max_msgs max_bytes (order st) st.

(** ** The store *)

Record MessageStore (T : Type) : Type := mkStore {
  disk : T;
  node_id : Z;
  counter : Z;
  state : MemState;
  max_msgs : Z;
  max_bytes : Z;
  channel : list (Z * StoredMsg)
}.
Arguments mkStore {T}.
Arguments disk {T}.
Arguments node_id {T}.
Arguments counter {T}.
Arguments state {T}.
Arguments max_msgs {T}.
Arguments max_bytes {T}.
Arguments channel {T}.

Definition set_state {T} (st : MemState) (s : MessageStore T) : MessageStore T :=
  mkStore (disk s) (node_id s) (counter s) st (max_msgs s) (max_bytes s) (channel s).

(** The message enters the maps and the byte count. *)
Definition add_msg (key : Z) (msg : StoredMsg) (st : MemState) : MemState :=
  let size := approx_size msg in
  let t := topic (publish msg) in
  let '(order', bytes') :=
    match msgs st !! key with
    | Some old => (order st, usize_sat_add (usize_sat_sub (bytes st) (approx_size old)) size)
    | None => (order st ++ [key], usize_sat_add (bytes st) size)
    end in
  mkMem (<[key := msg]> (msgs st)) order'
    (<[t := default ∅ (by_topic st !! t) ∪ {[key]}]> (by_topic st)) bytes'
    (dirty st ∪ {[key]}) (removed st ∖ {[key]}).

(** The writer task's critical section for one received message. *)
Definition write_msg (now max_msgs max_bytes key : Z) (msg : StoredMsg) (st : MemState) : MemState :=
  evict now max_msgs max_bytes (add_msg key msg st).

(** [rx.recv()] and the critical section; nothing to do on an empty channel. *)
Definition writer_step {T} (now : Z) (s : MessageStore T) : MessageStore T :=
  match channel s with
  | [] => s
  | (key, msg) :: rest =>
      mkStore (disk s) (node_id s) (counter s)
        (write_msg now (max_msgs s) (max_bytes s) key msg (state s))
        (max_msgs s) (max_bytes s) rest
  end.

(** [next_msg_id]: [fetch_add] wraps, the shift drops the high bits. *)
Definition next_msg_id {T} (s : MessageStore T) : Z * MessageStore T :=
  let c := Z.land (counter s) COUNTER_MASK in
  (Z.lor (wrap_u64 (Z.shiftl (node_id s) 48)) c,
   mkStore (disk s) (node_id s) (wrap_u64 (counter s + 1)) (state s)
     (max_msgs s) (max_bytes s) (channel s)).

(** [store]: only sends; [expiry_interval] is in milliseconds. *)
Definition store {T} (now msg_id : Z) (fr : MsgFrom) (p : Publish) (expiry_interval : Z)
    (s : MessageStore T) : MessageStore T :=
  let expiry_at := i64_sat_add now (as_i64 expiry_interval) in
  let msg := mkMsg fr p expiry_at ∅ in
  mkStore (disk s) (node_id s) (counter s) (state s) (max_msgs s) (max_bytes s)
    (channel s ++ [(msg_id, msg)]).

(** ** Lookup *)

Definition candidates (topic_filter : string) (st : MemState) : list Z :=
  if has_wildcard topic_filter then
    map_to_list (by_topic st) ≫= (fun '(t, ids) =>
      if topic_matches t topic_filter then elements ids else [])
  else
    match by_topic st !! topic_filter with
    | Some ids => elements ids
    | None => []
    end.

(** The loop over the candidates: [None] is [continue]. *)
Definition deliverable (now : Z) (client : string) (st : MemState) (id : Z)
    : option (Z * MsgFrom * Publish) :=
  match msgs st !! id with
  | Some msg =>
      if (expiry_at msg <=? now) || bool_decide (client ∈ delivered_to msg) then None
      else Some (id, from msg, publish msg)
  | None => None
  end.

Definition mark_delivered (client : string) (m : StoredMsg) : StoredMsg :=
  mkMsg (from m) (publish m) (expiry_at m) (delivered_to m ∪ {[client]}).

Definition touch (client : string) (id : Z) (st : MemState) : MemState :=
  mkMem (match msgs st !! id with
         | Some m => <[id := mark_delivered client m]> (msgs st)
         | None => msgs st
         end) (order st) (by_topic st) (bytes st) (dirty st ∪ {[id]}) (removed st).

Definition get_mem (now : Z) (client topic_filter : string) (st : MemState)
    : list (Z * MsgFrom * Publish) * MemState :=
  let out := omap (deliverable now client st) (candidates topic_filter st) in
  (out, fold_left (fun st id => touch client id st) (map (fun x => fst (fst x)) out) st).

Definition get {T} (now : Z) (client topic_filter : string) (s : MessageStore T)
    : list (Z * MsgFrom * Publish) * MessageStore T :=
  let st := evict now (max_msgs s) (max_bytes s) (state s) in
  let '(out, st) := get_mem now client topic_filter st in
  (out, set_state st s).

Definition count {T} (s : MessageStore T) : Z := Z.of_nat (size (msgs (state s))).

(** ** Persistence *)

Inductive msg_error : Type :=
| MsgStorageError (msg : string)
| MsgEncodeError (msg : string)
| MsgDecodeError (msg : string).

Section persistence.
Context {T : Type} `{KvTable T Z Bytes}.
Context (bincode_encode : StoredMsg -> result string Bytes).
Context (bincode_decode : Bytes -> result string StoredMsg).

Definition enc (m : StoredMsg) : result msg_error Bytes :=
  match bincode_encode m with
  | Ok b => Ok b
  | Err e => Err (MsgEncodeError ("bincode encode: " ++ e)%string)
  end.

Definition dec (b : Bytes) : result msg_error StoredMsg :=
  match bincode_decode b with
  | Ok m => Ok m
  | Err e => Err (MsgDecodeError ("bincode decode: " ++ e)%string)
  end.

(** The rows [flush] writes: the dirty messages still in memory that encode. *)
Definition flush_batch (st : MemState) : list (Z * Bytes) :=
  omap (fun id =>
    match msgs st !! id with
    | Some m => match enc m with Ok b => Some (id, b) | Err _ => None end
    | None => None
    end) (elements (dirty st)).

Definition write_rows (removed : list Z) (batch : list (Z * Bytes)) (t : T) : T :=
  fold_left (fun t row => kv_insert t (fst row) (snd row)) batch
    (fold_left kv_remove removed t).

(** [flush]: the sets are drained before the transaction runs; its failure is
    only logged. [joined] is whether the blocking task finished. *)
Definition flush (now : Z) (io : TxnFaults msg_error) (joined : bool) (s : MessageStore T)
    : MessageStore T :=
  let st := evict now (max_msgs s) (max_bytes s) (state s) in
  let batch := flush_batch st in
  let gone := elements (removed st) in
  let st' := mkMem (msgs st) (order st) (by_topic st) (bytes st) ∅ ∅ in
  let s' := set_state st' s in
  match batch, gone with
  | [], [] => s'
  | _, _ =>
      if joined then
        let '(_, d) := write_txn io (fun t => Ok (tt, write_rows gone batch t)) (disk s) in
        mkStore d (node_id s) (counter s) st' (max_msgs s) (max_bytes s) (channel s)
      else s'
  end.

(** The start of the counter: one above the largest id of this node. *)
Definition next_start (node : Z) (start id : Z) : Z :=
  if Z.shiftr id 48 =? node then
    let c := Z.land id COUNTER_MASK + 1 in
    if start <? c then c else start
  else start.

Definition load_row (now : Z) (m : gmap Z StoredMsg) (row : Z * Bytes) : gmap Z StoredMsg :=
  match dec (snd row) with
  | Ok msg => if now <? expiry_at msg then <[fst row := msg]> m else m
  | Err _ => m
  end.

(** The order of the pairs [(expiry_at, id)]. *)
Definition pair_le (a b : Z * Z) : Prop := fst a < fst b \/ (fst a = fst b /\ snd a <= snd b).

#[export] Instance pair_le_dec : RelDecision pair_le.
Proof. intros a b. unfold pair_le. apply _. Defined.

Definition total_size (m : gmap Z StoredMsg) : Z :=
  map_fold (fun _ msg acc => approx_size msg + acc) 0 m.

Definition index_topics (m : gmap Z StoredMsg) : gmap string (gset Z) :=
  map_fold (fun id msg idx =>
    let t := topic (publish msg) in <[t := default ∅ (idx !! t) ∪ {[id]}]> idx) ∅ m.

(** [open], after the database is opened: [io] is the read transaction. *)
Definition open (now node : Z) (env : string -> option string) (io : TxnFaults msg_error) (d : T)
    : result msg_error (MessageStore T) :=
  read_txn io (fun d =>
    let rows := kv_iter d in
    let start := fold_left (fun start row => next_start node start (fst row)) rows 0 in
    let ms := fold_left (load_row now) rows ∅ in
    let entries := merge_sort pair_le (map (fun '(id, m) => (expiry_at m, id)) (map_to_list ms)) in
    let order := map snd entries in
    let max_msgs := default 0 (env "MSG_MAX_MSGS" ≫= parse_uint usize_max) in
    let max_bytes := default (256 * 1024 * 1024) (env "MSG_MAX_BYTES" ≫= parse_uint usize_max) in
    Ok (mkStore d node start (mkMem ms order (index_topics ms) (total_size ms) ∅ ∅)
          max_msgs max_bytes [])) d.

End persistence.

(** ** Invariant *)

(** A message with this id is found under the topic. *)
Definition indexed (st : MemState) (t : string) (id : Z) : Prop := exists ids, by_topic st !! t = Some ids /\ id ∈ ids.

(** The queue lists every message once, the bytes are counted, every message is
    found under its topic, changed messages are in memory and removed ones are
    not. *)
Record mem_ok (st : MemState) : Prop := mkMemOk {
  wf_nodup : NoDup (order st);
  wf_order : forall id, id ∈ order st <-> is_Some (msgs st !! id);
  wf_bytes : bytes st = total_size (msgs st);
  wf_found : forall id m, msgs st !! id = Some m -> indexed st (topic (publish m)) id;
  wf_index_nonempty : forall t ids, by_topic st !! t = Some ids -> ids <> ∅;
  wf_dirty : forall id, id ∈ dirty st -> is_Some (msgs st !! id);
  wf_removed : forall id, id ∈ removed st -> msgs st !! id = None
}.

(** And nothing else is found under a topic. *)
Record wf (st : MemState) : Prop := mkWf {
  wf_mem :> mem_ok st;
  wf_index : forall t id, indexed st t id <-> (exists m, msgs st !! id = Some m /\ topic (publish m) = t)
}.

(** The configured bounds; 0 means unbounded. *)
Definition within_caps (max_msgs max_bytes : Z) (st : MemState) : Prop :=
  (0 < max_msgs -> Z.of_nat (size (msgs st)) <= max_msgs)
  /\ (0 < max_bytes -> bytes st <= max_bytes).

Lemma over_cap_within mm mb st : within_caps mm mb st -> over_cap mm mb st = false.
Proof.
  intros [Hm Hb]. unfold over_cap. apply orb_false_intro; apply andb_false_iff.
  - destruct (Z.ltb_spec 0 mm); [right; apply Z.ltb_ge; lia | by left].
  - destruct (Z.ltb_spec 0 mb); [right; apply Z.ltb_ge; lia | by left].
Qed.

(** ** Lemmas: sizes *)

Lemma approx_size_pos m : 0 < approx_size m.
Proof. unfold approx_size, str_len. lia. Qed.

Lemma total_size_insert id m ms :
  ms !! id = None -> total_size (<[id := m]> ms) = approx_size m + total_size ms.
Proof.
  intros Hid. unfold total_size. rewrite map_fold_insert_L; [done| |done]. intros. lia.
Qed.

Lemma total_size_delete id m ms :
  ms !! id = Some m -> total_size ms = approx_size m + total_size (delete id ms).
Proof.
  intros Hid. rewrite <- (insert_delete_id _ _ _ Hid) at 1.
  rewrite total_size_insert; [done|]. apply lookup_delete_eq.
Qed.

Lemma total_size_nonneg ms : 0 <= total_size ms.
Proof.
  unfold total_size. apply (map_fold_weak_ind (fun acc _ => 0 <= acc)); [done|].
  intros id m r acc _ Hacc. pose proof (approx_size_pos m). lia.
Qed.

Lemma total_size_empty : total_size ∅ = 0.
Proof. done. Qed.

Lemma total_size_update id m m' ms :
  ms !! id = Some m -> approx_size m' = approx_size m ->
  total_size (<[id := m']> ms) = total_size ms.
Proof.
  intros Hid Hs. rewrite (total_size_delete id m ms Hid), <- insert_delete_eq.
  rewrite total_size_insert by apply lookup_delete_eq. lia.
Qed.

(** ** Lemmas: the topic index *)

Lemma unindex_elem t id idx t' id' :
  (exists ids, unindex t id idx !! t' = Some ids /\ id' ∈ ids)
  <-> (exists ids, idx !! t' = Some ids /\ id' ∈ ids) /\ ~ (t' = t /\ id' = id).
Proof.
  unfold unindex. destruct (idx !! t) as [ids|] eqn:Ht.
  - destruct (decide (t' = t)) as [->|Hne].
    + rewrite Ht. case_decide as He.
      * rewrite lookup_delete_eq. split; [naive_solver|]. intros [(x & [= <-] & Hx) Hn].
        destruct (decide (id' = id)) as [->|]; [by destruct Hn|].
        assert (id' ∈ ids ∖ {[id]}) as Hin by set_solver. rewrite He in Hin. set_solver.
      * rewrite lookup_insert_eq. split.
        -- intros (x & [= <-] & Hx). split; [exists ids|]; set_solver.
        -- intros [(x & [= <-] & Hx) Hn]. eexists. split; [done|]. set_solver.
    + case_decide; rewrite ?lookup_delete_ne, ?lookup_insert_ne by done; naive_solver.
  - split; [|naive_solver]. intros H. split; [done|]. intros [-> ->]. naive_solver.
Qed.

Lemma unindex_nonempty t id idx :
  (forall t ids, idx !! t = Some ids -> ids <> ∅) ->
  forall t' ids, unindex t id idx !! t' = Some ids -> ids <> ∅.
Proof.
  intros Hne t' ids. unfold unindex. destruct (idx !! t) as [x|] eqn:Ht; [|apply Hne].
  case_decide.
  - rewrite lookup_delete_Some. naive_solver.
  - rewrite lookup_insert_Some. naive_solver.
Qed.

Lemma index_add_elem t id (idx : gmap string (gset Z)) t' id' :
  (exists ids, <[t := default ∅ (idx !! t) ∪ {[id]}]> idx !! t' = Some ids /\ id' ∈ ids)
  <-> (exists ids, idx !! t' = Some ids /\ id' ∈ ids) \/ (t' = t /\ id' = id).
Proof.
  destruct (decide (t' = t)) as [->|Hne].
  - rewrite lookup_insert_eq. destruct (idx !! t) as [ids|]; simpl; split.
    + intros (x & [= <-] & Hx). rewrite elem_of_union, elem_of_singleton in Hx. naive_solver.
    + intros [(x & [= <-] & Hx)|[_ ->]]; eexists; (split; [done|]); set_solver.
    + intros (x & [= <-] & Hx). rewrite elem_of_union, elem_of_singleton in Hx. set_solver.
    + intros [(x & [=] & Hx)|[_ ->]]; eexists; (split; [done|]); set_solver.
  - rewrite lookup_insert_ne by done. naive_solver.
Qed.

Lemma index_topics_elem ms t id :
  (exists ids, index_topics ms !! t = Some ids /\ id ∈ ids)
  <-> exists m, ms !! id = Some m /\ topic (publish m) = t.
Proof.
  revert t id. unfold index_topics.
  apply (map_fold_weak_ind (fun idx ms => forall t id,
    (exists ids, idx !! t = Some ids /\ id ∈ ids) <-> exists m, ms !! id = Some m /\ topic (publish m) = t)).
  - intros t id. setoid_rewrite lookup_empty. naive_solver.
  - intros k m r idx Hk IH t id. rewrite index_add_elem, IH. setoid_rewrite lookup_insert_Some.
    split; [|naive_solver]. intros [(x & Hx & <-)|[-> ->]]; [|by eauto].
    exists x. split; [|done]. right. split; [|done]. intros ->. congruence.
Qed.

Lemma index_topics_nonempty ms t ids : index_topics ms !! t = Some ids -> ids <> ∅.
Proof.
  revert t ids. unfold index_topics.
  apply (map_fold_weak_ind (fun idx _ => forall t ids, idx !! t = Some ids -> ids <> ∅)).
  - intros t ids. by rewrite lookup_empty.
  - intros k m r idx Hk IH t ids. rewrite lookup_insert_Some. intros [[_ <-]|[_ Ht]]; [set_solver | eauto].
Qed.

(** ** Lemmas: eviction *)

Lemma evict_one_ok id queue st :
  mem_ok st -> order st = id :: queue -> mem_ok (evict_one id (set_order queue st)).
Proof.
  intros [Hnd Ho Hb Hi Hn Hd Hr] Hq. rewrite Hq in *. apply NoDup_cons in Hnd as [Hnotin Hnd].
  destruct (proj1 (Ho id)) as [m Hm]; [by left|]. unfold evict_one, indexed in *. simpl. rewrite Hm.
  constructor; simpl; [done|..].
  - intros x. specialize (Ho x). rewrite elem_of_cons in Ho. rewrite lookup_delete_is_Some, <- Ho.
    split; [intros Hx; split; [by intros ->|by right] | intros [Hne [->|Hx]]; done].
  - rewrite Hb, (total_size_delete _ _ _ Hm). unfold usize_sat_sub.
    pose proof (total_size_nonneg (delete id (msgs st))). lia.
  - intros x m'. unfold indexed. simpl. rewrite lookup_delete_Some, unindex_elem. intros [Hne Hm']. split; [by eauto|naive_solver].
  - by apply unindex_nonempty.
  - intros x Hx. rewrite lookup_delete_is_Some. set_solver.
  - intros x Hx. rewrite lookup_delete_None.
    destruct (decide (id = x)) as [->|]; [by left | right; apply Hr; set_solver].
Qed.

Lemma evict_one_wf id queue st :
  wf st -> order st = id :: queue -> wf (evict_one id (set_order queue st)).
Proof.
  intros [Hok Hi] Hq. split; [by apply evict_one_ok|].
  destruct (proj1 (wf_order _ Hok id)) as [m Hm]; [rewrite Hq; by left|]. unfold evict_one, indexed in *. simpl. rewrite Hm. simpl.
  intros t x. rewrite unindex_elem, Hi. setoid_rewrite lookup_delete_Some. split.
  - intros [(m' & Hm' & Ht) Hnx]. exists m'. split; [|done]. split; [|done].
    intros ->. apply Hnx. split; [congruence|done].
  - intros (m' & [Hne Hm'] & Ht). split; [by eauto|]. naive_solver.
Qed.

(** What eviction does: it drops a prefix of the queue. *)
Definition evicted (gone : list Z) (st st' : MemState) : Prop :=
  order st = gone ++ order st'
  /\ (forall id, msgs st' !! id = if decide (id ∈ gone) then None else msgs st !! id)
  /\ dirty st' = dirty st ∖ list_to_set gone /\ removed st' = removed st ∪ list_to_set gone.

Lemma evicted_nil st : evicted [] st st.
Proof.
  split; [done|]. split; [intros id; by rewrite decide_False by apply not_elem_of_nil | set_solver].
Qed.

Lemma evicted_cons id gone queue st st' :
  mem_ok st -> order st = id :: queue ->
  evicted gone (evict_one id (set_order queue st)) st' -> evicted (id :: gone) st st'.
Proof.
  intros Hwf Hq (Ho & Hm & Hd & Hr). destruct (proj1 (wf_order _ Hwf id)) as [m Hid]; [rewrite Hq; left|].
  unfold evict_one in *. simpl in *. rewrite Hid in *. simpl in *. repeat split.
  - by rewrite Hq, Ho.
  - intros x. rewrite Hm. destruct (decide (x = id)) as [->|Hne].
    + rewrite (decide_True (P := id ∈ id :: gone)) by by left. rewrite lookup_delete_eq. by case_decide.
    + rewrite lookup_delete_ne by done. by rewrite (decide_ext (x ∈ gone) (x ∈ id :: gone))
        by (rewrite elem_of_cons; naive_solver).
  - rewrite Hd. set_solver.
  - rewrite Hr. set_solver.
Qed.

Lemma evict_loop_spec now mm mb queue st :
  mem_ok st -> order st = queue ->
  let st' := evict_loop now mm mb queue st in
  mem_ok st' /\ (wf st -> wf st') /\ (exists gone, evicted gone st st'
             /\ (over_cap mm mb st = false -> Forall (fun id => expired now id st = true) gone))
  /\ (order st' = [] \/ over_cap mm mb st' = false).
Proof.
  revert st. induction queue as [|id queue IH]; intros st Hwf Hq; simpl.
  - split; [done|]. split; [done|]. split; [|by left]. exists []. split; [apply evicted_nil | done].
  - destruct (negb (over_cap mm mb st) && negb (expired now id st)) eqn:Hc.
    + bool_to_prop. split; [done|]. split; [done|]. split; [|by right]. exists []. split; [apply evicted_nil | done].
    + pose proof (evict_one_ok id queue st Hwf Hq) as Hwf1.
      destruct (IH _ Hwf1) as (Hwf2 & Hex & (gone & Hg & Hexp) & Hend).
      { unfold evict_one. by destruct (msgs _ !! id). }
      split; [done|]. split; [intros Hw; by apply Hex, evict_one_wf|].
      split; [|done]. exists (id :: gone). split; [by eapply evicted_cons|].
      intros Hcap. rewrite Hcap in Hc. simpl in Hc. apply negb_false_iff in Hc.
      constructor; [done|].
      destruct (proj1 (wf_order _ Hwf id)) as [m Hid]; [rewrite Hq; left|].
      assert (over_cap mm mb (evict_one id (set_order queue st)) = false) as Hcap1.
      { unfold evict_one, over_cap in *. simpl. rewrite Hid. simpl.
        apply orb_false_iff in Hcap as [H1 H2].
        rewrite (map_size_delete_Some _ _ (mk_is_Some _ _ Hid)).
        apply orb_false_iff; split; apply andb_false_iff; [apply andb_false_iff in H1 | apply andb_false_iff in H2];
          rewrite !Z.ltb_ge in *.
        - destruct H1; [by left | right; lia].
        - destruct H2; [by left | right; unfold usize_sat_sub]. pose proof (approx_size_pos m).
          pose proof (total_size_nonneg (msgs st)). rewrite (wf_bytes _ Hwf) in *. lia. }
      eapply Forall_impl; [by apply Hexp|]. intros x. unfold expired, evict_one. simpl. rewrite Hid. simpl.
      destruct (decide (x = id)) as [->|Hne]; [intros _; by unfold expired in Hc; simpl in Hc|].
      by rewrite lookup_delete_ne.
Qed.

Lemma evict_ok now mm mb st :
  mem_ok st -> let st' := evict now mm mb st in
  mem_ok st' /\ within_caps mm mb st' /\ exists gone, evicted gone st st'
    /\ (over_cap mm mb st = false -> Forall (fun id => expired now id st = true) gone).
Proof.
  intros Hwf. destruct (evict_loop_spec now mm mb (order st) st Hwf eq_refl) as (Hwf' & _ & Hg & Hend).
  split; [done|]. split; [|done]. fold (evict now mm mb st) in *.
  destruct Hend as [Hnil|Hcap].
  - assert (msgs (evict now mm mb st) = ∅) as Hm.
    { apply map_empty. intros id. apply eq_None_not_Some. rewrite <- (wf_order _ Hwf'), Hnil.
      apply not_elem_of_nil. }
    unfold within_caps. rewrite (wf_bytes _ Hwf'), Hm, map_size_empty, total_size_empty. lia.
  - unfold over_cap in Hcap. apply orb_false_iff in Hcap as [H1 H2].
    apply andb_false_iff in H1, H2. rewrite !Z.ltb_ge in H1, H2. split; intros; lia.
Qed.

Lemma evict_wf now mm mb st : wf st -> wf (evict now mm mb st).
Proof. intros Hwf. by apply (evict_loop_spec now mm mb (order st) st (wf_mem _ Hwf) eq_refl). Qed.

Lemma evict_spec now mm mb st :
  wf st -> let st' := evict now mm mb st in
  wf st' /\ within_caps mm mb st' /\ exists gone, evicted gone st st'
    /\ (over_cap mm mb st = false -> Forall (fun id => expired now id st = true) gone).
Proof. intros Hwf. split; [by apply evict_wf|]. apply (evict_ok now mm mb st (wf_mem _ Hwf)). Qed.

(** ** Lemmas: the writer *)

Lemma add_msg_msgs key msg st : msgs (add_msg key msg st) = <[key := msg]> (msgs st).
Proof. unfold add_msg. by destruct (msgs st !! key). Qed.

Lemma add_msg_indexed key msg st t id :
  indexed (add_msg key msg st) t id <-> indexed st t id \/ (t = topic (publish msg) /\ id = key).
Proof. unfold indexed, add_msg. destruct (msgs st !! key); simpl; apply index_add_elem. Qed.

Lemma add_msg_ok key msg st :
  mem_ok st -> total_size (<[key := msg]> (msgs st)) <= usize_max -> mem_ok (add_msg key msg st).
Proof.
  intros [Hnd Ho Hb Hi Hn Hd Hr] Hfit.
  pose proof (approx_size_pos msg). pose proof (total_size_nonneg (msgs st)).
  assert (forall id m, msgs (add_msg key msg st) !! id = Some m -> indexed (add_msg key msg st) (topic (publish m)) id) as Hi'.
  { intros id m. rewrite add_msg_msgs, add_msg_indexed, lookup_insert_Some. naive_solver. }
  unfold add_msg in *.
  assert (forall t ids,
      <[topic (publish msg) := default ∅ (by_topic st !! topic (publish msg)) ∪ {[key]}]> (by_topic st) !! t
        = Some ids -> ids <> ∅) as Hn'.
  { intros t ids. rewrite lookup_insert_Some. intros [[_ <-]|[_ Ht]]; [set_solver | eauto]. }
  assert (forall id, id ∈ dirty st ∪ {[key]} -> is_Some (<[key := msg]> (msgs st) !! id)) as Hd'.
  { intros id. rewrite elem_of_union, elem_of_singleton, lookup_insert_is_Some.
    intros [?| ->]; [|by left]. destruct (decide (key = id)); [by left | right; eauto]. }
  assert (forall id, id ∈ removed st ∖ {[key]} -> <[key := msg]> (msgs st) !! id = None) as Hr'.
  { intros id Hid. rewrite lookup_insert_None. split; [apply Hr|]; set_solver. }
  destruct (msgs st !! key) as [old|] eqn:Hk; constructor; simpl; try done.
  - intros id. rewrite Ho, lookup_insert_is_Some. split; [|intros [<-|[_ ?]]; [by eauto | done]].
    destruct (decide (key = id)); [by left | by right].
  - pose proof (total_size_delete _ _ _ Hk) as Ht. rewrite <- insert_delete_eq in Hfit |- *.
    rewrite total_size_insert in Hfit |- * by apply lookup_delete_eq.
    pose proof (total_size_nonneg (delete key (msgs st))).
    unfold usize_sat_add, usize_sat_sub. rewrite Hb, Ht. lia.
  - apply NoDup_app. split; [done|]. split; [|apply NoDup_singleton].
    intros id Hid ->%list_elem_of_singleton. apply Ho in Hid. rewrite Hk in Hid. by destruct Hid.
  - intros id. rewrite elem_of_app, list_elem_of_singleton, Ho, lookup_insert_is_Some.
    destruct (decide (key = id)) as [->|]; naive_solver.
  - rewrite total_size_insert in Hfit |- * by done. unfold usize_sat_add. rewrite Hb. lia.
Qed.

Lemma add_msg_wf key msg st :
  wf st -> total_size (<[key := msg]> (msgs st)) <= usize_max ->
  (forall old, msgs st !! key = Some old -> topic (publish old) = topic (publish msg)) ->
  wf (add_msg key msg st).
Proof.
  intros [Hok Hi] Hfit Hsame. split; [by apply add_msg_ok|]. intros t id.
  rewrite add_msg_msgs, add_msg_indexed, Hi. setoid_rewrite lookup_insert_Some. split.
  - intros [(m & Hm & <-)|[-> ->]]; [|by eauto]. destruct (decide (key = id)) as [->|]; [|by eauto].
    exists msg. split; [by left|]. symmetry. by apply Hsame.
  - intros (m & [[<- <-]|[Hne Hm]] & <-); [by right | left; by eauto].
Qed.

(** ** Lemmas: lookup *)

Lemma topic_matches_exact s fs :
  has_wildcard fs = false -> topic_matches s fs = true <-> s = fs.
Proof.
  intros H. unfold topic_matches. rewrite topic_matches_loop_literal by by apply has_wildcard_levels.
  split; [apply split_on_inj | by intros ->].
Qed.

Lemma candidates_elem tf st id :
  wf st ->
  id ∈ candidates tf st
  <-> exists m, msgs st !! id = Some m /\ topic_matches (topic (publish m)) tf = true.
Proof.
  intros Hwf. pose proof (wf_index _ Hwf) as Hi. unfold indexed in Hi. unfold candidates. destruct (has_wildcard tf) eqn:Hw.
  - rewrite list_elem_of_bind. split.
    + intros ([t ids] & Hin & Hid%elem_of_map_to_list). destruct (topic_matches t tf) eqn:Ht; [|by apply not_elem_of_nil in Hin].
      apply elem_of_elements in Hin. destruct (proj1 (Hi t id)) as (m & Hm & <-); eauto.
    + intros (m & Hm & Ht). destruct (proj2 (Hi (topic (publish m)) id)) as (ids & Hids & Hid); [by eauto|].
      exists (topic (publish m), ids). rewrite Ht. split; [by apply elem_of_elements | by apply elem_of_map_to_list].
  - setoid_rewrite (fun t => topic_matches_exact t tf Hw).
    rewrite <- Hi. destruct (by_topic st !! tf) as [ids|].
    + rewrite elem_of_elements. naive_solver.
    + split; [by intros ?%not_elem_of_nil | naive_solver].
Qed.

Lemma candidates_nodup tf st : wf st -> NoDup (candidates tf st).
Proof.
  intros Hwf. pose proof (wf_index _ Hwf) as Hi. unfold indexed in Hi. unfold candidates. destruct (has_wildcard tf).
  - apply NoDup_bind; [| |apply NoDup_map_to_list].
    + intros [t1 ids1] [t2 ids2] id H1%elem_of_map_to_list H2%elem_of_map_to_list Hy1 Hy2.
      destruct (topic_matches t1 tf); [|by apply not_elem_of_nil in Hy1].
      destruct (topic_matches t2 tf); [|by apply not_elem_of_nil in Hy2].
      apply elem_of_elements in Hy1, Hy2.
      destruct (proj1 (Hi t1 id)) as (m & Hm & <-); [by eauto|].
      destruct (proj1 (Hi t2 id)) as (m' & Hm' & <-); [by eauto|]. congruence.
    + intros [t ids] _. destruct (topic_matches t tf); [apply NoDup_elements | apply NoDup_nil_2].
  - destruct (by_topic st !! tf); [apply NoDup_elements | apply NoDup_nil_2].
Qed.

(** A message [get] returns to [client] at [now]. *)
Definition pending (now : Z) (client tf : string) (st : MemState) (x : Z * MsgFrom * Publish) : Prop :=
  exists m, msgs st !! (fst (fst x)) = Some m /\ x = (fst (fst x), from m, publish m)
    /\ now < expiry_at m /\ (client ∉ delivered_to m) /\ topic_matches (topic (publish m)) tf = true.

Lemma deliverable_Some now client st id x :
  deliverable now client st id = Some x
  <-> exists m, msgs st !! id = Some m /\ now < expiry_at m /\ (client ∉ delivered_to m)
           /\ x = (id, from m, publish m).
Proof.
  unfold deliverable. destruct (msgs st !! id) as [m|]; [|naive_solver].
  destruct (Z.leb_spec (expiry_at m) now); simpl; [split; [done|]; intros (? & [= <-] & ? & _); lia|].
  case_bool_decide; naive_solver.
Qed.

Lemma get_mem_out now client tf st x :
  wf st -> x ∈ fst (get_mem now client tf st) <-> pending now client tf st x.
Proof.
  intros Hwf. simpl. rewrite list_elem_of_omap. split.
  - intros (id & Hid & (m & Hm & He & Hd & ->)%deliverable_Some).
    apply candidates_elem in Hid as (m' & Hm' & Ht); [|done]. exists m. simpl. naive_solver.
  - intros (m & Hm & Hx & He & Hd & Ht). exists (fst (fst x)). split.
    + apply candidates_elem; eauto.
    + apply deliverable_Some. eauto.
Qed.

Lemma omap_fst_nodup now client st ids :
  NoDup ids -> NoDup (map (fun x => fst (fst x)) (omap (deliverable now client st) ids)).
Proof.
  induction 1 as [|id ids Hnin Hnd IH]; simpl; [constructor|].
  destruct (deliverable now client st id) as [x|] eqn:Hx; [|done]. simpl. constructor; [|done].
  apply deliverable_Some in Hx as (m & _ & _ & _ & ->). simpl.
  rewrite list_elem_of_fmap. intros (y & Hy & (id' & Hid & (m' & _ & _ & _ & ->)%deliverable_Some)%list_elem_of_omap).
  simpl in Hy. by subst.
Qed.

Lemma mark_delivered_twice c m : mark_delivered c (mark_delivered c m) = mark_delivered c m.
Proof. unfold mark_delivered. simpl. f_equal. set_solver. Qed.

(** The state after marking the messages [ids] as delivered to [c]. *)
Lemma touch_all c ids st :
  let st' := fold_left (fun st id => touch c id st) ids st in
  (forall id, msgs st' !! id
     = if decide (id ∈ ids) then mark_delivered c <$> (msgs st !! id) else msgs st !! id)
  /\ order st' = order st /\ by_topic st' = by_topic st /\ bytes st' = bytes st
  /\ dirty st' = dirty st ∪ list_to_set ids /\ removed st' = removed st.
Proof.
  revert st. induction ids as [|i ids IH]; intros st; cbn zeta; cbn [fold_left].
  - split; [intros id; by rewrite decide_False by apply not_elem_of_nil|]. repeat split. set_solver.
  - destruct (IH (touch c i st)) as (Hm & -> & -> & -> & Hd & ->). split; [|rewrite Hd; simpl; repeat split; set_solver].
    intros id. rewrite Hm.
    assert (forall x, msgs (touch c i st) !! x = if decide (x = i) then mark_delivered c <$> (msgs st !! x) else msgs st !! x) as Ht.
    { intros x. unfold touch. simpl. destruct (msgs st !! i) as [m|] eqn:Hi.
      - rewrite lookup_insert. case_decide; case_decide; subst; try done. by rewrite Hi.
      - case_decide; [subst; by rewrite Hi | done]. }
    rewrite Ht.
    destruct (decide (id = i)) as [->|Hne].
    + rewrite (decide_True (P := i ∈ i :: ids)) by left. destruct (msgs st !! i); simpl; case_decide; try done.
      by rewrite mark_delivered_twice.
    + by rewrite (decide_ext (id ∈ i :: ids) (id ∈ ids)) by (rewrite elem_of_cons; naive_solver).
Qed.

Lemma total_size_ext (ms ms' : gmap Z StoredMsg) :
  (forall id, approx_size <$> (ms !! id) = approx_size <$> (ms' !! id)) -> total_size ms = total_size ms'.
Proof.
  revert ms'. induction ms as [|i m ms Hi IH] using map_ind; intros ms' He.
  - assert (ms' = ∅) as ->; [|done]. apply map_empty. intros id. specialize (He id).
    rewrite lookup_empty in He. by destruct (ms' !! id).
  - pose proof (He i) as Hei. rewrite lookup_insert_eq in Hei.
    destruct (ms' !! i) as [m'|] eqn:Hi'; [|done]. simpl in Hei. injection Hei as Hs.
    rewrite total_size_insert, (total_size_delete i m' ms') by done.
    rewrite (IH (delete i ms')); [lia|].
    intros id. destruct (decide (id = i)) as [->|Hne]; [by rewrite lookup_delete_eq, Hi|].
    specialize (He id). rewrite lookup_insert_ne in He by done. by rewrite lookup_delete_ne.
Qed.

Lemma touch_all_ok c ids st :
  mem_ok st -> (forall id, id ∈ ids -> is_Some (msgs st !! id)) ->
  mem_ok (fold_left (fun st id => touch c id st) ids st).
Proof.
  intros [Hnd Ho Hb Hi Hn Hd Hr] Hids.
  destruct (touch_all c ids st) as (Hm & Ho' & Hi' & Hb' & Hd' & Hr').
  assert (forall id, approx_size <$> (msgs (fold_left (fun st id => touch c id st) ids st) !! id)
                     = approx_size <$> (msgs st !! id)) as Hsz.
  { intros id. rewrite Hm. case_decide; [|done]. by destruct (msgs st !! id). }
  constructor.
  - by rewrite Ho'.
  - intros id. rewrite Ho', Ho, Hm. case_decide; [by rewrite fmap_is_Some | done].
  - rewrite Hb', Hb. symmetry. by apply total_size_ext.
  - intros id m. unfold indexed in *. rewrite Hi', Hm. case_decide; [|apply Hi].
    destruct (msgs st !! id) as [m0|] eqn:Hm0; [|done]. intros [= <-]. by apply (Hi id m0).
  - intros t x. rewrite Hi'. apply Hn.
  - intros id Hid. rewrite Hm. rewrite Hd' in Hid.
    assert (is_Some (msgs st !! id)) as Hs by (apply elem_of_union in Hid as [?|?%elem_of_list_to_set]; eauto).
    case_decide; [by rewrite fmap_is_Some | done].
  - intros id Hid. rewrite Hm. rewrite Hr' in Hid. rewrite (Hr id Hid). by case_decide.
Qed.

Lemma touch_all_wf c ids st :
  wf st -> (forall id, id ∈ ids -> is_Some (msgs st !! id)) ->
  wf (fold_left (fun st id => touch c id st) ids st).
Proof.
  intros [Hok Hi] Hids. split; [by apply touch_all_ok|].
  destruct (touch_all c ids st) as (Hm & _ & Hi' & _). unfold indexed in *.
  intros t id. rewrite Hi', Hi, Hm. case_decide; [|done].
  destruct (msgs st !! id); simpl; [|naive_solver]. split; intros (m & [= <-] & Ht); eauto.
Qed.

(** *** Marks *)

(** A client has already been sent the message, if it is still there. *)
Definition delivered (c : string) (id : Z) (st : MemState) : Prop :=
  forall m, msgs st !! id = Some m -> c ∈ delivered_to m.

Lemma evict_delivered c id now mm mb st : mem_ok st -> delivered c id st -> delivered c id (evict now mm mb st).
Proof.
  intros Hwf Hd m. destruct (evict_ok now mm mb st Hwf) as (_ & _ & gone & (_ & Hm & _) & _).
  rewrite Hm. case_decide; [done|]. apply Hd.
Qed.

Lemma get_mem_delivered c id now c' tf st : delivered c id st -> delivered c id (snd (get_mem now c' tf st)).
Proof.
  intros Hd m. unfold get_mem. cbn [snd]. destruct (touch_all c' (map (fun x => fst (fst x))
    (omap (deliverable now c' st) (candidates tf st))) st) as (Hm & _). rewrite Hm.
  case_decide; [|apply Hd]. destruct (msgs st !! id) as [m'|] eqn:Hm'; [|done].
  intros [= <-]. simpl. specialize (Hd m' Hm'). set_solver.
Qed.

Lemma get_mem_marks now c tf st x :
  x ∈ fst (get_mem now c tf st) -> delivered c (fst (fst x)) (snd (get_mem now c tf st)).
Proof.
  intros Hx m. unfold get_mem. cbn [snd]. destruct (touch_all c (map (fun x => fst (fst x))
    (omap (deliverable now c st) (candidates tf st))) st) as (Hm & _). rewrite Hm.
  rewrite decide_True by (apply list_elem_of_fmap; by exists x).
  destruct (msgs st !! fst (fst x)); [|done]. intros [= <-]. simpl. set_solver.
Qed.

(** What [get] returns is in memory and not marked, whatever the index holds. *)
Lemma get_mem_unmarked now c tf st x :
  x ∈ fst (get_mem now c tf st) -> is_Some (msgs st !! fst (fst x)) /\ ~ delivered c (fst (fst x)) st.
Proof.
  simpl. rewrite list_elem_of_omap. intros (id & _ & (m & Hm & _ & Hn & ->)%deliverable_Some). cbn.
  split; [by eauto|]. intros Hd. by apply Hn, Hd.
Qed.

(** ** Executions *)

Inductive Op : Type :=
| OpStore (now msg_id : Z) (fr : MsgFrom) (p : Publish) (expiry_interval : Z)
| OpWriter (now : Z)
| OpGet (now : Z) (client topic_filter : string)
| OpFlush (now : Z) (io : TxnFaults msg_error) (joined : bool)
| OpNextId.

Section executions.
Context {T : Type} `{KvLaws T Z Bytes}.
Context (bincode_encode : StoredMsg -> result string Bytes).
Context (bincode_decode : Bytes -> result string StoredMsg).

Definition step (o : Op) (s : MessageStore T) : MessageStore T :=
  match o with
  | OpStore now msg_id fr p exp => store now msg_id fr p exp s
  | OpWriter now => writer_step now s
  | OpGet now client tf => snd (get now client tf s)
  | OpFlush now io joined => flush bincode_encode now io joined s
  | OpNextId => snd (next_msg_id s)
  end.

Definition run (os : list Op) (s : MessageStore T) : MessageStore T :=
  fold_left (fun s o => step o s) os s.

(** The next message of the channel fits in memory. *)
Definition op_fits (o : Op) (s : MessageStore T) : Prop :=
  match o, channel s with
  | OpWriter _, (key, msg) :: _ => total_size (<[key := msg]> (msgs (state s))) <= usize_max
  | _, _ => True
  end.

(** If it replaces a message with its id, it has the same topic. *)
Definition op_same_topic (o : Op) (s : MessageStore T) : Prop :=
  match o, channel s with
  | OpWriter _, (key, msg) :: _ =>
      forall old, msgs (state s) !! key = Some old -> topic (publish old) = topic (publish msg)
  | _, _ => True
  end.

(** [P] holds of every step. *)
Fixpoint always (P : Op -> MessageStore T -> Prop) (os : list Op) (s : MessageStore T) : Prop :=
  match os with
  | [] => True
  | o :: os' => P o s /\ always P os' (step o s)
  end.

Lemma get_state now c tf (s : MessageStore T) :
  state (snd (get now c tf s))
  = snd (get_mem now c tf (evict now (max_msgs s) (max_bytes s) (state s)))
  /\ disk (snd (get now c tf s)) = disk s.
Proof. done. Qed.

Lemma get_mem_touched now c tf st id :
  id ∈ map (fun x => fst (fst x)) (fst (get_mem now c tf st)) -> is_Some (msgs st !! id).
Proof.
  intros (x & -> & [Hs _]%get_mem_unmarked)%list_elem_of_fmap. done.
Qed.

Lemma flush_state now io joined (s : MessageStore T) :
  let st := evict now (max_msgs s) (max_bytes s) (state s) in
  state (flush bincode_encode now io joined s)
  = mkMem (msgs st) (order st) (by_topic st) (bytes st) ∅ ∅.
Proof.
  unfold flush. destruct (flush_batch _ _), (elements (removed _)), joined; try done;
    by destruct (write_txn _ _ _).
Qed.

Lemma step_mem_ok o s : mem_ok (state s) -> op_fits o s -> mem_ok (state (step o s)).
Proof.
  intros Hwf Hok. destruct o as [now mid fr p ex|now|now c tf|now io joined|]; cbn [step]; [done|..|done].
  - unfold writer_step, op_fits in *. destruct (channel s) as [|[key msg] rest]; [done|]. simpl.
    by apply evict_ok, add_msg_ok.
  - rewrite (proj1 (get_state now c tf s)).
    destruct (evict_ok now (max_msgs s) (max_bytes s) _ Hwf) as [Hwf' _].
    apply touch_all_ok; [done|]. intros id Hid. by apply (get_mem_touched now c tf).
  - rewrite flush_state. destruct (evict_ok now (max_msgs s) (max_bytes s) _ Hwf) as [[Hnd Ho Hb Hi Hn Hd Hr] _].
    constructor; simpl; try done; set_solver.
Qed.

Lemma step_wf o s : wf (state s) -> op_fits o s -> op_same_topic o s -> wf (state (step o s)).
Proof.
  intros Hwf Hfit Hsame. destruct o as [now mid fr p ex|now|now c tf|now io joined|]; cbn [step]; [done|..|done].
  - unfold writer_step, op_fits, op_same_topic in *. destruct (channel s) as [|[key msg] rest]; [done|]. simpl.
    by apply evict_wf, add_msg_wf.
  - rewrite (proj1 (get_state now c tf s)).
    apply touch_all_wf; [by apply evict_wf|]. intros id Hid. by apply (get_mem_touched now c tf).
  - split; [apply (step_mem_ok (OpFlush now io joined) s (wf_mem _ Hwf) I)|]. rewrite flush_state.
    by destruct (evict_wf now (max_msgs s) (max_bytes s) _ Hwf) as [_ Hi].
Qed.

Lemma run_mem_ok os s : mem_ok (state s) -> always op_fits os s -> mem_ok (state (run os s)).
Proof.
  revert s. induction os as [|o os IH]; intros s Hwf Hok; [done|]. destruct Hok as [Ho Hos].
  apply IH; [by apply step_mem_ok | done].
Qed.

Lemma run_wf os s :
  wf (state s) -> always op_fits os s -> always op_same_topic os s -> wf (state (run os s)).
Proof.
  revert s. induction os as [|o os IH]; intros s Hwf Hok Hsame; [done|]. destruct Hok as [Ho Hos], Hsame as [Hs Hss].
  apply IH; [by apply step_wf | done | done].
Qed.

(** ** Lemmas: delivery *)

(** No step writes the message again. *)
Definition rewrites (id : Z) (o : Op) (s : MessageStore T) : Prop :=
  match o, channel s with
  | OpWriter _, (key, _) :: _ => key = id
  | _, _ => False
  end.

Definition never_rewrites (id : Z) : list Op -> MessageStore T -> Prop := always (fun o s => ~ rewrites id o s).

Lemma step_delivered c id o s :
  mem_ok (state s) -> op_fits o s -> ~ rewrites id o s -> delivered c id (state s) -> delivered c id (state (step o s)).
Proof.
  intros Hwf Hfit Hno Hd. destruct o as [now mid fr p ex|now|now c' tf|now io joined|]; cbn [step]; [done|..|done].
  - unfold writer_step, rewrites, op_fits in *. destruct (channel s) as [|[key msg] rest]; [done|]. simpl in *.
    apply evict_delivered; [by apply add_msg_ok|]. intros m. rewrite add_msg_msgs, lookup_insert_ne by done. apply Hd.
  - rewrite (proj1 (get_state now c' tf s)). by apply get_mem_delivered, evict_delivered.
  - rewrite flush_state. by apply evict_delivered.
Qed.

Lemma run_delivered c id os s :
  mem_ok (state s) -> always op_fits os s -> never_rewrites id os s -> delivered c id (state s) ->
  delivered c id (state (run os s)).
Proof.
  revert s. induction os as [|o os IH]; intros s Hwf Hok Hno Hd; [done|].
  destruct Hok as [Ho Hok], Hno as [Hn Hno].
  apply IH; [by apply step_mem_ok | done | done | by apply step_delivered].
Qed.

Lemma delivered_not_out now c tf id (s : MessageStore T) x :
  mem_ok (state s) -> delivered c id (state s) -> x ∈ fst (get now c tf s) -> fst (fst x) <> id.
Proof.
  intros Hwf Hd Hx <-. apply (get_mem_unmarked now c tf (evict now (max_msgs s) (max_bytes s) (state s))) in Hx as [_ Hn].
  by apply Hn, evict_delivered.
Qed.

(** ** Lemmas: persistence *)

Local Abbreviation enc := (enc bincode_encode).
Local Abbreviation dec := (dec bincode_decode).
Local Abbreviation flush := (flush bincode_encode).
Local Abbreviation open := (open bincode_decode).

(** The database holds every clean message of the memory, and besides them only
    rows that are to be removed or were expired at [t0]. *)
Definition disk_ok (t0 : Z) (st : MemState) (d : T) : Prop :=
  (forall id m, msgs st !! id = Some m -> id ∉ dirty st -> exists b, kv_get d id = Some b /\ dec b = Ok m)
  /\ (forall id b, kv_get d id = Some b ->
        is_Some (msgs st !! id) \/ id ∈ removed st \/ (forall m, dec b = Ok m -> expiry_at m <= t0)).

Lemma evict_disk t0 now mm mb st d : mem_ok st -> disk_ok t0 st d -> disk_ok t0 (evict now mm mb st) d.
Proof.
  intros Hwf [H1 H2]. destruct (evict_ok now mm mb st Hwf) as (_ & _ & gone & (_ & Hm & Hd & Hr) & _).
  split.
  - intros id m. rewrite Hm, Hd. case_decide; [done|]. intros Hid Hnd. apply H1; [done|]. set_solver.
  - intros id b Hb. rewrite Hm, Hr. destruct (H2 id b Hb) as [Hs|[Hs|Hs]]; [|right; left; set_solver|by right; right].
    case_decide; [right; left; set_solver | by left].
Qed.

Lemma add_msg_disk t0 key msg st d : disk_ok t0 st d -> disk_ok t0 (add_msg key msg st) d.
Proof.
  intros [H1 H2]. unfold disk_ok.
  assert (msgs (add_msg key msg st) = <[key := msg]> (msgs st)
    /\ dirty (add_msg key msg st) = dirty st ∪ {[key]}
    /\ removed (add_msg key msg st) = removed st ∖ {[key]}) as (-> & -> & Hr)
    by (unfold add_msg; by destruct (msgs st !! key)).
  split.
  - intros id m. rewrite lookup_insert_Some. intros [[<- _]|[Hne Hid]] Hnd; [set_solver|].
    apply H1; [done|]. set_solver.
  - intros id b Hb. rewrite lookup_insert_is_Some, Hr. destruct (decide (key = id)) as [|Hne]; [by left; left|].
    destruct (H2 id b Hb) as [Hs|[Hs|Hs]]; [left; by right | right; left; set_solver | by right; right].
Qed.

Lemma touch_all_disk t0 c ids st d :
  disk_ok t0 st d -> disk_ok t0 (fold_left (fun st id => touch c id st) ids st) d.
Proof.
  intros [H1 H2]. destruct (touch_all c ids st) as (Hm & _ & _ & _ & Hd & Hr). split.
  - intros id m. rewrite Hm, Hd. case_decide; [set_solver|]. intros Hid Hnd. apply H1; [done|]. set_solver.
  - intros id b Hb. rewrite Hm, Hr. destruct (H2 id b Hb) as [Hs|[Hs|Hs]]; [|by right; left|by right; right].
    left. case_decide; [by rewrite fmap_is_Some | done].
Qed.

Lemma remove_rows gone (d : T) id :
  kv_get (fold_left kv_remove gone d) id = if decide (id ∈ gone) then None else kv_get d id.
Proof.
  revert d. induction gone as [|g gone IH]; intros d; cbn [fold_left].
  - by rewrite decide_False by apply not_elem_of_nil.
  - rewrite IH, kv_get_remove_dec. destruct (decide (g = id)) as [->|Hne].
    + rewrite (decide_True (P := id ∈ id :: gone)) by left. by case_decide.
    + by rewrite (decide_ext (id ∈ g :: gone) (id ∈ gone)) by (rewrite elem_of_cons; naive_solver).
Qed.

(** Inserting rows that agree with a function [f] of their key. *)
Lemma insert_rows (f : Z -> option Bytes) batch (d : T) id :
  (forall row, row ∈ batch -> f (fst row) = Some (snd row)) ->
  kv_get (fold_left (fun t row => kv_insert t (fst row) (snd row)) batch d) id
  = if decide (id ∈ batch.*1) then f id else kv_get d id.
Proof.
  revert d. induction batch as [|[k b] batch IH]; intros d Hf; cbn [fold_left fmap list_fmap fst snd].
  - by rewrite decide_False by apply not_elem_of_nil.
  - rewrite IH by (intros row Hrow; apply Hf; by right). rewrite kv_get_insert_dec.
    destruct (decide (k = id)) as [->|Hne].
    + rewrite (decide_True (P := id ∈ id :: _)) by left. case_decide; [done|].
      symmetry. apply (Hf (id, b)). left.
    + by rewrite (decide_ext (id ∈ k :: batch.*1) (id ∈ batch.*1)) by (rewrite elem_of_cons; naive_solver).
Qed.

Context (bincode_roundtrip :
  forall m, exists b, bincode_encode m = Ok b /\ bincode_decode b = Ok m).

Lemma msg_enc_dec m : exists b, enc m = Ok b /\ dec b = Ok m.
Proof.
  destruct (bincode_roundtrip m) as (b & He & Hd). exists b. unfold enc, dec. by rewrite He, Hd.
Qed.

(** The row [flush] writes for an id. *)
Definition row_of (st : MemState) (id : Z) : option Bytes :=
  match msgs st !! id with Some m => ok_of (enc m) | None => None end.

Lemma flush_batch_rows st row :
  row ∈ flush_batch bincode_encode st <-> fst row ∈ dirty st /\ row_of st (fst row) = Some (snd row).
Proof.
  unfold flush_batch, row_of. rewrite list_elem_of_omap. split.
  - intros (id & Hid%elem_of_elements & Hr). destruct (msgs st !! id) as [m|] eqn:Hm; [|done].
    destruct (enc m) eqn:He; [|done]. injection Hr as <-. simpl. by rewrite Hm, He.
  - intros [Hd Hr]. exists (fst row). rewrite elem_of_elements. split; [done|].
    destruct (msgs st !! fst row) as [m|]; [|done]. destruct (enc m); [|done].
    injection Hr as ->. by destruct row.
Qed.

Lemma flush_disk_rows now (s : MessageStore T) :
  let st := evict now (max_msgs s) (max_bytes s) (state s) in
  disk (flush now no_faults true s)
  = write_rows (elements (removed st)) (flush_batch bincode_encode st) (disk s).
Proof.
  cbn zeta. unfold flush.
  destruct (flush_batch bincode_encode _) eqn:Hb, (elements (removed _)) eqn:Hr; try done.
Qed.

Lemma flush_disk t0 now s :
  mem_ok (state s) -> disk_ok t0 (state s) (disk s) ->
  disk_ok t0 (state (flush now no_faults true s)) (disk (flush now no_faults true s)).
Proof.
  intros Hwf Hd. rewrite flush_disk_rows, flush_state.
  pose proof (evict_disk t0 now (max_msgs s) (max_bytes s) _ _ Hwf Hd) as [H1 H2].
  destruct (evict_ok now (max_msgs s) (max_bytes s) _ Hwf) as (Hwf' & _ & _).
  set (st := evict now (max_msgs s) (max_bytes s) (state s)) in *.
  assert (forall id, kv_get (write_rows (elements (removed st)) (flush_batch bincode_encode st) (disk s)) id
    = if decide (id ∈ dirty st) then row_of st id
      else if decide (id ∈ removed st) then None else kv_get (disk s) id) as Hget.
  { intros id. unfold write_rows. rewrite (insert_rows (row_of st)) by (intros row Hrow; by apply flush_batch_rows).
    rewrite remove_rows, (decide_ext (id ∈ elements (removed st)) (id ∈ removed st)) by apply elem_of_elements.
    destruct (decide (id ∈ dirty st)) as [Hin|Hnin].
    - rewrite decide_True; [done|]. destruct (wf_dirty _ Hwf' id Hin) as [m Hm].
      destruct (msg_enc_dec m) as (b & He & _). apply list_elem_of_fmap. exists (id, b). split; [done|].
      apply flush_batch_rows. simpl. split; [done|]. unfold row_of. by rewrite Hm, He.
    - rewrite decide_False; [done|]. intros (row & -> & Hrow)%list_elem_of_fmap.
      by apply flush_batch_rows in Hrow as [? _]. }
  split; simpl.
  - intros id m Hm _. rewrite Hget. case_decide as Hdir.
    + destruct (msg_enc_dec m) as (b & He & Hdec). exists b. unfold row_of. by rewrite Hm, He.
    + rewrite decide_False; [by apply H1|]. intros Hr. apply (wf_removed _ Hwf') in Hr. congruence.
  - intros id b. rewrite Hget. case_decide as Hdir; [intros _; left; by apply (wf_dirty _ Hwf')|].
    case_decide as Hr; [done|]. intros Hb. destruct (H2 id b Hb) as [?|[?|?]]; [by left | done | by right; right].
Qed.

(** ** Lemmas: start-up *)

Lemma load_rows now rows (ms : gmap Z StoredMsg) id m :
  NoDup rows.*1 -> (forall k, k ∈ rows.*1 -> ms !! k = None) ->
  fold_left (load_row bincode_decode now) rows ms !! id = Some m
  <-> ms !! id = Some m \/ exists b, (id, b) ∈ rows /\ dec b = Ok m /\ now < expiry_at m.
Proof.
  revert ms. induction rows as [|[k b] rows IH]; intros ms Hnd Hms; simpl.
  { split; [by left|]. intros [?|(b & Hb & _)]; [done | by apply not_elem_of_nil in Hb]. }
  apply NoDup_cons in Hnd as [Hk Hnd]. unfold load_row at 2. simpl.
  assert (ms !! k = None) as Hmk by (apply Hms; left).
  assert (forall x y, (x, y) ∈ (k, b) :: rows <-> (x = k /\ y = b) \/ (x, y) ∈ rows) as Hcons
    by (intros; rewrite elem_of_cons; naive_solver).
  destruct (dec b) as [msg|e] eqn:Hdec; [destruct (Z.ltb_spec now (expiry_at msg)) as [Hlt|Hge]|].
  - rewrite IH; [|done|].
    + setoid_rewrite Hcons. rewrite lookup_insert_Some. split.
      * intros [[[<- <-]|[Hne Hid]]|(b' & Hb' & ?)]; [right | by left | right]; eauto 8.
      * intros [Hid|(b' & [[-> ->]|Hb'] & Hd & He)]; [| |right; by eauto].
        -- left. right. split; [|done]. intros ->. congruence.
        -- left. left. split; [done|]. congruence.
    + intros x Hx. rewrite lookup_insert_ne; [apply Hms; by right|]. by intros ->.
  - rewrite IH; [|done|intros x Hx; apply Hms; by right]. setoid_rewrite Hcons. split; [naive_solver|].
    intros [Hid|(b' & [[-> ->]|Hb'] & Hd & He)]; [by left | | right; by eauto].
    rewrite Hdec in Hd. injection Hd as ->. lia.
  - rewrite IH; [|done|intros x Hx; apply Hms; by right]. setoid_rewrite Hcons. split; [naive_solver|].
    intros [Hid|(b' & [[-> ->]|Hb'] & Hd & He)]; [by left | congruence | right; by eauto].
Qed.

Lemma loaded now (d : T) id m :
  fold_left (load_row bincode_decode now) (kv_iter d) ∅ !! id = Some m
  <-> exists b, kv_get d id = Some b /\ dec b = Ok m /\ now < expiry_at m.
Proof.
  rewrite load_rows; [|apply kv_iter_nodup | intros k _; apply lookup_empty].
  rewrite lookup_empty. setoid_rewrite kv_iter_elem. naive_solver.
Qed.

#[local] Instance pair_le_total : Total pair_le.
Proof. intros a b. unfold pair_le. lia. Qed.

Lemma load_order (ms : gmap Z StoredMsg) :
  map snd (merge_sort pair_le (map (fun '(id, m) => (expiry_at m, id)) (map_to_list ms)))
  ≡ₚ (map_to_list ms).*1.
Proof.
  rewrite merge_sort_Permutation, map_map.
  apply Permutation_refl', map_ext. by intros [id m].
Qed.

Lemma open_spec now node env (d : T) s :
  open now node env no_faults d = Ok s ->
  wf (state s) /\ disk s = d /\ node_id s = node
  /\ counter s = fold_left (fun start row => next_start node start (fst row)) (kv_iter d) 0
  /\ (forall id m, msgs (state s) !! id = Some m
        <-> exists b, kv_get d id = Some b /\ dec b = Ok m /\ now < expiry_at m).
Proof.
  intros [= <-]. cbn [state disk node_id counter msgs]. split; [|split; [done|split; [done|split; [done|]]]].
  - split; [|apply index_topics_elem].
    constructor; simpl; try done; [| |intros id m Hm; apply index_topics_elem; by eauto|apply index_topics_nonempty|set_solver..].
    + rewrite load_order. apply NoDup_fst_map_to_list.
    + intros id. rewrite load_order, list_elem_of_fmap. split.
      * intros ([k m] & -> & Hk%elem_of_map_to_list). eauto.
      * intros [m Hm]. exists (id, m). by rewrite elem_of_map_to_list.
  - intros id m. apply loaded.
Qed.

Lemma next_start_fold node rows start id :
  start <= fold_left (fun start row => next_start node start (fst row)) rows start
  /\ (id ∈ (rows : list (Z * Bytes)).*1 -> Z.shiftr id 48 = node ->
      Z.land id COUNTER_MASK < fold_left (fun start row => next_start node start (fst row)) rows start).
Proof.
  revert start. induction rows as [|[k b] rows IH]; intros start; cbn [fold_left fmap list_fmap fst].
  - split; [lia|]. by intros ?%not_elem_of_nil.
  - destruct (IH (next_start node start k)) as [Hle Hlt].
    assert (start <= next_start node start k) as Hs.
    { unfold next_start. destruct (_ =? _); [|lia]. destruct (Z.ltb_spec start (Z.land k COUNTER_MASK + 1)); lia. }
    split; [lia|]. rewrite elem_of_cons. intros [->|Hin] Hnode; [|by apply Hlt].
    assert (Z.land k COUNTER_MASK < next_start node start k) as Hk; [|lia].
    unfold next_start. rewrite Hnode, Z.eqb_refl.
    destruct (Z.ltb_spec start (Z.land k COUNTER_MASK + 1)); lia.
Qed.

(** A flush that does not fail. *)
Definition clean_flush (o : Op) : Prop :=
  match o with OpFlush _ io joined => io = no_faults /\ joined = true | _ => True end.

Lemma open_disk now node env (d : T) s :
  open now node env no_faults d = Ok s -> wf (state s) /\ disk_ok now (state s) (disk s).
Proof.
  intros Ho. destruct (open_spec _ _ _ _ _ Ho) as (Hwf & -> & _ & _ & Hm). split; [done|]. split.
  - intros id m Hid _. apply Hm in Hid as (b & ? & ? & _). eauto.
  - intros id b Hb. destruct (dec b) as [m|e] eqn:Hd.
    + destruct (Z.lt_ge_cases now (expiry_at m)) as [Hlt|Hge].
      * left. exists m. apply Hm. eauto.
      * right. right. intros m' [= <-]. done.
    + by right; right.
Qed.

Lemma step_disk t0 o s :
  mem_ok (state s) -> op_fits o s -> clean_flush o -> disk_ok t0 (state s) (disk s) ->
  disk_ok t0 (state (step o s)) (disk (step o s)).
Proof.
  intros Hwf Hok Hc Hd. destruct o as [now mid fr p ex|now|now c tf|now io joined|]; cbn [step]; [done|..|done].
  - unfold writer_step, op_fits in *. destruct (channel s) as [|[key msg] rest]; [done|]. simpl.
    apply evict_disk; [by apply add_msg_ok | by apply add_msg_disk].
  - destruct (get_state now c tf s) as [-> ->]. by apply touch_all_disk, evict_disk.
  - destruct Hc as [-> ->]. by apply flush_disk.
Qed.

Lemma run_disk t0 os s :
  mem_ok (state s) -> always op_fits os s -> Forall clean_flush os -> disk_ok t0 (state s) (disk s) ->
  disk_ok t0 (state (run os s)) (disk (run os s)).
Proof.
  intros Hwf Hok Hc. revert s Hwf Hok. induction Hc as [|o os Ho Hos IH]; intros s Hwf Hok Hd; [done|].
  destruct Hok as [Hok1 Hok]. apply IH; [by apply step_mem_ok | done | by apply step_disk].
Qed.

(** One more flush, and the database is opened again. *)
Lemma reopened t0 now now' node' env' (s : MessageStore T) :
  mem_ok (state s) -> disk_ok t0 (state s) (disk s) -> t0 <= now' ->
  exists s', open now' node' env' no_faults (disk (flush now no_faults true s)) = Ok s'
    /\ wf (state s') /\ channel s' = []
    /\ msgs (state s') = filter (fun kv => now' < expiry_at (snd kv)) (msgs (state (flush now no_faults true s))).
Proof.
  intros Hwf Hd Ht. pose proof (flush_disk t0 now _ Hwf Hd) as [H1 H2].
  destruct (open now' node' env' no_faults (disk (flush now no_faults true s))) as [s'|e] eqn:Ho; [|done].
  exists s'. split; [done|]. destruct (open_spec _ _ _ _ _ Ho) as (Hwf' & _ & _ & _ & Hm). split; [done|].
  split; [by injection Ho as <-|].
  apply map_eq. intros id. apply option_eq. intros m. rewrite Hm, map_lookup_filter_Some. simpl.
  rewrite flush_state in *. cbn [msgs dirty removed] in *. split.
  - intros (b & Hb & Hdec & He). split; [|done]. destruct (H2 id b Hb) as [[m' Hm']|[Hr|Hold]]; [|set_solver|].
    + destruct (H1 id m' Hm') as (b' & Hb' & Hdec'); [set_solver|]. congruence.
    + specialize (Hold m Hdec). lia.
  - intros [Hid He]. destruct (H1 id m Hid) as (b & Hb & Hdec); [set_solver|]. eauto.
Qed.

(** ** Restarts *)

(** A step of the running store, or an orderly restart: a flush at [now], and the
    database opened again at [now'] (which does not fail, by [reopened]). What
    the channel held is lost. *)
Inductive Life : Type :=
| Live (o : Op)
| Restart (now now' node : Z) (env : string -> option string).

Definition life_step (e : Life) (s : MessageStore T) : MessageStore T :=
  match e with
  | Live o => step o s
  | Restart now now' node env =>
      match open now' node env no_faults (disk (flush now no_faults true s)) with
      | Ok s' => s'
      | Err _ => s
      end
  end.

Definition life (es : list Life) (s : MessageStore T) : MessageStore T :=
  fold_left (fun s e => life_step e s) es s.

Definition is_restart (e : Life) : bool := match e with Restart _ _ _ _ => true | Live _ => false end.

Definition restarts (es : list Life) : Prop := existsb is_restart es = true.

(** The sizes fit, [P] holds of every step, a flush before a restart succeeds,
    and no restart reads a clock before the last opening, at [t0]. *)
Fixpoint orderly (P : Op -> MessageStore T -> Prop) (t0 : Z) (es : list Life) (s : MessageStore T) : Prop :=
  match es with
  | [] => True
  | e :: es' =>
      match e with
      | Live o => op_fits o s /\ P o s /\ (restarts es' -> clean_flush o) /\ orderly P t0 es' (life_step e s)
      | Restart _ now' _ _ => t0 <= now' /\ orderly P now' es' (life_step e s)
      end
  end.

Lemma restart_delivered t0 c id now now' node env (s : MessageStore T) :
  mem_ok (state s) -> disk_ok t0 (state s) (disk s) -> t0 <= now' -> delivered c id (state s) ->
  let s' := life_step (Restart now now' node env) s in
  mem_ok (state s') /\ disk_ok now' (state s') (disk s') /\ delivered c id (state s').
Proof.
  intros Hok Hd Ht Hdel. cbn [life_step].
  destruct (reopened t0 now now' node env s Hok Hd Ht) as (s' & Ho & Hwf & _ & Hm). rewrite Ho. cbn zeta.
  destruct (open_disk _ _ _ _ _ Ho) as [_ Hd']. split; [apply Hwf|]. split; [done|].
  intros m. rewrite Hm, map_lookup_filter_Some. intros [Hmem _]. revert m Hmem. fold (delivered c id (state (flush now no_faults true s))).
  rewrite flush_state. by apply (evict_delivered c id).
Qed.

Lemma life_delivered t0 c id es (s : MessageStore T) :
  mem_ok (state s) -> (restarts es -> disk_ok t0 (state s) (disk s)) ->
  orderly (fun o s => ~ rewrites id o s) t0 es s -> delivered c id (state s) ->
  mem_ok (state (life es s)) /\ delivered c id (state (life es s)).
Proof.
  revert t0 s. induction es as [|[o|now now' node env] es IH]; intros t0 s Hok Hd Hes Hdel; [done| |].
  - destruct Hes as (Hfit & Hno & Hc & Hes). apply (IH t0); [by apply step_mem_ok| |done|by apply step_delivered].
    intros Hr. apply step_disk; [done|done|by apply Hc|by apply Hd].
  - destruct Hes as [Ht Hes]. destruct (restart_delivered t0 c id now now' node env s) as (H1 & H2 & H3); [done|by apply Hd|done|done|].
    by apply (IH now').
Qed.

(** ** Lemmas: message ids *)

Lemma counter_mask_mod c : Z.land c COUNTER_MASK = c mod 2 ^ 48.
Proof. change COUNTER_MASK with (Z.ones 48). by rewrite Z.land_ones. Qed.

(** The id is the node in the upper 16 bits and the counter in the lower 48. *)
Lemma next_msg_id_value (s : MessageStore T) :
  0 <= node_id s < 2 ^ 16 ->
  fst (next_msg_id s) = node_id s * 2 ^ 48 + counter s mod 2 ^ 48.
Proof.
  intros Hn. simpl. rewrite counter_mask_mod, Z.shiftl_mul_pow2 by lia.
  unfold wrap_u64, u64_modulus. rewrite Z.mod_small by lia.
  pose proof (Z.mod_pos_bound (counter s) (2 ^ 48) ltac:(lia)) as Hb.
  assert (Z.land (node_id s * 2 ^ 48) (counter s mod 2 ^ 48) = 0) as Hz.
  { apply Z.bits_inj'. intros i Hi. rewrite Z.land_spec, Z.bits_0. destruct (Z.ltb_spec i 48).
    - by rewrite Z.mul_pow2_bits_low.
    - rewrite (Z.mod_pow2_bits_high (counter s) 48) by lia. apply andb_false_r. }
  pose proof (Z.add_lor_land (node_id s * 2 ^ 48) (counter s mod 2 ^ 48)). lia.
Qed.

Lemma id_parts n c :
  0 <= n -> 0 <= c < 2 ^ 48 ->
  Z.shiftr (n * 2 ^ 48 + c) 48 = n /\ Z.land (n * 2 ^ 48 + c) COUNTER_MASK = c.
Proof.
  intros Hn Hc. rewrite counter_mask_mod, Z.shiftr_div_pow2 by lia. split.
  - rewrite Z.div_add_l, Z.div_small by lia. lia.
  - rewrite Z.add_comm, Z.mod_add by lia. apply Z.mod_small. lia.
Qed.

(** The [k]-th id handed out from [s]. *)
Fixpoint nth_id (k : nat) (s : MessageStore T) : Z :=
  match k with
  | O => fst (next_msg_id s)
  | S k' => nth_id k' (snd (next_msg_id s))
  end.

Lemma nth_id_value k (s : MessageStore T) :
  0 <= node_id s < 2 ^ 16 ->
  nth_id k s = node_id s * 2 ^ 48 + (counter s + Z.of_nat k) mod 2 ^ 48.
Proof.
  revert s. induction k as [|k IH]; intros s Hn; cbn [nth_id].
  - rewrite next_msg_id_value by done. by rewrite Z.add_0_r.
  - rewrite IH by done. simpl. f_equal. unfold wrap_u64, u64_modulus.
    rewrite <- Z.add_mod_idemp_l, Z.mod_mod_divide by (try lia; by exists (2 ^ 16)).
    rewrite Z.add_mod_idemp_l by lia. f_equal. lia.
Qed.

(** ** Lemmas: a message on its way *)

(** A message that was sent to the writer, once it is written and as long as it
    is neither evicted nor expired, is there for every client. *)
Lemma stored_kept now t1 t2 i fr p e client tf (s : MessageStore T) :
  let msg := mkMsg fr p (i64_sat_add now (as_i64 e)) ∅ in
  let s2 := writer_step t1 (store now i fr p e s) in
  channel s = [] -> wf (state s) -> msgs (state s) !! i = None ->
  total_size (msgs (state s)) + approx_size msg <= usize_max -> t2 < expiry_at msg ->
  msgs (evict t2 (max_msgs s2) (max_bytes s2) (state s2)) !! i <> None ->
  topic_matches (topic p) tf = true ->
  (i, fr, p) ∈ fst (get t2 client tf s2).
Proof.
  intros msg s2 Hch Hwf Hnone Hfit Ht Hkept Hm.
  assert (wf (add_msg i msg (state s))) as Hwf1.
  { apply add_msg_wf; [done| |by rewrite Hnone]. rewrite total_size_insert by done. fold msg. lia. }
  assert (state s2 = write_msg t1 (max_msgs s) (max_bytes s) i msg (state s)) as Hs2
    by (unfold s2, writer_step, store; cbn; by rewrite Hch).
  destruct (evict_spec t1 (max_msgs s) (max_bytes s) _ Hwf1) as (Hwf2 & _ & gone1 & (_ & Hg1 & _) & _).
  fold (write_msg t1 (max_msgs s) (max_bytes s) i msg (state s)) in Hwf2, Hg1. rewrite <- Hs2 in Hwf2, Hg1.
  destruct (evict_spec t2 (max_msgs s2) (max_bytes s2) _ Hwf2) as (Hwf3 & _ & gone2 & (_ & Hg2 & _) & _).
  unfold get. pose proof (get_mem_out t2 client tf _ (i, fr, p) Hwf3) as Hout.
  destruct (get_mem t2 client tf _) as [out st']. cbn [fst] in *. apply Hout. exists msg. cbn [fst].
  assert (msgs (evict t2 (max_msgs s2) (max_bytes s2) (state s2)) !! i = Some msg) as Hmsg.
  { rewrite Hg2 in Hkept |- *. case_decide; [done|]. rewrite Hg1 in Hkept |- *. case_decide; [done|].
    unfold add_msg in *. destruct (msgs (state s) !! i) eqn:E; cbn; by rewrite lookup_insert_eq. }
  by repeat split.
Qed.

(** ** Theorems *)

(** C18: the memory of the store stays consistent in every execution in which
    the sizes fit the byte counter: the eviction queue lists every message once,
    the byte count is the sum of the message sizes, every message is found under
    its topic, changed messages are in memory and removed ones are not. If
    besides no message replaces one of another topic under the same id, nothing
    else is found under a topic. *)
Theorem store_invariant os s :
  wf (state s) -> always op_fits os s ->
  mem_ok (state (run os s)) /\ (always op_same_topic os s -> wf (state (run os s))).
Proof. intros Hwf Hfit. split; [by apply run_mem_ok; [apply wf_mem|] | by apply run_wf]. Qed.

(** C22: eviction enforces the configured bounds on the number of messages and
    on bytes, drops messages in queue order only, and when the bounds are not
    exceeded drops only expired ones. *)
Theorem evict_bounds now mm mb st :
  wf st ->
  within_caps mm mb (evict now mm mb st)
  /\ exists gone, evicted gone st (evict now mm mb st)
     /\ (within_caps mm mb st -> forall id m, id ∈ gone -> msgs st !! id = Some m -> expiry_at m <= now).
Proof.
  intros Hwf. destruct (evict_spec now mm mb st Hwf) as (_ & Hcaps & gone & Hgone & Hexp).
  split; [done|]. exists gone. split; [done|]. intros Hw id m Hin Hm.
  apply over_cap_within, Hexp in Hw. rewrite Forall_forall in Hw. specialize (Hw id Hin).
  unfold expired in Hw. rewrite Hm in Hw. by apply Z.leb_le.
Qed.

(** C21: [get] returns, each once, exactly the messages kept after eviction that
    are not expired, match the filter and were not delivered to the client
    before. *)
Theorem get_returns_pending now c tf (s : MessageStore T) :
  wf (state s) ->
  let st := evict now (max_msgs s) (max_bytes s) (state s) in
  NoDup (map (fun x => fst (fst x)) (fst (get now c tf s)))
  /\ forall x, x ∈ fst (get now c tf s) <-> pending now c tf st x.
Proof.
  intros Hwf st. destruct (evict_spec now (max_msgs s) (max_bytes s) _ Hwf) as [Hwf' _].
  split; [by apply omap_fst_nodup, candidates_nodup | intros x; by apply get_mem_out].
Qed.

(** C20: at most once. A message returned to a client is never returned to it
    again, also across restarts, in any execution that does not store a message
    under its id anew, in which the sizes fit the byte counter, the flushes
    before a restart succeed and every restart is orderly: a flush, and the
    database opened at a time not before the last opening. If there is a
    restart, the database has to agree with the memory at the beginning
    ([disk_ok]), as it does after opening ([open_disk]) and as long as flushes
    succeed ([run_disk]). *)
Theorem get_at_most_once t0 now c tf (s : MessageStore T) x es now' tf' :
  mem_ok (state s) -> (restarts es -> disk_ok t0 (state s) (disk s)) -> x ∈ fst (get now c tf s) ->
  orderly (fun o s => ~ rewrites (fst (fst x)) o s) t0 es (snd (get now c tf s)) ->
  forall y, y ∈ fst (get now' c tf' (life es (snd (get now c tf s)))) -> fst (fst y) <> fst (fst x).
Proof.
  intros Hok Hd Hx Hes y Hy.
  refine (delivered_not_out now' c tf' _ _ y _ _ Hy); eapply (life_delivered t0 c (fst (fst x)) es); try done;
    first [ by apply (step_mem_ok (OpGet now c tf)) | intros Hr; by apply (step_disk t0 (OpGet now c tf)); [..|apply Hd]
          | apply (get_mem_marks now c tf (evict now (max_msgs s) (max_bytes s) (state s))), Hx ].
Qed.

(** C19: persistence. From the opening of the store, after any execution whose
    flushes all succeed and in which the sizes fit the byte counter, one more
    flush and reopening the database at any later time restores exactly the
    messages of the memory that are not expired by then. *)
Theorem flush_open_roundtrip t0 now now' node node' env env' (d : T) s os :
  open t0 node env no_faults d = Ok s -> always op_fits os s -> Forall clean_flush os -> t0 <= now' ->
  exists s', open now' node' env' no_faults (disk (flush now no_faults true (run os s))) = Ok s'
    /\ wf (state s')
    /\ msgs (state s') = filter (fun kv => now' < expiry_at (snd kv))
                           (msgs (state (flush now no_faults true (run os s)))).
Proof.
  intros Hs Hok Hc Ht. destruct (open_disk _ _ _ _ _ Hs) as [[Hwf0 _] Hd0].
  destruct (reopened t0 now now' node' env' (run os s)) as (s' & Ho & Hwf & _ & Hm); [by apply run_mem_ok|by apply run_disk|done|].
  by eauto.
Qed.

(** C38: message ids, for node ids below 2^16. The ids a node hands out are
    pairwise distinct for 2^48 calls, those of different nodes differ, and the id of a call made after a
    restart differs from every id in the database. *)
Theorem msg_ids_unique (s s' : MessageStore T) j k now env (d : T) :
  0 <= node_id s < 2 ^ 16 -> 0 <= node_id s' < 2 ^ 16 ->
  (nth_id j s = nth_id k s' -> node_id s = node_id s')
  /\ (nth_id j s = nth_id k s -> Z.of_nat j < 2 ^ 48 -> Z.of_nat k < 2 ^ 48 -> j = k)
  /\ (open now (node_id s) env no_faults d = Ok s -> counter s + Z.of_nat k < 2 ^ 48 ->
      kv_get d (nth_id k s) = None).
Proof.
  intros Hn Hn'. rewrite !nth_id_value by done.
  pose proof (Z.mod_pos_bound (counter s + Z.of_nat j) (2 ^ 48) ltac:(lia)).
  pose proof (Z.mod_pos_bound (counter s' + Z.of_nat k) (2 ^ 48) ltac:(lia)).
  pose proof (Z.mod_pos_bound (counter s + Z.of_nat k) (2 ^ 48) ltac:(lia)) as Hb.
  split; [lia|]. split.
  - intros He Hj Hk.
    pose proof (Z.div_mod (counter s + Z.of_nat j) (2 ^ 48) ltac:(lia)).
    pose proof (Z.div_mod (counter s + Z.of_nat k) (2 ^ 48) ltac:(lia)).
    assert ((counter s + Z.of_nat j) / 2 ^ 48 = (counter s + Z.of_nat k) / 2 ^ 48
      \/ (counter s + Z.of_nat j) / 2 ^ 48 + 1 <= (counter s + Z.of_nat k) / 2 ^ 48
      \/ (counter s + Z.of_nat k) / 2 ^ 48 + 1 <= (counter s + Z.of_nat j) / 2 ^ 48) as [?|[?|?]] by lia; lia.
  - intros Ho Hk. destruct (kv_get d _) as [b|] eqn:Hget; [|done]. exfalso.
    destruct (open_spec _ _ _ _ _ Ho) as (_ & _ & _ & Hc & _).
    destruct (id_parts (node_id s) ((counter s + Z.of_nat k) mod 2 ^ 48)) as [Hs Hl]; [lia|done|].
    destruct (next_start_fold (node_id s) (kv_iter d) 0
      (node_id s * 2 ^ 48 + (counter s + Z.of_nat k) mod 2 ^ 48)) as [Hz Hlt].
    rewrite <- Hc in Hz, Hlt. rewrite Hl in Hlt.
    assert ((counter s + Z.of_nat k) mod 2 ^ 48 < counter s) as Hc'.
    { apply Hlt; [|done]. apply list_elem_of_fmap.
      exists (node_id s * 2 ^ 48 + (counter s + Z.of_nat k) mod 2 ^ 48, b).
      split; [done|]. by apply kv_iter_elem. }
    rewrite Z.mod_small in Hc' by lia. lia.
Qed.

(** a flush whose transaction fails forgets what it had to write: nothing
    is marked as changed or removed any more and the database is as before, so
    a later flush does not write these messages. *)
Theorem failed_flush_forgets now e (s : MessageStore T) :
  let s' := flush now (mkFaults None None (Some e)) true s in
  disk s' = disk s /\ dirty (state s') = ∅ /\ removed (state s') = ∅
  /\ msgs (state s') = msgs (evict now (max_msgs s) (max_bytes s) (state s)).
Proof.
  cbn zeta. rewrite flush_state. split; [|done].
  unfold flush. by destruct (flush_batch _ _), (elements (removed _)).
Qed.

End executions.

(** ** Witnesses *)

Module StoreExample.

(** A toy encoding: the message as a tuple of countable data. *)
Definition ftype_code (f : FromType) : Z :=
  match f with FromCustom => 0 | FromAdmin => 1 | FromSystem => 2 | FromLastWill => 3 | FromBridge => 4 end.

Definition ftype_of (z : Z) : FromType :=
  if z =? 0 then FromCustom else if z =? 1 then FromAdmin else if z =? 2 then FromSystem
  else if z =? 3 then FromLastWill else FromBridge.

Definition qos_of (z : Z) : QoS :=
  if z =? 0 then AtMostOnce else if z =? 1 then AtLeastOnce else ExactlyOnce.

Definition id_tuple : Type := Z * Z * option string * option string * string * option string * Z.
Definition msg_tuple : Type :=
  id_tuple * Z * (string * string * Z * bool * option Z) * (bool * option string * option Z * option Z) * Z * list string.

Definition to_tuple (m : StoredMsg) : msg_tuple :=
  let i := from_id (from m) in let p := publish m in
  ((Types.node_id i, lid i, local_addr i, remote_addr i, client_id i, username i, create_time i),
   ftype_code (typ (from m)),
   (topic p, payload p, qos_code (pub_qos p), retain p, packet_id p),
   (cp_dup (packet p), target_clientid p, delay_interval p, publish_time p), expiry_at m,
   elements (delivered_to m)).

Definition of_tuple (t : msg_tuple) : StoredMsg :=
  let '((n, l, la, ra, c, u, ct), ft, (tp, pl, q, r, pid), (dup, tgt, del, tm), ex, dl) := t in
  mkMsg (mkFrom (mkId n l la ra c u ct) (ftype_of ft)) (mkPublish (mkCodec dup r (qos_of q) tp pid pl) tgt del tm) ex
    (list_to_set dl).

Definition toy_encode (m : StoredMsg) : result string Bytes := Ok [Z.pos (encode (to_tuple m))].

Definition toy_decode (b : Bytes) : result string StoredMsg :=
  match b with
  | [Z.pos p] => match decode (A := msg_tuple) p with Some t => Ok (of_tuple t) | None => Err "bad row" end
  | _ => Err "bad row"
  end.

Lemma toy_msg_roundtrip m : exists b, toy_encode m = Ok b /\ toy_decode b = Ok m.
Proof.
  eexists. split; [done|]. unfold toy_decode. rewrite decode_encode. f_equal.
  destruct m as [[[n l la ra c u ct] ft] [[dup r q tp pid pl] tgt del tm] ex dl]. unfold to_tuple, of_tuple. simpl.
  rewrite list_to_set_elements_L. destruct ft, q; done.
Qed.

Definition sender : MsgFrom := mkFrom (Id_from 0 1 "p1") FromCustom.

Definition hello : Publish := publish_from (mkCodec false false AtLeastOnce "chat/u1" None "hello").

Definition opened : MessageStore (gmap Z Bytes) :=
  mkStore ∅ 1 0 (mkMem ∅ [] ∅ 0 ∅ ∅) 10 4096 [].

Lemma opened_wf : wf (state opened).
Proof.
  split; [|intros t id; unfold indexed; simpl; setoid_rewrite lookup_empty; naive_solver].
  constructor; simpl; [constructor| | done | | | set_solver..].
  - intros id. rewrite lookup_empty. split; [by intros ?%not_elem_of_nil | by intros [? [=]]].
  - intros id m. by rewrite lookup_empty.
  - intros t ids. by rewrite lookup_empty.
Qed.

(** One message stored and taken from the channel. *)
Definition one_message : list Op := [OpStore 1000 281474976710656 sender hello 60000; OpWriter 1001].

Definition no_encode (m : StoredMsg) : result string Bytes := Err "unused".

Lemma one_message_fits : always no_encode op_fits one_message opened.
Proof. split; [done|]. split; [vm_compute; congruence | done]. Qed.

Lemma one_message_same : always no_encode op_same_topic one_message opened.
Proof. split; [done|]. split; [|done]. intros old Hold. vm_compute in Hold. discriminate. Qed.

(** The id is used again, for a message on another topic. *)
Definition bye : Publish := publish_from (mkCodec false false AtLeastOnce "news/u1" None "bye").

Definition id_reused : list Op :=
  one_message ++ [OpStore 1002 281474976710656 sender bye 60000; OpWriter 1003].

Lemma id_reused_fits : always no_encode op_fits id_reused opened.
Proof. repeat (split; [first [exact I | vm_compute; congruence]|]). exact I. Qed.

Lemma store_invariant_witness :
  wf (state (run no_encode one_message opened)) /\ mem_ok (state (run no_encode id_reused opened)).
Proof.
  split.
  - refine (proj2 (store_invariant no_encode one_message opened _ _) _); [apply opened_wf | apply one_message_fits | apply one_message_same].
  - refine (proj1 (store_invariant no_encode id_reused opened _ _)); [apply opened_wf | apply id_reused_fits].
Defined.

(** The writer leaves the id under the topic of the replaced message, and [get]
    returns the new one for the old topic. *)
Example stale_topic :
  map (fun x => topic (snd x)) (fst (get 1004 "c1" "chat/u1" (run no_encode id_reused opened))) = ["news/u1"].
Proof. vm_compute. reflexivity. Qed.

Definition stored : MessageStore (gmap Z Bytes) := run no_encode one_message opened.

Lemma stored_wf : wf (state stored).
Proof. apply (run_wf no_encode); [apply opened_wf | apply one_message_fits | apply one_message_same]. Qed.

Lemma evict_bounds_witness : within_caps 10 4096 (evict 1001 10 4096 (state stored)).
Proof. apply (evict_bounds 1001 10 4096 (state stored)), stored_wf. Defined.

Lemma get_returns_pending_witness :
  NoDup (map (fun x => fst (fst x)) (fst (get 1002 "c1" "chat/#" stored)))
  /\ length (fst (get 1002 "c1" "chat/#" stored)) = 1%nat.
Proof.
  split; [apply (get_returns_pending 1002 "c1" "chat/#" stored), stored_wf | vm_compute; reflexivity].
Defined.

(** The client gets the message, the store is restarted, the client asks again. *)
Definition restarted : list Life := [Restart 1500 2000 1 (fun _ => None)].

Lemma stored_disk : disk_ok toy_decode 0 (state stored) (disk stored).
Proof.
  split.
  - intros id m. replace (msgs (state stored)) with ({[281474976710656 := mkMsg sender hello 61000 ∅]} : gmap Z StoredMsg)
      by (vm_compute; reflexivity).
    intros [<- _]%lookup_singleton_Some Hnd. destruct Hnd. vm_compute. done.
  - intros id b. by replace (disk stored) with (∅ : gmap Z Bytes) by (vm_compute; reflexivity).
Qed.

Lemma get_at_most_once_witness :
  length (fst (get 1002 "c1" "chat/#" stored)) = 1%nat
  /\ size (msgs (state (life toy_encode toy_decode restarted (snd (get 1002 "c1" "chat/#" stored))))) = 1%nat
  /\ (281474976710656, sender, hello)
     ∉ fst (get 2003 "c1" "+/u1" (life toy_encode toy_decode restarted (snd (get 1002 "c1" "chat/#" stored)))).
Proof.
  split; [vm_compute; reflexivity|]. split; [vm_compute; reflexivity|]. intros Hy.
  apply (get_at_most_once toy_encode toy_decode toy_msg_roundtrip 0 1002 "c1" "chat/#" stored
           (281474976710656, sender, hello) restarted 2003 "+/u1")
    with (y := (281474976710656, sender, hello)).
  - apply stored_wf.
  - intros _. apply stored_disk.
  - replace (fst (get 1002 "c1" "chat/#" stored)) with [(281474976710656, sender, hello)]
      by (vm_compute; reflexivity). left.
  - split; [lia | exact I].
  - exact Hy.
  - reflexivity.
Defined.

Lemma flush_open_roundtrip_witness :
  exists s s', open toy_decode 0 1 (fun _ => None) no_faults (∅ : gmap Z Bytes) = Ok s
    /\ open toy_decode 2000 1 (fun _ => None) no_faults
         (disk (flush toy_encode 1500 no_faults true (run toy_encode one_message s))) = Ok s'
    /\ size (msgs (state s')) = 1%nat.
Proof.
  destruct (open toy_decode 0 1 (fun _ => None) no_faults (∅ : gmap Z Bytes)) as [s|e] eqn:Hs; [|discriminate].
  assert (always toy_encode op_fits one_message s) as Hok.
  { vm_compute in Hs. injection Hs as <-. split; [done|]. split; [vm_compute; congruence | done]. }
  destruct (flush_open_roundtrip toy_encode toy_decode toy_msg_roundtrip 0 1500 2000 1 1 (fun _ => None)
    (fun _ => None) ∅ s one_message Hs Hok) as (s' & Ho & _ & Hm); [repeat constructor | lia |].
  exists s, s'. split; [reflexivity|]. split; [exact Ho|]. rewrite Hm.
  vm_compute in Hs. injection Hs as <-. vm_compute. reflexivity.
Defined.

Lemma msg_ids_unique_witness :
  nth_id 0 opened <> nth_id 1 opened /\ kv_get (∅ : gmap Z Bytes) (nth_id 5 opened) = None.
Proof.
  destruct (open toy_decode 0 1 (fun _ => None) no_faults (∅ : gmap Z Bytes)) as [s|e] eqn:Hs; [|discriminate].
  destruct (msg_ids_unique toy_decode opened opened 0 1 0 (fun _ => None) ∅) as (_ & Hd & _);
    [simpl; lia | simpl; lia |].
  split; [|reflexivity]. intros Heq. specialize (Hd Heq). discriminate Hd; lia.
Defined.

End StoreExample.
