(* ===== verification/Main.v ===== *)
(** * Start-up: [src/main.rs]

    The decisions [main] takes before the broker runs: the token and the
    pepper, the peers, the limits read from the environment, the retry loop
    that joins the cluster and the configuration text handed to the cluster
    plugin. Binding sockets, spawning the tasks and running the server are not
    modelled; the random token's bytes and the answers of the vault and of the
    cluster registration are arguments. *)

From S2P Require Import Prelude Strs Store Config Vault Api.
From Stdlib Require Import Ascii.
Local Open Scope string_scope.
Local Open Scope list_scope.
Local Open Scope Z_scope.

(** ** Tokens and secrets *)

(** [format!("{b:02x}")]. *)
Definition hex_byte (b : Z) : string :=
  String (hex_digit (b / 16)) (String (hex_digit (b mod 16)) "").

(** [random_token], from the 24 bytes of the generator. *)
Fixpoint random_token (buf : list Z) : string :=
  match buf with
  | [] => ""
  | b :: buf' => (hex_byte b ++ random_token buf')%string
  end.

Section secrets.
Context (env : string -> option string).
(** [vault.get_value(name).await] of the client, when there is one. *)
Context (vault_value : option (string -> result string (option string))).

Definition config_token (cfg : Config) (buf : list Z) : string :=
  default (random_token buf) (api_token (api cfg)).

Definition initial_token (cfg : Config) (buf : list Z) : string :=
  let token := config_token cfg buf in
  match vault_value with
  | Some get =>
      match get "ciqada/api-token" with
      | Ok (Some v) => v
      | Ok None => token
      | Err _ => token
      end
  | None => token
  end.

Definition env_pepper : option Bytes :=
  match env "AUTH_PEPPER" with
  | Some s => if negb (str_is_empty s) then Some (str_bytes s) else None
  | None => None
  end.

Definition initial_pepper : option Bytes :=
  let pepper := env_pepper in
  match vault_value with
  | Some get =>
      match get "ciqada/pepper" with
      | Ok (Some v) => Some (str_bytes v)
      | Ok None => pepper
      | Err _ => pepper
      end
  | None => pepper
  end.

(** ** Settings from the environment *)

Definition auth_cache_ttl : Z := default 300 (env "AUTH_CACHE_TTL_SECS" ≫= parse_uint usize_max).

(** [parallelism]: [available_parallelism()], when known. *)
Definition hash_concurrency (parallelism : option Z) : Z :=
  match env "AUTH_HASH_CONCURRENCY" ≫= parse_uint usize_max with
  | Some n => if 0 <? n then n else default 4 parallelism
  | None => default 4 parallelism
  end.

Definition auth_disabled : bool :=
  match env "AUTH_DISABLED" with
  | Some v => bool_decide (v = "1") || eq_ignore_ascii_case v "true"
  | None => false
  end.

Definition flush_secs : Z := default 5 (env "MSG_FLUSH_SECS" ≫= parse_uint usize_max).

End secrets.

(** [NonZeroU16::new(max_inflight).unwrap_or(NonZeroU16::MAX)]. *)
Definition inflight_limit (max_inflight : Z) : Z := if max_inflight =? 0 then u16_max else max_inflight.

(** ** Peers *)

Definition peer_url (my_id api_port : Z) (entry : string) : option string :=
  match split_once "@" entry with
  | Some (id, hostport) =>
      match parse_uint usize_max id with
      | Some n =>
          if n =? my_id then None
          else
            match split_on ":" hostport with
            | host :: _ => Some ("http://" ++ host ++ ":" ++ show_uint api_port)%string
            | [] => None
            end
      | None => None
      end
  | None => None
  end.

Definition peers (cfg : Config) : list string :=
  omap (peer_url (cluster_node_id (Config.cluster cfg)) (port (api_addr (api cfg))))
    (node_grpc_addrs (Config.cluster cfg)).

(** ** Joining the cluster *)

(** The loop: [register n] is the result of the [n]-th registration, [tries]
    the attempts left after this one, [join_max_retries - attempt]. Returns the
    result and the number of registrations made. *)
Fixpoint join_loop {E} (register : nat -> result E unit) (tries attempt : nat)
    : result E unit * nat :=
  match register attempt with
  | Ok _ => (Ok tt, S attempt)
  | Err e =>
      match tries with
      | O => (Err e, S attempt)
      | S tries' => join_loop register tries' (S attempt)
      end
  end.

Definition join_cluster {E} (register : nat -> result E unit) (cluster : ClusterConfig)
    : result E unit * nat :=
  join_loop register (Z.to_nat (join_max_retries cluster)) 0.

(** ** The configuration of the cluster plugin *)

Definition quoted (s : string) : string := (dquote ++ s ++ dquote)%string.

Definition toml_string_array (items : list string) : string :=
  ("[" ++ join ", " (map quoted items) ++ "]")%string.

Definition worker_threads (env : string -> option string) : Z :=
  match env "RAFT_WORKER_THREADS" ≫= parse_uint usize_max with
  | Some n => if 0 <? n then n else 6
  | None => 6
  end.

Definition cluster_raft_plugin_config (env : string -> option string) (cluster : ClusterConfig) : string :=
  join newline
    [ "";
      "worker_threads = " ++ show_uint (worker_threads env);
      "message_type = 198";
      "node_grpc_addrs = " ++ toml_string_array (node_grpc_addrs cluster);
      "raft_peer_addrs = " ++ toml_string_array (raft_peer_addrs cluster);
      "laddr = " ++ quoted (raft_laddr cluster);
      "leader_id = " ++ show_uint (leader_id cluster);
      "verify_addr = true";
      "try_lock_timeout = " ++ quoted "3s";
      "health.exit_on_node_unavailable = false";
      "raft.check_quorum = true";
      "raft.pre_vote = true";
      "raft.election_tick = 30";
      "raft.heartbeat_tick = 3";
      "raft.proposal_batch_size = 250";
      "raft.proposal_batch_timeout = " ++ quoted "20ms";
      "raft.grpc_breaker_threshold = 50";
      "raft.grpc_breaker_retry_interval = " ++ quoted "500ms";
      "" ]%string.

(** ** Lemmas *)

Lemma hex_byte_length b : String.length (hex_byte b) = 2%nat.
Proof. done. Qed.

Definition hex_value (c : ascii) : Z :=
  let n := Z.of_N (N_of_ascii c) in if n <? 58 then n - 48 else n - 87.

Lemma hex_value_digit n : 0 <= n < 16 -> hex_value (hex_digit n) = n.
Proof.
  intros Hn. unfold hex_value, hex_digit. destruct (Z.ltb_spec n 10).
  - rewrite N_ascii_embedding by lia. rewrite Z2N.id by lia. destruct (Z.ltb_spec (48 + n) 58); lia.
  - rewrite N_ascii_embedding by lia. rewrite Z2N.id by lia. destruct (Z.ltb_spec (87 + n) 58); lia.
Qed.

Fixpoint unhex (s : string) : list Z :=
  match s with
  | String h (String l s') => (hex_value h * 16 + hex_value l) :: unhex s'
  | _ => []
  end.

Lemma join_loop_spec {E} (register : nat -> result E unit) tries attempt :
  let '(r, n) := join_loop register tries attempt in
  (attempt < n <= attempt + S tries)%nat
  /\ register (n - 1)%nat = r
  /\ (forall k, (attempt <= k < n - 1)%nat -> is_ok (register k) = false)
  /\ (is_ok r = true \/ n = (attempt + S tries)%nat).
Proof.
  revert attempt. induction tries as [|tries IH]; intros attempt; simpl;
    destruct (register attempt) as [[]|e] eqn:Hr.
  - replace (S attempt - 1)%nat with attempt by lia. repeat split; [lia|lia|done| |by left]. intros; lia.
  - replace (S attempt - 1)%nat with attempt by lia. repeat split; [lia|lia|done| |right; lia]. intros; lia.
  - replace (S attempt - 1)%nat with attempt by lia. repeat split; [lia|lia|done| |by left]. intros; lia.
  - specialize (IH (S attempt)). destruct (join_loop register tries (S attempt)) as [r n].
    destruct IH as (Hn & Hlast & Hfail & Hend). repeat split; [lia|lia|done| |].
    + intros k Hk. destruct (decide (k = attempt)) as [->|]; [by rewrite Hr | apply Hfail; lia].
    + destruct Hend; [by left | right; lia].
Qed.

(** ** Theorems *)

(** the generated token encodes its 24 random bytes without loss, in 48
    characters. *)
Theorem random_token_faithful buf :
  Forall is_byte buf ->
  String.length (random_token buf) = (2 * length buf)%nat /\ unhex (random_token buf) = buf.
Proof.
  induction 1 as [|b buf Hb Hbuf [IHl IHu]]; [done|]. unfold is_byte in Hb.
  cbn [random_token]. split.
  - rewrite length_append_str, hex_byte_length, IHl. simpl. lia.
  - unfold hex_byte. cbn [String.append unhex]. rewrite IHu. f_equal.
    rewrite !hex_value_digit; [|split; [apply Z.mod_pos_bound | apply Z.mod_pos_bound]; lia
      |split; [apply Z.div_pos | apply Z.div_lt_upper_bound]; lia].
    pose proof (Z.div_mod b 16). lia.
Qed.

Lemma random_token_faithful_witness :
  unhex (random_token [222; 173; 190; 239]) = [222; 173; 190; 239].
Proof. apply random_token_faithful. repeat constructor; unfold is_byte; lia. Defined.

(** joining the cluster makes at most [join_max_retries + 1] registrations,
    stops at the first that succeeds, and reports the last failure when all of
    them fail. *)
Theorem join_cluster_spec {E} (register : nat -> result E unit) cluster :
  let '(r, n) := join_cluster register cluster in
  (0 < n <= S (Z.to_nat (join_max_retries cluster)))%nat
  /\ register (n - 1)%nat = r
  /\ (forall k, (k < n - 1)%nat -> is_ok (register k) = false)
  /\ (is_ok r = true \/ n = S (Z.to_nat (join_max_retries cluster))).
Proof.
  unfold join_cluster. pose proof (join_loop_spec register (Z.to_nat (join_max_retries cluster)) 0) as Hj.
  destruct (join_loop _ _ _) as [r n]. destruct Hj as (Hn & Hr & Hf & He).
  repeat split; [lia|lia|done| |].
  - intros k Hk. apply Hf. lia.
  - destruct He; [by left | right; lia].
Qed.

(** the peers are the API addresses of the other nodes: the URLs of exactly
    the entries [id@host:port] with a numeric id different from this node's. *)
Theorem peers_spec cfg url :
  In url (peers cfg) <->
  exists entry id hostport n host ports,
    In entry (node_grpc_addrs (Config.cluster cfg))
    /\ split_once "@" entry = Some (id, hostport) /\ parse_uint usize_max id = Some n
    /\ n <> cluster_node_id (Config.cluster cfg)
    /\ split_on ":" hostport = host :: ports
    /\ url = ("http://" ++ host ++ ":" ++ show_uint (port (api_addr (api cfg))))%string.
Proof.
  unfold peers. rewrite <- list_elem_of_In, list_elem_of_omap. setoid_rewrite list_elem_of_In. split.
  - intros (entry & Hin & Hu). unfold peer_url in Hu.
    destruct (split_once "@" entry) as [[id hp]|] eqn:Hs; [|done].
    destruct (parse_uint usize_max id) as [n|] eqn:Hp; [|done].
    destruct (Z.eqb_spec n (cluster_node_id (Config.cluster cfg))); [done|].
    destruct (split_on ":" hp) as [|host ports] eqn:Hh; [done|]. injection Hu as <-.
    by exists entry, id, hp, n, host, ports.
  - intros (entry & id & hp & n & host & ports & Hin & Hs & Hp & Hn & Hh & ->).
    exists entry. split; [done|]. unfold peer_url. rewrite Hs, Hp, Hh.
    by destruct (Z.eqb_spec n (cluster_node_id (Config.cluster cfg))).
Qed.

(** precedence of the API token: the vault's, then the environment's, then
    the configuration file's, then the generated one. *)
Theorem token_precedence toml_from_str fs env vault_value path cfg buf :
  load toml_from_str fs env path = Ok cfg ->
  initial_token vault_value cfg buf
  = match vault_value ≫= (fun get => match get "ciqada/api-token" with Ok v => v | Err _ => None end) with
    | Some v => v
    | None =>
        match env "API_TOKEN" with
        | Some t => t
        | None => default (random_token buf) (ok_of (base toml_from_str fs path) ≫= fun c => api_token (api c))
        end
    end.
Proof.
  intros Hl. assert (api_token (api cfg) = match env "API_TOKEN" with
    | Some t => Some t | None => ok_of (base toml_from_str fs path) ≫= fun c => api_token (api c) end) as Ht.
  { unfold load in Hl. fold (base toml_from_str fs path) in Hl.
    destruct (base toml_from_str fs path) as [c|]; [|done]. simpl in Hl.
    destruct (env "NODE_ID") as [id|]; [destruct (parse_uint _ id); [|done]|]; injection Hl as <-;
      destruct (env "API_TOKEN"), (env "DB_URL"); done. }
  unfold initial_token, config_token. rewrite Ht. destruct vault_value as [get|]; simpl;
    [destruct (get "ciqada/api-token") as [[v|]|]|]; by destruct (env "API_TOKEN").
Qed.

Lemma token_precedence_witness :
  initial_token None (set_token "from-env" Config_default) [] = "from-env".
Proof.
  rewrite (token_precedence (fun _ => None) (fun _ => None)
    (fun k => if decide (k = "API_TOKEN") then Some "from-env" else None) None "config.toml"
    (set_token "from-env" Config_default) []) by reflexivity.
  reflexivity.
Defined.
