(* ===== verification/Startup.v ===== *)
(** * The order of start-up: [main] of [src/main.rs]

    [Main] has the decisions of start-up; this file puts them in the order in
    which [main] takes them, with its effects: the database is opened, the
    tasks are spawned, sockets are bound, the hooks registered, the cluster
    joined, the stores installed, and then the broker serves until it ends or a
    signal arrives. The effects are the trace of [main]; what the outside
    answers is a [Machine]. *)

From Stdlib Require Import Ascii.
From S2P Require Import Prelude Strs Store Config Vault Db Api Types Fanout Main.
Local Open Scope string_scope.
Local Open Scope list_scope.
Local Open Scope Z_scope.

(** ** Effects *)

Inductive Transport : Type := Tcp | Ws.

(** A listener's builder. *)
Record Listener : Type := mkListener {
  l_name : string;
  l_addr : SocketAddr;
  l_transport : Transport;
  l_allow_anonymous : bool;
  l_nodelay : bool;
  l_expiry_secs : Z;
  l_max_mqueue_len : Z;
  l_max_inflight : Z
}.

Inductive Step : Type :=
| OpenDatabase (url : string)
| SpawnSweeper (every_secs : Z)
| SpawnCatchUp
| BindManagement (addr : SocketAddr)
| ServeManagement
| BuildContext (node_id : Z) (busy_check : bool) (plugins : list (string * string))
| RegisterHooks
| StartGrpc (addr : SocketAddr)
| RegisterCluster
| Backoff (secs : Z)
| InstallAutoSubscription (a : UseridAutoSubscription)
| OpenMessageStore (path : string) (node : Z)
| SpawnFlusher (every_secs : Z)
| InstallMessageStore
| ExitAfter (secs : Z)
| BindListener (l : Listener)
| Serve
| FlushMessages.

(** How serving ends: the server returns, or a signal arrives. *)
Inductive Ending : Type :=
| ServerEnded (r : result string unit)
| Signal.

(** The outside of one start-up. *)
Record Machine : Type := mkMachine {
  argument : option string;                     (* [args().nth(1)] *)
  m_env : string -> option string;
  files : string -> option (option string);
  toml_from_str : string -> option Config;
  random : list Z;                              (* the token's bytes *)
  parallelism : option Z;
  vault_get : VaultClient -> string -> result string (option string);
  open_database : string -> result string unit;
  bind_management : SocketAddr -> result string unit;
  register_cluster : nat -> result string unit;
  open_store : string -> Z -> result string unit;
  bind_listener : Listener -> result string unit;
  ending : Ending;
  qos_of_u8 : Z -> option QoS
}.

Abbreviation Boot := (M (list Step)).

(** ** Paths *)

Definition slash : string := "/".

(** The path without separators and [.] components at its end; the root stays. *)
Fixpoint trim_path (fuel : nat) (rev : string) : string :=
  match fuel with
  | O => rev
  | S fuel' =>
      match rev with
      | String "/" (String _ _ as rest) => trim_path fuel' rest
      | String "." (String "/" rest) => trim_path fuel' (String "/" rest)
      | _ => rev
      end
  end.

Definition clean (p : string) : string := str_rev (trim_path (String.length p) (str_rev p)).

(** [Path::parent] on Unix. *)
Definition parent (p : string) : option string :=
  let q := clean p in
  if str_is_empty q || bool_decide (q = slash) then None
  else match rsplit_once "/" q with
       | None => Some ""
       | Some (d, _) => Some (if str_is_empty d then slash else clean d)
       end.

(** [Path::join] with a relative path. *)
Definition join_path (d name : string) : string :=
  if str_is_empty d then name
  else if starts_with slash (str_rev d) then (d ++ name)%string
  else (d ++ slash ++ name)%string.

Definition messages_path (path : string) : string :=
  match parent path with
  | Some d => join_path d "messages.redb"
  | None => "messages.redb"
  end.

(** ** The parts of [main] *)

Section boot.
Context (m : Machine).

Definition load_config : result string Config :=
  match load (toml_from_str m) (files m) (m_env m) (default "config.toml" (argument m)) with
  | Ok cfg => Ok cfg
  | Err _ => Err "configuration"
  end.

Definition the_vault : option VaultClient := from_env (m_env m).

Definition vault_values : option (string -> result string (option string)) :=
  vault_get m <$> the_vault.

(** [AppState]: what the handlers share, and the state they start from. *)
Definition app_settings (cfg : Config) : Settings :=
  mkSettings (Config.acl cfg) (Main.peers cfg) (Main.auth_disabled (m_env m))
    (initial_pepper (m_env m) vault_values) the_vault (Config.cluster cfg).

Definition app_state {T J} (d : Tables T) (cfg : Config) : Broker T J :=
  let ttl := from_secs (auth_cache_ttl (m_env m)) in
  mkBroker d (mkTokens (initial_token vault_values cfg (random m)) None None)
    (AuthCache_new ttl) (UserCache_new ttl) [] 0.

(** The permits for hashing passwords. *)
Definition auth_permits : Z := hash_concurrency (m_env m) (parallelism m).

Definition context_step (cfg : Config) : Step :=
  BuildContext (cluster_node_id (Config.cluster cfg)) (busy_check (mqtt cfg))
    (if cluster_enabled (Config.cluster cfg)
     then [("rmqtt-cluster-raft", cluster_raft_plugin_config (m_env m) (Config.cluster cfg))]
     else []).

(** Registrations with a pause after each failed one but the last. *)
Fixpoint join_steps (secs : Z) (n : nat) : list Step :=
  match n with
  | O => []
  | S O => [RegisterCluster]
  | S n' => RegisterCluster :: Backoff secs :: join_steps secs n'
  end.

Definition emit_all (l : list Step) : Boot unit := fun tr => (tt, tr ++ l).

Definition join (cfg : Config) : Boot (result string unit) :=
  let k := Config.cluster cfg in
  if cluster_enabled k then
    let! _ := emit (StartGrpc (grpc_laddr k)) in
    let '(r, n) := join_cluster (register_cluster m) k in
    let! _ := emit_all (join_steps (join_retry_secs k) n) in
    ret r
  else ret (Ok tt).

Definition install_auto_subscription (cfg : Config) : Boot unit :=
  if auto_subscribe (Config.fanout cfg)
  then emit (InstallAutoSubscription (Fanout.new (qos_of_u8 m) (Config.fanout cfg) (Config.acl cfg)))
  else ret tt.

(** The message store; the result says whether it is flushed on shutdown. A
    store that cannot be opened is logged only. *)
Definition install_messages (cfg : Config) : Boot bool :=
  if persist_messages (mqtt cfg) then
    match strip_prefix "redb://" (url (Config.db cfg)) with
    | Some path =>
        let msg_path := messages_path path in
        let node := cluster_node_id (Config.cluster cfg) in
        let! _ := emit (OpenMessageStore msg_path node) in
        match open_store m msg_path node with
        | Ok _ =>
            let secs := flush_secs (m_env m) in
            let! _ := if 0 <? secs then emit (SpawnFlusher secs) else ret tt in
            let! _ := emit InstallMessageStore in
            ret (0 <? secs)
        | Err _ => ret false
        end
    | None => ret false
    end
  else ret false.

Definition profile_exit : Boot unit :=
  match m_env m "PROFILE_SECS" ≫= parse_uint usize_max with
  | Some secs => emit (ExitAfter secs)
  | None => ret tt
  end.

Definition listener (cfg : Config) (t : Transport) : Listener :=
  mkListener (match t with Tcp => "external/tcp" | Ws => "external/ws" end)
    (match t with Tcp => tcp_addr (mqtt cfg) | Ws => ws_addr (mqtt cfg) end)
    t false true (message_expiry_secs (mqtt cfg)) (max_mqueue_len (mqtt cfg))
    (inflight_limit (max_inflight (mqtt cfg))).

Definition listen (cfg : Config) (t : Transport) : Boot (result string unit) :=
  let! _ := emit (BindListener (listener cfg t)) in
  ret (bind_listener m (listener cfg t)).

(** [tokio::select!] between the server and the signal. *)
Definition serve (flush_on_signal : bool) : Boot (result string unit) :=
  let! _ := emit Serve in
  match ending m with
  | ServerEnded r => ret r
  | Signal =>
      let! _ := if flush_on_signal then emit FlushMessages else ret tt in
      ret (Ok tt)
  end.

Definition effectful (s : Step) (r : result string unit) : Boot (result string unit) :=
  let! _ := emit s in ret r.

Definition main : Boot (result string unit) :=
  try! cfg := ret load_config in
  try! _ := effectful (OpenDatabase (url (Config.db cfg))) (open_database m (url (Config.db cfg))) in
  let! _ := emit (SpawnSweeper 60) in
  let! _ := emit SpawnCatchUp in
  try! _ := effectful (BindManagement (api_addr (Config.api cfg))) (bind_management m (api_addr (Config.api cfg))) in
  let! _ := emit ServeManagement in
  let! _ := emit (context_step cfg) in
  let! _ := emit RegisterHooks in
  try! _ := join cfg in
  let! _ := install_auto_subscription cfg in
  let! flush := install_messages cfg in
  let! _ := profile_exit in
  try! _ := listen cfg Tcp in
  try! _ := listen cfg Ws in
  serve flush.

End boot.

(** ** Lemmas *)

(** [m] keeps [P] true of the trace. *)
Definition keeps {A} (P : list Step -> Prop) (m : Boot A) : Prop := forall tr, P tr -> wp m (fun _ => P) tr.

Section keeps.
Context (P : list Step -> Prop).

Lemma keeps_ret {A} (a : A) : keeps P (ret a).
Proof. intros tr Htr. by apply wp_ret. Qed.

Lemma keeps_bind {A B} (m : Boot A) (k : A -> Boot B) :
  keeps P m -> (forall a, keeps P (k a)) -> keeps P (bind m k).
Proof.
  intros Hm Hk tr Htr. apply wp_bind. eapply wp_mono; [by apply Hm|]. intros a tr' Htr'. by apply Hk.
Qed.

Lemma keeps_try {E A B} (m : Boot (result E A)) (k : A -> Boot (result E B)) :
  keeps P m -> (forall a, keeps P (k a)) -> keeps P (and_then m k).
Proof. intros Hm Hk. apply keeps_bind; [done|]. intros [a|e]; [done | apply keeps_ret]. Qed.

End keeps.

(** Every listener in the trace comes after the hooks and refuses anonymous
    clients. *)
Definition guarded (tr : list Step) : Prop :=
  forall i l, tr !! i = Some (BindListener l) ->
    l_allow_anonymous l = false /\ exists j, (j < i)%nat /\ tr !! j = Some RegisterHooks.

Definition is_listener (s : Step) : bool := match s with BindListener _ => true | _ => false end.

Lemma guarded_app tr l : guarded tr -> Forall (fun s => is_listener s = false) l -> guarded (tr ++ l).
Proof.
  intros Hg Hl i x Hi. apply lookup_app_Some in Hi as [Hi|[_ Hi]].
  - destruct (Hg i x Hi) as (? & j & Hj & E). split; [done|]. exists j. split; [done|]. by apply lookup_app_l_Some.
  - rewrite Forall_lookup in Hl. by specialize (Hl _ _ Hi).
Qed.

Lemma guarded_listener tr l :
  guarded tr -> RegisterHooks ∈ tr -> l_allow_anonymous l = false -> guarded (tr ++ [BindListener l]).
Proof.
  intros Hg Hh Hl i x Hi. apply lookup_app_Some in Hi as [Hi|[Hle Hi]].
  - destruct (Hg i x Hi) as (? & j & Hj & E). split; [done|]. exists j. split; [done|]. by apply lookup_app_l_Some.
  - apply list_lookup_singleton_Some in Hi as [_ [= <-]]. split; [done|].
    apply list_elem_of_lookup in Hh as [j Hj]. apply lookup_lt_Some in Hj as Hlt.
    exists j. split; [lia|]. by apply lookup_app_l_Some.
Qed.

Lemma keeps_emit s : is_listener s = false -> keeps guarded (emit s).
Proof. intros Hs tr Htr. unfold wp, emit. apply guarded_app; [done|]. by repeat constructor. Qed.

(** With the hooks registered, listeners may follow. *)
Definition hooked (tr : list Step) : Prop := guarded tr /\ RegisterHooks ∈ tr.

Lemma keeps_hooked_all l : Forall (fun s => is_listener s = false) l -> keeps hooked (emit_all l).
Proof. intros Hl tr [Hg Hh]. split; [by apply guarded_app | apply elem_of_app; by left]. Qed.

Lemma keeps_hooked_emit s : is_listener s = false -> keeps hooked (emit s).
Proof. intros Hs. apply (keeps_hooked_all [s]). by repeat constructor. Qed.

Lemma keeps_hooked_listen m cfg t : keeps hooked (listen m cfg t).
Proof.
  apply keeps_bind; [|intros; apply keeps_ret]. intros tr [Hg Hh]. split.
  - by apply guarded_listener.
  - apply elem_of_app. by left.
Qed.

Lemma join_steps_no_listener secs n : Forall (fun s => is_listener s = false) (join_steps secs n).
Proof. induction n as [|[|n] IH]; [constructor | by repeat constructor|]. do 2 (constructor; [done|]). exact IH. Qed.

#[local] Hint Resolve keeps_ret keeps_bind keeps_try keeps_emit keeps_hooked_emit : ciqada.

Lemma keeps_hooked_join m cfg : keeps hooked (join m cfg).
Proof.
  unfold join. destruct (cluster_enabled _); [|apply keeps_ret].
  apply keeps_bind; [by apply keeps_hooked_emit|]. intros _. destruct (join_cluster _ _) as [r n].
  apply keeps_bind; [apply keeps_hooked_all, join_steps_no_listener | intros _; apply keeps_ret].
Qed.

Lemma keeps_hooked_install m cfg : keeps hooked (install_messages m cfg).
Proof.
  unfold install_messages. destruct (persist_messages _); [|apply keeps_ret].
  destruct (strip_prefix _ _); [|apply keeps_ret].
  apply keeps_bind; [by apply keeps_hooked_emit|]. intros _. destruct (open_store _ _ _); [|apply keeps_ret].
  apply keeps_bind; [destruct (0 <? _); [by apply keeps_hooked_emit | apply keeps_ret]|]. intros _.
  apply keeps_bind; [by apply keeps_hooked_emit | intros _; apply keeps_ret].
Qed.

Lemma keeps_hooked_serve m flush : keeps hooked (serve m flush).
Proof.
  unfold serve. apply keeps_bind; [by apply keeps_hooked_emit|]. intros _.
  destruct (ending m); [apply keeps_ret|]. apply keeps_bind; [|intros; apply keeps_ret].
  destruct flush; [by apply keeps_hooked_emit | apply keeps_ret].
Qed.

Lemma keeps_weaken {A} (m : Boot A) tr : keeps hooked m -> hooked tr -> wp m (fun _ => guarded) tr.
Proof. intros Hm Htr. eapply wp_mono; [by apply Hm|]. by intros _ tr' []. Qed.

Lemma keeps_effectful s r : is_listener s = false -> keeps guarded (effectful s r).
Proof. intros Hs. apply keeps_bind; [by apply keeps_emit | intros _; apply keeps_ret]. Qed.

Lemma main_guarded m : keeps guarded (main m).
Proof.
  unfold main. apply keeps_try; [apply keeps_ret|]. intros cfg.
  apply keeps_try; [by apply keeps_effectful|]. intros _.
  apply keeps_bind; [by apply keeps_emit|]. intros _. apply keeps_bind; [by apply keeps_emit|]. intros _.
  apply keeps_try; [by apply keeps_effectful|]. intros _.
  apply keeps_bind; [by apply keeps_emit|]. intros _. apply keeps_bind; [by apply keeps_emit|]. intros _.
  intros tr Htr. apply wp_bind. unfold wp at 1, emit.
  assert (hooked (tr ++ [RegisterHooks])) as Hh.
  { split; [apply guarded_app; [done|]; by repeat constructor|]. apply elem_of_app. right. by apply list_elem_of_singleton. }
  refine (keeps_weaken _ _ _ Hh). apply keeps_try; [apply keeps_hooked_join|]. intros _.
  apply keeps_bind; [unfold install_auto_subscription; destruct (auto_subscribe _); [by apply keeps_hooked_emit | apply keeps_ret]|].
  intros _. apply keeps_bind; [apply keeps_hooked_install|]. intros flush.
  apply keeps_bind; [unfold profile_exit; destruct (_ ≫= _); [by apply keeps_hooked_emit | apply keeps_ret]|]. intros _.
  apply keeps_try; [apply keeps_hooked_listen|]. intros _. apply keeps_try; [apply keeps_hooked_listen|]. intros _.
  apply keeps_hooked_serve.
Qed.

(** ** The outcome of start-up *)

Definition joined (m : Machine) (cfg : Config) : result string unit :=
  let k := Config.cluster cfg in
  if cluster_enabled k then fst (join_cluster (register_cluster m) k) else Ok tt.

(** Everything that has to succeed before the broker serves, in order. *)
Definition ready (m : Machine) : result string Config :=
  let? cfg := load_config m in
  let? _ := open_database m (url (Config.db cfg)) in
  let? _ := bind_management m (api_addr (Config.api cfg)) in
  let? _ := joined m cfg in
  let? _ := bind_listener m (listener cfg Tcp) in
  let? _ := bind_listener m (listener cfg Ws) in
  Ok cfg.

Definition outcome (m : Machine) : result string unit :=
  let? _ := ready m in match ending m with ServerEnded r => r | Signal => Ok tt end.

(** The messages are kept on disk: persistence is configured with a redb
    database, the store opens, and a flush interval is set. *)
Definition persists (m : Machine) (cfg : Config) : bool :=
  persist_messages (mqtt cfg)
  && match strip_prefix "redb://" (url (Config.db cfg)) with
     | Some path =>
         is_ok (open_store m (messages_path path) (cluster_node_id (Config.cluster cfg)))
         && (0 <? flush_secs (m_env m))
     | None => false
     end.

Definition is_last (s : Step) : option Step :=
  match s with Serve | FlushMessages => Some s | _ => None end.

Definition last_steps (m : Machine) : list Step :=
  match ready m with
  | Ok cfg =>
      Serve :: match ending m with
               | Signal => if persists m cfg then [FlushMessages] else []
               | ServerEnded _ => []
               end
  | Err _ => []
  end.

(** A part that returns [v] and neither serves nor flushes. *)
Definition part {A} (m : Boot A) (v : A) : Prop :=
  forall tr, wp m (fun r tr' => r = v /\ omap is_last tr' = omap is_last tr) tr.

Lemma part_ret {A} (v : A) : part (ret v) v.
Proof. intros tr. by apply wp_ret. Qed.

Lemma part_emit_all l : omap is_last l = [] -> part (emit_all l) tt.
Proof. intros Hl tr. unfold wp, emit_all. by rewrite omap_app_list, Hl, app_nil_r. Qed.

Lemma part_emit s : is_last s = None -> part (emit s) tt.
Proof. intros Hs. apply (part_emit_all [s]). cbn. by rewrite Hs. Qed.

Lemma part_bind {A B} (m : Boot A) (k : A -> Boot B) v v' :
  part m v -> part (k v) v' -> part (bind m k) v'.
Proof.
  intros Hm Hk tr. apply wp_bind. eapply wp_mono; [apply Hm|]. intros a tr1 [-> H1].
  eapply wp_mono; [apply Hk|]. intros b tr2 [-> H2]. split; [done | congruence].
Qed.

Lemma wp_part {A B} (m : Boot A) (k : A -> Boot B) v Q tr :
  part m v -> (forall tr', omap is_last tr' = omap is_last tr -> wp (k v) Q tr') -> wp (bind m k) Q tr.
Proof.
  intros Hm Hk. apply wp_bind. eapply wp_mono; [apply Hm|]. intros a tr1 [-> H1]. by apply Hk.
Qed.

Lemma part_effectful s r : is_last s = None -> part (effectful s r) r.
Proof. intros Hs. eapply part_bind; [by apply part_emit | apply part_ret]. Qed.

Lemma part_join m cfg : part (join m cfg) (joined m cfg).
Proof.
  unfold join, joined. destruct (cluster_enabled _); [|apply part_ret].
  eapply part_bind; [by apply part_emit|]. destruct (join_cluster _ _) as [r n]. cbn [fst].
  eapply part_bind; [apply part_emit_all | apply part_ret].
  induction n as [|[|n] IH]; [done..|]. exact IH.
Qed.

Lemma part_install m cfg : part (install_messages m cfg) (persists m cfg).
Proof.
  unfold install_messages, persists. destruct (persist_messages _); [|apply part_ret].
  destruct (strip_prefix _ _); [|apply part_ret]. eapply part_bind; [by apply part_emit|].
  destruct (open_store _ _ _); [|apply part_ret]. cbn [is_ok andb].
  eapply part_bind; [destruct (0 <? _); [by apply part_emit | apply part_ret]|].
  eapply part_bind; [by apply part_emit | apply part_ret].
Qed.

Lemma part_optional {A} (o : option A) (s : A -> Step) :
  (forall a, is_last (s a) = None) -> part (match o with Some a => emit (s a) | None => ret tt end) tt.
Proof. intros Hs. destruct o; [by apply part_emit | apply part_ret]. Qed.

Lemma main_spec m tr :
  wp (main m) (fun r tr' => r = outcome m /\ omap is_last tr' = omap is_last tr ++ last_steps m) tr.
Proof.
  unfold main, outcome, last_steps, ready, and_then.
  apply (wp_part _ _ (load_config m)); [apply part_ret|]. intros tr1 <-.
  destruct (load_config m) as [cfg|]; cbn [result_bind]; [|apply wp_ret; by rewrite app_nil_r].
  eapply wp_part; [by apply part_effectful|]. intros tr2 <-.
  destruct (open_database m _); cbn [result_bind]; [|apply wp_ret; by rewrite app_nil_r].
  do 2 (eapply wp_part; [by apply part_emit|]; intros ? <-).
  eapply wp_part; [by apply part_effectful|]. intros tr3 <-.
  destruct (bind_management m _); cbn [result_bind]; [|apply wp_ret; by rewrite app_nil_r].
  do 3 (eapply wp_part; [by apply part_emit|]; intros ? <-).
  eapply wp_part; [apply part_join|]. intros tr4 <-.
  destruct (joined m cfg); cbn [result_bind]; [|apply wp_ret; by rewrite app_nil_r].
  eapply wp_part; [unfold install_auto_subscription; destruct (auto_subscribe _); [by apply part_emit | apply part_ret]|]. intros tr5 <-.
  eapply wp_part; [apply part_install|]. intros tr6 <-.
  eapply wp_part; [by apply part_optional|]. intros tr7 <-.
  eapply wp_part; [by apply part_effectful|]. intros tr8 <-.
  destruct (bind_listener m (listener cfg Tcp)); cbn [result_bind]; [|apply wp_ret; by rewrite app_nil_r].
  eapply wp_part; [by apply part_effectful|]. intros tr9 <-.
  destruct (bind_listener m (listener cfg Ws)); cbn [result_bind]; [|apply wp_ret; by rewrite app_nil_r].
  unfold serve. apply wp_bind. unfold wp at 1, emit. destruct (ending m) as [r|].
  - apply wp_ret. by rewrite omap_app_list.
  - apply wp_bind. destruct (persists m cfg); unfold wp at 1, emit, ret; cbn [fst snd]; unfold wp; (split; [done|]).
    + by rewrite !omap_app_list, <- app_assoc.
    + by rewrite omap_app_list.
Qed.

(** ** Properties *)

(** C4: no client is served before it can be authenticated: in every start-up,
    whatever fails, each listener is bound after the authentication hooks are
    registered and refuses anonymous clients. *)
Theorem hooks_before_listeners m i l :
  snd (main m []) !! i = Some (BindListener l) ->
  l_allow_anonymous l = false
  /\ exists j, (j < i)%nat /\ snd (main m []) !! j = Some RegisterHooks.
Proof.
  intros Hi. assert (guarded []) as H0 by (intros ? ? E; done).
  apply (wp_run _ _ _ (main_guarded m [] H0) i l Hi).
Qed.

(** start-up is all or nothing: the result is the first error of the
    configuration, the database, the API socket, the cluster and the two
    listeners, in this order, and the broker serves exactly when all of them
    succeed; then the result is the server's, or success on a signal. The
    message store is no condition: failing to open it only switches it off. *)
Theorem startup_outcome m :
  fst (main m []) = outcome m
  /\ (Serve ∈ snd (main m []) <-> is_ok (ready m) = true).
Proof.
  destruct (wp_run _ _ _ (main_spec m [])) as [Hr Ht]. split; [done|].
  assert (Serve ∈ snd (main m []) <-> Serve ∈ omap is_last (snd (main m []))) as ->.
  { rewrite list_elem_of_omap. split; [intros; by exists Serve | intros (s & Hs & E)].
    by destruct s; try done; injection E as <-. }
  rewrite Ht. unfold last_steps. destruct (ready m); cbn.
  - split; [done|]. intros _. left.
  - split; [by intros ?%not_elem_of_nil | done].
Qed.

(** a signal loses no persisted message: a broker that was serving and is
    stopped by a signal flushes the message store, as its last step, exactly
    when the messages are kept on disk; it does not when the server ends by
    itself. *)
Theorem shutdown_flushes m cfg :
  ready m = Ok cfg ->
  omap is_last (snd (main m []))
  = match ending m with
    | Signal => if persists m cfg then [Serve; FlushMessages] else [Serve]
    | ServerEnded _ => [Serve]
    end.
Proof.
  intros Hr. destruct (wp_run _ _ _ (main_spec m [])) as [_ ->]. unfold last_steps. rewrite Hr.
  destruct (ending m); [done|]. by destruct (persists m cfg).
Qed.

(** ** Witnesses *)

Definition demo_config : Config :=
  mkConfig (mkMqtt (mkAddr "0.0.0.0" 1883) (mkAddr "0.0.0.0" 8083) 1200 1000 0 false true)
    ApiConfig_default DbConfig_default FanoutConfig_default AclConfig_default
    (mkCluster true 1 (mkAddr "0.0.0.0" 5363) "0.0.0.0:6003" [] [] 1 10 5).

(** A machine on which the second registration succeeds and a signal arrives. *)
Definition demo_machine : Machine :=
  mkMachine None (fun _ => None) (fun _ => Some (Some "file")) (fun _ => Some demo_config) [1; 2] None
    (fun _ _ => Ok None) (fun _ => Ok tt) (fun _ => Ok tt)
    (fun n => match n with O => Err "not yet" | _ => Ok tt end) (fun _ _ => Ok tt) (fun _ => Ok tt) Signal
    (fun _ => Some AtLeastOnce).

Example demo_boot :
  snd (main demo_machine [])
  = [ OpenDatabase "redb://data/users.redb"; SpawnSweeper 60; SpawnCatchUp; BindManagement (mkAddr "0.0.0.0" 8090);
      ServeManagement; context_step demo_machine demo_config; RegisterHooks; StartGrpc (mkAddr "0.0.0.0" 5363);
      RegisterCluster; Backoff 5; RegisterCluster; OpenMessageStore "data/messages.redb" 1; SpawnFlusher 5;
      InstallMessageStore; BindListener (listener demo_config Tcp); BindListener (listener demo_config Ws); Serve;
      FlushMessages ].
Proof. by vm_compute. Qed.

Example message_paths :
  map messages_path ["data/users.redb"; "users.redb"; "/users.redb"; "/var//lib/users.redb/"; "/"; ""; "./x"]
  = ["data/messages.redb"; "messages.redb"; "/messages.redb"; "/var//lib/messages.redb"; "messages.redb";
     "messages.redb"; "./messages.redb"].
Proof. by vm_compute. Qed.

Lemma hooks_before_listeners_witness :
  exists i l, snd (main demo_machine []) !! i = Some (BindListener l)
  /\ l_allow_anonymous l = false
  /\ exists j, (j < i)%nat /\ snd (main demo_machine []) !! j = Some RegisterHooks.
Proof.
  exists 14%nat, (listener demo_config Tcp). split; [by vm_compute|].
  apply hooks_before_listeners. by vm_compute.
Defined.

Lemma shutdown_flushes_witness : omap is_last (snd (main demo_machine [])) = [Serve; FlushMessages].
Proof. apply (shutdown_flushes demo_machine demo_config). by vm_compute. Defined.
