(* ===== verification/Router.v ===== *)
(** * Subscription router: [vendor/rmqtt/src/router.rs] and the subscriber
      choice of [vendor/rmqtt/src/subscribe.rs]

    [DefaultRouter] keeps a topic tree of the subscribed filters and, per
    filter, the clients subscribed to it. The locks are not modelled: each
    operation is a function on the state. Iteration over a hash map follows
    the model's order, on which no theorem depends. The counters are
    rmqtt-utils'; the model keeps the value their [inc] and [dec] change.

    Shared subscriptions go through the interface [SharedSubscription], whose
    default implementation draws random numbers; they are an argument, and so
    is whether a client is online. *)

From Stdlib Require Import Ascii.
From S2P Require Import Prelude Strs Topic Trie Types.
Local Open Scope string_scope.
Local Open Scope list_scope.

(** ** Choosing a member of a shared group *)

(** A candidate: node, client, options, identifiers, whether it is online. *)
Definition Cand : Type :=
  NodeId * ClientId * SubscriptionOptions * option (list Z) * option bool.

Definition cand_node (c : Cand) : NodeId := let '(n, _, _, _, _) := c in n.
Definition cand_client (c : Cand) : ClientId := let '(_, cid, _, _, _) := c in cid.
Definition cand_opts (c : Cand) : SubscriptionOptions := let '(_, _, o, _, _) := c in o.

Definition cand_online (is_online : NodeId -> ClientId -> bool) (c : Cand) : bool :=
  let '(node, cid, _, _, online) := c in
  match online with Some b => b | None => is_online node cid end.

(** The loop over [tmp_ncs]; every round removes one entry, so as many rounds
    as entries are enough. [rand k] is the [k]-th random number. *)
Fixpoint choice_loop (is_online : NodeId -> ClientId -> bool) (rand : nat -> Z)
    (rounds : nat) (tmp : list (nat * Cand)) : option (nat * bool) :=
  match rounds with
  | O => None
  | S rounds' =>
      match tmp with
      | [] => None
      | _ =>
          let r_idx := if decide (length tmp = 1) then 0
                       else Z.to_nat (rand rounds' mod Z.of_nat (length tmp)) in
          match tmp !! r_idx with
          | None => None
          | Some (idx, c) =>
              let tmp' := delete r_idx tmp in
              let online := cand_online is_online c in
              if online then Some (idx, true)
              else
                match tmp' with
                | [] => Some (idx, online)
                | _ => choice_loop is_online rand rounds' tmp'
                end
          end
      end
  end.

Definition choice (is_online : NodeId -> ClientId -> bool) (rand : nat -> Z) (ncs : list Cand)
    : option (nat * bool) :=
  match ncs with
  | [] => None
  | _ => choice_loop is_online rand (length ncs) (zip (seq 0 (length ncs)) ncs)
  end.

(** The trait [SharedSubscription]: a choice names a candidate. *)
Class SharedSubscription : Type := {
  pick : list Cand -> option (nat * bool);
  pick_valid ncs idx online : pick ncs = Some (idx, online) -> idx < length ncs
}.

(** ** The router *)

Abbreviation Rels := (gmap ClientId (Id * SubscriptionOptions)).

Record DefaultRouter : Type := mkRouter {
  topics : TopicTree.Node unit;
  topics_count : Z;
  relations : gmap TopicFilter Rels;
  relations_count : Z
}.

Definition router_new : DefaultRouter := mkRouter TopicTree.node_default 0 ∅ 0.

Definition add (topic_filter : string) (id : Id) (opts : SubscriptionOptions) (r : DefaultRouter)
    : result TopicError DefaultRouter :=
  let? topic := from_str topic_filter in
  let topics := snd (TopicTree.insert topic tt (topics r)) in
  let '(rels, topics_count) :=
    match relations r !! topic_filter with
    | Some rels => (rels, topics_count r)
    | None => (∅, (topics_count r + 1)%Z)
    end in
  let relations_count :=
    match rels !! client_id id with
    | Some _ => relations_count r
    | None => (relations_count r + 1)%Z
    end in
  Ok (mkRouter topics topics_count
        (<[topic_filter := <[client_id id := (id, opts)]> rels]> (relations r)) relations_count).

(** The part under the entry's lock: the entry becomes empty?, removed? *)
Definition remove_relation (topic_filter : string) (id : Id) (r : DefaultRouter)
    : option (bool * bool) * DefaultRouter :=
  match relations r !! topic_filter with
  | Some rels =>
      match rels !! client_id id with
      | Some (s_id, _) =>
          if negb (Id_eq s_id id) then (None, r)
          else
            let rels' := delete (client_id id) rels in
            (Some (bool_decide (rels' = ∅), true),
             mkRouter (topics r) (topics_count r) (<[topic_filter := rels']> (relations r))
               (relations_count r - 1)%Z)
      | None => (None, r)
      end
  | None => (None, r)
  end.

(** The part after it, under other locks. *)
Definition remove_entry (topic_filter : string) (is_empty remove_ok : bool) (r : DefaultRouter)
    : result TopicError bool * DefaultRouter :=
  if is_empty then
    let topics_count :=
      match relations r !! topic_filter with
      | Some _ => (topics_count r - 1)%Z
      | None => topics_count r
      end in
    let r := mkRouter (topics r) topics_count (delete topic_filter (relations r)) (relations_count r) in
    match from_str topic_filter with
    | Err e => (Err e, r)
    | Ok topic =>
        (Ok remove_ok,
         mkRouter (snd (TopicTree.remove topic tt (topics r))) (Router.topics_count r)
           (relations r) (relations_count r))
    end
  else (Ok remove_ok, r).

Definition remove (topic_filter : string) (id : Id) (r : DefaultRouter)
    : result TopicError bool * DefaultRouter :=
  let '(res, r) := remove_relation topic_filter id r in
  match res with
  | Some (is_empty, remove_ok) => remove_entry topic_filter is_empty remove_ok r
  | None => (Ok false, r)
  end.

(** [Vec<&Level>::to_topic_filter]: the loop of [Display for Topic]. *)
Definition to_topic_filter (levels : list Level) : TopicFilter := fmt_loop true levels.

(** [topics.matches(&topic).iter()], over which the callers loop. *)
Definition matched (r : DefaultRouter) (topic : Topic) : list (list Level * gset unit) :=
  TopicTree.collect (topics r) topic.

Definition _has_matches (topic : string) (r : DefaultRouter) : result TopicError bool :=
  let? topic := from_str topic in Ok (TopicTree.is_match (topics r) topic).

Section matching.
Context `{SharedSubscription}.
Context (is_online : NodeId -> ClientId -> bool).

Abbreviation CollectorMap := (gmap NodeId Collector).

(** [collector_map.entry(node_id).or_default().add(..)]. *)
Definition entry_add (node : NodeId) (tf : TopicFilter) (cid : ClientId) (o : SubscriptionOptions)
    (group : option SharedGroupType) (cm : CollectorMap) : CollectorMap :=
  <[node := collector_add (default collector_default (cm !! node)) tf cid o group]> cm.

(** MQTT V5: No Local. *)
Definition skipped (this_id id : Id) (o : SubscriptionOptions) : bool :=
  match no_local o with Some nl => nl && Id_eq this_id id | None => false end.

(** One subscriber of a matching filter. *)
Definition visit_rel (this_id : Id) (tf : TopicFilter)
    (acc : CollectorMap * gmap SharedGroup (list Cand)) (rel : ClientId * (Id * SubscriptionOptions))
    : CollectorMap * gmap SharedGroup (list Cand) :=
  let '(cm, groups) := acc in
  let '(cid, (id, o)) := rel in
  if skipped this_id id o then acc
  else
    match shared_group o with
    | Some group =>
        (cm, <[group := default [] (groups !! group)
                        ++ [(node_id id, cid, o, None, Some (is_online (node_id id) cid))]]> groups)
    | None => (entry_add (node_id id) tf cid o None cm, groups)
    end.

(** One shared group of a matching filter. *)
Definition visit_group (tf : TopicFilter) (cm : CollectorMap) (g : SharedGroup * list Cand)
    : CollectorMap :=
  let '(group, s_subs) := g in
  let group_cids := map cand_client s_subs in
  match pick s_subs with
  | Some (idx, online) =>
      match s_subs !! idx with
      | Some c => entry_add (cand_node c) tf (cand_client c) (cand_opts c)
                    (Some (group, online, group_cids)) cm
      | None => cm
      end
  | None => cm
  end.

Definition visit_filter (this_id : Id) (r : DefaultRouter) (cm : CollectorMap)
    (item : list Level * gset unit) : CollectorMap :=
  let tf := to_topic_filter (fst item) in
  let '(cm, groups) :=
    match relations r !! tf with
    | Some rels => fold_left (visit_rel this_id tf) (map_to_list rels) (cm, ∅)
    | None => (cm, ∅)
    end in
  fold_left (visit_group tf) (map_to_list groups) cm.

Definition _matches (this_id : Id) (topic_name : TopicName) (r : DefaultRouter)
    : result TopicError (gmap NodeId (list SubRelation)) :=
  let? topic := from_str topic_name in
  Ok (collector_into <$> fold_left (visit_filter this_id r) (matched r topic) ∅).

End matching.

(** ** Routes and queries *)

Record Route : Type := mkRoute { route_node : NodeId; route_topic : TopicFilter }.

#[export] Instance Route_eq_dec : EqDecision Route.
Proof. solve_decision. Defined.

(** [Itertools::unique]: the first occurrence of each item. *)
Fixpoint unique_from {A} `{EqDecision A} (seen l : list A) : list A :=
  match l with
  | [] => []
  | x :: l' => if decide (x ∈ seen) then unique_from seen l' else x :: unique_from (x :: seen) l'
  end.

Definition unique {A} `{EqDecision A} (l : list A) : list A := unique_from [] l.

Definition rel_nodes (rels : Rels) : list NodeId := map (fun x => node_id (fst (snd x))) (map_to_list rels).

Definition gets (limit : nat) (r : DefaultRouter) : list Route :=
  take limit (map_to_list (relations r) ≫= (fun '(tf, rels) =>
    map (fun n => mkRoute n tf) (unique (rel_nodes rels)))).

Definition _get_routes (node : NodeId) (topic : string) (r : DefaultRouter)
    : result TopicError (list Route) :=
  let? topic := from_str topic in
  Ok (map (fun item => mkRoute node (to_topic_filter (fst item))) (unique (matched r topic))).

Definition get (topic : string) (r : DefaultRouter) : result TopicError (list Route) :=
  let? topic := from_str topic in
  Ok (unique (matched r topic) ≫= (fun item =>
    let tf := to_topic_filter (fst item) in
    match relations r !! tf with
    | Some rels => map (fun n => mkRoute n tf) (unique (rel_nodes rels))
    | None => []
    end)).

Record SubsSearchParams : Type := mkQuery {
  q_limit : nat;
  q_clientid : option string;
  q_topic : option string;
  q_qos : option Z;
  q_share : option SharedGroup;
  q_match_topic : option string
}.

Record SubsSearchResult : Type := mkFound {
  found_node : NodeId;
  found_client : ClientId;
  found_addr : option string;
  found_topic : TopicFilter;
  found_opts : SubscriptionOptions
}.

Section query.
(** The codec's [QoS::value]. *)
Context (value : QoS -> Z).

Definition _query_subscriptions_filter (q : SubsSearchParams) (cid : string) (o : SubscriptionOptions)
    : bool :=
  if match q_clientid q with Some c => negb (bool_decide (c = cid)) | None => false end then false
  else if match q_qos q with Some v => negb (v =? qos_value value o)%Z | None => false end then false
  else
    match q_share q, shared_group o with
    | Some q_group, Some group => bool_decide (q_group = group)
    | Some _, None => false
    | _, _ => true
    end.

Definition found_in (q : SubsSearchParams) (tf : TopicFilter) (rels : Rels) : list SubsSearchResult :=
  map (fun '(cid, (id, o)) => mkFound (node_id id) cid (remote_addr id) tf o)
    (filter (fun '(cid, (id, o)) => _query_subscriptions_filter q cid o = true) (map_to_list rels)).

Definition _query_subscriptions_for_topic (q : SubsSearchParams) (topic : string) (r : DefaultRouter)
    : list SubsSearchResult :=
  match relations r !! topic with
  | Some rels => take (q_limit q) (found_in q topic rels)
  | None => []
  end.

Definition _query_subscriptions_for_matches (q : SubsSearchParams) (match_topic : string)
    (r : DefaultRouter) : list SubsSearchResult :=
  match from_str match_topic with
  | Ok topic =>
      take (q_limit q) (unique (matched r topic) ≫= (fun item =>
        let tf := to_topic_filter (fst item) in
        match relations r !! tf with
        | Some rels => found_in q tf rels
        | None => []
        end))
  | Err _ => []
  end.

Definition _query_subscriptions_for_other (q : SubsSearchParams) (r : DefaultRouter)
    : list SubsSearchResult :=
  take (q_limit q) (map_to_list (relations r) ≫= (fun '(tf, rels) => found_in q tf rels)).

Definition _query_subscriptions (q : SubsSearchParams) (r : DefaultRouter) : list SubsSearchResult :=
  match q_topic q with
  | Some topic => _query_subscriptions_for_topic q topic r
  | None =>
      match q_match_topic q with
      | Some t => _query_subscriptions_for_matches q t r
      | None => _query_subscriptions_for_other q r
      end
  end.

End query.

(** ** Invariant *)

Definition rels_total (rs : gmap TopicFilter Rels) : Z :=
  map_fold (fun _ rels acc => (Z.of_nat (size rels) + acc)%Z) 0%Z rs.

(** The tree holds exactly the filters with subscribers, entries are not empty
    and keyed by the client's id, and the counters count. *)
Record rwf (r : DefaultRouter) : Prop := mkRwf {
  rwf_entry : forall tf rels, relations r !! tf = Some rels -> rels <> ∅ /\ is_ok (from_str tf) = true;
  rwf_key : forall tf rels cid id o, relations r !! tf = Some rels -> rels !! cid = Some (id, o) ->
              client_id id = cid;
  rwf_tree : forall f, TopicTree.contents (topics r) f <> ∅
               <-> exists tf, from_str tf = Ok f /\ is_Some (relations r !! tf);
  rwf_pruned : TopicTree.pruned (topics r);
  rwf_topics : topics_count r = Z.of_nat (size (relations r));
  rwf_rels : relations_count r = rels_total (relations r)
}.

Inductive RouterOp : Type :=
| RAdd (tf : string) (id : Id) (o : SubscriptionOptions)
| RRemove (tf : string) (id : Id).

Definition router_step (r : DefaultRouter) (o : RouterOp) : DefaultRouter :=
  match o with
  | RAdd tf id o => match add tf id o r with Ok r' => r' | Err _ => r end
  | RRemove tf id => snd (remove tf id r)
  end.

Definition router_run (os : list RouterOp) : DefaultRouter := fold_left router_step os router_new.

(** The specification: who is subscribed to what. *)
Abbreviation sub_map := (gmap (TopicFilter * ClientId) (Id * SubscriptionOptions)).

Definition sub_step (m : sub_map) (o : RouterOp) : sub_map :=
  match o with
  | RAdd tf id o => if is_ok (from_str tf) then <[(tf, client_id id) := (id, o)]> m else m
  | RRemove tf id =>
      match m !! (tf, client_id id) with
      | Some (s_id, _) => if decide (s_id = id) then delete (tf, client_id id) m else m
      | None => m
      end
  end.

Definition subscribed (r : DefaultRouter) (tf : TopicFilter) (cid : ClientId)
    : option (Id * SubscriptionOptions) := relations r !! tf ≫= (.!! cid).

(** ** Lemmas: the state *)

Lemma rels_total_insert tf rels rs :
  rs !! tf = None -> rels_total (<[tf := rels]> rs) = (Z.of_nat (size rels) + rels_total rs)%Z.
Proof. intros Hn. unfold rels_total. rewrite map_fold_insert_L; [done| |done]. intros. lia. Qed.

Lemma rels_total_delete tf rels rs :
  rs !! tf = Some rels -> rels_total rs = (Z.of_nat (size rels) + rels_total (delete tf rs))%Z.
Proof.
  intros Hs. rewrite <- (insert_delete_id _ _ _ Hs) at 1.
  rewrite rels_total_insert; [done|]. apply lookup_delete_eq.
Qed.

Lemma rels_total_update tf rels rels' rs :
  rs !! tf = Some rels ->
  rels_total (<[tf := rels']> rs) = (rels_total rs + (Z.of_nat (size rels') - Z.of_nat (size rels)))%Z.
Proof.
  intros Hs. rewrite (rels_total_delete _ _ _ Hs), <- insert_delete_eq.
  rewrite rels_total_insert by apply lookup_delete_eq. lia.
Qed.

Lemma from_str_to_topic_filter tf f : from_str tf = Ok f -> to_topic_filter f = tf.
Proof.
  intros Hf. unfold to_topic_filter. fold (to_string f). by apply from_str_print.
Qed.

Lemma from_str_inj tf tf' f : from_str tf = Ok f -> from_str tf' = Ok f -> tf = tf'.
Proof. intros H1 H2. by rewrite <- (from_str_to_topic_filter _ _ H1), <- (from_str_to_topic_filter _ _ H2). Qed.

Lemma add_rwf tf id o r r' : rwf r -> add tf id o r = Ok r' -> rwf r'.
Proof.
  intros [He Hk Ht Hp Hc Hr]. unfold add. destruct (from_str tf) as [f|] eqn:Hf; [|done]. simpl.
  assert (forall rs : gmap TopicFilter Rels, (forall tf', is_Some (rs !! tf') <-> is_Some (relations r !! tf') \/ tf' = tf) ->
    forall g, TopicTree.contents (snd (TopicTree.insert f tt (topics r))) g <> ∅
      <-> exists tf', from_str tf' = Ok g /\ is_Some (rs !! tf')) as Htree.
  { intros rs Hrs g. unfold TopicTree.insert. rewrite TopicTree._insert_contents. case_decide as Hg.
    - subst g. split; [intros _; exists tf; split; [done|]; apply Hrs; by right | intros _; set_solver].
    - rewrite Ht. split; intros (tf' & Hf' & Hs); exists tf'; (split; [done|]).
      + apply Hrs. by left.
      + apply Hrs in Hs as [?| ->]; [done|]. congruence. }
  pose proof (TopicTree._insert_pruned f tt (topics r) Hp) as Hpr.
  destruct (relations r !! tf) as [rels|] eqn:Hrels; intros [= <-]; constructor; simpl; try done.
  - intros tf' rels'. rewrite lookup_insert_Some. intros [[<- <-]|[_ Hl]]; [|by apply He].
    rewrite Hf. split; [apply insert_non_empty | done].
  - intros tf' rels' cid id' o'. rewrite lookup_insert_Some. intros [[<- <-]|[_ Hl]]; [|by eapply Hk].
    rewrite lookup_insert_Some. intros [[<- [= <- <-]]|[_ Hx]]; [done | by eapply Hk].
  - apply Htree. intros tf'. rewrite lookup_insert_is_Some. destruct (decide (tf = tf')) as [->|]; naive_solver.
  - rewrite map_size_insert_Some by done. done.
  - rewrite (rels_total_update tf rels), <- Hr by done.
    destruct (rels !! client_id id) eqn:Hx; [rewrite map_size_insert_Some by done | rewrite map_size_insert_None by done]; lia.
  - intros tf' rels'. rewrite lookup_insert_Some. intros [[<- <-]|[_ Hl]]; [|by apply He].
    rewrite Hf. split; [apply insert_non_empty | done].
  - intros tf' rels' cid id' o'. rewrite lookup_insert_Some. intros [[<- <-]|[_ Hl]]; [|by eapply Hk].
    rewrite lookup_insert_Some, lookup_empty. naive_solver.
  - apply Htree. intros tf'. rewrite lookup_insert_is_Some. destruct (decide (tf = tf')) as [->|]; naive_solver.
  - rewrite map_size_insert_None by done. lia.
  - rewrite rels_total_insert, <- Hr by done. rewrite lookup_empty, map_size_insert_None by apply lookup_empty.
    rewrite map_size_empty. lia.
Qed.

Lemma add_subscribed tf id o r r' tf' cid :
  add tf id o r = Ok r' ->
  subscribed r' tf' cid = if decide (tf' = tf /\ cid = client_id id) then Some (id, o) else subscribed r tf' cid.
Proof.
  unfold add, subscribed. destruct (from_str tf) as [f|]; [|done]. simpl.
  destruct (relations r !! tf) as [rels|] eqn:Hrels; intros [= <-]; simpl;
    rewrite lookup_insert; (destruct (decide (tf = tf')) as [->|Hne]; simpl;
      [|rewrite decide_False by naive_solver; done]);
    rewrite lookup_insert, ?lookup_empty, ?Hrels; simpl; repeat case_decide; naive_solver.
Qed.

(** What [remove] does when the relation is there with the same id. *)
Lemma remove_cases tf id r :
  rwf r ->
  (remove tf id r = (Ok false, r) /\ (forall s_id o, subscribed r tf (client_id id) = Some (s_id, o) -> s_id <> id))
  \/ exists rels o f, relations r !! tf = Some rels /\ rels !! client_id id = Some (id, o) /\ from_str tf = Ok f
     /\ remove tf id r = (Ok true,
          let rels' := delete (client_id id) rels in
          if decide (rels' = ∅)
          then mkRouter (snd (TopicTree.remove f tt (topics r))) (topics_count r - 1)
                 (delete tf (relations r)) (relations_count r - 1)
          else mkRouter (topics r) (topics_count r) (<[tf := rels']> (relations r)) (relations_count r - 1)).
Proof.
  intros Hwf. unfold remove, remove_entry, remove_relation, subscribed.
  destruct (relations r !! tf) as [rels|] eqn:Hrels; [|by left; split; [done|]].
  simpl. destruct (rels !! client_id id) as [[s_id o]|] eqn:Hx; [|by left; split; [done|]].
  rewrite Id_eq_spec. case_bool_decide as Hid; simpl; [subst s_id|left; split; [done|]; naive_solver].
  right. destruct (rwf_entry _ Hwf tf rels Hrels) as [_ Hok].
  destruct (from_str tf) as [f|] eqn:Hf; [|done]. exists rels, o, f. split; [done|]. split; [done|]. split; [done|].
  case_bool_decide as Hem; simpl.
  - rewrite lookup_insert_eq, (decide_True (P := delete (client_id id) rels = ∅)) by done.
    by rewrite delete_insert_eq.
  - by rewrite decide_False.
Qed.

Lemma remove_rwf tf id r : rwf r -> rwf (snd (remove tf id r)).
Proof.
  intros Hwf. destruct (remove_cases tf id r Hwf) as [[-> _]|(rels & o & f & Hrels & Hx & Hf & ->)]; [done|].
  destruct Hwf as [He Hk Ht Hp Hc Hr]. simpl. case_decide as Hem; constructor; simpl.
  - intros tf' rels'. rewrite lookup_delete_Some. naive_solver.
  - intros tf' rels' cid id' o'. rewrite lookup_delete_Some. naive_solver.
  - intros g. unfold TopicTree.remove. rewrite TopicTree._remove_contents. setoid_rewrite lookup_delete_is_Some.
    case_decide as Hg.
    + subst g. split; [intros Hn; destruct Hn; apply set_eq; intros []; set_solver|].
      intros (tf' & Hf' & Hne & _). by destruct Hne; eapply from_str_inj.
    + rewrite Ht. split; [|naive_solver]. intros (tf' & Hf' & Hs). exists tf'. repeat split; try done.
      intros <-. congruence.
  - by apply TopicTree._remove_pruned.
  - rewrite map_size_delete_Some by done. assert (size (relations r) <> 0); [|lia].
    apply map_size_ne_0_lookup. eauto.
  - rewrite Hr, (rels_total_delete tf rels) by done.
    assert (size rels = 1) as ->; [|lia].
    assert (rels = {[client_id id := (id, o)]}) as ->; [|apply map_size_singleton].
    by rewrite <- (insert_delete_id _ _ _ Hx), Hem.
  - intros tf' rels'. rewrite lookup_insert_Some. intros [[<- <-]|[_ Hl]]; [|by apply He].
    split; [done|]. by rewrite Hf.
  - intros tf' rels' cid id' o'. rewrite lookup_insert_Some. intros [[<- <-]|[_ Hl]]; [|by eapply Hk].
    rewrite lookup_delete_Some. intros [_ Hx']. by eapply Hk.
  - intros g. rewrite Ht. setoid_rewrite lookup_insert_is_Some. split; intros (tf' & Hf' & Hs); exists tf'; (split; [done|]).
    + destruct (decide (tf = tf')); eauto.
    + destruct Hs as [<-|[_ Hs]]; eauto.
  - done.
  - rewrite map_size_insert_Some by done. done.
  - rewrite (rels_total_update tf rels), <- Hr, map_size_delete_Some by done.
    assert (size rels <> 0); [apply map_size_ne_0_lookup; eauto | lia].
Qed.

Lemma remove_subscribed tf id r tf' cid :
  rwf r ->
  subscribed (snd (remove tf id r)) tf' cid
  = if decide (tf' = tf /\ cid = client_id id /\ (fst <$> subscribed r tf cid) = Some id)
    then None else subscribed r tf' cid.
Proof.
  intros Hwf. destruct (remove_cases tf id r Hwf) as [[-> Hno]|(rels & o & f & Hrels & Hx & Hf & ->)]; simpl.
  - rewrite decide_False; [done|]. intros (-> & -> & Hs).
    destruct (subscribed r tf (client_id id)) as [[s_id o]|] eqn:Hsub; [|done]. injection Hs as ->. by eapply Hno.
  - unfold subscribed. case_decide as Hem; simpl.
    + rewrite lookup_delete. destruct (decide (tf = tf')) as [<-|Hne]; simpl; [|by rewrite decide_False by naive_solver].
      rewrite Hrels. simpl. destruct (decide (cid = client_id id)) as [->|Hc].
      * rewrite decide_True; [done|]. by rewrite Hx.
      * rewrite decide_False by naive_solver.
        assert (delete (client_id id) rels !! cid = None) as Hn by by rewrite Hem, lookup_empty.
        by rewrite lookup_delete_ne in Hn.
    + rewrite lookup_insert. destruct (decide (tf = tf')) as [<-|Hne]; simpl; [|by rewrite decide_False by naive_solver].
      rewrite Hrels. simpl. rewrite lookup_delete. destruct (decide (client_id id = cid)) as [<-|Hc].
      * rewrite decide_True; [done|]. by rewrite Hx.
      * by rewrite decide_False by naive_solver.
Qed.

Lemma router_new_rwf : rwf router_new.
Proof.
  constructor; simpl; try done.
  - intros f. rewrite TopicTree.contents_default. setoid_rewrite lookup_empty.
    split; [done|]. intros (tf & _ & [? [=]]).
  - apply TopicTree.pruned_default.
Qed.

Lemma router_step_spec r m o :
  rwf r -> (forall tf cid, subscribed r tf cid = m !! (tf, cid)) ->
  rwf (router_step r o) /\ forall tf cid, subscribed (router_step r o) tf cid = sub_step m o !! (tf, cid).
Proof.
  intros Hwf Hm. destruct o as [tf id o|tf id]; simpl.
  - destruct (add tf id o r) as [r'|] eqn:Ha.
    + split; [by eapply add_rwf|]. intros tf' cid. rewrite (add_subscribed _ _ _ _ _ tf' cid Ha), Hm.
      unfold add in Ha. destruct (from_str tf); [|done]. cbn [is_ok]. rewrite lookup_insert.
      repeat case_decide; naive_solver.
    + split; [done|]. intros tf' cid. rewrite Hm. unfold add in Ha. destruct (from_str tf); [|done].
      simpl in Ha. by destruct (relations r !! tf).
  - split; [by apply remove_rwf|]. intros tf' cid. rewrite remove_subscribed, !Hm by done.
    destruct (m !! (tf, client_id id)) as [[s_id o]|] eqn:Hs.
    + destruct (decide (s_id = id)) as [->|Hne].
      * rewrite lookup_delete. destruct (decide ((tf, client_id id) = (tf', cid))) as [[= <- <-]|Hk].
        -- by rewrite decide_True by by rewrite Hs.
        -- rewrite decide_False; [done|]. intros (-> & -> & _). by destruct Hk.
      * rewrite decide_False; [done|]. intros (-> & -> & Hx). rewrite Hs in Hx. naive_solver.
    + rewrite decide_False; [done|]. intros (-> & -> & Hx). by rewrite Hs in Hx.
Qed.

Lemma router_run_spec os :
  rwf (router_run os) /\ forall tf cid, subscribed (router_run os) tf cid = fold_left sub_step os ∅ !! (tf, cid).
Proof.
  unfold router_run.
  assert (forall r m, rwf r -> (forall tf cid, subscribed r tf cid = m !! (tf, cid)) ->
    rwf (fold_left router_step os r)
    /\ forall tf cid, subscribed (fold_left router_step os r) tf cid = fold_left sub_step os m !! (tf, cid)) as Hgen.
  { induction os as [|o os IH]; intros r m Hwf Hm; [done|].
    destruct (router_step_spec r m o Hwf Hm) as [Hwf' Hm']. by apply IH. }
  apply Hgen; [apply router_new_rwf|]. intros tf cid. unfold subscribed. simpl. by rewrite !lookup_empty.
Qed.

(** ** Lemmas: matching *)

(** A client of a node is among the collected ones. *)
Definition routed (n : NodeId) (x : ClientId) (cm : gmap NodeId (list SubRelation)) : Prop :=
  exists rels rel, cm !! n = Some rels /\ rel ∈ rels /\ (let '(_, cid, _, _, _) := rel in cid) = x.

Definition collects (n : NodeId) (x : ClientId) (cm : gmap NodeId Collector) : Prop :=
  routed n x (collector_into <$> cm).

Definition has_client (x : ClientId) (c : Collector) : Prop :=
  exists rel, rel ∈ collector_into c /\ (let '(_, cid, _, _, _) := rel : SubRelation in cid) = x.

Lemma has_client_alt x c :
  has_client x c
  <-> (exists rel, rel ∈ v3_rels c /\ (let '(_, cid, _, _, _) := rel : SubRelation in cid) = x)
      \/ is_Some (v5_rels c !! x).
Proof.
  unfold has_client, collector_into. setoid_rewrite elem_of_app. setoid_rewrite list_elem_of_fmap. split.
  - intros (rel & [Hin|([cid [[[tf o] ids] g]] & -> & Hin)] & Hx); [left; eauto | right].
    simpl in Hx. subst. apply elem_of_map_to_list in Hin. eauto.
  - intros [(rel & Hin & Hx)|[[[[tf o] ids] g] He]]; [by eauto|].
    exists (tf, x, o, ids, g). split; [|done]. right. exists (x, (tf, o, ids, g)).
    by rewrite elem_of_map_to_list.
Qed.

Lemma collector_add_client c tf cid o g x :
  has_client x (collector_add c tf cid o g) <-> x = cid \/ has_client x c.
Proof.
  rewrite !has_client_alt. unfold collector_add. destruct (is_v3 o); simpl.
  - setoid_rewrite elem_of_app. setoid_rewrite list_elem_of_singleton. split.
    + intros [(rel & [Hin| ->] & Hx)|Hs]; [right; left; by eauto | by left | right; by right].
    + intros [->|[(rel & Hin & Hx)|Hs]]; [left; eexists; split; [by right|done] | left; by eauto | by right].
  - rewrite lookup_insert_is_Some. destruct (decide (cid = x)) as [->|]; naive_solver.
Qed.

Lemma collects_alt n x cm : collects n x cm <-> exists c, cm !! n = Some c /\ has_client x c.
Proof.
  unfold collects, routed, has_client. setoid_rewrite lookup_fmap_Some. naive_solver.
Qed.

Lemma entry_add_collects n x node tf cid o g cm :
  collects n x (entry_add node tf cid o g cm) <-> (n = node /\ x = cid) \/ collects n x cm.
Proof.
  rewrite !collects_alt. unfold entry_add. destruct (decide (n = node)) as [->|Hne].
  - rewrite lookup_insert_eq. split.
    + intros (c & [= <-] & [->|Hc]%collector_add_client); [by left|]. right.
      destruct (cm !! node) as [c|] eqn:Hn; simpl in Hc; [by eauto|].
      destruct Hc as (rel & Hin & _). by apply not_elem_of_nil in Hin.
    + intros [[_ ->]|(c & Hc & Hx)]; eexists; (split; [done|]); apply collector_add_client; [by left|].
      right. by rewrite Hc.
  - rewrite lookup_insert_ne by done. naive_solver.
Qed.

Section matching_lemmas.
Context `{SharedSubscription}.
Context (is_online : NodeId -> ClientId -> bool).

(** The subscribers [visit_rel] delivers to at once, and the candidates it
    puts aside for a shared group. *)
Definition direct (this_id : Id) (rels : list (ClientId * (Id * SubscriptionOptions)))
    (n : NodeId) (x : ClientId) : Prop :=
  exists id o, (x, (id, o)) ∈ rels /\ skipped this_id id o = false /\ shared_group o = None /\ n = node_id id.

Definition candidate (id : Id) (cid : ClientId) (o : SubscriptionOptions) : Cand :=
  (node_id id, cid, o, None, Some (is_online (node_id id) cid)).

Definition grouped (this_id : Id) (rels : list (ClientId * (Id * SubscriptionOptions)))
    (g : SharedGroup) (c : Cand) : Prop :=
  exists id o cid, (cid, (id, o)) ∈ rels /\ skipped this_id id o = false /\ shared_group o = Some g
    /\ c = candidate id cid o.

Definition in_group (groups : gmap SharedGroup (list Cand)) (g : SharedGroup) (c : Cand) : Prop :=
  c ∈ default [] (groups !! g).

Lemma direct_cons this_id cid id o rels n x :
  direct this_id ((cid, (id, o)) :: rels) n x
  <-> (x = cid /\ skipped this_id id o = false /\ shared_group o = None /\ n = node_id id)
      \/ direct this_id rels n x.
Proof.
  unfold direct. setoid_rewrite elem_of_cons. split.
  - intros (id' & o' & [[= -> -> ->]|Hin] & Hs); [by left | right; by eauto].
  - intros [(-> & Hs)|(id' & o' & Hin & Hs)]; [exists id, o | exists id', o']; by eauto.
Qed.

Lemma grouped_cons this_id cid id o rels g c :
  grouped this_id ((cid, (id, o)) :: rels) g c
  <-> (skipped this_id id o = false /\ shared_group o = Some g /\ c = candidate id cid o)
      \/ grouped this_id rels g c.
Proof.
  unfold grouped. setoid_rewrite elem_of_cons. split.
  - intros (id' & o' & cid' & [[= -> -> ->]|Hin] & Hs); [by left | right; by eauto 10].
  - intros [Hs|(id' & o' & cid' & Hin & Hs)]; [exists id, o, cid | exists id', o', cid']; by eauto.
Qed.

Lemma in_group_insert groups group cs g c :
  in_group (<[group := default [] (groups !! group) ++ cs]> groups) g c
  <-> in_group groups g c \/ (g = group /\ c ∈ cs).
Proof.
  unfold in_group. rewrite lookup_insert. case_decide as Hg; [subst; simpl; rewrite elem_of_app | ]; naive_solver.
Qed.

Lemma visit_rels_spec this_id tf rels cm groups :
  let '(cm', groups') := fold_left (visit_rel is_online this_id tf) rels (cm, groups) in
  (forall n x, collects n x cm' <-> collects n x cm \/ direct this_id rels n x)
  /\ (forall g c, in_group groups' g c <-> in_group groups g c \/ grouped this_id rels g c).
Proof.
  revert cm groups. induction rels as [|[cid [id o]] rels IH]; intros cm groups; cbn [fold_left].
  { unfold direct, grouped. setoid_rewrite elem_of_nil. naive_solver. }
  unfold visit_rel at 2. fold (candidate id cid o).
  destruct (skipped this_id id o) eqn:Hskip; [|destruct (shared_group o) as [group|] eqn:Hg].
  - specialize (IH cm groups). destruct (fold_left _ rels _) as [cm' groups']. destruct IH as [IH1 IH2].
    split; intros; [rewrite IH1, direct_cons | rewrite IH2, grouped_cons]; rewrite Hskip; intuition congruence.
  - specialize (IH cm (<[group := default [] (groups !! group) ++ [candidate id cid o]]> groups)).
    destruct (fold_left _ rels _) as [cm' groups']. destruct IH as [IH1 IH2].
    split; intros; [rewrite IH1, direct_cons | rewrite IH2, grouped_cons, in_group_insert, list_elem_of_singleton];
      rewrite Hskip, Hg; intuition congruence.
  - specialize (IH (entry_add (node_id id) tf cid o None cm) groups).
    destruct (fold_left _ rels _) as [cm' groups']. destruct IH as [IH1 IH2].
    split; intros; [rewrite IH1, direct_cons, entry_add_collects | rewrite IH2, grouped_cons];
      rewrite Hskip, Hg; intuition congruence.
Qed.

(** The client a group's choice delivers to. *)
Definition chosen (cs : list Cand) (c : Cand) : Prop :=
  exists idx online, pick cs = Some (idx, online) /\ cs !! idx = Some c.

Lemma visit_groups_spec tf groups cm n x :
  collects n x (fold_left (visit_group tf) groups cm)
  <-> collects n x cm
      \/ exists g cs c, (g, cs) ∈ groups /\ chosen cs c /\ n = cand_node c /\ x = cand_client c.
Proof.
  revert cm. induction groups as [|[g cs] groups IH]; intros cm; cbn [fold_left].
  { split; [by left|]. intros [?|(? & ? & ? & Hx & _)]; [done | by apply not_elem_of_nil in Hx]. }
  rewrite IH. setoid_rewrite elem_of_cons. unfold visit_group.
  destruct (pick cs) as [[idx online]|] eqn:Hp.
  - destruct (cs !! idx) as [c|] eqn:Hc.
    + rewrite entry_add_collects. assert (chosen cs c) by (by exists idx, online). split.
      * intros [[[-> ->]|?]|?]; [right; by eauto 10 | by left | right; naive_solver].
      * intros [?|(g' & cs' & c' & [[= -> ->]|Hin] & Hch & -> & ->)]; [left; by right | | right; by eauto 10].
        left. left. destruct Hch as (i & on & Hpi & Hci). rewrite Hp in Hpi. injection Hpi as <- <-. naive_solver.
    + split; [naive_solver|]. intros [?|(g' & cs' & c' & [[= -> ->]|Hin] & Hch & -> & ->)]; [by left | | right; by eauto 10].
      destruct Hch as (i & on & Hpi & Hci). rewrite Hp in Hpi. injection Hpi as <- <-. congruence.
  - split; [naive_solver|]. intros [?|(g' & cs' & c' & [[= -> ->]|Hin] & Hch & -> & ->)]; [by left | | right; by eauto 10].
    destruct Hch as (i & on & Hpi & Hci). congruence.
Qed.

(** The member of group [g] a message from [this_id] goes to through [tf]. *)
Definition winner (this_id : Id) (r : DefaultRouter) (tf : TopicFilter) (g : SharedGroup) : option Cand :=
  rels ← relations r !! tf;
  cs ← snd (fold_left (visit_rel is_online this_id tf) (map_to_list rels) (∅, ∅)) !! g;
  '(idx, _) ← pick cs;
  cs !! idx.

Lemma visit_rels_groups this_id tf rels cm cm' groups :
  snd (fold_left (visit_rel is_online this_id tf) rels (cm, groups))
  = snd (fold_left (visit_rel is_online this_id tf) rels (cm', groups)).
Proof.
  revert cm cm' groups. induction rels as [|[cid [id o]] rels IH]; intros cm cm' groups; cbn [fold_left]; [done|].
  unfold visit_rel at 2 4. destruct (skipped this_id id o); [apply IH|]. destruct (shared_group o); apply IH.
Qed.

(** What one matching filter adds: the subscribers outside shared groups and
    the winner of every group. *)
Lemma visit_filter_collects this_id r cm item n x :
  collects n x (visit_filter is_online this_id r cm item)
  <-> collects n x cm
      \/ (exists id o, subscribed r (to_topic_filter (fst item)) x = Some (id, o)
           /\ skipped this_id id o = false /\ shared_group o = None /\ n = node_id id)
      \/ (exists g c, winner this_id r (to_topic_filter (fst item)) g = Some c /\ n = cand_node c /\ x = cand_client c).
Proof.
  unfold visit_filter, subscribed, winner. set (tf := to_topic_filter _).
  destruct (relations r !! tf) as [rels|]; simpl; [|naive_solver].
  pose proof (visit_rels_spec this_id tf (map_to_list rels) cm ∅) as Hv.
  rewrite (visit_rels_groups this_id tf (map_to_list rels) ∅ cm ∅).
  destruct (fold_left _ (map_to_list rels) (cm, _)) as [cm' groups]. destruct Hv as [Hd _]. simpl.
  rewrite visit_groups_spec, Hd. unfold direct. setoid_rewrite elem_of_map_to_list.
  assert (forall c g, (groups !! g ≫= (fun cs => '(idx, _) ← pick cs; cs !! idx)) = Some c
    <-> exists cs, groups !! g = Some cs /\ chosen cs c) as Hw.
  { intros c g. unfold chosen. destruct (groups !! g) as [cs|]; simpl; [|naive_solver].
    destruct (pick cs) as [[idx online]|] eqn:Hp; simpl.
    - split; [intros Hc; exists cs; split; [done|]; by exists idx, online|].
      intros (cs' & [= <-] & idx' & online' & Hp' & Hc). congruence.
    - split; [done|]. intros (cs' & [= <-] & idx' & online' & Hp' & Hc). congruence. }
  setoid_rewrite Hw. naive_solver.
Qed.

Lemma visit_filters_collects this_id r items cm n x :
  collects n x (fold_left (visit_filter is_online this_id r) items cm)
  <-> collects n x cm
      \/ exists tf, tf ∈ map (fun item => to_topic_filter (fst item)) items
           /\ ((exists id o, subscribed r tf x = Some (id, o)
                  /\ skipped this_id id o = false /\ shared_group o = None /\ n = node_id id)
               \/ (exists g c, winner this_id r tf g = Some c /\ n = cand_node c /\ x = cand_client c)).
Proof.
  revert cm. induction items as [|item items IH]; intros cm; cbn [fold_left map].
  { setoid_rewrite elem_of_nil. naive_solver. }
  rewrite IH, visit_filter_collects. setoid_rewrite elem_of_cons. split.
  - intros [[?|?]|(tf & Hin & ?)]; [by left | right; eexists; split; [by left | done] | right; eexists; split; [by right | done]].
  - intros [?|(tf & [->|Hin] & ?)]; [by left; left | by left; right | right; by eauto].
Qed.

(** The winner is an eligible member, and there is one when there is a member. *)
Lemma group_members this_id r tf rels g c :
  relations r !! tf = Some rels ->
  in_group (snd (fold_left (visit_rel is_online this_id tf) (map_to_list rels) (∅, ∅))) g c
  <-> exists id o, subscribed r tf (cand_client c) = Some (id, o) /\ skipped this_id id o = false
        /\ shared_group o = Some g /\ c = candidate id (cand_client c) o.
Proof.
  intros Hrels. unfold subscribed. rewrite Hrels. simpl.
  pose proof (visit_rels_spec this_id tf (map_to_list rels) ∅ ∅) as Hv.
  destruct (fold_left _ (map_to_list rels) _) as [cm groups]. destruct Hv as [_ Hg]. simpl. rewrite Hg.
  unfold grouped, in_group at 1. rewrite lookup_empty. simpl. rewrite elem_of_nil.
  setoid_rewrite elem_of_map_to_list. split.
  - intros [[]|(id & o & cid & Hin & Hs & Hgr & ->)]. by exists id, o.
  - intros (id & o & Hin & Hs & Hgr & Hc). right. by exists id, o, (cand_client c).
Qed.

Lemma winner_member this_id r tf g c :
  winner this_id r tf g = Some c ->
  exists id o, subscribed r tf (cand_client c) = Some (id, o) /\ skipped this_id id o = false
    /\ shared_group o = Some g /\ cand_node c = node_id id.
Proof.
  unfold winner. destruct (relations r !! tf) as [rels|] eqn:Hrels; simpl; [|done].
  destruct (snd _ !! g) as [cs|] eqn:Hcs; simpl; [|done]. destruct (pick cs) as [[idx online]|]; simpl; [|done].
  intros Hc. assert (in_group (snd (fold_left (visit_rel is_online this_id tf) (map_to_list rels) (∅, ∅))) g c) as Hin.
  { unfold in_group. rewrite Hcs. by eapply list_elem_of_lookup_2. }
  apply (group_members _ _ _ _ _ _ Hrels) in Hin as (id & o & Hx & Hs & Hg & ->). by exists id, o.
Qed.

Lemma winner_some this_id r tf g x id o :
  (forall cs, cs <> [] -> pick cs <> None) ->
  subscribed r tf x = Some (id, o) -> skipped this_id id o = false -> shared_group o = Some g ->
  is_Some (winner this_id r tf g).
Proof.
  intros Hpick Hx Hs Hg. unfold winner.
  destruct (relations r !! tf) as [rels|] eqn:Hrels; simpl; [|by unfold subscribed in Hx; rewrite Hrels in Hx].
  assert (in_group (snd (fold_left (visit_rel is_online this_id tf) (map_to_list rels) (∅, ∅))) g (candidate id x o)) as Hin.
  { apply (group_members _ _ _ _ _ _ Hrels). by exists id, o. }
  unfold in_group in Hin. destruct (snd _ !! g) as [cs|]; simpl in *; [|by apply not_elem_of_nil in Hin].
  destruct (pick cs) as [[idx online]|] eqn:Hp; simpl.
  - apply lookup_lt_is_Some_2. by eapply pick_valid.
  - destruct (Hpick cs); [|done]. intros ->. by apply not_elem_of_nil in Hin.
Qed.

End matching_lemmas.

Lemma skipped_spec this_id id o :
  skipped this_id id o = false <-> ~ (no_local o = Some true /\ id = this_id).
Proof.
  unfold skipped. destruct (no_local o) as [[]|]; [|naive_solver..]. rewrite andb_true_l, Id_eq_spec.
  rewrite bool_decide_eq_false. naive_solver.
Qed.

(** The filter matches the topic name under MQTT's rules. *)
Definition filter_matches (tf s : string) : Prop :=
  exists f, from_str tf = Ok f /\ mqtt_match f (split_on "/"%char s) /\ TopicTree.isolated f (split_on "/"%char s) = true.

Lemma matched_filters r s topic tf :
  rwf r -> from_str s = Ok topic -> has_wildcard s = false ->
  (exists item, item ∈ matched r topic /\ to_topic_filter (fst item) = tf /\ is_Some (relations r !! tf))
  <-> is_Some (relations r !! tf) /\ filter_matches tf s.
Proof.
  intros Hwf Hs Hw. unfold matched, filter_matches. rewrite TopicTree.collect_list. split.
  - intros ([f v] & Hin & Htf & Hsome). split; [done|].
    pose proof (proj1 (TopicTree.matches_list_elem _ _ _ _) Hin) as (f' & [= <- ->] & Hne & _).
    apply (rwf_tree _ Hwf) in Hne as (tf' & Hf & _).
    simpl in Htf. rewrite (from_str_to_topic_filter _ _ Hf) in Htf. subst tf'.
    exists f. split; [done|]. eapply TopicTree.matches_list_iff in Hin; [|done..|by eapply from_str_canonical]. tauto.
  - intros (Hsome & f & Hf & Hm). exists (f, TopicTree.contents (topics r) f). split; [|split; [|done]].
    + eapply TopicTree.matches_list_iff; [done..|by eapply from_str_canonical|]. repeat split; try tauto.
      apply (rwf_tree _ Hwf). by exists tf.
    + by apply from_str_to_topic_filter.
Qed.

(** ** Lemmas: choosing *)

Lemma elem_of_delete_or {A} (l : list A) i x y :
  l !! i = Some x -> y ∈ l -> y = x \/ y ∈ delete i l.
Proof.
  intros Hi Hy. pose proof (delete_Permutation l i x Hi) as Hp. rewrite Hp, elem_of_cons in Hy. done.
Qed.

Lemma choice_loop_spec is_online rand rounds tmp :
  tmp <> [] -> length tmp <= rounds ->
  exists idx online c, choice_loop is_online rand rounds tmp = Some (idx, online) /\ (idx, c) ∈ tmp
    /\ online = cand_online is_online c
    /\ (online = false -> forall i c', (i, c') ∈ tmp -> cand_online is_online c' = false).
Proof.
  revert tmp. induction rounds as [|rounds IH]; intros tmp Hne Hlen; [destruct tmp; simpl in *; [done|lia]|].
  simpl. set (r_idx := if decide _ then _ else _).
  assert (r_idx < length tmp) as Hr.
  { subst r_idx. destruct tmp; [done|]. case_decide; simpl in *; [lia|].
    pose proof (Z.mod_pos_bound (rand rounds) (Z.of_nat (S (length tmp)))). lia. }
  destruct (lookup_lt_is_Some_2 tmp r_idx Hr) as [[idx c] Hc].
  assert (forall i c', (i, c') ∈ tmp -> c' = c \/ (i, c') ∈ delete r_idx tmp) as Hsplit.
  { intros i c' Hin. destruct (elem_of_delete_or _ _ _ _ Hc Hin) as [[= -> ->]|]; by eauto. }
  pose proof (list_elem_of_lookup_2 _ _ _ Hc) as Hin.
  pose proof (length_delete tmp r_idx (mk_is_Some _ _ Hc)) as Hld.
  destruct tmp as [|t0 tmp0] eqn:Htmp; [done|]. rewrite <- Htmp in *. rewrite Hc.
  destruct (cand_online is_online c) eqn:Hon; [by exists idx, true, c|].
  destruct (delete r_idx tmp) as [|t tmp'] eqn:Hdel.
  - exists idx, false, c. repeat split; try done. intros _ i c' [->|Hn]%Hsplit; [done | by apply not_elem_of_nil in Hn].
  - destruct (IH (t :: tmp')) as (i & online & c' & Hcl & Hin' & Hon' & Hall); [done|lia|].
    exists i, online, c'. repeat split; try done.
    + apply (delete_Permutation tmp r_idx (idx, c)) in Hc as ->. rewrite Hdel. by right.
    + intros Hoff j d [->|Hj]%Hsplit; [done | by eapply Hall].
Qed.

Lemma zip_seq_elem {A} (l : list A) k i x :
  (i, x) ∈ zip (seq k (length l)) l <-> k <= i /\ l !! (i - k) = Some x.
Proof.
  revert k. induction l as [|y l IH]; intros k; simpl; [rewrite elem_of_nil, lookup_nil; naive_solver|].
  rewrite elem_of_cons, IH. destruct (decide (i = k)) as [->|Hne].
  - rewrite Nat.sub_diag. simpl. split; [intros [[= ->]|[? _]]; [done|lia] | intros [_ [= ->]]; by left].
  - split.
    + intros [[= -> _]|[Hk Hl]]; [done|]. split; [lia|]. by replace (i - k) with (S (i - S k)) by lia.
    + intros [Hk Hl]. right. split; [lia|]. by replace (i - k) with (S (i - S k)) in Hl by lia.
Qed.

Lemma choice_total is_online rand ncs :
  ncs <> [] ->
  exists idx online c, choice is_online rand ncs = Some (idx, online) /\ ncs !! idx = Some c
    /\ online = cand_online is_online c
    /\ (online = false -> forall c', c' ∈ ncs -> cand_online is_online c' = false).
Proof.
  intros Hne. unfold choice. destruct ncs as [|n0 ncs0] eqn:Hn; [done|]. rewrite <- Hn.
  assert (length (zip (seq 0 (length ncs)) ncs) = length ncs) as Hlen by (rewrite length_zip, length_seq; lia).
  destruct (choice_loop_spec is_online rand (length ncs) (zip (seq 0 (length ncs)) ncs))
    as (idx & online & c & Hcl & Hin & Hon & Hall).
  - intros He. rewrite He in Hlen. subst ncs. done.
  - by rewrite Hlen.
  - apply zip_seq_elem in Hin as [_ Hin]. rewrite Nat.sub_0_r in Hin.
    exists idx, online, c. repeat split; try done. intros Hoff c' [i Hi]%list_elem_of_lookup_1.
    apply (Hall Hoff i). apply zip_seq_elem. rewrite Nat.sub_0_r. split; [lia|done].
Qed.

Lemma choice_valid is_online rand ncs idx online :
  choice is_online rand ncs = Some (idx, online) -> idx < length ncs.
Proof.
  intros Hc. destruct ncs as [|n0 ncs0] eqn:Hn; [done|]. rewrite <- Hn in *.
  destruct (choice_total is_online rand ncs) as (i & on & c & Hc' & Hi & _); [by subst|].
  rewrite Hc' in Hc. injection Hc as -> ->. by eapply lookup_lt_Some.
Qed.

(** [DefaultSharedSubscription]. *)
#[export] Instance DefaultSharedSubscription (is_online : NodeId -> ClientId -> bool) (rand : nat -> Z)
  : SharedSubscription | 100 :=
  {| pick := choice is_online rand; pick_valid := choice_valid is_online rand |}.

(** ** Lemmas: routing *)

(** A subscription the router has takes part in routing. *)
Definition takes_part (r : DefaultRouter) (this_id : Id) (topic_name : TopicName)
    (tf : TopicFilter) (x : ClientId) (id : Id) (o : SubscriptionOptions) : Prop :=
  subscribed r tf x = Some (id, o) /\ filter_matches tf topic_name /\ ~ (no_local o = Some true /\ id = this_id).

Lemma takes_part_matched r this_id topic_name t tf x id o :
  rwf r -> from_str topic_name = Ok t -> has_wildcard topic_name = false -> subscribed r tf x = Some (id, o) ->
  tf ∈ map (fun item => to_topic_filter (fst item)) (matched r t) /\ skipped this_id id o = false
  <-> takes_part r this_id topic_name tf x id o.
Proof.
  intros Hwf Ht Hw Hx. unfold takes_part. rewrite skipped_spec.
  assert (is_Some (relations r !! tf)) as Hs by (unfold subscribed in Hx; destruct (relations r !! tf); by eauto).
  pose proof (matched_filters r topic_name t tf Hwf Ht Hw) as Hm. rewrite list_elem_of_fmap. naive_solver.
Qed.

Lemma matches_routed `{SharedSubscription} is_online r this_id topic_name t :
  rwf r -> from_str topic_name = Ok t -> has_wildcard topic_name = false ->
  exists routes (won : TopicFilter -> SharedGroup -> option (NodeId * ClientId)),
  _matches is_online this_id topic_name r = Ok routes
  /\ (forall n x, routed n x routes <->
        (exists tf id o, takes_part r this_id topic_name tf x id o /\ shared_group o = None /\ n = node_id id)
        \/ (exists tf g, won tf g = Some (n, x)))
  /\ (forall tf g n x, won tf g = Some (n, x) ->
        exists id o, takes_part r this_id topic_name tf x id o /\ shared_group o = Some g /\ n = node_id id)
  /\ ((forall cs, cs <> [] -> pick cs <> None) ->
      forall tf g x id o, takes_part r this_id topic_name tf x id o -> shared_group o = Some g -> won tf g <> None).
Proof.
  intros Hwf Ht Hw. unfold _matches. rewrite Ht. cbn [result_bind].
  pose proof (fun tf x id o => takes_part_matched r this_id topic_name t tf x id o Hwf Ht Hw) as Hpart.
  set (tfs := map (fun item => to_topic_filter (fst item)) (matched r t)) in *.
  exists (collector_into <$> fold_left (visit_filter is_online this_id r) (matched r t) ∅).
  exists (fun tf g => if decide (tf ∈ tfs) then (fun c => (cand_node c, cand_client c)) <$> winner is_online this_id r tf g else None).
  split; [done|]. split; [|split].
  - intros n x. fold (collects n x (fold_left (visit_filter is_online this_id r) (matched r t) ∅)).
    rewrite visit_filters_collects. fold tfs. split.
    + intros [(rels & rel & Hc & _)|(tf & Hin & [(id & o & Hx & Hs & Hg & ->)|(g & c & Hc & -> & ->)])].
      * by rewrite lookup_fmap, lookup_empty in Hc.
      * left. exists tf, id, o. split; [by apply Hpart | done].
      * right. exists tf, g. rewrite decide_True by done. by rewrite Hc.
    + intros [(tf & id & o & Hp & Hg & ->)|(tf & g & Hwon)]; right; exists tf.
      * pose proof (proj1 Hp) as Hx. apply (Hpart _ _ _ _ Hx) in Hp as [Hin Hs]. split; [done|]. left. by exists id, o.
      * case_decide as Hin; [|done]. split; [done|]. right. destruct (winner _ _ _ _ _) as [c|] eqn:Hc; [|done].
        simpl in Hwon. injection Hwon as <- <-. by exists g, c.
  - intros tf g n x Hwon. case_decide as Hin; [|done]. destruct (winner _ _ _ _ _) as [c|] eqn:Hc; [|done].
    simpl in Hwon. injection Hwon as <- <-. apply winner_member in Hc as (id & o & Hx & Hs & Hg & Hn).
    exists id, o. split; [by apply Hpart | done].
  - intros Hpick tf g x id o Hp Hg. pose proof (proj1 Hp) as Hx. apply (Hpart _ _ _ _ Hx) in Hp as [Hin Hs].
    rewrite decide_True by done. destruct (winner_some is_online this_id r tf g x id o Hpick Hx Hs Hg) as [c ->]. done.
Qed.

(** Every relation that is collected is a subscription that takes part. *)
Section sound.
Context `{SharedSubscription} (Q : NodeId -> TopicFilter -> ClientId -> SubscriptionOptions -> Prop).

Definition rel_ok (n : NodeId) (rel : SubRelation) : Prop := let '(tf, cid, o, _, _) := rel in Q n tf cid o.

Definition all_ok (cm : gmap NodeId Collector) : Prop :=
  forall n c rel, cm !! n = Some c -> rel ∈ collector_into c -> rel_ok n rel.

Lemma collector_into_elem c rel :
  rel ∈ collector_into c
  <-> rel ∈ v3_rels c
      \/ exists tf cid o ids g, rel = (tf, cid, o, ids, g) /\ v5_rels c !! cid = Some (tf, o, ids, g).
Proof.
  unfold collector_into. rewrite elem_of_app, list_elem_of_fmap. split.
  - intros [Hin|([cid [[[tf o] ids] g]] & -> & Hin)]; [by left|]. apply elem_of_map_to_list in Hin. right. by eauto 10.
  - intros [Hin|(tf & cid & o & ids & g & -> & Hin)]; [by left|]. right. exists (cid, (tf, o, ids, g)).
    by rewrite elem_of_map_to_list.
Qed.

Lemma entry_add_ok n tf cid o g cm : Q n tf cid o -> all_ok cm -> all_ok (entry_add n tf cid o g cm).
Proof.
  intros HQ Hcm n' c rel. unfold entry_add. rewrite lookup_insert_Some. intros [[<- <-]|[_ Hc]]; [|by eapply Hcm].
  assert (forall rel, rel ∈ collector_into (default collector_default (cm !! n)) -> rel_ok n rel) as Hold.
  { intros rel'. destruct (cm !! n) as [c|] eqn:Hn; [by eapply Hcm|]. intros Hin. by apply not_elem_of_nil in Hin. }
  set (c := default collector_default (cm !! n)) in *. rewrite collector_into_elem. unfold collector_add.
  destruct (is_v3 o); cbn [v3_rels v5_rels].
  - intros [[Hin|Hin]%elem_of_app|Hin]; [|apply list_elem_of_singleton in Hin as ->; done|];
      apply Hold, collector_into_elem; [left | right]; done.
  - intros [Hin|(tf' & cid' & o' & ids & g' & -> & Hin)]; [by apply Hold, collector_into_elem; left|].
    apply lookup_insert_Some in Hin as [[<- Heq]|[_ Hin]].
    + destruct (v5_rels c !! cid) as [[[[tf0 o0] ids0] g0]|] eqn:H5; injection Heq as -> -> _ _; [|done].
      apply (Hold (tf', cid, o', ids0, g0)), collector_into_elem. right. by eauto 10.
    + apply Hold, collector_into_elem. right. by eauto 10.
Qed.

Lemma visit_filter_ok is_online this_id r cm item :
  (forall x id o, subscribed r (to_topic_filter (fst item)) x = Some (id, o) -> skipped this_id id o = false ->
     Q (node_id id) (to_topic_filter (fst item)) x o) ->
  all_ok cm -> all_ok (visit_filter is_online this_id r cm item).
Proof.
  intros HQ Hcm. unfold visit_filter. set (tf := to_topic_filter (fst item)) in *.
  set (groups_ok := fun gs : gmap SharedGroup (list Cand) => forall g cs c, gs !! g = Some cs -> c ∈ cs ->
    Q (cand_node c) tf (cand_client c) (cand_opts c)).
  assert (forall rels cm groups, (forall x id o, (x, (id, o)) ∈ rels -> subscribed r tf x = Some (id, o)) ->
    all_ok cm -> groups_ok groups ->
    let '(cm', groups') := fold_left (visit_rel is_online this_id tf) rels (cm, groups) in
    all_ok cm' /\ groups_ok groups') as Hrels.
  { clear cm Hcm. intros rels. induction rels as [|[x [id o]] rels IH]; intros cm groups Hsub Hcm Hg; [done|].
    cbn [fold_left visit_rel]. pose proof (Hsub x id o (list_elem_of_here _ _)) as Hx.
    assert (forall x id o, (x, (id, o)) ∈ rels -> subscribed r tf x = Some (id, o)) as Hsub'
      by (intros; apply Hsub; right; done).
    destruct (skipped this_id id o) eqn:Hs; [by apply IH|].
    destruct (shared_group o) as [g|]; apply IH; try done.
    - intros g' cs c. rewrite lookup_insert_Some. intros [[<- <-]|[_ Hc]]; [|by eapply Hg].
      intros [Hin|Hin]%elem_of_app; [|apply list_elem_of_singleton in Hin as ->; by apply (HQ x id o)].
      destruct (groups !! g) as [cs|] eqn:Hgs; [by eapply Hg | by apply not_elem_of_nil in Hin].
    - apply entry_add_ok; [by apply HQ | done]. }
  assert (forall gs cm, (forall g cs c, (g, cs) ∈ gs -> c ∈ cs -> Q (cand_node c) tf (cand_client c) (cand_opts c)) ->
    all_ok cm -> all_ok (fold_left (visit_group tf) gs cm)) as Hgroups.
  { clear. intros gs. induction gs as [|[g cs] gs IH]; intros cm Hg Hcm; [done|]. cbn [fold_left]. apply IH.
    - intros g' cs' c Hin. apply (Hg g'). by right.
    - unfold visit_group. destruct (pick cs) as [[idx online]|]; [|done].
      destruct (cs !! idx) as [c|] eqn:Hc; [|done]. apply entry_add_ok; [|done].
      apply (Hg g cs); [left | by eapply list_elem_of_lookup_2]. }
  destruct (relations r !! tf) as [rels|] eqn:Hr;
    [|apply Hgroups; [|done]; intros g cs c Hin; rewrite map_to_list_empty in Hin; by apply not_elem_of_nil in Hin].
  specialize (Hrels (map_to_list rels) cm ∅). destruct (fold_left _ _ (cm, ∅)) as [cm' groups'].
  destruct Hrels as [Hcm' Hg']; [|done|done|].
  - intros x id o Hin. unfold subscribed. rewrite Hr. by apply elem_of_map_to_list in Hin.
  - apply Hgroups; [|done]. intros g cs c Hin. apply (Hg' g). by apply elem_of_map_to_list in Hin.
Qed.

End sound.

Lemma matches_sound `{SharedSubscription} is_online r this_id topic_name t routes n rels rel :
  rwf r -> from_str topic_name = Ok t -> has_wildcard topic_name = false ->
  _matches is_online this_id topic_name r = Ok routes -> routes !! n = Some rels -> rel ∈ rels ->
  rel_ok (fun n tf x o => exists id, takes_part r this_id topic_name tf x id o /\ n = node_id id) n rel.
Proof.
  intros Hwf Ht Hw. unfold _matches. rewrite Ht. cbn [result_bind]. intros [= <-].
  rewrite lookup_fmap_Some. intros (c & <- & Hc). revert c Hc.
  set (Q := fun n tf x o => exists id, takes_part r this_id topic_name tf x id o /\ n = node_id id).
  assert (forall items cm, (forall item, item ∈ items -> item ∈ matched r t) -> all_ok Q cm ->
    all_ok Q (fold_left (visit_filter is_online this_id r) items cm)) as Hgen.
  { intros items. induction items as [|item items IH]; intros cm Hin Hcm; [done|]. cbn [fold_left]. apply IH.
    - intros item' Hin'. apply Hin. by right.
    - apply visit_filter_ok; [|done]. intros x id o Hx Hs. exists id. split; [|done].
      apply (takes_part_matched r this_id topic_name t); [done..|]. split; [|done].
      apply (list_elem_of_fmap_2 (fun item => to_topic_filter (fst item))), Hin. left. }
  intros c Hc Hin. eapply (Hgen (matched r t) ∅); [done | | done..].
  intros n' c' rel'. by rewrite lookup_empty.
Qed.

(** ** Theorems *)

(** C24: after any sequence of subscriptions and unsubscriptions the router holds
    exactly the subscriptions the sequence leaves in a plain map from filter
    and client, an unsubscription counting only under the id that subscribed;
    the topic tree holds the filters with a subscriber and no others, and the
    two counters are the numbers of filters and of subscriptions. *)
Theorem router_refines os :
  rwf (router_run os)
  /\ forall tf cid, subscribed (router_run os) tf cid = fold_left sub_step os ∅ !! (tf, cid).
Proof. apply router_run_spec. Qed.

(** C23: routing a published message, whatever the subscriptions before it. A
    subscription takes part when it matches the topic name under MQTT's rules
    and its client is not the publisher under No Local. For every filter and
    shared group there is at most one winner, such that a client is routed to
    exactly when it has such a subscription outside shared groups, at the node
    of the subscription, or is a winner. A winner is a member of its group whose
    subscription takes part, and a group with such a member has a winner if the
    strategy chooses someone from every non-empty list. *)
Theorem matches_delivers `{SharedSubscription} is_online os this_id topic_name t :
  let subs := fold_left sub_step os ∅ in
  let takes_part tf x id o :=
    subs !! (tf, x) = Some (id, o) /\ filter_matches tf topic_name /\ ~ (no_local o = Some true /\ id = this_id) in
  from_str topic_name = Ok t -> has_wildcard topic_name = false ->
  exists routes (won : TopicFilter -> SharedGroup -> option (NodeId * ClientId)),
  _matches is_online this_id topic_name (router_run os) = Ok routes
  /\ (forall n x, routed n x routes <->
        (exists tf id o, takes_part tf x id o /\ shared_group o = None /\ n = node_id id)
        \/ (exists tf g, won tf g = Some (n, x)))
  /\ (forall tf g n x, won tf g = Some (n, x) ->
        exists id o, takes_part tf x id o /\ shared_group o = Some g /\ n = node_id id)
  /\ ((forall cs, cs <> [] -> pick cs <> None) ->
      forall tf g x id o, takes_part tf x id o -> shared_group o = Some g -> won tf g <> None).
Proof.
  intros subs takes_part Ht Hw. destruct (router_run_spec os) as [Hwf Hsub]. fold subs in Hsub.
  destruct (matches_routed is_online (router_run os) this_id topic_name t Hwf Ht Hw) as (routes & won & Hm).
  exists routes, won. unfold takes_part. by setoid_rewrite <- Hsub.
Qed.

(** the default strategy chooses from every non-empty list, a member that is
    online whenever some member is, and reports whether it is. *)
Theorem choice_spec is_online rand ncs :
  ncs <> [] ->
  exists idx online c, choice is_online rand ncs = Some (idx, online) /\ ncs !! idx = Some c
    /\ online = cand_online is_online c
    /\ (online = true <-> exists c', c' ∈ ncs /\ cand_online is_online c' = true).
Proof.
  intros Hne. destruct (choice_total is_online rand ncs Hne) as (idx & online & c & Hc & Hi & Hon & Hall).
  exists idx, online, c. repeat split; try done.
  - intros ->. exists c. split; [by eapply list_elem_of_lookup_2 | done].
  - intros (c' & Hin & Hc'). destruct online; [done|]. by rewrite (Hall eq_refl _ Hin) in Hc'.
Qed.

(** [remove] gives up its lock between emptying an entry and deleting it: a
    subscription another client adds in between is reported as added and is
    lost. *)
Theorem interleaved_add_lost tf id id2 o2 r rels o :
  relations r !! tf = Some rels -> rels = {[client_id id := (id, o)]} -> is_ok (from_str tf) = true ->
  client_id id2 <> client_id id ->
  exists r1 r2 r3, remove_relation tf id r = (Some (true, true), r1)
  /\ add tf id2 o2 r1 = Ok r2 /\ subscribed r2 tf (client_id id2) = Some (id2, o2)
  /\ remove_entry tf true true r2 = (Ok true, r3) /\ subscribed r3 tf (client_id id2) = None.
Proof.
  intros Hrels -> Hok Hne. unfold add, remove_entry. destruct (from_str tf) as [f|]; [|done]. cbn [result_bind].
  unfold remove_relation. rewrite Hrels, lookup_singleton_eq, Id_eq_spec, bool_decide_true by done.
  cbn [negb]. rewrite bool_decide_true by apply delete_singleton_eq. do 3 eexists. split; [done|].
  cbn [relations topics topics_count relations_count]. rewrite lookup_insert_eq. split; [done|].
  unfold subscribed. cbn [relations]. rewrite lookup_insert_eq. split; [cbn; by rewrite lookup_insert_eq|].
  split; [done|]. cbn [relations]. by rewrite lookup_delete_eq.
Qed.

(** ** Witnesses *)

Module RouterExample.

Definition ident (node : NodeId) (cid : ClientId) : Id := mkId node 0 None None cid None 0.
Definition plain : SubscriptionOptions := OptV3 (mkV3 AtLeastOnce None).
Definition group (g : SharedGroup) : SubscriptionOptions := OptV3 (mkV3 AtLeastOnce (Some g)).

(** Two plain subscribers, one of which leaves, and a group of two. *)
Definition ops : list RouterOp :=
  [RAdd "chat/+" (ident 1 "a") plain; RAdd "chat/#" (ident 1 "b") plain;
   RAdd "chat/x" (ident 2 "c") (group "g"); RAdd "chat/x" (ident 3 "d") (group "g");
   RRemove "chat/#" (ident 1 "b")].

Definition online (n : NodeId) (cid : ClientId) : bool := bool_decide (cid = "d").
Definition dice (k : nat) : Z := 0.

Lemma matches_delivers_witness :
  exists routes, _matches (H := DefaultSharedSubscription online dice) online (ident 9 "p") "chat/x" (router_run ops) = Ok routes
  /\ routed 1 "a" routes
  /\ exists x n, routed n x routes
       /\ exists id o, fold_left sub_step ops ∅ !! ("chat/x", x) = Some (id, o) /\ shared_group o = Some "g" /\ n = node_id id.
Proof.
  destruct (matches_delivers (H := DefaultSharedSubscription online dice) online ops (ident 9 "p") "chat/x"
              [Normal "chat"; Normal "x"]) as (routes & won & Hr & Hroute & Hmember & Hsome);
    [vm_compute; reflexivity | reflexivity |].
  exists routes. split; [exact Hr|]. split.
  - apply Hroute. left. exists "chat/+", (ident 1 "a"), plain. split; [|split; reflexivity].
    split; [vm_compute; reflexivity|]. split; [|intros [Hn _]; discriminate Hn].
    exists [Normal "chat"; SingleWildcard]. split; [reflexivity|]. split; [|reflexivity].
    vm_compute. apply (mm_level (Normal "chat")); [reflexivity|]. apply mm_single, mm_end.
  - destruct (won "chat/x" "g") as [[n x]|] eqn:Hwon.
    + exists x, n. split; [apply Hroute; right; exists "chat/x", "g"; exact Hwon|].
      destruct (Hmember _ _ _ _ Hwon) as (id & o & (Hx & _) & Hg & Hn). exists id, o. split; [exact Hx|]. split; assumption.
    + exfalso. revert Hwon. apply (Hsome) with (x := "c") (id := ident 2 "c") (o := group "g"); [|split; [|split]|].
      * intros cs Hcs. destruct (choice_total online dice cs Hcs) as (i & b & c & Hc & _). simpl. by rewrite Hc.
      * vm_compute. reflexivity.
      * exists [Normal "chat"; Normal "x"]. split; [reflexivity|]. split; [|reflexivity].
        vm_compute. apply (mm_level (Normal "chat")); [reflexivity|]. apply (mm_level (Normal "x")); [reflexivity|]. apply mm_end.
      * intros [Hn _]. discriminate Hn.
      * reflexivity.
Defined.

Definition members : list Cand :=
  [(2, "c", group "g", None, Some false); (3, "d", group "g", None, None)]%Z.

Lemma interleaved_add_lost_witness :
  exists r1 r2 r3, remove_relation "chat/+" (ident 1 "a") (router_run [RAdd "chat/+" (ident 1 "a") plain])
    = (Some (true, true), r1)
  /\ add "chat/+" (ident 2 "c") plain r1 = Ok r2 /\ subscribed r2 "chat/+" "c" = Some (ident 2 "c", plain)
  /\ remove_entry "chat/+" true true r2 = (Ok true, r3) /\ subscribed r3 "chat/+" "c" = None.
Proof.
  apply (interleaved_add_lost "chat/+" (ident 1 "a") (ident 2 "c") plain
           (router_run [RAdd "chat/+" (ident 1 "a") plain]) {["a" := (ident 1 "a", plain)]} plain).
  - vm_compute. reflexivity.
  - reflexivity.
  - reflexivity.
  - discriminate.
Defined.

Lemma choice_spec_witness :
  exists idx b c, choice online dice members = Some (idx, b)
    /\ members !! idx = Some c /\ b = true.
Proof.
  destruct (choice_spec online dice members)
    as (idx & b & c & Hc & Hi & _ & Hb); [done|].
  exists idx, b, c. split; [exact Hc|]. split; [exact Hi|]. apply Hb.
  exists (3%Z, "d", group "g", None, None). split; [|reflexivity]. apply elem_of_cons. right. apply elem_of_cons. by left.
Defined.

End RouterExample.
