(* ===== verification/ClusterRouter.v ===== *)
(** * The replicated router: [vendor/rmqtt-cluster-raft/src/router.rs],
      [message.rs] and the clients of its log in [shared.rs]

    Every node applies the same log of messages to its [ClusterRouter]: the
    subscription router and, per client, where its session is and whether it
    is online or being set up. [snapshot] and [restore] move the state to a
    node that is behind.

    [bincode], the compression libraries and the iteration order of rayon's
    [par_bridge] are arguments. A clock reading is an argument of each
    operation that takes one; a [HandshakeTryLock] reads the clock twice. A
    slice out of range panics in the source and is the error [Panic] here. *)

From Stdlib Require Import Ascii.
From S2P Require Import Prelude Strs Topic Trie Types Store Router.
Local Open Scope string_scope.
Local Open Scope list_scope.

(** ** State *)

Record ClientStatus : Type := mkStatus {
  st_id : Id;
  st_online : bool;
  st_handshaking : bool;
  handshak_duration : TimestampMillis
}.

Definition status_new (now : Z) (id : Id) (online handshaking : bool) : ClientStatus :=
  mkStatus id online handshaking now.

(** The sum of two [i64], wrapping. *)
Definition handshaking (now try_lock_timeout : Z) (s : ClientStatus) : bool :=
  st_handshaking s && (now <? as_i64 (handshak_duration s + as_i64 try_lock_timeout))%Z.

Inductive Compression : Type := Zstd | Lz4 | Zlib | Snappy.

Record ClusterRouter : Type := mkCluster {
  inner : DefaultRouter;
  client_states : gmap ClientId ClientStatus;
  try_lock_timeout : Z;
  compression : option Compression
}.

Definition cluster_new (try_lock_timeout : Z) (compression : option Compression) : ClusterRouter :=
  mkCluster router_new ∅ try_lock_timeout compression.

Definition with_states (f : gmap ClientId ClientStatus -> gmap ClientId ClientStatus) (r : ClusterRouter)
    : ClusterRouter :=
  mkCluster (inner r) (f (client_states r)) (try_lock_timeout r) (compression r).

Definition with_inner (i : DefaultRouter) (r : ClusterRouter) : ClusterRouter :=
  mkCluster i (client_states r) (try_lock_timeout r) (compression r).

Definition _client_node_id (cid : ClientId) (r : ClusterRouter) : option NodeId :=
  (fun s => node_id (st_id s)) <$> client_states r !! cid.

Definition status (cid : ClientId) (r : ClusterRouter) : option ClientStatus := client_states r !! cid.

Definition _handshakings (r : ClusterRouter) : nat :=
  length (filter (fun e => st_handshaking (snd e) = true) (map_to_list (client_states r))).

Definition is_online (node : NodeId) (cid : ClientId) (r : ClusterRouter) : bool :=
  default false (st_online <$> client_states r !! cid).

(** ** The log *)

Inductive Message : Type :=
| HandshakeTryLock (id : Id)
| Connected (id : Id)
| Disconnected (id : Id)
| SessionTerminated (id : Id)
| Add (topic_filter : string) (id : Id) (opts : SubscriptionOptions)
| Remove (topic_filter : string) (id : Id)
| GetClientNodeId (cid : ClientId)
| Ping.

Inductive MessageReply : Type :=
| ReplyError (e : string)
| ReplyTryLock (prev_id : option Id)
| ReplyPing.

(** What [apply] answers before it is encoded. *)
Inductive Answer : Type :=
| Empty
| Reply (m : MessageReply)
| ClientNode (n : option NodeId).

(** The raft library's errors; [Anyhow]'s payload is only logged. *)
Inductive RaftError : Type := Other (e : string) | Unknown | Anyhow | Msg (e : TopicError) | Panic.

Definition handshake_try_lock (t_check t_new : Z) (id : Id) (r : ClusterRouter) : MessageReply * ClusterRouter :=
  match client_states r !! client_id id with
  | Some s =>
      if negb (handshaking t_check (try_lock_timeout r) s)
      then (ReplyTryLock (Some (st_id s)), with_states <[client_id id := status_new t_new id false true]> r)
      else (ReplyError "Handshake try lock failed", r)
  | None => (ReplyTryLock None, with_states <[client_id id := status_new t_new id false true]> r)
  end.

Definition connected (now : Z) (id : Id) (r : ClusterRouter) : option MessageReply * ClusterRouter :=
  match client_states r !! client_id id with
  | Some s =>
      if negb (Id_eq (st_id s) id) && (create_time id <? create_time (st_id s))%Z
      then (Some (ReplyError "id not the same"), r)
      else (None, with_states <[client_id id := mkStatus id true false (handshak_duration s)]> r)
  | None => (None, with_states <[client_id id := status_new now id true false]> r)
  end.

Definition disconnected (id : Id) (r : ClusterRouter) : ClusterRouter :=
  match client_states r !! client_id id with
  | Some s =>
      if negb (Id_eq (st_id s) id) then r
      else with_states <[client_id id := mkStatus (st_id s) false (st_handshaking s) (handshak_duration s)]> r
  | None => r
  end.

Definition session_terminated (id : Id) (r : ClusterRouter) : ClusterRouter :=
  match client_states r !! client_id id with
  | Some s => if negb (Id_eq (st_id s) id) then r else with_states (delete (client_id id)) r
  | None => r
  end.

Definition apply_message (t_check t_new : Z) (m : Message) (r : ClusterRouter)
    : result RaftError Answer * ClusterRouter :=
  match m with
  | HandshakeTryLock id => let '(reply, r) := handshake_try_lock t_check t_new id r in (Ok (Reply reply), r)
  | Connected id =>
      let '(reply, r) := connected t_new id r in
      (Ok (match reply with Some reply => Reply reply | None => Empty end), r)
  | Disconnected id => (Ok Empty, disconnected id r)
  | SessionTerminated id => (Ok Empty, session_terminated id r)
  | Add tf id opts =>
      match add tf id opts (inner r) with
      | Ok i => (Ok Empty, with_inner i r)
      | Err _ => (Err Anyhow, r)
      end
  | Remove tf id =>
      let '(res, i) := remove tf id (inner r) in
      (match res with Ok _ => Ok Empty | Err _ => Err Anyhow end, with_inner i r)
  | GetClientNodeId cid => (Ok (ClientNode (_client_node_id cid r)), r)
  | Ping => (Ok (Reply ReplyPing), r)
  end.

Definition RelEntry : Type := TopicFilter * gmap ClientId (Id * SubscriptionOptions).
Definition StateEntry : Type := ClientId * ClientStatus.

(** [bincode]'s functions at the types the code uses them. *)
Class Bincode : Type := {
  ser_message : Message -> result string Bytes;
  de_message : Bytes -> result string Message;
  ser_reply : MessageReply -> result string Bytes;
  de_reply : Bytes -> result string MessageReply;
  ser_node : option NodeId -> result string Bytes;
  de_node : Bytes -> result string (option NodeId);
  ser_rels : list RelEntry -> result string Bytes;
  de_rels : Bytes -> result string (list RelEntry);
  ser_states : list StateEntry -> result string Bytes;
  de_states : Bytes -> result string (list StateEntry);
  ser_counter : Z -> result string Bytes;
  de_counter : Bytes -> result string Z
}.

Definition inverse {A} (ser : A -> result string Bytes) (de : Bytes -> result string A) : Prop :=
  forall a, exists b, ser a = Ok b /\ de b = Ok a.

Class BincodeLaws `{Bincode} : Prop := {
  message_inverse : inverse ser_message de_message;
  reply_inverse : inverse ser_reply de_reply;
  reply_nonempty m : ser_reply m <> Ok [];
  node_inverse : inverse ser_node de_node;
  node_nonempty n : ser_node n <> Ok [];
  rels_inverse : inverse ser_rels de_rels;
  states_inverse : inverse ser_states de_states;
  counter_inverse : inverse ser_counter de_counter
}.

Section log.
Context `{Bincode}.

Definition answer_encode (a : Answer) : result RaftError Bytes :=
  match a with
  | Empty => Ok []
  | Reply m => match ser_reply m with Ok b => Ok b | Err _ => Err Unknown end
  | ClientNode n => match ser_node n with Ok b => Ok b | Err e => Err (Other e) end
  end.

Definition apply (t_check t_new : Z) (message : Bytes) (r : ClusterRouter)
    : result RaftError Bytes * ClusterRouter :=
  match de_message message with
  | Err e => (Err (Other e), r)
  | Ok m =>
      let '(a, r) := apply_message t_check t_new m r in
      ((let? a := a in answer_encode a), r)
  end.

Definition query (query : Bytes) (r : ClusterRouter) : result RaftError Bytes :=
  match de_message query with
  | Err e => Err (Other e)
  | Ok (GetClientNodeId cid) =>
      match ser_node (_client_node_id cid r) with Ok b => Ok b | Err e => Err (Other e) end
  | Ok _ => Ok []
  end.

(** ** The clients of the log *)

(** [ClusterLockEntry::try_lock] on the answer to its proposal. *)
Definition try_lock_reply (reply : Bytes) : result string (option NodeId) :=
  if decide (reply = []) then Ok None
  else
    match de_reply reply with
    | Err e => Err e
    | Ok (ReplyError e) => Err e
    | Ok (ReplyTryLock prev_id) => Ok (node_id <$> prev_id)
    | Ok ReplyPing => Err "unreachable!()"
    end.

(** [ClusterLockEntry::set] on the answer to its proposal. *)
Definition set_reply (reply : Bytes) : result string unit :=
  if decide (reply = []) then Ok tt
  else
    match de_reply reply with
    | Err e => Err e
    | Ok (ReplyError e) => Err e
    | Ok _ => Err "unreachable!()"
    end.

(** [get_client_node_id] on the answer to its query. *)
Definition node_reply (reply : Bytes) : result string (option NodeId) :=
  if decide (reply = []) then Ok None else de_node reply.

(** [message::ping] on the answer to its proposal. *)
Definition ping_reply (reply : Bytes) : result string (option MessageReply) :=
  if decide (reply = []) then Ok None else let? m := de_reply reply in Ok (Some m).

(** The node [ClusterLockEntry::kick] addresses; [queried] is what
    [get_client_node_id] returned. *)
Definition kick_node (id : Id) (prev_node_id queried : option NodeId) (is_admin : bool) : NodeId :=
  if is_admin then default (node_id id) queried else default (node_id id) prev_node_id.

End log.

Record SessionStatus : Type := mkSessionStatus {
  ss_id : Id;
  ss_online : bool;
  ss_handshaking : bool
}.

Definition session_status (now : Z) (cid : ClientId) (r : ClusterRouter) : option SessionStatus :=
  (fun s => mkSessionStatus (st_id s) (st_online s) (handshaking now (try_lock_timeout r) s)) <$> status cid r.

(** ** Snapshots *)

(** [usize::to_le_bytes] and [usize::from_le_bytes]. *)
Fixpoint le_bytes (k : nat) (z : Z) : Bytes :=
  match k with
  | O => []
  | S k' => (z mod 256)%Z :: le_bytes k' (z / 256)%Z
  end.

Fixpoint from_le_bytes (b : Bytes) : Z :=
  match b with
  | [] => 0
  | x :: b' => (x + 256 * from_le_bytes b')%Z
  end.

(** [&data[start..start + len]], its bounds as [usize]. *)
Definition slice (data : Bytes) (start len : Z) : result RaftError Bytes :=
  let stop := wrap_u64 (start + len) in
  if ((start <=? stop) && (stop <=? Z.of_nat (length data)))%Z
  then Ok (take (Z.to_nat (stop - start)) (drop (Z.to_nat start) data))
  else Err Panic.

Definition encode_with_length_prefix (data out : Bytes) : Bytes :=
  out ++ le_bytes 8 (Z.of_nat (length data)) ++ data.

Definition read_len (snapshot : Bytes) (start : Z) : result RaftError Z :=
  let? b := slice snapshot start 8 in Ok (from_le_bytes b).

Section snapshots.
Context `{Bincode}.
(** The compression libraries. *)
Context (compressor : Compression -> Bytes -> result string Bytes).
Context (decompressor : Compression -> Bytes -> result string Bytes).
(** The order in which [par_bridge] hands out the entries. *)
Context (order : forall A, list A -> list A).

Definition compress (c : option Compression) (data : Bytes) : result RaftError Bytes :=
  match c with
  | Some c => match compressor c data with Ok b => Ok b | Err _ => Err Anyhow end
  | None => Ok data
  end.

Definition uncompress (c : option Compression) (data : Bytes) : result RaftError Bytes :=
  match c with
  | Some c => match decompressor c data with Ok b => Ok b | Err _ => Err Anyhow end
  | None => Ok data
  end.

(** Every error reaches the caller as [Anyhow]. *)
Definition or_anyhow {A} (x : result string A) : result RaftError A :=
  match x with Ok a => Ok a | Err _ => Err Anyhow end.

Definition snapshot (r : ClusterRouter) : result RaftError Bytes :=
  let relations := order _ (map_to_list (relations (inner r))) in
  let states := order _ (map_to_list (client_states r)) in
  let? relations_bin := let? b := or_anyhow (ser_rels relations) in compress (compression r) b in
  let? client_states_bin := let? b := or_anyhow (ser_states states) in compress (compression r) b in
  let? topics_count_bin := or_anyhow (ser_counter (topics_count (inner r))) in
  let? relations_count_bin := or_anyhow (ser_counter (relations_count (inner r))) in
  Ok (encode_with_length_prefix relations_count_bin
       (encode_with_length_prefix topics_count_bin
         (encode_with_length_prefix client_states_bin
           (encode_with_length_prefix relations_bin [])))).

Definition decode_with_length_prefix {A} (de : Bytes -> result string A) (snapshot : Bytes) (start len : Z)
    (uncompress_enable : bool) (c : option Compression) : result RaftError A :=
  let? b := slice snapshot start len in
  if uncompress_enable then let? b := uncompress c b in or_anyhow (de b)
  else or_anyhow (de b).

(** The part of [restore] that reads. *)
Definition read_snapshot (c : option Compression) (snapshot : Bytes)
    : result RaftError (list RelEntry * list StateEntry * Z * Z) :=
  let? relations_len := read_len snapshot 0 in
  let relations_start := 8%Z in
  let? client_states_len := read_len snapshot (wrap_u64 (relations_start + relations_len)) in
  let client_states_start := wrap_u64 (8 + relations_start + relations_len) in
  let? topics_count_len := read_len snapshot (wrap_u64 (client_states_start + client_states_len)) in
  let topics_count_start := wrap_u64 (8 + client_states_start + client_states_len) in
  let? relations_count_len := read_len snapshot (wrap_u64 (topics_count_start + topics_count_len)) in
  let relations_count_start := wrap_u64 (8 + topics_count_start + topics_count_len) in
  let? relations := decode_with_length_prefix de_rels snapshot relations_start relations_len true c in
  let? states := decode_with_length_prefix de_states snapshot client_states_start client_states_len true c in
  let? tc := decode_with_length_prefix de_counter snapshot topics_count_start topics_count_len false None in
  let? rc := decode_with_length_prefix de_counter snapshot relations_count_start relations_count_len false None in
  Ok (relations, states, tc, rc).

(** The loop that refills the relations and the tree. *)
Fixpoint restore_rels (rels : list RelEntry) (i : DefaultRouter) : result RaftError unit * DefaultRouter :=
  match rels with
  | [] => (Ok tt, i)
  | (tf, rel) :: rels' =>
      match from_str tf with
      | Err e => (Err (Msg e), i)
      | Ok topic =>
          restore_rels rels'
            (mkRouter (snd (TopicTree.insert topic tt (topics i))) (topics_count i)
               (<[tf := rel]> (relations i)) (relations_count i))
      end
  end.

Definition insert_states (states : list StateEntry) (m : gmap ClientId ClientStatus)
    : gmap ClientId ClientStatus :=
  fold_left (fun m e => <[fst e := snd e]> m) states m.

Definition restore (snapshot : Bytes) (r : ClusterRouter) : result RaftError unit * ClusterRouter :=
  match read_snapshot (compression r) snapshot with
  | Err e => (Err e, r)
  | Ok (rels, states, tc, rc) =>
      let i := mkRouter (topics (inner r)) tc ∅ (relations_count (inner r)) in
      let '(res, i) := restore_rels rels i in
      match res with
      | Err e => (Err e, with_inner i r)
      | Ok _ =>
          (Ok tt, mkCluster (mkRouter (topics i) (topics_count i) (relations i) rc)
                    (insert_states states ∅) (try_lock_timeout r) (compression r))
      end
  end.

End snapshots.

(** ** The log as a sequence *)

(** Applying a log; the [k]-th message reads the clock as [clock k]. *)
Fixpoint apply_log (clock : nat -> Z * Z) (k : nat) (ms : list Message) (r : ClusterRouter) : ClusterRouter :=
  match ms with
  | [] => r
  | m :: ms' => apply_log clock (S k) ms' (snd (apply_message (fst (clock k)) (snd (clock k)) m r))
  end.

(** The subscriptions of a log. *)
Definition message_op (m : Message) : option RouterOp :=
  match m with
  | Add tf id o => Some (RAdd tf id o)
  | Remove tf id => Some (RRemove tf id)
  | _ => None
  end.

Definition log_ops (ms : list Message) : list RouterOp := omap message_op ms.

Lemma apply_message_inner t t' m r :
  inner (snd (apply_message t t' m r))
  = match message_op m with Some o => router_step (inner r) o | None => inner r end.
Proof.
  destruct m as [id|id|id|id|tf id o|tf id|cid|]; simpl; try done.
  - unfold handshake_try_lock. by repeat case_match; simplify_eq/=.
  - unfold connected. by repeat case_match; simplify_eq/=.
  - unfold disconnected. by repeat case_match.
  - unfold session_terminated. by repeat case_match.
  - by destruct (add tf id o (inner r)).
  - by destruct (remove tf id (inner r)).
Qed.

Lemma apply_log_inner clock k ms r :
  inner (apply_log clock k ms r) = fold_left router_step (log_ops ms) (inner r).
Proof.
  revert k r. induction ms as [|m ms IH]; intros k r; [done|]. simpl. rewrite IH, apply_message_inner.
  unfold log_ops. simpl. by destruct (message_op m).
Qed.

Lemma apply_message_timeout t t' m r :
  try_lock_timeout (snd (apply_message t t' m r)) = try_lock_timeout r.
Proof.
  destruct m as [id|id|id|id|tf id o|tf id|cid|]; simpl; try done.
  - unfold handshake_try_lock. by repeat case_match; simplify_eq/=.
  - unfold connected. by repeat case_match; simplify_eq/=.
  - unfold disconnected. by repeat case_match.
  - unfold session_terminated. by repeat case_match.
  - by destruct (add tf id o (inner r)).
  - by destruct (remove tf id (inner r)).
Qed.

Lemma apply_log_timeout clock k ms r : try_lock_timeout (apply_log clock k ms r) = try_lock_timeout r.
Proof. revert k r. induction ms as [|m ms IH]; intros k r; simpl; [done|]. by rewrite IH, apply_message_timeout. Qed.

(** ** Ownership of a client's session *)

(** How one message changes the status of a client. *)
Lemma apply_message_status t t' m r cid :
  client_states (snd (apply_message t t' m r)) !! cid
  = match m with
    | HandshakeTryLock id =>
        if decide (client_id id = cid) then
          match client_states r !! cid with
          | Some s => if handshaking t (try_lock_timeout r) s then Some s else Some (status_new t' id false true)
          | None => Some (status_new t' id false true)
          end
        else client_states r !! cid
    | Connected id =>
        if decide (client_id id = cid) then
          match client_states r !! cid with
          | Some s => if decide (st_id s <> id /\ (create_time id < create_time (st_id s))%Z) then Some s
                      else Some (mkStatus id true false (handshak_duration s))
          | None => Some (status_new t' id true false)
          end
        else client_states r !! cid
    | Disconnected id =>
        match client_states r !! cid with
        | Some s => if decide (client_id id = cid /\ st_id s = id)
                    then Some (mkStatus (st_id s) false (st_handshaking s) (handshak_duration s)) else Some s
        | None => None
        end
    | SessionTerminated id =>
        match client_states r !! cid with
        | Some s => if decide (client_id id = cid /\ st_id s = id) then None else Some s
        | None => None
        end
    | _ => client_states r !! cid
    end.
Proof.
  destruct m as [id|id|id|id|tf id o|tf id|c|]; simpl; try done.
  - unfold handshake_try_lock. destruct (decide (client_id id = cid)) as [<-|Hne].
    + destruct (client_states r !! client_id id) as [s|] eqn:Hs; [destruct (handshaking _ _ s)|]; simpl;
        by rewrite ?lookup_insert_eq.
    + destruct (client_states r !! client_id id) as [s|]; [destruct (handshaking _ _ s)|]; simpl;
        by rewrite ?lookup_insert_ne.
  - unfold connected. destruct (decide (client_id id = cid)) as [<-|Hne].
    + destruct (client_states r !! client_id id) as [s|] eqn:Hs; simpl; [|by rewrite lookup_insert_eq].
      rewrite Id_eq_spec. case_bool_decide as Hid; simpl.
      * rewrite decide_False by naive_solver. by rewrite lookup_insert_eq.
      * destruct (Z.ltb_spec (create_time id) (create_time (st_id s))); simpl.
        -- by rewrite decide_True.
        -- rewrite decide_False by (intros [_ ?]; lia). by rewrite lookup_insert_eq.
    + destruct (client_states r !! client_id id) as [s|]; [destruct (negb _ && _)|]; simpl; by rewrite ?lookup_insert_ne.
  - unfold disconnected. destruct (decide (client_id id = cid)) as [<-|Hne].
    + destruct (client_states r !! client_id id) as [s|] eqn:Hs; [|done].
      rewrite Id_eq_spec. case_bool_decide as Hid; simpl.
      * by rewrite decide_True, lookup_insert_eq.
      * by rewrite decide_False by naive_solver.
    + transitivity (client_states r !! cid).
      * destruct (client_states r !! client_id id) as [s|]; [destruct (negb _)|]; simpl; by rewrite ?lookup_insert_ne.
      * destruct (client_states r !! cid); [|done]. by rewrite decide_False by naive_solver.
  - unfold session_terminated. destruct (decide (client_id id = cid)) as [<-|Hne].
    + destruct (client_states r !! client_id id) as [s|] eqn:Hs; [|done].
      rewrite Id_eq_spec. case_bool_decide as Hid; simpl.
      * by rewrite decide_True, lookup_delete_eq.
      * by rewrite decide_False by naive_solver.
    + transitivity (client_states r !! cid).
      * destruct (client_states r !! client_id id) as [s|]; [destruct (negb _)|]; simpl; by rewrite ?lookup_delete_ne.
      * destruct (client_states r !! cid); [|done]. by rewrite decide_False by naive_solver.
  - by destruct (add tf id o (inner r)).
  - by destruct (remove tf id (inner r)).
Qed.

(** The messages that end a handshake of [id]. *)
Definition releases (id : Id) (m : Message) : bool :=
  match m with
  | Connected id' => bool_decide (client_id id' = client_id id)
  | SessionTerminated id' => bool_decide (id' = id)
  | _ => false
  end.

(** The lock is held until the deadline or a release. *)
Definition holds_lock (id : Id) (stamp : Z) (r : ClusterRouter) : Prop :=
  exists online, client_states r !! client_id id = Some (mkStatus id online true stamp).

Lemma holds_lock_step id stamp t t' m r :
  (t < as_i64 (stamp + as_i64 (try_lock_timeout r)))%Z -> releases id m = false ->
  holds_lock id stamp r -> holds_lock id stamp (snd (apply_message t t' m r)).
Proof.
  intros Ht Hrel [online Hs]. unfold holds_lock. rewrite apply_message_status, Hs.
  assert (handshaking t (try_lock_timeout r) (mkStatus id online true stamp) = true) as Hh.
  { unfold handshaking. simpl. by apply Z.ltb_lt. }
  destruct m as [id'|id'|id'|id'|tf id' o|tf id'|c|]; simpl in *; try by eauto.
  - rewrite Hh. case_decide; by eauto.
  - case_bool_decide; [done|]. rewrite decide_False by done. by eauto.
  - case_decide; by eauto.
  - case_bool_decide; [done|]. rewrite decide_False by naive_solver. by eauto.
Qed.

Lemma holds_lock_log id stamp clock k ms r :
  Forall (fun m => releases id m = false) ms ->
  (forall i, k <= i -> i < k + length ms ->
     (fst (clock i) < as_i64 (stamp + as_i64 (try_lock_timeout r)))%Z) ->
  holds_lock id stamp r -> holds_lock id stamp (apply_log clock k ms r).
Proof.
  revert k r. induction ms as [|m ms IH]; intros k r Hm Ht Hl; [done|]. apply Forall_cons in Hm as [Hm Hms].
  simpl. apply IH; [done | | apply holds_lock_step; [apply Ht; simpl; lia | done | done]].
  intros i Hi Hi'. rewrite apply_message_timeout. apply Ht; simpl; lia.
Qed.

(** ** Lemmas: snapshots *)

Lemma length_le_bytes k z : length (le_bytes k z) = k.
Proof. revert z. induction k as [|k IH]; intros z; simpl; [done|]. by rewrite IH. Qed.

Lemma from_le_bytes_le_bytes k z : (0 <= z < 256 ^ Z.of_nat k)%Z -> from_le_bytes (le_bytes k z) = z.
Proof.
  revert z. induction k as [|k IH]; intros z Hz; simpl.
  - simpl in Hz. lia.
  - rewrite IH.
    + pose proof (Z.div_mod z 256). lia.
    + rewrite Nat2Z.inj_succ, Z.pow_succ_r in Hz by lia.
      split; [apply Z.div_pos; lia | apply Z.div_lt_upper_bound; lia].
Qed.

Lemma slice_app a b c start len :
  start = Z.of_nat (length a) -> len = Z.of_nat (length b) ->
  (Z.of_nat (length (a ++ b ++ c)) < u64_modulus)%Z ->
  slice (a ++ b ++ c) start len = Ok b.
Proof.
  intros -> -> Hlen. rewrite !length_app in Hlen. unfold slice. rewrite wrap_u64_small by lia.
  rewrite !length_app, (proj2 (Z.leb_le _ _)), (proj2 (Z.leb_le _ _)) by lia. simpl. f_equal.
  replace (Z.to_nat (Z.of_nat (length a) + Z.of_nat (length b) - Z.of_nat (length a))) with (length b) by lia.
  by rewrite Nat2Z.id, drop_app_length, take_app_length.
Qed.

(** A field with its length before it. *)
Definition frame (b : Bytes) : Bytes := le_bytes 8 (Z.of_nat (length b)) ++ b.

Lemma length_frame b : Z.of_nat (length (frame b)) = (8 + Z.of_nat (length b))%Z.
Proof. unfold frame. rewrite length_app, length_le_bytes. lia. Qed.

Lemma read_frame s pre b post start :
  s = pre ++ frame b ++ post -> start = Z.of_nat (length pre) -> (Z.of_nat (length s) < u64_modulus)%Z ->
  read_len s start = Ok (Z.of_nat (length b)) /\ slice s (8 + start) (Z.of_nat (length b)) = Ok b.
Proof.
  intros -> -> Hlen. unfold frame in *. rewrite <- (app_assoc (le_bytes _ _)) in *. split.
  - unfold read_len. rewrite slice_app; [|done|by rewrite length_le_bytes|done]. cbn [result_bind].
    rewrite from_le_bytes_le_bytes; [done|]. rewrite !length_app in Hlen. unfold u64_modulus in Hlen.
    replace (256 ^ Z.of_nat 8)%Z with (2 ^ 64)%Z by done. lia.
  - rewrite (app_assoc pre) in *. apply slice_app; [|done|done]. rewrite length_app, length_le_bytes. lia.
Qed.

(** Inserting the entries of a map, in any order, gives the map. *)
Lemma insert_entries {K V} `{Countable K} (m : gmap K V) l :
  l ≡ₚ map_to_list m -> fold_left (fun acc e => <[fst e := snd e]> acc) l ∅ = m.
Proof.
  intros Hp. rewrite <- fold_left_rev_right. change (list_to_map (rev l) = m :> gmap K V).
  rewrite <- (list_to_map_to_list m). assert (rev l ≡ₚ map_to_list m) as Hr by by rewrite <- Hp, <- Permutation_rev.
  apply list_to_map_proper; [rewrite Hr; apply NoDup_fst_map_to_list | done].
Qed.

Lemma restore_rels_spec rels i :
  Forall (fun e => is_ok (from_str (fst e)) = true) rels -> TopicTree.pruned (topics i) ->
  exists t, TopicTree.pruned t
  /\ (forall f, TopicTree.contents t f <> ∅
        <-> TopicTree.contents (topics i) f <> ∅ \/ exists e, e ∈ rels /\ from_str (fst e) = Ok f)
  /\ restore_rels rels i
      = (Ok tt, mkRouter t (topics_count i) (fold_left (fun m e => <[fst e := snd e]> m) rels (relations i))
                  (relations_count i)).
Proof.
  revert i. induction rels as [|[tf rel] rels IH]; intros i Hok Hp; cbn [restore_rels fold_left].
  { exists (topics i). split; [done|]. split; [|by destruct i]. intros f. split; [by left|].
    intros [?|(e & He & _)]; [done | by apply not_elem_of_nil in He]. }
  apply Forall_cons in Hok as [Hf Hok]. simpl in Hf. destruct (from_str tf) as [topic|] eqn:Htf; [|done].
  edestruct IH as (t & Ht & Hc & ->); [exact Hok | by apply TopicTree._insert_pruned |].
  exists t. split; [done|]. split; [|done]. intros f. rewrite Hc. simpl. unfold TopicTree.insert.
  rewrite TopicTree._insert_contents. setoid_rewrite elem_of_cons. case_decide as Hft.
  - subst f. split; [intros _; right; exists (tf, rel); by eauto | intros _; left; set_solver].
  - split; [naive_solver|]. intros [?|(e & [->|He] & Hfe)]; [by left | simpl in Hfe; congruence | right; by eauto].
Qed.

Section snapshot_lemmas.
Context `{BincodeLaws}.
Context (compressor decompressor : Compression -> Bytes -> result string Bytes).
Context (order : forall A, list A -> list A).
Context (decompress_compress : forall c b, exists z, compressor c b = Ok z /\ decompressor c z = Ok b).
Context (order_perm : forall A (l : list A), order A l ≡ₚ l).

Lemma compress_inverse c b :
  exists z, compress compressor c b = Ok z /\ uncompress decompressor c z = Ok b.
Proof.
  destruct c as [c|]; simpl; [|by exists b].
  destruct (decompress_compress c b) as (z & Hz & Hb). exists z. by rewrite Hz, Hb.
Qed.

(** Four framed fields are read back. *)
Lemma read_snapshot_frames c rels states tc rc b1 b2 b3 b4 z1 z2 s :
  uncompress decompressor c b1 = Ok z1 -> de_rels z1 = Ok rels ->
  uncompress decompressor c b2 = Ok z2 -> de_states z2 = Ok states ->
  de_counter b3 = Ok tc -> de_counter b4 = Ok rc ->
  s = frame b1 ++ frame b2 ++ frame b3 ++ frame b4 ->
  (Z.of_nat (length s) < u64_modulus)%Z ->
  read_snapshot decompressor c s = Ok (rels, states, tc, rc).
Proof.
  intros Hu1 Hd1 Hu2 Hd2 Hd3 Hd4 Hs Hlen. assert (Z.of_nat (length s) < u64_modulus)%Z as Hb by done.
  rewrite Hs, !length_app, !Nat2Z.inj_add, !length_frame in Hb.
  edestruct (read_frame s [] b1 (frame b2 ++ frame b3 ++ frame b4)) as [R1 S1]; [done..|].
  edestruct (read_frame s (frame b1) b2 (frame b3 ++ frame b4)) as [R2 S2]; [done..|].
  edestruct (read_frame s (frame b1 ++ frame b2) b3 (frame b4)) as [R3 S3]; [by rewrite <- app_assoc|done..|].
  edestruct (read_frame s (frame b1 ++ frame b2 ++ frame b3) b4 []) as [R4 S4];
    [by rewrite <- !app_assoc, app_nil_r|done..|].
  rewrite ?length_app, ?Nat2Z.inj_add, !length_frame in *. change (Z.of_nat (length ([] : Bytes))) with 0%Z in *.
  unfold read_snapshot, decode_with_length_prefix.
  rewrite R1. cbn [result_bind]. rewrite wrap_u64_small, R2 by lia. cbn [result_bind].
  rewrite !(wrap_u64_small (8 + 8 + _)) by lia. rewrite wrap_u64_small by lia.
  replace (8 + 8 + Z.of_nat (length b1) + Z.of_nat (length b2))%Z
    with (8 + Z.of_nat (length b1) + (8 + Z.of_nat (length b2)))%Z by lia.
  rewrite R3. cbn [result_bind].
  rewrite !(wrap_u64_small (8 + (8 + 8 + _) + _)) by lia. rewrite wrap_u64_small by lia.
  replace (8 + (8 + 8 + Z.of_nat (length b1)) + Z.of_nat (length b2) + Z.of_nat (length b3))%Z
    with (8 + Z.of_nat (length b1) + (8 + Z.of_nat (length b2) + (8 + Z.of_nat (length b3))))%Z by lia.
  rewrite R4. cbn [result_bind]. rewrite wrap_u64_small by lia.
  change 8%Z with (8 + 0)%Z at 1. rewrite S1. cbn [result_bind]. rewrite Hu1. cbn [result_bind]. rewrite Hd1.
  cbn [result_bind or_anyhow].
  replace (8 + 8 + Z.of_nat (length b1))%Z with (8 + (8 + Z.of_nat (length b1)))%Z by lia.
  rewrite S2. cbn [result_bind]. rewrite Hu2. cbn [result_bind]. rewrite Hd2. cbn [result_bind or_anyhow].
  replace (8 + (8 + (8 + Z.of_nat (length b1))) + Z.of_nat (length b2))%Z
    with (8 + (8 + Z.of_nat (length b1) + (8 + Z.of_nat (length b2))))%Z by lia.
  rewrite S3. cbn [result_bind]. rewrite Hd3. cbn [result_bind or_anyhow].
  match goal with |- context [slice s ?x (Z.of_nat (length b4))] =>
    replace x with (8 + (8 + Z.of_nat (length b1) + (8 + Z.of_nat (length b2) + (8 + Z.of_nat (length b3)))))%Z by lia end.
  rewrite S4. cbn [result_bind]. by rewrite Hd4.
Qed.

Lemma snapshot_reads r :
  exists b, snapshot compressor order r = Ok b
  /\ ((Z.of_nat (length b) < u64_modulus)%Z ->
      read_snapshot decompressor (compression r) b
      = Ok (order _ (map_to_list (relations (inner r))), order _ (map_to_list (client_states r)),
            topics_count (inner r), relations_count (inner r))).
Proof.
  unfold snapshot.
  destruct (rels_inverse (order _ (map_to_list (relations (inner r))))) as (z1 & -> & D1).
  destruct (compress_inverse (compression r) z1) as (b1 & C1 & U1).
  destruct (states_inverse (order _ (map_to_list (client_states r)))) as (z2 & -> & D2).
  destruct (compress_inverse (compression r) z2) as (b2 & C2 & U2).
  destruct (counter_inverse (topics_count (inner r))) as (b3 & -> & D3).
  destruct (counter_inverse (relations_count (inner r))) as (b4 & -> & D4).
  cbn [result_bind or_anyhow]. rewrite C1, C2. cbn [result_bind].
  eexists. split; [done|]. intros Hlen. apply (read_snapshot_frames _ _ _ _ _ b1 b2 b3 b4 z1 z2); try done.
  unfold encode_with_length_prefix, frame. by rewrite app_nil_l, <- !app_assoc.
Qed.

(** Restoring a snapshot, in full. *)
Lemma restore_snapshot r r0 :
  rwf (inner r) -> TopicTree.pruned (topics (inner r0)) -> compression r0 = compression r ->
  exists b, snapshot compressor order r = Ok b
  /\ ((Z.of_nat (length b) < u64_modulus)%Z ->
      exists t, TopicTree.pruned t
      /\ (forall f, TopicTree.contents t f <> ∅
            <-> TopicTree.contents (topics (inner r)) f <> ∅ \/ TopicTree.contents (topics (inner r0)) f <> ∅)
      /\ restore decompressor b r0
          = (Ok tt, mkCluster (mkRouter t (topics_count (inner r)) (relations (inner r)) (relations_count (inner r)))
                      (client_states r) (try_lock_timeout r0) (compression r0))).
Proof.
  intros Hwf Hp Hc. destruct (snapshot_reads r) as (b & Hb & Hread).
  exists b. split; [done|]. intros Hlen. unfold restore. rewrite Hc, Hread by done.
  edestruct (restore_rels_spec (order _ (map_to_list (relations (inner r)))))
    as (t & Ht & Hcont & ->); [| by apply Hp |].
  { rewrite order_perm. apply Forall_forall. intros [tf rels] Hin. apply elem_of_map_to_list in Hin.
    by apply (rwf_entry _ Hwf tf rels). }
  exists t. split; [done|]. split.
  - intros f. rewrite Hcont, (rwf_tree _ Hwf). simpl. setoid_rewrite order_perm. split.
    + intros [?|([tf rels] & Hin & Hf)]; [by right|left]. apply elem_of_map_to_list in Hin. by eauto.
    + intros [(tf & Hf & [rels Hr])|?]; [right|by left]. exists (tf, rels). by rewrite elem_of_map_to_list.
  - simpl. unfold insert_states.
    pose proof (insert_entries (relations (inner r)) _ (order_perm _ _)) as E1.
    pose proof (insert_entries (client_states r) _ (order_perm _ _)) as E2. by rewrite E1, E2.
Qed.

End snapshot_lemmas.

(** ** Theorems *)

(** the replicated subscriptions do not depend on the clocks of the nodes: on
    every node the router after a log is the router after the log's
    subscriptions and unsubscriptions, so nodes that applied the same log route
    alike, whatever their clocks and their session states. *)
Theorem replicas_agree clock k ms try_lock_timeout compression :
  inner (apply_log clock k ms (cluster_new try_lock_timeout compression)) = router_run (log_ops ms).
Proof. apply apply_log_inner. Qed.

(** C25: the handshake lock excludes: after a node was granted the lock of a
    client, every further attempt to lock that client is refused and leaves
    the granted lock in place, until the deadline passes, the client is
    reported connected or that very session is terminated. *)
Theorem handshake_exclusive r id prev r1 clock k ms id2 t2 t2' t t' :
  handshake_try_lock t t' id r = (ReplyTryLock prev, r1) ->
  client_id id2 = client_id id ->
  Forall (fun m => releases id m = false) ms ->
  (forall i, k <= i -> i < k + length ms ->
     (fst (clock i) < as_i64 (t' + as_i64 (try_lock_timeout r)))%Z) ->
  (t2 < as_i64 (t' + as_i64 (try_lock_timeout r)))%Z ->
  let r2 := apply_log clock k ms r1 in
  handshake_try_lock t2 t2' id2 r2 = (ReplyError "Handshake try lock failed", r2)
  /\ _client_node_id (client_id id) r2 = Some (node_id id).
Proof.
  intros Hl Hid Hms Hclock Ht2 r2.
  assert (holds_lock id t' r1 /\ try_lock_timeout r1 = try_lock_timeout r) as [Hl1 Ht1].
  { unfold handshake_try_lock in Hl. destruct (client_states r !! client_id id) as [s|]; [destruct (handshaking t _ s)|];
      simplify_eq/=; (split; [|done]); exists false; simpl; by rewrite lookup_insert_eq. }
  assert (try_lock_timeout r2 = try_lock_timeout r) as Ht by (subst r2; by rewrite apply_log_timeout).
  assert (holds_lock id t' r2) as [online Hs].
  { apply holds_lock_log; [done | by rewrite Ht1 | done]. }
  unfold handshake_try_lock, _client_node_id, handshaking. rewrite Hid, Hs, Ht. simpl.
  by rewrite (proj2 (Z.ltb_lt _ _) Ht2).
Qed.

(** the owner of a client's state changes only by a granted handshake or by
    a connection that is not older, and the state disappears only when its
    owner is terminated: late messages of a session that was taken over change
    nothing. *)
Theorem ownership_transfer t t' m r cid s :
  client_states r !! cid = Some s ->
  match client_states (snd (apply_message t t' m r)) !! cid with
  | Some s' =>
      st_id s' = st_id s
      \/ (m = HandshakeTryLock (st_id s') /\ handshaking t (try_lock_timeout r) s = false)
      \/ (m = Connected (st_id s') /\ (create_time (st_id s) <= create_time (st_id s'))%Z)
  | None => m = SessionTerminated (st_id s)
  end.
Proof.
  intros Hs. rewrite apply_message_status, Hs.
  destruct m as [id|id|id|id|tf id o|tf id|c|]; try by left.
  - case_decide; [|by left]. destruct (handshaking _ _ s); [by left|]. right. left. done.
  - case_decide; [|by left]. case_decide as Hold; [by left|]. simpl.
    destruct (decide (st_id s = id)); [by left|]. right. right. split; [done|].
    destruct (Z.le_gt_cases (create_time (st_id s)) (create_time id)); [done|]. by destruct Hold.
  - case_decide; by left.
  - case_decide as Hid; [|by left]. by destruct Hid as [_ ->].
Qed.

(** C30: a snapshot restored on another node carries over the subscriptions, the
    counters and the session states, whatever that node held before and in
    whatever order the entries were collected; the topic tree then holds the
    filters of both, and on a node without filters the router's invariant
    holds again. *)
Theorem snapshot_restore `{BincodeLaws}
    (compressor decompressor : Compression -> Bytes -> result string Bytes)
    (order : forall A, list A -> list A) r r0 :
  (forall c b, exists z, compressor c b = Ok z /\ decompressor c z = Ok b) ->
  (forall A (l : list A), order A l ≡ₚ l) ->
  rwf (inner r) -> TopicTree.pruned (topics (inner r0)) -> compression r0 = compression r ->
  exists b, snapshot compressor order r = Ok b
  /\ ((Z.of_nat (length b) < u64_modulus)%Z ->
      exists r1, restore decompressor b r0 = (Ok tt, r1)
      /\ relations (inner r1) = relations (inner r)
      /\ client_states r1 = client_states r
      /\ (forall f, TopicTree.contents (topics (inner r1)) f <> ∅
            <-> TopicTree.contents (topics (inner r)) f <> ∅ \/ TopicTree.contents (topics (inner r0)) f <> ∅)
      /\ ((forall f, TopicTree.contents (topics (inner r0)) f = ∅) -> rwf (inner r1))).
Proof.
  intros Hcomp Hord Hwf Hp Hc.
  destruct (restore_snapshot compressor decompressor order Hcomp Hord r r0 Hwf Hp Hc) as (b & Hb & Hrest).
  exists b. split; [done|]. intros (t & Ht & Htree & ->)%Hrest.
  eexists. split; [done|]. simpl. split; [done|]. split; [done|]. split; [done|].
  intros Hem. destruct Hwf as [He Hk Hto _ Hcn Hr]. constructor; simpl; try done.
  intros f. rewrite Htree, <- Hto, Hem. naive_solver.
Qed.

(** a node that asks for a lock learns from the answer whether it was
    granted and where the client's session was before: encoding the request,
    applying it and decoding the reply is the lock operation. *)
Theorem try_lock_answer `{BincodeLaws} t t' id r b :
  ser_message (HandshakeTryLock id) = Ok b ->
  exists reply, fst (apply t t' b r) = Ok reply
  /\ snd (apply t t' b r) = snd (handshake_try_lock t t' id r)
  /\ try_lock_reply reply
     = match session_status t (client_id id) r with
       | Some s => if ss_handshaking s then Err "Handshake try lock failed" else Ok (Some (node_id (ss_id s)))
       | None => Ok None
       end.
Proof.
  intros Hb. unfold apply. destruct (message_inverse (HandshakeTryLock id)) as (b' & Hb' & Hd).
  assert (b' = b) as -> by congruence. rewrite Hd. unfold session_status, status. simpl.
  assert (forall m, exists reply, answer_encode (Reply m) = Ok reply /\ reply <> [] /\ de_reply reply = Ok m) as Hreply.
  { intros m. destruct (reply_inverse m) as (y & Hy & Hdy). exists y. simpl. rewrite Hy.
    repeat split; [|done]. intros ->. by eapply reply_nonempty. }
  unfold handshake_try_lock. destruct (client_states r !! client_id id) as [s|]; simpl; [destruct (handshaking _ _ s); simpl|];
    (match goal with |- context [ser_reply ?m] =>
      destruct (Hreply m) as (y & Hy & Hne & Hdy); simpl in Hy; rewrite Hy; exists y;
      split; [done|]; split; [done|]; unfold try_lock_reply; rewrite decide_False, Hdy by done; done end).
Qed.

(** restoring a snapshot does not empty the topic tree: a filter nobody
    subscribes to any more still counts as a match afterwards, on every node
    that had it before. *)
Theorem restore_keeps_old_filters `{BincodeLaws}
    (compressor decompressor : Compression -> Bytes -> result string Bytes)
    (order : forall A, list A -> list A) r r0 tf topic_name :
  (forall c b, exists z, compressor c b = Ok z /\ decompressor c z = Ok b) ->
  (forall A (l : list A), order A l ≡ₚ l) ->
  rwf (inner r) -> rwf (inner r0) -> compression r0 = compression r ->
  relations (inner r) !! tf = None -> is_Some (relations (inner r0) !! tf) ->
  has_wildcard topic_name = false -> is_ok (from_str topic_name) = true -> filter_matches tf topic_name ->
  exists b, snapshot compressor order r = Ok b
  /\ ((Z.of_nat (length b) < u64_modulus)%Z ->
      exists r1, restore decompressor b r0 = (Ok tt, r1)
      /\ relations (inner r1) !! tf = None
      /\ _has_matches topic_name (inner r1) = Ok true).
Proof.
  intros Hcomp Hord Hwf Hwf0 Hc Hno Hsome Hw Hok Hm.
  destruct (restore_snapshot compressor decompressor order Hcomp Hord r r0 Hwf (rwf_pruned _ Hwf0) Hc) as (b & Hb & Hrest).
  exists b. split; [done|]. intros (t & Ht & Htree & ->)%Hrest. eexists. split; [done|]. split; [done|].
  unfold _has_matches. destruct (from_str topic_name) as [topic|] eqn:Hn; [|done]. cbn [result_bind inner topics]. f_equal.
  destruct (proj2 (matched_filters (inner r0) topic_name topic tf Hwf0 Hn Hw)) as ([f v] & Hin & _ & _); [done|].
  unfold matched in Hin. rewrite TopicTree.collect_list in Hin. apply TopicTree.matches_list_elem in Hin as (f' & [= <- ->] & Hne & Hlm).
  apply TopicTree.is_match_iff. exists f. split; [|done]. apply Htree. by right.
Qed.

(** the lock is decided by the clock of the node that applies the message:
    two nodes in the same state that apply the same request on the two sides
    of the deadline answer differently and record different owners. *)
Theorem lock_depends_on_clock r id s t1 t1' t2 t2' :
  client_states r !! client_id id = Some s -> st_handshaking s = true -> st_id s <> id ->
  (t1 < as_i64 (handshak_duration s + as_i64 (try_lock_timeout r)) <= t2)%Z ->
  let '(reply1, r1) := handshake_try_lock t1 t1' id r in
  let '(reply2, r2) := handshake_try_lock t2 t2' id r in
  reply1 <> reply2
  /\ st_id <$> client_states r1 !! client_id id = Some (st_id s)
  /\ st_id <$> client_states r2 !! client_id id = Some id.
Proof.
  intros Hs Hh Hne [H1 H2]. unfold handshake_try_lock, handshaking. rewrite Hs, Hh. simpl.
  rewrite (proj2 (Z.ltb_lt _ _) H1), (proj2 (Z.ltb_ge _ _) H2). simpl.
  by rewrite Hs, lookup_insert_eq.
Qed.

(** ** Witnesses *)

Module ClusterExample.

(** A codec: one number per value. *)
#[export] Instance Id_countable : Countable Id.
Proof.
  refine (inj_countable' (fun i => (node_id i, lid i, local_addr i, remote_addr i, client_id i, username i, create_time i))
            (fun '(n, l, la, ra, c, u, t) => mkId n l la ra c u t) _). by intros [].
Defined.

#[export] Instance QoS_countable : Countable QoS.
Proof.
  refine (inj_countable' (fun q => match q with AtMostOnce => 0 | AtLeastOnce => 1 | ExactlyOnce => 2 end)
            (fun n => match n with 0 => AtMostOnce | 1 => AtLeastOnce | _ => ExactlyOnce end) _). by intros [].
Defined.

#[export] Instance RetainHandling_countable : Countable RetainHandling.
Proof.
  refine (inj_countable' (fun q => match q with AtSubscribe => 0 | AtSubscribeNew => 1 | NoAtSubscribe => 2 end)
            (fun n => match n with 0 => AtSubscribe | 1 => AtSubscribeNew | _ => NoAtSubscribe end) _). by intros [].
Defined.

#[export] Instance SubscriptionOptions_countable : Countable SubscriptionOptions.
Proof.
  refine (inj_countable'
            (fun o => match o with
                      | OptV3 (mkV3 q g) => inl (q, g)
                      | OptV5 (mkV5 q g nl rap rh i) => inr (q, g, nl, rap, rh, i)
                      end)
            (fun x => match x with
                      | inl (q, g) => OptV3 (mkV3 q g)
                      | inr (q, g, nl, rap, rh, i) => OptV5 (mkV5 q g nl rap rh i)
                      end) _). by intros [[]|[]].
Defined.

#[export] Instance ClientStatus_eq_dec : EqDecision ClientStatus.
Proof. solve_decision. Defined.

#[export] Instance ClientStatus_countable : Countable ClientStatus.
Proof.
  refine (inj_countable' (fun s => (st_id s, st_online s, st_handshaking s, handshak_duration s))
            (fun '(i, o, h, d) => mkStatus i o h d) _). by intros [].
Defined.

#[export] Instance Message_eq_dec : EqDecision Message.
Proof. solve_decision. Defined.

#[export] Instance Message_countable : Countable Message.
Proof.
  refine (inj_countable'
            (fun m => match m with
                      | HandshakeTryLock id => (0, Some id, "", None)
                      | Connected id => (1, Some id, "", None)
                      | Disconnected id => (2, Some id, "", None)
                      | SessionTerminated id => (3, Some id, "", None)
                      | Add tf id o => (4, Some id, tf, Some o)
                      | Remove tf id => (5, Some id, tf, None)
                      | GetClientNodeId c => (6, None, c, None)
                      | Ping => (7, None, "", None)
                      end)
            (fun x => match x with
                      | (0, Some id, _, _) => HandshakeTryLock id
                      | (1, Some id, _, _) => Connected id
                      | (2, Some id, _, _) => Disconnected id
                      | (3, Some id, _, _) => SessionTerminated id
                      | (4, Some id, tf, Some o) => Add tf id o
                      | (5, Some id, tf, _) => Remove tf id
                      | (6, _, c, _) => GetClientNodeId c
                      | _ => Ping
                      end) _). by intros [].
Defined.

#[export] Instance MessageReply_eq_dec : EqDecision MessageReply.
Proof. solve_decision. Defined.

#[export] Instance MessageReply_countable : Countable MessageReply.
Proof.
  refine (inj_countable'
            (fun m => match m with
                      | ReplyError e => Some (inl e) | ReplyTryLock p => Some (inr p) | ReplyPing => None
                      end)
            (fun x => match x with
                      | Some (inl e) => ReplyError e | Some (inr p) => ReplyTryLock p | None => ReplyPing
                      end) _). by intros [].
Defined.

Definition number {A} `{Countable A} (a : A) : result string Bytes := Ok [Zpos (encode a)].

Definition unnumber {A} `{Countable A} (b : Bytes) : result string A :=
  match b with
  | [Zpos p] => match decode p with Some a => Ok a | None => Err "decode" end
  | _ => Err "decode"
  end.

Lemma number_inverse {A} `{Countable A} : inverse (A := A) number unnumber.
Proof. intros a. eexists. split; [reflexivity|]. simpl. by rewrite decode_encode. Qed.

#[export] Instance toy_bincode : Bincode := {|
  ser_message := number; de_message := unnumber; ser_reply := number; de_reply := unnumber;
  ser_node := number; de_node := unnumber; ser_rels := number; de_rels := unnumber;
  ser_states := number; de_states := unnumber; ser_counter := number; de_counter := unnumber |}.

#[export] Instance toy_laws : BincodeLaws.
Proof. constructor; try apply number_inverse; intros; discriminate. Qed.

(** A compressor that reverses. *)
Definition toy_compress (c : Compression) (b : Bytes) : result string Bytes := Ok (rev b).

Lemma toy_compress_inverse c b : exists z, toy_compress c b = Ok z /\ toy_compress c z = Ok b.
Proof. exists (rev b). unfold toy_compress. by rewrite rev_involutive. Qed.

Definition toy_order (A : Type) (l : list A) : list A := rev l.

Lemma toy_order_perm A (l : list A) : toy_order A l ≡ₚ l.
Proof. unfold toy_order. by rewrite <- Permutation_rev. Qed.

Definition alice (n : NodeId) (time : Z) : Id := mkId n 0 None None "alice" None time.
Definition plain : SubscriptionOptions := OptV3 (mkV3 AtLeastOnce None).
Definition fresh : ClusterRouter := cluster_new 1000 (Some Zstd).
Definition clock (k : nat) : Z * Z := (Z.of_nat k, Z.of_nat k).

Definition node1 : ClusterRouter := apply_log clock 0 [Connected (alice 1 0); Add "a/b" (alice 1 0) plain] fresh.
Definition node2 : ClusterRouter := apply_log clock 0 [Add "c/+" (alice 1 0) plain] fresh.

Lemma node_rwf ms : rwf (inner (apply_log clock 0 ms fresh)).
Proof. rewrite apply_log_inner. apply (proj1 (router_run_spec (log_ops ms))). Qed.

Lemma handshake_exclusive_witness :
  let r1 := snd (handshake_try_lock 5 5 (alice 1 5) fresh) in
  let r2 := apply_log clock 6 [Disconnected (alice 1 5); Connected (mkId 1 0 None None "bob" None 7)] r1 in
  handshake_try_lock 8 8 (alice 2 8) r2 = (ReplyError "Handshake try lock failed", r2)
  /\ _client_node_id "alice" r2 = Some 1%Z.
Proof.
  apply (handshake_exclusive fresh (alice 1 5) None (snd (handshake_try_lock 5 5 (alice 1 5) fresh))
           clock 6 [Disconnected (alice 1 5); Connected (mkId 1 0 None None "bob" None 7)] (alice 2 8) 8 8 5 5).
  - reflexivity.
  - reflexivity.
  - repeat constructor.
  - intros i Hi Hi'. simpl in Hi'. assert (i = 6 \/ i = 7) as [->| ->] by lia; vm_compute; reflexivity.
  - vm_compute. reflexivity.
Defined.

Lemma ownership_transfer_witness :
  exists s, client_states node1 !! "alice" = Some s
  /\ match client_states (snd (apply_message 9 9 (SessionTerminated (alice 2 9)) node1)) !! "alice" with
     | Some s' =>
         st_id s' = st_id s
         \/ (SessionTerminated (alice 2 9) = HandshakeTryLock (st_id s') /\ handshaking 9 (try_lock_timeout node1) s = false)
         \/ (SessionTerminated (alice 2 9) = Connected (st_id s') /\ (create_time (st_id s) <= create_time (st_id s'))%Z)
     | None => SessionTerminated (alice 2 9) = SessionTerminated (st_id s)
     end.
Proof.
  exists (mkStatus (alice 1 0) true false 0).
  split; [vm_compute; reflexivity|]. apply ownership_transfer. vm_compute. reflexivity.
Defined.

Lemma snapshot_restore_witness :
  exists b r1, snapshot toy_compress toy_order node1 = Ok b /\ restore toy_compress b fresh = (Ok tt, r1)
  /\ relations (inner r1) = relations (inner node1) /\ client_states r1 = client_states node1 /\ rwf (inner r1).
Proof.
  destruct (snapshot_restore toy_compress toy_compress toy_order node1 fresh toy_compress_inverse toy_order_perm
              (node_rwf _) TopicTree.pruned_default eq_refl) as (b & Hb & Hr).
  destruct Hr as (r1 & Hr1 & Hrel & Hst & _ & Hwf).
  { unfold snapshot in Hb. simpl in Hb. injection Hb as <-. vm_compute. reflexivity. }
  exists b, r1. split; [exact Hb|]. split; [exact Hr1|]. split; [exact Hrel|]. split; [exact Hst|].
  apply Hwf. intros f. apply TopicTree.contents_default.
Defined.

Lemma try_lock_answer_witness :
  exists b reply, ser_message (HandshakeTryLock (alice 2 9)) = Ok b
  /\ fst (apply 9 9 b node1) = Ok reply /\ try_lock_reply reply = Ok (Some 1%Z).
Proof.
  destruct (try_lock_answer (H := toy_bincode) 9 9 (alice 2 9) node1 [Zpos (encode (HandshakeTryLock (alice 2 9)))])
    as (reply & Hr & _ & Ht); [reflexivity|].
  exists [Zpos (encode (HandshakeTryLock (alice 2 9)))], reply. split; [reflexivity|]. split; [exact Hr|]. rewrite Ht. vm_compute. reflexivity.
Defined.

Lemma restore_keeps_old_filters_witness :
  exists b r1, snapshot toy_compress toy_order node1 = Ok b /\ restore toy_compress b node2 = (Ok tt, r1)
  /\ relations (inner r1) !! "c/+" = None /\ _has_matches "c/d" (inner r1) = Ok true.
Proof.
  destruct (restore_keeps_old_filters toy_compress toy_compress toy_order node1 node2 "c/+" "c/d"
              toy_compress_inverse toy_order_perm (node_rwf _) (node_rwf _) eq_refl) as (b & Hb & Hr).
  - vm_compute. reflexivity.
  - eexists. vm_compute. reflexivity.
  - reflexivity.
  - reflexivity.
  - exists [Normal "c"; SingleWildcard]. split; [reflexivity|]. split; [|reflexivity].
    vm_compute. apply (mm_level (Normal "c")); [reflexivity|]. apply mm_single, mm_end.
  - destruct Hr as (r1 & Hr1 & Hrel & Hm).
    { unfold snapshot in Hb. simpl in Hb. injection Hb as <-. vm_compute. reflexivity. }
    exists b, r1. repeat split; assumption.
Defined.

Definition locked : ClusterRouter := snd (handshake_try_lock 5 5 (alice 1 5) fresh).

Lemma lock_depends_on_clock_witness :
  let '(reply1, r1) := handshake_try_lock 1000 1000 (alice 2 8) locked in
  let '(reply2, r2) := handshake_try_lock 1010 1010 (alice 2 8) locked in
  reply1 <> reply2
  /\ st_id <$> client_states r1 !! "alice" = Some (alice 1 5)
  /\ st_id <$> client_states r2 !! "alice" = Some (alice 2 8).
Proof.
  apply (lock_depends_on_clock locked (alice 2 8) (mkStatus (alice 1 5) false true 5)).
  - vm_compute. reflexivity.
  - reflexivity.
  - discriminate.
  - vm_compute. split; congruence.
Defined.

End ClusterExample.
