(* ===== verification/Inflight.v ===== *)
(** * Unacknowledged messages: [vendor/rmqtt/src/inflight.rs]

    [OutInflight] tracks what was sent to a client and not acknowledged yet,
    [InInflight] the packet ids received and not released yet. The queue
    [DequeMap] is rust_box's and enters through the interface [DequeMap]; the
    event functions count, so the model keeps the counter they drive. The clock
    is an argument. Subtractions on [usize] wrap, as in a release build. *)

From S2P Require Import Prelude Strs Topic Types.
Local Open Scope string_scope.
Local Open Scope list_scope.
Local Open Scope Z_scope.

Abbreviation PacketId := Z.

Inductive MomentStatus : Type := UnAck | UnReceived | UnComplete.

Record OutInflightMessage : Type := mkOut {
  out_publish : Publish;
  out_from : MsgFrom;
  moment : MomentStatus;
  update_time : TimestampMillis
}.

Definition out_new (now : Z) (s : MomentStatus) (from : MsgFrom) (p : Publish) : OutInflightMessage :=
  mkOut p from s now.

Definition out_update_status (now : Z) (s : MomentStatus) (m : OutInflightMessage) : OutInflightMessage :=
  mkOut (out_publish m) (out_from m) s now.

Definition timeout (now interval_millis : Z) (m : OutInflightMessage) : bool :=
  (interval_millis >? 0) && (now - update_time m >=? interval_millis).

(** ** The queue's interface *)

(** A map with a front; what its order is, nothing here depends on. *)
Class DequeMap (D : Type) : Type := {
  dm_default : D;
  dm_front : D -> option (PacketId * OutInflightMessage);
  dm_pop_front : D -> option (PacketId * OutInflightMessage) * D;
  dm_insert : PacketId -> OutInflightMessage -> D -> option OutInflightMessage * D;
  dm_remove : PacketId -> D -> option OutInflightMessage * D;
  dm_get : PacketId -> D -> option OutInflightMessage;
  dm_set : PacketId -> OutInflightMessage -> D -> D;
  dm_len : D -> nat;
  dm_iter : D -> list (PacketId * OutInflightMessage)
}.

(** The laws: every operation is the one of the map [dm_iter] lists. *)
Class DequeMapLaws (D : Type) `{DequeMap D} : Prop := {
  dm_nodup d : NoDup (dm_iter d).*1;
  dm_default_iter : dm_iter dm_default = [];
  dm_front_iter d : dm_front d = head (dm_iter d);
  dm_pop_front_iter d : fst (dm_pop_front d) = head (dm_iter d)
                        /\ dm_iter (snd (dm_pop_front d)) = tail (dm_iter d);
  dm_get_iter k d : dm_get k d = (list_to_map (dm_iter d) : gmap Z OutInflightMessage) !! k;
  dm_insert_iter k m d : fst (dm_insert k m d) = dm_get k d
    /\ (list_to_map (dm_iter (snd (dm_insert k m d))) : gmap Z OutInflightMessage)
       = <[k := m]> (list_to_map (dm_iter d));
  dm_remove_iter k d : fst (dm_remove k d) = dm_get k d
    /\ (list_to_map (dm_iter (snd (dm_remove k d))) : gmap Z OutInflightMessage)
       = delete k (list_to_map (dm_iter d));
  dm_set_iter k m d : (list_to_map (dm_iter (dm_set k m d)) : gmap Z OutInflightMessage)
       = <[k := m]> (list_to_map (dm_iter d));
  dm_len_iter d : dm_len d = length (dm_iter d)
}.

(** ** Outgoing messages *)

(** [out_count] is the statistics counter behind [on_push_fn] and [on_pop_fn]. *)
Record OutInflight (D : Type) : Type := mkOutInflight {
  cap : Z;
  interval : TimestampMillis;
  next : Z;
  queues : D;
  out_count : Z
}.
Arguments mkOutInflight {D} _ _ _ _ _.
Arguments cap {D} _.
Arguments interval {D} _.
Arguments next {D} _.
Arguments queues {D} _.
Arguments out_count {D} _.

Definition min_interval (retry_interval expiry_interval : Z) : Z :=
  if retry_interval =? 0 then expiry_interval
  else if expiry_interval =? 0 then retry_interval
  else Z.min retry_interval expiry_interval.

Section out_inflight.
Context {D : Type} `{DequeMap D}.

Definition out_inflight_new (cap retry_interval expiry_interval : Z) : OutInflight D :=
  mkOutInflight cap (min_interval retry_interval expiry_interval) 1 dm_default 0.

Definition with_queues (q : D) (count : Z) (o : OutInflight D) : OutInflight D :=
  mkOutInflight (cap o) (interval o) (next o) q count.

Definition get_timeout (now : Z) (o : OutInflight D) : option Z :=
  if interval o =? 0 then None
  else
    match dm_front (queues o) with
    | Some (_, m) =>
        let t := interval o - (now - update_time m) in
        Some (if t <? 1 then 1 else t)
    | None => None
    end.

Definition front_timeout (now : Z) (o : OutInflight D) : bool :=
  if interval o =? 0 then false
  else
    match dm_front (queues o) with
    | Some (_, m) => timeout now (interval o) m
    | None => false
    end.

Definition pop_front (o : OutInflight D) : option OutInflightMessage * OutInflight D :=
  let '(front, q) := dm_pop_front (queues o) in
  match front with
  | Some (_, m) => (Some m, with_queues q (out_count o - 1) o)
  | None => (None, with_queues q (out_count o) o)
  end.

Definition pop_front_timeout (now : Z) (o : OutInflight D) : option OutInflightMessage * OutInflight D :=
  if front_timeout now o then pop_front o else (None, o).

Definition push_back (m : OutInflightMessage) (o : OutInflight D) : option Z * OutInflight D :=
  match packet_id (out_publish m) with
  | Some pid =>
      let count := out_count o + 1 in
      let '(old, q) := dm_insert pid m (queues o) in
      let count := match old with Some _ => count - 1 | None => count end in
      (match old with Some old => packet_id (out_publish old) | None => None end, with_queues q count o)
  | None => (None, o)
  end.

Definition out_remove (pid : PacketId) (o : OutInflight D) : option OutInflightMessage * OutInflight D :=
  let '(old, q) := dm_remove pid (queues o) in
  match old with
  | Some m => (Some m, with_queues q (out_count o - 1) o)
  | None => (None, with_queues q (out_count o) o)
  end.

Definition update_status (now : Z) (pid : PacketId) (s : MomentStatus) (o : OutInflight D) : OutInflight D :=
  match dm_get pid (queues o) with
  | Some m => with_queues (dm_set pid (out_update_status now s m) (queues o)) (out_count o) o
  | None => o
  end.

Definition exist (pid : PacketId) (o : OutInflight D) : bool := isSome (dm_get pid (queues o)).

(** [(self.cap - self.queues.len()) > 0] on [usize]. *)
Definition has_credit (o : OutInflight D) : bool :=
  wrap_u64 (cap o - Z.of_nat (dm_len (queues o))) >? 0.

(** The loop of [next_id]; [next] is an [AtomicU16]. *)
Fixpoint next_id_loop (rounds : nat) (q : D) (next : Z) : result string PacketId * Z :=
  match rounds with
  | O => (Err "no packet_id available, should unreachable!()", next)
  | S rounds' =>
      let packet_id := next in
      let next := wrap_u16 (next + 1) in
      if packet_id =? 0 then next_id_loop rounds' q next
      else if isSome (dm_get packet_id q) then next_id_loop rounds' q next
      else (Ok packet_id, next)
  end.

Definition next_id (o : OutInflight D) : result string PacketId * OutInflight D :=
  let '(res, n) := next_id_loop (Z.to_nat u16_max) (queues o) (next o) in
  (res, mkOutInflight (cap o) (interval o) n (queues o) (out_count o)).

(** The loop pops until the queue is empty: as many rounds as entries. *)
Fixpoint pop_all (rounds : nat) (o : OutInflight D) : list OutInflightMessage * OutInflight D :=
  match rounds with
  | O => ([], o)
  | S rounds' =>
      match pop_front o with
      | (Some m, o) => let '(ms, o) := pop_all rounds' o in (m :: ms, o)
      | (None, o) => ([], o)
      end
  end.

Definition to_inflight_messages (o : OutInflight D) : list OutInflightMessage * OutInflight D :=
  pop_all (S (dm_len (queues o))) o.

Definition clone_inflight_messages (o : OutInflight D) : list OutInflightMessage := map snd (dm_iter (queues o)).

End out_inflight.

(** ** Incoming packet ids *)

Inductive Reason : Type := InflightWindowFull | PacketIdInUse (pid : Z).

Record InInflight : Type := mkIn {
  cached : gset Z;
  max_inflight : Z;
  in_count : Z
}.

Definition in_new (max_inflight : Z) : InInflight := mkIn ∅ max_inflight 0.

Definition in_add (pid : Z) (q : QoS) (i : InInflight) : result Reason bool * InInflight :=
  if Z.of_nat (size (cached i)) >=? max_inflight i then (Err InflightWindowFull, i)
  else if decide (pid ∈ cached i) then
    (match q with ExactlyOnce => Err (PacketIdInUse pid) | _ => Ok false end, i)
  else (Ok true, mkIn ({[pid]} ∪ cached i) (max_inflight i) (in_count i + 1)).

Definition in_remove (pid : Z) (i : InInflight) : bool * InInflight :=
  if decide (pid ∈ cached i) then (true, mkIn (cached i ∖ {[pid]}) (max_inflight i) (in_count i - 1))
  else (false, i).

(** ** Lemmas: outgoing *)

Section out_lemmas.
Context {D : Type} `{DequeMapLaws D}.

(** The queue as a map. *)
Definition out_map (d : D) : gmap Z OutInflightMessage := list_to_map (dm_iter d).

Lemma dm_len_size d : dm_len d = size (out_map d).
Proof.
  rewrite dm_len_iter, <- length_map_to_list. unfold out_map.
  by rewrite map_to_list_to_map by apply dm_nodup.
Qed.

Lemma out_map_pop d :
  match dm_pop_front d with
  | (Some (k, m), q) => out_map d !! k = Some m /\ out_map q = delete k (out_map d)
  | (None, q) => out_map d = ∅ /\ out_map q = ∅
  end.
Proof.
  pose proof (dm_pop_front_iter d) as [Hf Hq]. pose proof (dm_nodup d) as Hn.
  destruct (dm_pop_front d) as [x q]. simpl in *. subst x. unfold out_map. rewrite Hq.
  destruct (dm_iter d) as [|[k m] l]; simpl; [done|]. rewrite lookup_insert_eq. split; [done|].
  apply NoDup_cons in Hn as [Hk _]. rewrite delete_insert_eq. by rewrite delete_id by by apply not_elem_of_list_to_map_1.
Qed.

(** [next_id] gives up only when every id it tried is 0 or taken. *)
Lemma next_id_loop_spec rounds q n :
  0 <= n < 65536 ->
  (exists id, next_id_loop rounds q n = (Ok id, wrap_u16 (id + 1)) /\ 1 <= id <= 65535 /\ out_map q !! id = None)
  \/ (forall i, 0 <= i < Z.of_nat rounds -> (n + i) mod 65536 = 0 \/ is_Some (out_map q !! ((n + i) mod 65536))).
Proof.
  revert n. induction rounds as [|rounds IH]; intros n Hn; [right; lia|]. cbn [next_id_loop].
  assert (0 <= wrap_u16 (n + 1) < 65536) as Hw by (apply Z.mod_pos_bound; lia).
  assert (forall P : Z -> Prop, P n -> (forall i, 0 <= i < Z.of_nat rounds -> P ((wrap_u16 (n + 1) + i) mod 65536)) ->
    forall i, 0 <= i < Z.of_nat (S rounds) -> P ((n + i) mod 65536)) as Hstep.
  { intros P HP Hs i Hi. destruct (decide (i = 0)) as [->|]; [by rewrite Z.add_0_r, Z.mod_small|].
    replace ((n + i) mod 65536) with ((wrap_u16 (n + 1) + (i - 1)) mod 65536); [apply Hs; lia|].
    unfold wrap_u16. rewrite Zplus_mod_idemp_l. f_equal. lia. }
  destruct (Z.eqb_spec n 0) as [->|Hne].
  - destruct (IH _ Hw) as [?|Hall]; [by left|]. right. apply (Hstep (fun p => p = 0 \/ is_Some (out_map q !! p))); [by left | done].
  - rewrite dm_get_iter. fold (out_map q). destruct (out_map q !! n) as [m|] eqn:Hg; simpl.
    + destruct (IH _ Hw) as [?|Hall]; [by left|]. right. apply (Hstep (fun p => p = 0 \/ is_Some (out_map q !! p))); [right; by rewrite Hg | done].
    + left. exists n. split; [done|]. split; [lia|done].
Qed.

(** The ids tried are distinct, so they do not fit in a small queue. *)
Lemma ids_exhausted rounds n (m : gmap Z OutInflightMessage) :
  Z.of_nat rounds <= 65536 ->
  (forall i, 0 <= i < Z.of_nat rounds -> (n + i) mod 65536 = 0 \/ is_Some (m !! ((n + i) mod 65536))) ->
  (rounds <= S (size m))%nat.
Proof.
  intros Hr Hall. set (tried := (fun i => (n + Z.of_nat i) mod 65536) <$> seq 0 rounds).
  assert (NoDup tried) as Hnd.
  { unfold tried. apply NoDup_fmap_2_strong; [|apply NoDup_seq].
    intros x y Hx%elem_of_seq Hy%elem_of_seq He.
    assert ((Z.of_nat x - Z.of_nat y) mod 65536 = 0) as Hm.
    { replace (Z.of_nat x - Z.of_nat y) with ((n + Z.of_nat x) - (n + Z.of_nat y)) by lia.
      rewrite Zminus_mod, He, Z.sub_diag. done. }
    apply Z.mod_divide in Hm as [k Hk]; [lia|lia]. }
  assert (length tried = rounds) as Hlen by (unfold tried; by rewrite length_fmap, length_seq).
  rewrite <- Hlen, <- (size_list_to_set (C := gset Z)) by done. rewrite <- (size_dom m).
  transitivity (size ({[0]} ∪ dom m : gset Z)).
  - apply subseteq_size. intros p. rewrite elem_of_list_to_set. unfold tried.
    intros (i & -> & Hi%elem_of_seq)%list_elem_of_fmap. rewrite elem_of_union, elem_of_singleton, elem_of_dom.
    destruct (Hall (Z.of_nat i)) as [->|?]; [lia | by left | by right].
  - rewrite size_union_alt, size_singleton. simpl. assert (Nat.le (size (dom m ∖ {[0]} : gset Z)) (size (dom m))) by (apply subseteq_size; set_solver). lia.
Qed.
(** ** The invariant of the outgoing window *)

(** The counter is the length, and every message is filed under its id. *)
Record out_inv (o : OutInflight D) : Prop := mkOutInv {
  inv_count : out_count o = Z.of_nat (dm_len (queues o));
  inv_keys : forall k m, out_map (queues o) !! k = Some m -> packet_id (out_publish m) = Some k;
  inv_next : 0 <= next o < 65536
}.

Inductive OutOp : Type :=
| OPush (m : OutInflightMessage)
| OPop
| OPopTimeout (now : Z)
| ORemove (pid : PacketId)
| OStatus (now : Z) (pid : PacketId) (s : MomentStatus)
| ONextId.

Definition out_step (o : OutInflight D) (op : OutOp) : OutInflight D :=
  match op with
  | OPush m => snd (push_back m o)
  | OPop => snd (pop_front o)
  | OPopTimeout now => snd (pop_front_timeout now o)
  | ORemove pid => snd (out_remove pid o)
  | OStatus now pid s => update_status now pid s o
  | ONextId => snd (next_id o)
  end.

Lemma pop_front_inv o : out_inv o -> out_inv (snd (pop_front o)).
Proof.
  intros [Hc Hk Hn]. unfold pop_front. pose proof (out_map_pop (queues o)) as Hp.
  destruct (dm_pop_front (queues o)) as [[[k m]|] q]; destruct Hp as [Hl Hq]; constructor; simpl; try done.
  - rewrite Hc, !dm_len_size, Hq, map_size_delete_Some by eauto.
    assert (size (out_map (queues o)) <> 0%nat); [apply map_size_ne_0_lookup; eauto | lia].
  - intros k' m'. rewrite Hq, lookup_delete_Some. naive_solver.
  - by rewrite Hc, !dm_len_size, Hl, Hq.
  - intros k' m'. by rewrite Hq, lookup_empty.
Qed.

Lemma push_back_inv m o : out_inv o -> out_inv (snd (push_back m o)).
Proof.
  intros [Hc Hk Hn]. unfold push_back. destruct (packet_id (out_publish m)) as [pid|] eqn:Hpid; [|by constructor].
  pose proof (dm_insert_iter pid m (queues o)) as [Hold Hq]. rewrite dm_get_iter in Hold.
  destruct (dm_insert pid m (queues o)) as [old q]. simpl in *. fold (out_map (queues o)) in *. fold (out_map q) in *.
  constructor; simpl; [|intros k' m'; rewrite Hq, lookup_insert_Some; naive_solver | done].
  rewrite Hc, !dm_len_size, Hq. destruct old as [old|]; [rewrite map_size_insert_Some by done | rewrite map_size_insert_None by done]; lia.
Qed.

Lemma out_remove_inv pid o : out_inv o -> out_inv (snd (out_remove pid o)).
Proof.
  intros [Hc Hk Hn]. unfold out_remove. pose proof (dm_remove_iter pid (queues o)) as [Hold Hq]. rewrite dm_get_iter in Hold.
  destruct (dm_remove pid (queues o)) as [old q]. simpl in *. fold (out_map (queues o)) in *. fold (out_map q) in *.
  assert (forall k m, out_map q !! k = Some m -> packet_id (out_publish m) = Some k) as Hkq.
  { intros k m. rewrite Hq, lookup_delete_Some. naive_solver. }
  destruct old as [old|]; constructor; simpl; try done; rewrite Hc, !dm_len_size, Hq.
  - rewrite map_size_delete_Some by eauto. assert (size (out_map (queues o)) <> 0%nat); [apply map_size_ne_0_lookup; eauto | lia].
  - by rewrite map_size_delete_None.
Qed.

Lemma update_status_inv now pid s o : out_inv o -> out_inv (update_status now pid s o).
Proof.
  intros [Hc Hk Hn]. unfold update_status. rewrite dm_get_iter. fold (out_map (queues o)).
  destruct (out_map (queues o) !! pid) as [m|] eqn:Hm; [|by constructor].
  pose proof (dm_set_iter pid (out_update_status now s m) (queues o)) as Hq. fold (out_map (queues o)) in Hq.
  constructor; simpl; [|unfold out_map; intros k m'; rewrite Hq, lookup_insert_Some; intros [[<- <-]|[_ Hl]]; simpl; by eauto | done].
  rewrite Hc, !dm_len_size. unfold out_map at 2. by rewrite Hq, map_size_insert_Some.
Qed.

Lemma next_id_inv o : out_inv o -> out_inv (snd (next_id o)).
Proof.
  intros [Hc Hk Hn]. unfold next_id. destruct (next_id_loop _ _ _) as [res n] eqn:Hl. constructor; simpl; try done.
  assert (forall rounds n0, 0 <= n0 < 65536 -> 0 <= snd (next_id_loop rounds (queues o) n0) < 65536) as Hb.
  { clear. induction rounds as [|rounds IH]; intros n0 Hn0; simpl; [done|].
    assert (0 <= wrap_u16 (n0 + 1) < 65536) by (apply Z.mod_pos_bound; lia). repeat case_match; by auto. }
  by specialize (Hb (Z.to_nat u16_max) (next o) Hn); rewrite Hl in Hb.
Qed.

Lemma out_step_inv o op : out_inv o -> out_inv (out_step o op).
Proof.
  destruct op; simpl; auto using push_back_inv, pop_front_inv, out_remove_inv, update_status_inv, next_id_inv.
  unfold pop_front_timeout. destruct (front_timeout now o); auto using pop_front_inv.
Qed.

Lemma out_new_inv c retry expiry : out_inv (out_inflight_new c retry expiry).
Proof.
  constructor; simpl; [by rewrite dm_len_iter, dm_default_iter | | lia].
  intros k m. unfold out_map. by rewrite dm_default_iter.
Qed.

(** ** Theorems: outgoing *)

(** in every execution the statistics counter is the number of messages in
    flight and every message is filed under its own packet id. *)
Theorem out_invariant c retry expiry ops : out_inv (fold_left out_step ops (out_inflight_new c retry expiry)).
Proof.
  assert (forall o, out_inv o -> out_inv (fold_left out_step ops o)) as Hgen; [|apply Hgen, out_new_inv].
  induction ops as [|op ops IH]; intros o Ho; simpl; [done|]. by apply IH, out_step_inv.
Qed.

(** with at most 65533 messages in flight [next_id] returns a packet id of
    MQTT's range that is not in use. *)
Theorem next_id_fresh o :
  0 <= next o < 65536 -> Z.of_nat (dm_len (queues o)) <= 65533 ->
  exists id, fst (next_id o) = Ok id /\ 1 <= id <= 65535 /\ exist id o = false
    /\ queues (snd (next_id o)) = queues o.
Proof.
  intros Hn Hlen. unfold next_id.
  destruct (next_id_loop_spec (Z.to_nat u16_max) (queues o) (next o) Hn) as [(id & Hid & Hr & Hnone)|Hall].
  - rewrite Hid. exists id. repeat split; try done; try lia. unfold exist. rewrite dm_get_iter.
    fold (out_map (queues o)). by rewrite Hnone.
  - apply ids_exhausted in Hall; [|unfold u16_max; lia]. rewrite <- dm_len_size in Hall. unfold u16_max in Hall. lia.
Qed.

(** [has_credit] is false only when the window is exactly full: beyond the
    capacity the subtraction wraps and there is credit again. *)
Theorem has_credit_spec o :
  0 <= cap o < u64_modulus -> Z.of_nat (dm_len (queues o)) < u64_modulus ->
  has_credit o = negb (Z.of_nat (dm_len (queues o)) =? cap o).
Proof.
  intros Hc Hl. unfold has_credit, wrap_u64. apply eq_true_iff_eq. rewrite Z.gtb_lt, negb_true_iff, Z.eqb_neq.
  destruct (Z.le_gt_cases (Z.of_nat (dm_len (queues o))) (cap o)).
  - rewrite Z.mod_small by lia. lia.
  - rewrite <- (Z.mod_unique (cap o - Z.of_nat (dm_len (queues o))) u64_modulus (-1)
                  (cap o - Z.of_nat (dm_len (queues o)) + u64_modulus)) by lia. lia.
Qed.

(** retransmission: a message is popped for a retry exactly when the front
    has waited for the shorter of the two intervals that are set, and
    otherwise [get_timeout] announces when to look again, after at least one
    millisecond and, while the clock does not run backwards, at most that
    interval. *)
Theorem retry_timing now o k m :
  dm_front (queues o) = Some (k, m) -> 0 < interval o -> update_time m <= now ->
  (fst (pop_front_timeout now o) = Some m <-> interval o <= now - update_time m)
  /\ exists t, get_timeout now o = Some t /\ 1 <= t <= interval o
      /\ (now - update_time m < interval o -> now + t = update_time m + interval o).
Proof.
  intros Hf Hi Hu. unfold pop_front_timeout, front_timeout, get_timeout, timeout.
  rewrite Hf, (proj2 (Z.eqb_neq _ _)) by lia. rewrite (proj2 (Z.gtb_lt _ _)) by lia. simpl. split.
  - rewrite Z.geb_leb. destruct (Z.leb_spec (interval o) (now - update_time m)); simpl; [|split; [done|lia]].
    split; [done|]. intros _. unfold pop_front. pose proof (dm_pop_front_iter (queues o)) as [Hp _].
    rewrite dm_front_iter in Hf. rewrite Hf in Hp. destruct (dm_pop_front (queues o)) as [x q]. simpl in Hp. by subst x.
  - destruct (Z.ltb_spec (interval o - (now - update_time m)) 1); eexists; (split; [done|]); lia.
Qed.
End out_lemmas.

(** ** Incoming *)

Inductive InOp : Type := IAdd (pid : Z) (q : QoS) | IRemove (pid : Z).

Definition in_step (i : InInflight) (op : InOp) : InInflight :=
  match op with
  | IAdd pid q => snd (in_add pid q i)
  | IRemove pid => snd (in_remove pid i)
  end.

Definition in_inv (i : InInflight) : Prop :=
  Z.of_nat (size (cached i)) <= max_inflight i /\ in_count i = Z.of_nat (size (cached i)).

Lemma in_step_inv i op : in_inv i -> in_inv (in_step i op).
Proof.
  intros [Hm Hc]. unfold in_step, in_add, in_remove. destruct op as [pid q|pid].
  - rewrite Z.geb_leb. destruct (Z.leb_spec (max_inflight i) (Z.of_nat (size (cached i)))); [done|].
    case_decide as Hp; [by destruct q|]. unfold in_inv. simpl.
    rewrite size_union, size_singleton by set_solver. lia.
  - case_decide as Hp; [|done]. unfold in_inv. simpl.
    rewrite size_difference, size_singleton by set_solver.
    assert (size (cached i) <> 0%nat); [|lia]. rewrite size_non_empty_iff. set_solver.
Qed.

(** Releasing an id that was just accepted undoes it. *)
Lemma in_add_remove pid i : fst (in_add pid AtLeastOnce i) = Ok true ->
  snd (in_remove pid (snd (in_add pid AtLeastOnce i))) = i.
Proof.
  unfold in_add. destruct (_ >=? _); [done|]. case_decide as Hp; [done|]. intros _. unfold in_remove. cbn.
  rewrite decide_True by set_solver. destruct i as [c m n]. cbn in *. f_equal; [set_solver | lia].
Qed.

Lemma in_add_same pid q i : fst (in_add pid q i) <> Ok true -> snd (in_add pid q i) = i.
Proof. unfold in_add. destruct (_ >=? _); [done|]. case_decide; done. Qed.

(** the window of incoming ids never exceeds its maximum and the counter is
    its size; an id is accepted once: until it is released a repetition is
    refused for QoS 2 and reported as a repetition otherwise. *)
Theorem in_window mx ops pid q :
  0 <= mx ->
  let i := fold_left in_step ops (in_new mx) in
  in_inv i
  /\ (fst (in_add pid q i) = Ok true <-> Z.of_nat (size (cached i)) < max_inflight i /\ pid ∉ cached i)
  /\ (fst (in_add pid q i) = Ok true -> pid ∈ cached (snd (in_add pid q i)))
  /\ (pid ∈ cached i -> fst (in_add pid ExactlyOnce i) <> Ok true /\ fst (in_add pid ExactlyOnce i) <> Ok false).
Proof.
  intros Hmx i. split; [|split; [|split]].
  - subst i. assert (in_inv (in_new mx)) as H0 by by split.
    revert H0. generalize (in_new mx). induction ops as [|op ops IH]; intros i0 H0; simpl; [done|].
    by apply IH, in_step_inv.
  - unfold in_add. rewrite Z.geb_leb. destruct (Z.leb_spec (max_inflight i) (Z.of_nat (size (cached i)))); simpl; [split; [done|lia]|].
    case_decide; simpl; [destruct q; naive_solver | naive_solver].
  - unfold in_add. rewrite Z.geb_leb. destruct (Z.leb_spec (max_inflight i) (Z.of_nat (size (cached i)))); simpl; [done|].
    case_decide; simpl; [by destruct q | set_solver].
  - intros Hp. unfold in_add. destruct (Z.of_nat _ >=? _); [done|]. by rewrite decide_True.
Qed.

(** ** Witnesses *)

Module InflightExample.

(** A queue as a list: an existing key keeps its place. *)
Definition L : Type := list (PacketId * OutInflightMessage).

Fixpoint put (k : PacketId) (m : OutInflightMessage) (l : L) : L :=
  match l with
  | [] => [(k, m)]
  | (k', m') :: l' => if decide (k = k') then (k, m) :: l' else (k', m') :: put k m l'
  end.

Fixpoint drop_key (k : PacketId) (l : L) : L :=
  match l with
  | [] => []
  | (k', m') :: l' => if decide (k = k') then drop_key k l' else (k', m') :: drop_key k l'
  end.

(** Lists without repeated keys. *)
Record Q : Type := mkQ { entries : L; nodup : NoDup entries.*1 }.

Lemma put_keys k m l x : x ∈ (put k m l).*1 <-> x = k \/ x ∈ l.*1.
Proof.
  induction l as [|[k' m'] l IH]; simpl; [by rewrite list_elem_of_singleton, elem_of_nil; naive_solver|].
  case_decide as Hk; simpl; rewrite !elem_of_cons; [subst; naive_solver|]. rewrite IH. naive_solver.
Qed.

Lemma put_nodup k m l : NoDup l.*1 -> NoDup (put k m l).*1.
Proof.
  induction l as [|[k' m'] l IH]; simpl; [intros _; apply NoDup_singleton|].
  intros [Hk Hl]%NoDup_cons. case_decide as He; simpl; apply NoDup_cons; subst; [done|].
  rewrite put_keys. naive_solver.
Qed.

Lemma put_map k m l : (list_to_map (put k m l) : gmap Z OutInflightMessage) = <[k := m]> (list_to_map l).
Proof.
  induction l as [|[k' m'] l IH]; simpl; [done|]. case_decide as He; simpl; [subst; by rewrite insert_insert_eq|].
  rewrite IH. by apply insert_insert_ne.
Qed.

Lemma drop_keys k l x : x ∈ (drop_key k l).*1 -> x ∈ l.*1.
Proof.
  induction l as [|[k' m'] l IH]; simpl; [done|]. case_decide; simpl; rewrite !elem_of_cons; naive_solver.
Qed.

Lemma drop_nodup k l : NoDup l.*1 -> NoDup (drop_key k l).*1.
Proof.
  induction l as [|[k' m'] l IH]; simpl; [done|]. intros [Hk Hl]%NoDup_cons.
  case_decide; simpl; [by auto|]. apply NoDup_cons. split; [|by auto]. intros Hin. by apply Hk, (drop_keys k).
Qed.

Lemma drop_map k l :
  (list_to_map (drop_key k l) : gmap Z OutInflightMessage) = delete k (list_to_map l).
Proof.
  induction l as [|[k' m'] l IH]; simpl; [by rewrite delete_empty|].
  case_decide as He; simpl; rewrite IH; [subst; by rewrite delete_insert_eq | by rewrite delete_insert_ne].
Qed.

#[export] Instance Q_ops : DequeMap Q := {|
  dm_default := mkQ [] (NoDup_nil_2);
  dm_front q := head (entries q);
  dm_pop_front q :=
    match entries q as l return NoDup l.*1 -> option (PacketId * OutInflightMessage) * Q with
    | [] => fun _ => (None, q)
    | e :: l => fun H => (Some e, mkQ l (proj2 (proj1 (NoDup_cons _ _) H)))
    end (nodup q);
  dm_insert k m q := ((list_to_map (entries q) : gmap Z OutInflightMessage) !! k,
                      mkQ (put k m (entries q)) (put_nodup k m _ (nodup q)));
  dm_remove k q := ((list_to_map (entries q) : gmap Z OutInflightMessage) !! k,
                    mkQ (drop_key k (entries q)) (drop_nodup k _ (nodup q)));
  dm_get k q := (list_to_map (entries q) : gmap Z OutInflightMessage) !! k;
  dm_set k m q := mkQ (put k m (entries q)) (put_nodup k m _ (nodup q));
  dm_len q := length (entries q);
  dm_iter q := entries q |}.

#[export] Instance Q_laws : DequeMapLaws Q.
Proof.
  constructor; simpl; try done.
  - apply nodup.
  - intros q. destruct q as [l Hl]. by destruct l.
  - intros k m q. split; [done|]. apply put_map.
  - intros k q. split; [done|]. apply drop_map.
  - intros k m q. apply put_map.
Qed.

Definition hello : OutInflightMessage :=
  out_new 10 UnAck (mkFrom (Id_from 0 1 "p") FromCustom)
    (publish_from (mkCodec false false AtLeastOnce "chat/u1" (Some 1) "x")).

Definition window : OutInflight Q := fold_left out_step [ONextId; OPush hello] (out_inflight_new 1 20 0).

Lemma next_id_fresh_witness :
  exists id, fst (next_id window) = Ok id /\ 1 <= id <= 65535 /\ exist id window = false.
Proof.
  destruct (next_id_fresh window) as (id & Hid & Hr & He & _).
  - vm_compute. split; congruence.
  - vm_compute. congruence.
  - exists id. split; [exact Hid|]. split; [exact Hr | exact He].
Defined.

Lemma has_credit_spec_witness : has_credit window = false.
Proof.
  rewrite (has_credit_spec window); [vm_compute; reflexivity | vm_compute; split; congruence | vm_compute; reflexivity].
Defined.

Lemma retry_timing_witness : fst (pop_front_timeout 30 window) = Some hello.
Proof.
  apply (retry_timing 30 window 1 hello); [reflexivity | reflexivity | vm_compute; congruence | vm_compute; congruence].
Defined.

Lemma out_invariant_witness : out_inv window.
Proof. exact (out_invariant 1 20 0 [ONextId; OPush hello]). Defined.

Lemma in_window_witness :
  fst (in_add 7 ExactlyOnce (fold_left in_step [IAdd 7 ExactlyOnce] (in_new 5))) <> Ok true.
Proof.
  destruct (in_window 5 [IAdd 7 ExactlyOnce] 7 ExactlyOnce) as (_ & _ & _ & Hdup); [lia|].
  apply Hdup. vm_compute. reflexivity.
Defined.

End InflightExample.
