(* ===== verification/Queue.v ===== *)
(** * Delivery queues: [vendor/rmqtt/src/queue.rs]

    A bounded queue and the channel that wakes its reader: a sender that put a
    value into the queue also sends a token through a futures [mpsc] channel,
    and the reader takes a value out for every token it receives. The [mpsc]
    channel is the futures library's; what the code relies on is that
    [try_send] fails only when the channel is full. The event functions count,
    so the model keeps the counter they drive. The rate limiter (governor)
    only delays the reader. *)

From S2P Require Import Prelude.
Local Open Scope list_scope.

Inductive Policy : Type := Current | Early.

Section queue.
Context {T : Type}.

(** [q_count] is the counter behind [on_push_fn] and [on_pop_fn]. *)
Record Queue : Type := mkQueue {
  q_cap : nat;
  items : list T;
  q_count : Z
}.

Definition queue_new (cap : nat) : Queue := mkQueue cap [] 0.

Definition push (v : T) (q : Queue) : result T unit * Queue :=
  if decide (q_cap q <= length (items q)) then (Err v, q)
  else (Ok tt, mkQueue (q_cap q) (items q ++ [v]) (q_count q + 1)).

Definition pop (q : Queue) : option T * Queue :=
  match items q with
  | v :: l => (Some v, mkQueue (q_cap q) l (q_count q - 1))
  | [] => (None, q)
  end.

(** ** The channel *)

(** [try_send] by the number of tokens in the channel. *)
Context (try_send : nat -> bool).

Record Channel : Type := mkChannel {
  queue : Queue;
  tokens : nat
}.

Definition send_token (c : Channel) : Channel :=
  if try_send (tokens c) then mkChannel (queue c) (S (tokens c)) else c.

(** [Sender::send]. *)
Definition send (policy_fn : T -> Policy) (v : T) (c : Channel) : result T unit * Channel :=
  let '(res, q) := push v (queue c) in
  match res with
  | Err v =>
      match policy_fn v with
      | Current => (Err v, mkChannel q (tokens c))
      | Early =>
          let '(removed, q) := pop q in
          let '(res, q) := push v q in
          match res with
          | Err v => (Err v, mkChannel q (tokens c))
          | Ok _ =>
              (match removed with Some r => Err r | None => Ok tt end, mkChannel q (tokens c))
          end
      end
  | Ok _ => (Ok tt, send_token (mkChannel q (tokens c)))
  end.

Definition sender_pop (c : Channel) : option T * Channel :=
  let '(v, q) := pop (queue c) in (v, mkChannel q (tokens c)).

(** [ReceiverStream::poll_next]; [None] when no token is there. *)
Definition poll_next (c : Channel) : option (option T) * Channel :=
  match tokens c with
  | O => (None, c)
  | S n => let '(v, q) := pop (queue c) in (Some v, mkChannel q n)
  end.

(** [Limiter::channel]: a token for every value that waits already. *)
Definition channel (q : Queue) : Channel := Nat.iter (length (items q)) send_token (mkChannel q 0).

End queue.
Arguments Queue T : clear implicits.
Arguments Channel T : clear implicits.

(** [(queue.capacity() as f64 * 1.5) as usize], exact below 2^51. *)
Definition channel_capacity (cap : nat) : nat := 3 * cap / 2.

(** [Limiter::new]: the period between two values, in nanoseconds. *)
Definition limiter_period (burst replenish_nanos : Z) : Z :=
  let period := (wrap_u64 replenish_nanos / burst)%Z in if (period >? 0)%Z then period else 1%Z.

(** ** Executions *)

Section executions.
Context {T : Type} (try_send : nat -> bool) (policy_fn : T -> Policy).

Inductive QueueOp : Type := QSend (v : T) | QPop | QPoll.

(** The values an operation puts in and takes out, and the channel after it. *)
Definition op_step (c : Channel T) (op : QueueOp) : list T * list T * Channel T :=
  match op with
  | QSend v =>
      match send try_send policy_fn v c with
      | (Ok _, c') => ([v], [], c')
      | (Err r, c') =>
          (* an error returns either the value itself or the earliest one *)
          match policy_fn v with
          | Current => ([], [], c')
          | Early => if decide (length (items (queue c)) = 0) then ([], [], c') else ([v], [r], c')
          end
      end
  | QPop => let '(v, c') := sender_pop c in ([], option_list v, c')
  | QPoll => let '(v, c') := poll_next c in
             ([], match v with Some v => option_list v | None => [] end, c')
  end.

Fixpoint op_run (c : Channel T) (ops : list QueueOp) : list T * list T * Channel T :=
  match ops with
  | [] => ([], [], c)
  | op :: ops' =>
      let '(i, o, c1) := op_step c op in
      let '(ins, outs, c2) := op_run c1 ops' in
      (i ++ ins, o ++ outs, c2)
  end.

(** [try_send] has room below the channel's capacity. *)
Definition has_room (buffer : nat) : Prop := forall n, n < buffer -> try_send n = true.

(** The queue is within its capacity, its counter is its length, and every
    value has a token. *)
Record chan_inv (c : Channel T) : Prop := mkChanInv {
  ci_cap : length (items (queue c)) <= q_cap (queue c);
  ci_count : q_count (queue c) = Z.of_nat (length (items (queue c)));
  ci_tokens : length (items (queue c)) <= tokens c
}.

Lemma capacity_le cap : cap <= channel_capacity cap.
Proof. unfold channel_capacity. apply Nat.div_le_lower_bound; lia. Qed.

Lemma op_step_spec c op :
  has_room (channel_capacity (q_cap (queue c))) -> chan_inv c ->
  let '(i, o, c') := op_step c op in
  chan_inv c' /\ q_cap (queue c') = q_cap (queue c)
  /\ items (queue c) ++ i = o ++ items (queue c').
Proof.
  intros Hroom [Hcap Hcount Htok]. pose proof (capacity_le (q_cap (queue c))) as Hle.
  destruct c as [[cap l n] k]. simpl in *. destruct op as [v| |]; simpl.
  - unfold send, push. simpl. case_decide as Hfull; simpl.
    + destruct (policy_fn v) eqn:Hp; simpl; [by rewrite app_nil_r|].
      destruct l as [|w l]; unfold pop; simpl in *.
      * rewrite decide_True by lia. done.
      * rewrite decide_False by (rewrite ?length_app; simpl; lia). 
        split; [constructor; simpl; rewrite length_app; simpl; lia | done].
    + unfold send_token. simpl. split; [|by destruct (try_send k)].
      destruct (try_send k) eqn:Ht; constructor; simpl; rewrite ?length_app; simpl; try lia.
      destruct (decide (k < channel_capacity cap)) as [Hk|]; [|lia]. by rewrite Hroom in Ht.
  - unfold sender_pop, pop. simpl. destruct l as [|v l]; simpl in *; [done|]. rewrite app_nil_r.
    split; [constructor; simpl; lia | done].
  - unfold poll_next. simpl. destruct k as [|k]; simpl; [by rewrite app_nil_r|].
    unfold pop. simpl. destruct l as [|v l]; simpl in *.
    + split; [constructor; simpl; lia | done].
    + rewrite app_nil_r. split; [constructor; simpl; lia | done].
Qed.

Lemma op_run_spec ops c :
  has_room (channel_capacity (q_cap (queue c))) -> chan_inv c ->
  let '(ins, outs, c') := op_run c ops in
  chan_inv c' /\ items (queue c) ++ ins = outs ++ items (queue c').
Proof.
  revert c. induction ops as [|op ops IH]; intros c Hroom Hinv; simpl; [by rewrite app_nil_r|].
  pose proof (op_step_spec c op Hroom Hinv) as Hs. destruct (op_step c op) as [[i o] c1].
  destruct Hs as (Hinv1 & Hcap & Heq). specialize (IH c1). rewrite Hcap in IH. specialize (IH Hroom Hinv1).
  destruct (op_run c1 ops) as [[ins outs] c2]. destruct IH as [Hinv2 Heq2]. split; [done|].
  by rewrite app_assoc, Heq, <- !app_assoc, Heq2.
Qed.

Lemma channel_inv q :
  has_room (channel_capacity (q_cap q)) -> length (items q) <= q_cap q -> q_count q = Z.of_nat (length (items q)) ->
  chan_inv (channel try_send q) /\ queue (channel try_send q) = q.
Proof.
  intros Hroom Hcap Hcount. unfold channel. pose proof (capacity_le (q_cap q)) as Hle.
  assert (forall n, n <= length (items q) -> Nat.iter n (send_token try_send) (mkChannel q 0) = mkChannel q n) as Hit.
  { induction n as [|n IH]; intros Hn; simpl; [done|]. rewrite IH by lia. unfold send_token. simpl.
    by rewrite Hroom by lia. }
  rewrite Hit by lia. split; [constructor; simpl; lia | done].
Qed.

(** ** Theorems *)

(** no value is stranded: in every execution of a channel, whatever is sent,
    popped or polled and under either policy, there is a token for every value
    in the queue, the queue stays within its capacity and its counter is its
    length. *)
Theorem channel_no_stranded q ops :
  has_room (channel_capacity (q_cap q)) -> length (items q) <= q_cap q ->
  q_count q = Z.of_nat (length (items q)) ->
  let '(_, _, c) := op_run (channel try_send q) ops in chan_inv c.
Proof.
  intros Hroom Hcap Hcount. destruct (channel_inv q Hroom Hcap Hcount) as [Hinv Hq].
  pose proof (op_run_spec ops (channel try_send q)) as Hs. rewrite Hq in Hs. specialize (Hs Hroom Hinv).
  destruct (op_run _ ops) as [[ins outs] c]. by destruct Hs.
Qed.

(** values leave in the order in which they were accepted: what waited at
    first followed by what was accepted is what left, by a pop, a poll or the
    early-discard policy, followed by what still waits. *)
Theorem channel_fifo q ops :
  has_room (channel_capacity (q_cap q)) -> length (items q) <= q_cap q ->
  q_count q = Z.of_nat (length (items q)) ->
  let '(ins, outs, c) := op_run (channel try_send q) ops in
  items q ++ ins = outs ++ items (queue c).
Proof.
  intros Hroom Hcap Hcount. destruct (channel_inv q Hroom Hcap Hcount) as [Hinv Hq].
  pose proof (op_run_spec ops (channel try_send q)) as Hs. rewrite Hq in Hs. specialize (Hs Hroom Hinv).
  destruct (op_run _ ops) as [[ins outs] c]. by destruct Hs.
Qed.

End executions.

(** ** Witnesses *)

Module QueueExample.

Definition small (n : nat) : bool := bool_decide (n < 3).
Definition start : Queue nat := mkQueue 2 [7] 1.
Definition ops : list QueueOp := [QSend 8; QSend 9; QPop; QPoll; QSend 10].

Lemma small_room : has_room small (channel_capacity 2).
Proof. intros n Hn. unfold small. apply bool_decide_eq_true. unfold channel_capacity in Hn. simpl in Hn. lia. Qed.

Lemma channel_no_stranded_witness :
  let '(_, _, c) := op_run small (fun _ => Early) (channel small start) ops in chan_inv c.
Proof. apply (channel_no_stranded small (fun _ => Early) start ops); [exact small_room | vm_compute; lia | reflexivity]. Defined.

Lemma channel_fifo_witness :
  let '(ins, outs, c) := op_run small (fun _ => Early) (channel small start) ops in
  items start ++ ins = outs ++ items (queue c).
Proof. apply (channel_fifo small (fun _ => Early) start ops); [exact small_room | vm_compute; lia | reflexivity]. Defined.

End QueueExample.
