(* ===== verification/Retain.v ===== *)
(** * Retained messages: [vendor/rmqtt/src/retain.rs]

    [RetainTree] holds at most one value per topic name and is searched with a
    filter, the opposite of the subscription tree. [DefaultRetainStorage] keeps
    the retained messages in it, with deadlines, and counts them. The clock is
    an argument; the order in which a hash map is visited is the model's, and
    the theorems speak of the set of results. The feature [retain] is off in
    ciqadamq's build, so this is code of the fork the broker does not run. *)

From Stdlib Require Import Ascii.
From S2P Require Import Prelude Strs Topic Trie Types.
Local Open Scope string_scope.
Local Open Scope list_scope.

Module RetainTree.
Section node.
Context {V : Type}.

Inductive Node : Type := mkNode {
  value : option V;
  branches : gmap Level Node
}.

Definition node_default : Node := mkNode None ∅.

Fixpoint _insert (path : list Level) (v : V) (n : Node) : Node :=
  match path with
  | first :: path' =>
      mkNode (value n)
        (<[first := _insert path' v (default node_default (branches n !! first))]> (branches n))
  | [] => mkNode (Some v) (branches n)
  end.

Definition insert (topic : Topic) (v : V) (n : Node) : Node := _insert topic v n.

Definition node_is_empty (n : Node) : bool := is_none (value n) && bool_decide (branches n = ∅).

Fixpoint _remove (path : list Level) (n : Node) : option V * Node :=
  match path with
  | [] => (value n, mkNode None (branches n))
  | t :: path' =>
      match branches n !! t with
      | Some x =>
          let '(res, x') := _remove path' x in
          (res, mkNode (value n) (if node_is_empty x' then delete t (branches n) else <[t := x']> (branches n)))
      | None => (None, n)
      end
  end.

Definition remove (topic : Topic) (n : Node) : option V * Node := _remove topic n.

(** [branches.retain] visits every child once; the limit is checked when a
    node is entered. *)
Fixpoint _retain (f : V -> bool) (max_limit : Z) (n : Node) (removeds : Z) : Z * Node :=
  if (max_limit <=? removeds)%Z then (removeds, n)
  else
    let '(removeds, bs) :=
      map_fold (fun l c '(removeds, bs) =>
          let '(removeds, c) := _retain f max_limit c removeds in
          let '(removeds, c) :=
            match value c with
            | Some v => if f v then (removeds, c) else ((removeds + 1)%Z, mkNode None (branches c))
            | None => (removeds, c)
            end in
          (removeds, if node_is_empty c then bs else <[l := c]> bs))
        (removeds, ∅) (branches n) in
    (removeds, mkNode (value n) bs).

Definition retain (max_limit : Z) (f : V -> bool) (n : Node) : Z * Node := _retain f max_limit n 0.

(** [add_to_out] for a node's value. *)
Definition own (sub_path : list Level) (n : Node) : list (Topic * V) :=
  match value n with Some v => [(sub_path, v)] | None => [] end.

(** The wildcards of the first level do not reach [$] topics. *)
Definition hidden (sub_path : list Level) (k : Level) : bool :=
  TopicTree.is_root sub_path && negb (bool_decide (k = Blank)) && Level.is_metadata k.

Definition next_is_multi (path : list Level) : bool :=
  match path with MultiWildcard :: _ => true | _ => false end.

(** [_matches] once the filter is at its [#], which is its last level. *)
Fixpoint multi_matches (sub_path : list Level) (n : Node) {struct n} : list (Topic * V) :=
  match branches n !! MultiWildcard with
  | Some r => own (sub_path ++ [MultiWildcard]) r
  | None =>
      map_fold (fun k v acc =>
          acc ++ (if hidden sub_path k then []
                  else if decide (branches v = ∅) then own (sub_path ++ [k]) v
                  else own (sub_path ++ [k]) v ++ multi_matches (sub_path ++ [k]) v))
        [] (branches n)
  end.

Fixpoint _matches (path sub_path : list Level) (n : Node) : list (Topic * V) :=
  match path with
  | [] => own sub_path n
  | first :: path' =>
      match branches n !! first with
      | Some r =>
          (if next_is_multi path' then own (sub_path ++ [first]) r else [])
          ++ _matches path' (sub_path ++ [first]) r
      | None =>
          match first with
          | SingleWildcard =>
              map_fold (fun k v acc =>
                  acc ++ (if hidden sub_path k then []
                          else (if next_is_multi path' then own (sub_path ++ [k]) v else [])
                               ++ _matches path' (sub_path ++ [k]) v))
                [] (branches n)
          | MultiWildcard => multi_matches sub_path n
          | _ => []
          end
      end
  end.

Definition matches (topic : Topic) (n : Node) : list (Topic * V) := _matches topic [] n.

Fixpoint values_size (n : Node) : Z :=
  map_fold (fun _ c acc => (values_size c + acc)%Z) 0%Z (branches n) + (if is_none (value n) then 0 else 1).

Fixpoint nodes_size (n : Node) : Z :=
  Z.of_nat (size (branches n)) + map_fold (fun _ c acc => (nodes_size c + acc)%Z) 0%Z (branches n).

(** ** The tree as a map from topics to values *)

Fixpoint contents (n : Node) (t : Topic) : option V :=
  match t with
  | [] => value n
  | l :: t' => c ← branches n !! l; contents c t'
  end.

(** No branch below a node is a wildcard. *)
Fixpoint subtree (n : Node) (path : list Level) : option Node :=
  match path with
  | [] => Some n
  | l :: path' => c ← branches n !! l; subtree c path'
  end.

Definition wild_free (n : Node) : Prop :=
  forall path c, subtree n path = Some c -> Forall (fun l => is_wildcard l = false) path.

Lemma value_at_cons n l t : contents n (l :: t) = c ← branches n !! l; contents c t.
Proof. done. Qed.

Lemma value_at_default t : contents node_default t = None.
Proof. by destruct t. Qed.

Lemma value_at_child n l t : contents (default node_default (branches n !! l)) t = contents n (l :: t).
Proof. rewrite value_at_cons. destruct (branches n !! l); [done | apply value_at_default]. Qed.

Lemma set_contents path v n t :
  contents (_insert path v n) t = if decide (t = path) then Some v else contents n t.
Proof.
  revert n t. induction path as [|l path IH]; intros n t; simpl.
  - destruct t as [|l t]; [by rewrite decide_True|]. by rewrite decide_False.
  - destruct t as [|l' t]; [by rewrite decide_False|]. simpl. destruct (decide (l' = l)) as [->|Hne].
    + rewrite lookup_insert_eq. simpl. rewrite IH, value_at_child. simpl. case_decide; case_decide; naive_solver.
    + rewrite lookup_insert_ne, decide_False by naive_solver. done.
Qed.

Lemma empty_node_default n : node_is_empty n = true <-> n = node_default.
Proof.
  unfold node_is_empty. rewrite andb_true_iff, is_none_true, bool_decide_eq_true.
  destruct n; simpl. split; [by intros [-> ->] | by intros [= -> ->]].
Qed.

Lemma take_contents path n t :
  contents (snd (_remove path n)) t = if decide (t = path) then None else contents n t.
Proof.
  revert n t. induction path as [|l path IH]; intros n t; simpl.
  - destruct t as [|l t]; [by rewrite decide_True|]. by rewrite decide_False.
  - destruct (branches n !! l) as [x|] eqn:Hx; simpl.
    2:{ case_decide; [|done]. subst. by rewrite value_at_cons, Hx. }
    specialize (IH x). destruct (_remove path x) as [res x']. simpl in *.
    destruct t as [|l' t]; [by rewrite decide_False|]. simpl. destruct (decide (l' = l)) as [->|Hne].
    + rewrite Hx. simpl. specialize (IH t). destruct (node_is_empty x') eqn:He.
      * rewrite lookup_delete_eq. apply empty_node_default in He. subst x'. rewrite value_at_default in IH. simpl.
        case_decide; case_decide; naive_solver.
      * rewrite lookup_insert_eq. simpl. rewrite IH. case_decide; case_decide; naive_solver.
    + rewrite decide_False by naive_solver.
      destruct (node_is_empty x'); [by rewrite lookup_delete_ne | by rewrite lookup_insert_ne].
Qed.

Lemma take_result path n : fst (_remove path n) = contents n path.
Proof.
  revert n. induction path as [|l path IH]; intros n; simpl; [done|].
  destruct (branches n !! l) as [x|]; simpl; [|done]. rewrite <- IH. by destruct (_remove path x).
Qed.

(** ** Lemmas: no wildcards in the tree *)

Lemma wild_free_alt n :
  wild_free n <-> map_Forall (fun l c => is_wildcard l = false /\ wild_free c) (branches n).
Proof.
  unfold wild_free. split.
  - intros Hw l c Hl. split.
    + assert (Forall (fun l => is_wildcard l = false) [l]) as Hf by (apply (Hw [l] c); simpl; by rewrite Hl).
      by apply Forall_cons in Hf as [? _].
    + intros path d Hd. specialize (Hw (l :: path) d). simpl in Hw. rewrite Hl in Hw.
      by apply Forall_cons in Hw as [_ ?].
  - intros Hm [|l path] d Hd; [constructor|]. simpl in Hd. destruct (branches n !! l) as [c|] eqn:Hl; [|done].
    destruct (Hm _ _ Hl) as [Hw Hc]. constructor; [done|]. by eapply Hc.
Qed.

Lemma wild_free_default : wild_free node_default.
Proof. apply wild_free_alt, map_Forall_empty. Qed.

Lemma set_wild_free path v n :
  Forall (fun l => is_wildcard l = false) path -> wild_free n -> wild_free (_insert path v n).
Proof.
  revert n. induction path as [|l path IH]; intros n Hp Hn; simpl; [by apply wild_free_alt in Hn; apply wild_free_alt|].
  apply Forall_cons in Hp as [Hl Hp]. apply wild_free_alt in Hn. apply wild_free_alt. simpl.
  apply map_Forall_insert_2; [|done]. split; [done|]. apply IH; [done|].
  destruct (branches n !! l) as [c|] eqn:Hc; simpl; [by apply Hn in Hc as [_ ?] | apply wild_free_default].
Qed.

Lemma take_wild_free path n : wild_free n -> wild_free (snd (_remove path n)).
Proof.
  revert n. induction path as [|l path IH]; intros n Hn; simpl; [by apply wild_free_alt in Hn; apply wild_free_alt|].
  destruct (branches n !! l) as [x|] eqn:Hx; [|done]. specialize (IH x). apply wild_free_alt in Hn.
  destruct (Hn _ _ Hx) as [Hl Hxw]. destruct (_remove path x) as [res x']. simpl in *. apply wild_free_alt. simpl.
  destruct (node_is_empty x'); [by apply map_Forall_delete | apply map_Forall_insert_2; auto].
Qed.

(** ** Lemmas: iteration *)

Fixpoint depth (n : Node) : nat := map_fold (fun _ c acc => Nat.max (S (depth c)) acc) 0 (branches n).

Lemma depth_child n l c : branches n !! l = Some c -> depth c < depth n.
Proof.
  intros Hl. destruct n as [v bs]. simpl in *.
  rewrite <- (insert_delete_id _ _ _ Hl), (map_fold_insert_L (fun _ c acc => Nat.max (S (depth c)) acc)); [lia | intros; lia|].
  apply lookup_delete_eq.
Qed.

(** Induction on the tree. *)
Lemma node_children_ind (P : Node -> Prop) :
  (forall n, (forall l c, branches n !! l = Some c -> P c) -> P n) -> forall n, P n.
Proof.
  intros Hstep. assert (forall d n, depth n < d -> P n) as Hd; [|intros n; by apply (Hd (S (depth n))); lia].
  induction d as [|d IH]; intros n Hn; [lia|]. apply Hstep. intros l c Hl. apply IH.
  apply depth_child in Hl. lia.
Qed.

Lemma elem_of_fold_app {A} (g : Level -> Node -> list A) (m : gmap Level Node) x :
  x ∈ map_fold (fun k c acc => acc ++ g k c) [] m <-> exists k c, m !! k = Some c /\ x ∈ g k c.
Proof.
  apply (map_fold_weak_ind (fun r m => x ∈ r <-> exists k c, m !! k = Some c /\ x ∈ g k c)).
  - rewrite elem_of_nil. setoid_rewrite lookup_empty. naive_solver.
  - intros k c m' r Hk IH. rewrite elem_of_app, IH. setoid_rewrite lookup_insert_Some. split.
    + intros [(k' & c' & Hl & Hx)|Hx]; [exists k', c' | exists k, c; by auto]. split; [|done]. right. split; [congruence|done].
    + intros (k' & c' & [[<- <-]|[_ Hl]] & Hx); [by right | left; by eauto].
Qed.

(** ** Lemmas: what a filter finds *)

Lemma own_elem sub_path n item :
  item ∈ own sub_path n <-> exists v, item = (sub_path, v) /\ value n = Some v.
Proof. unfold own. destruct (value n); set_solver. Qed.

Lemma hidden_snoc sub_path l k : hidden (sub_path ++ [l]) k = false.
Proof. unfold hidden. by rewrite TopicTree.is_root_snoc. Qed.

Lemma multi_matches_unfold sub_path n :
  branches n !! MultiWildcard = None ->
  multi_matches sub_path n
  = map_fold (fun k v acc =>
          acc ++ (if hidden sub_path k then []
                  else if decide (branches v = ∅) then own (sub_path ++ [k]) v
                  else own (sub_path ++ [k]) v ++ multi_matches (sub_path ++ [k]) v))
        [] (branches n).
Proof. intros Hn. destruct n as [v bs]. simpl in *. by rewrite Hn. Qed.

Lemma multi_matches_elem n sub_path item :
  wild_free n ->
  item ∈ multi_matches sub_path n
  <-> exists k t v, item = (sub_path ++ k :: t, v) /\ contents n (k :: t) = Some v /\ hidden sub_path k = false.
Proof.
  revert sub_path item. induction n as [n IH] using node_children_ind. intros sub_path item Hw.
  apply wild_free_alt in Hw.
  assert (branches n !! MultiWildcard = None) as Hno.
  { destruct (branches n !! MultiWildcard) as [c|] eqn:Hc; [|done]. by destruct (Hw _ _ Hc). }
  rewrite multi_matches_unfold by done.
  rewrite (elem_of_fold_app (fun k v => if hidden sub_path k then []
                  else if decide (branches v = ∅) then own (sub_path ++ [k]) v
                  else own (sub_path ++ [k]) v ++ multi_matches (sub_path ++ [k]) v)).
  assert (forall k c, branches n !! k = Some c -> hidden sub_path k = false ->
    item ∈ (if decide (branches c = ∅) then own (sub_path ++ [k]) c
            else own (sub_path ++ [k]) c ++ multi_matches (sub_path ++ [k]) c)
    <-> exists t v, item = (sub_path ++ k :: t, v) /\ contents c t = Some v) as Hchild.
  { intros k c Hk Hh. destruct (Hw _ _ Hk) as [_ Hcw].
    transitivity (item ∈ own (sub_path ++ [k]) c
      \/ exists k' t v, item = ((sub_path ++ [k]) ++ k' :: t, v) /\ contents c (k' :: t) = Some v).
    - case_decide as He; [|rewrite elem_of_app, (IH _ _ Hk) by done; setoid_rewrite hidden_snoc; naive_solver].
      split; [by left|]. intros [?|(k' & t & v & _ & Hc)]; [done|]. simpl in Hc. by rewrite He, lookup_empty in Hc.
    - rewrite own_elem. setoid_rewrite <- app_assoc. split.
      + intros [(v & -> & Hv)|(k' & t & v & -> & Hv)]; [by exists [], v | by exists (k' :: t), v].
      + intros ([|k' t] & v & -> & Hv); [left; by exists v | right; by exists k', t, v]. }
  split.
  - intros (k & c & Hk & Hin). destruct (hidden sub_path k) eqn:Hh; [by apply not_elem_of_nil in Hin|].
    apply (Hchild _ _ Hk Hh) in Hin as (t & v & -> & Hv). exists k, t, v. by rewrite value_at_cons, Hk.
  - intros (k & t & v & -> & Hv & Hh). simpl in Hv. destruct (branches n !! k) as [c|] eqn:Hk; [|done].
    exists k, c. split; [done|]. rewrite Hh. apply (Hchild _ _ Hk Hh). by exists t, v.
Qed.

Lemma hidden_metadata sub_path l : hidden sub_path l = TopicTree.is_root sub_path && Level.is_metadata l.
Proof. unfold hidden. destruct l; simpl; by rewrite ?andb_true_r, ?andb_false_r. Qed.

(** One level down. *)
Lemma step_elem f sub_path k c item :
  well_shaped f ->
  (item ∈ _matches f (sub_path ++ [k]) c
   <-> exists t v, item = ((sub_path ++ [k]) ++ t, v) /\ contents c t = Some v
         /\ TopicTree.level_match (TopicTree.is_root (sub_path ++ [k])) f t = true /\ ~ (f = [MultiWildcard] /\ t = [])) ->
  item ∈ (if next_is_multi f then own (sub_path ++ [k]) c else []) ++ _matches f (sub_path ++ [k]) c
  <-> exists t v, item = (sub_path ++ k :: t, v) /\ contents c t = Some v
        /\ TopicTree.level_match false f t = true.
Proof.
  intros Hs IH. rewrite elem_of_app, IH, TopicTree.is_root_snoc. setoid_rewrite <- app_assoc. simpl.
  destruct (decide (f = [MultiWildcard])) as [->|Hf].
  - simpl. rewrite own_elem. split.
    + intros [(v & -> & Hv)|(t & v & -> & Hv & Hm & _)]; [by exists [], v | by exists t, v].
    + intros (t & v & -> & Hv & Hm). destruct t as [|l t]; [left; by exists v | right]. exists (l :: t), v. naive_solver.
  - assert (next_is_multi f = false) as ->.
    { destruct f as [|[] f]; try done. apply well_shaped_cons in Hs as (_ & _ & Hm). destruct Hf. f_equal. naive_solver. }
    rewrite elem_of_nil. split; [intros [[]|(t & v & ? & ? & ? & _)]; by exists t, v|].
    intros (t & v & ? & ? & ?). right. exists t, v. naive_solver.
Qed.

(** Matching, by the first level of the filter. *)
Lemma level_match_cons sub_path first f :
  well_shaped (first :: f) ->
  forall l t, TopicTree.level_match (TopicTree.is_root sub_path) (first :: f) (l :: t) = true
    <-> (hidden sub_path l = false /\ first = MultiWildcard)
        \/ (((hidden sub_path l = false /\ first = SingleWildcard) \/ first = l)
            /\ TopicTree.level_match false f t = true).
Proof.
  intros (_ & _ & Hlast)%well_shaped_cons l t. simpl.
  rewrite <- hidden_metadata, orb_true_iff, !andb_true_iff, orb_true_iff, andb_true_iff.
  rewrite !bool_decide_eq_true, !negb_true_iff. split; [naive_solver|].
  intros [[Hh ->]|?]; [left; split; [done|]; by rewrite Hlast | by right].
Qed.

Lemma matches_elem f sub_path n item :
  well_shaped f -> wild_free n ->
  item ∈ _matches f sub_path n
  <-> exists t v, item = (sub_path ++ t, v) /\ contents n t = Some v
        /\ TopicTree.level_match (TopicTree.is_root sub_path) f t = true /\ ~ (f = [MultiWildcard] /\ t = []).
Proof.
  revert sub_path n. induction f as [|first f IH]; intros sub_path n Hs Hw.
  { simpl. rewrite own_elem. split.
    - intros (v & -> & Hv). exists [], v. rewrite app_nil_r. naive_solver.
    - intros ([|l t] & v & -> & Hv & Hm & _); [exists v; by rewrite app_nil_r|].
      simpl in Hm. by rewrite andb_false_r in Hm. }
  pose proof (well_shaped_cons _ _ Hs) as (_ & Hsf & _). apply wild_free_alt in Hw.
  pose proof (level_match_cons sub_path first f Hs) as Hlm.
  assert (forall k c, branches n !! k = Some c ->
    item ∈ (if next_is_multi f then own (sub_path ++ [k]) c else []) ++ _matches f (sub_path ++ [k]) c
    <-> exists t v, item = (sub_path ++ k :: t, v) /\ contents n (k :: t) = Some v
          /\ TopicTree.level_match false f t = true) as Hstep.
  { intros k c Hk. rewrite step_elem; [|done|by apply IH; [|apply (Hw _ _ Hk)]].
    setoid_rewrite value_at_cons. by rewrite Hk. }
  transitivity (exists l t v, item = (sub_path ++ l :: t, v) /\ contents n (l :: t) = Some v
    /\ ((hidden sub_path l = false /\ first = MultiWildcard)
        \/ (((hidden sub_path l = false /\ first = SingleWildcard) \/ first = l)
            /\ TopicTree.level_match false f t = true))).
  2:{ setoid_rewrite <- Hlm. split.
      - intros (l & t & v & ? & ? & ?). exists (l :: t), v. naive_solver.
      - intros ([|l t] & v & ? & ? & Hm & Hn); [|by exists l, t, v]. exfalso.
        cbn [TopicTree.level_match] in Hm. rewrite orb_true_iff, !bool_decide_eq_true in Hm. naive_solver. }
  cbn [_matches]. destruct (branches n !! first) as [r|] eqn:Hfirst.
  - rewrite Hstep by done. destruct (Hw _ _ Hfirst) as [Hwild _]. split.
    + intros (t & v & ? & ? & ?). exists first, t, v. naive_solver.
    + intros (l & t & v & ? & ? & [[_ ->]|[[[_ ->]|<-] ?]]); [done|done|by exists t, v].
  - assert (forall t v, contents n (first :: t) <> Some v) as Hnone.
    { intros t v. simpl. by rewrite Hfirst. }
    destruct first as [s|s| | |]; try (split; [by intros ?%not_elem_of_nil|];
      intros (l & t & v & _ & Hc & [[_ Hx]|[[[_ Hx]|<-] _]]); [done|done|by destruct (Hnone t v)]).
    + rewrite (elem_of_fold_app (fun k v => if hidden sub_path k then []
        else (if next_is_multi f then own (sub_path ++ [k]) v else []) ++ _matches f (sub_path ++ [k]) v)). split.
      * intros (k & c & Hk & Hin). destruct (hidden sub_path k) eqn:Hh; [by apply not_elem_of_nil in Hin|].
        apply (Hstep _ _ Hk) in Hin as (t & v & ? & ? & ?). exists k, t, v. naive_solver.
      * intros (l & t & v & Hi & Hc & [[_ Hx]|[[[Hh _]|<-] Hm]]); [done| |by destruct (Hnone t v)].
        simpl in Hc. destruct (branches n !! l) as [c|] eqn:Hk; [|done]. exists l, c. split; [done|]. rewrite Hh.
        apply (Hstep _ _ Hk). exists t, v. by rewrite value_at_cons, Hk.
    + rewrite multi_matches_elem by by apply wild_free_alt. split.
      * intros (l & t & v & ? & ? & ?). exists l, t, v. naive_solver.
      * intros (l & t & v & ? & Hc & [[? _]|[[[_ Hx]|<-] _]]); [by exists l, t, v | done | by destruct (Hnone t v)].
Qed.

(** ** Lemmas: nothing is found twice *)

Lemma fold_app_nodup {A} (g : Level -> Node -> list (Topic * A)) (m : gmap Level Node) sub_path :
  (forall k c, m !! k = Some c -> NoDup (g k c).*1) ->
  (forall k c item, m !! k = Some c -> item ∈ g k c -> exists t, fst item = sub_path ++ k :: t) ->
  NoDup (map_fold (fun k c acc => acc ++ g k c) [] m).*1.
Proof.
  intros Hnd Hpre.
  apply (map_fold_weak_ind (fun r m' => m' ⊆ m -> NoDup r.*1 /\ forall x, x ∈ r.*1 -> exists k c t, m' !! k = Some c /\ x = sub_path ++ k :: t)
           (fun k c acc => acc ++ g k c) []); [intros _; split; [constructor | by intros x ?%not_elem_of_nil] | | done].
  intros k c m' r Hk IH Hsub. assert (m !! k = Some c) as Hmk by (eapply lookup_weaken; [|done]; apply lookup_insert_eq).
  destruct IH as [Hr Hx]; [etrans; [by apply insert_subseteq | done]|]. rewrite fmap_app. split.
  - apply NoDup_app. split; [done|]. split; [|by apply Hnd]. intros x Hin (item & -> & Hg)%list_elem_of_fmap.
    destruct (Hpre _ _ _ Hmk Hg) as [t Ht]. destruct (Hx _ Hin) as (k' & c' & t' & Hk' & He).
    rewrite Ht in He. apply app_inv_head in He. congruence.
  - intros x [Hin|(item & -> & Hg)%list_elem_of_fmap]%elem_of_app.
    + destruct (Hx _ Hin) as (k' & c' & t & Hk' & ->). exists k', c', t. split; [|done].
      rewrite lookup_insert_ne; [done|congruence].
    + destruct (Hpre _ _ _ Hmk Hg) as [t Ht]. exists k, c, t. by rewrite lookup_insert_eq.
Qed.

Lemma own_nodup sub_path n : NoDup (own sub_path n).*1.
Proof. unfold own. destruct (value n); simpl; [apply NoDup_singleton | constructor]. Qed.

(** A node's own value before what lies below it. *)
Lemma own_app_nodup sub_path n l :
  NoDup l.*1 -> (forall item, item ∈ l -> fst item <> sub_path) -> NoDup (own sub_path n ++ l).*1.
Proof.
  intros Hl Hne. rewrite fmap_app. apply NoDup_app. split; [apply own_nodup|]. split; [|done].
  intros x (i & -> & (v & -> & _)%own_elem)%list_elem_of_fmap (i' & He & Hin)%list_elem_of_fmap. by apply (Hne _ Hin).
Qed.

Lemma multi_matches_nodup n sub_path : wild_free n -> NoDup (multi_matches sub_path n).*1.
Proof.
  revert sub_path. induction n as [n IH] using node_children_ind. intros sub_path Hw.
  pose proof Hw as Hwa. apply wild_free_alt in Hwa.
  assert (branches n !! MultiWildcard = None) as Hno.
  { destruct (branches n !! MultiWildcard) as [c|] eqn:Hc; [|done]. by destruct (Hwa _ _ Hc). }
  rewrite multi_matches_unfold by done.
  apply (fold_app_nodup (fun k v => if hidden sub_path k then []
      else if decide (branches v = ∅) then own (sub_path ++ [k]) v
      else own (sub_path ++ [k]) v ++ multi_matches (sub_path ++ [k]) v) _ sub_path); intros k c.
  - intros Hk. destruct (hidden sub_path k); [constructor|]. case_decide; [apply own_nodup|].
    destruct (Hwa _ _ Hk) as [_ Hc]. apply own_app_nodup; [by apply (IH _ _ Hk)|].
    intros item (k' & t & v & -> & _)%multi_matches_elem; [|done]. simpl. intros He.
    apply (f_equal length) in He. rewrite length_app in He. simpl in He. lia.
  - intros item Hk Hin. destruct (hidden sub_path k); [by apply not_elem_of_nil in Hin|].
    destruct (Hwa _ _ Hk) as [_ Hc].
    assert (item ∈ own (sub_path ++ [k]) c \/ item ∈ multi_matches (sub_path ++ [k]) c) as [Ho|Hm].
    { case_decide; [by left | by apply elem_of_app in Hin]. }
    + apply own_elem in Ho as (v & -> & _). by exists [].
    + apply multi_matches_elem in Hm as (k' & t & v & -> & _); [|done]. exists (k' :: t). by rewrite <- app_assoc.
Qed.

Lemma matches_nodup f sub_path n : well_shaped f -> wild_free n -> NoDup (_matches f sub_path n).*1.
Proof.
  revert sub_path n. induction f as [|first f IH]; intros sub_path n Hs Hw; [apply own_nodup|].
  pose proof (well_shaped_cons _ _ Hs) as (_ & Hsf & _). pose proof Hw as Hwa. apply wild_free_alt in Hwa.
  assert (forall k c, branches n !! k = Some c ->
    NoDup ((if next_is_multi f then own (sub_path ++ [k]) c else []) ++ _matches f (sub_path ++ [k]) c).*1) as Hstep.
  { intros k c Hk. destruct (Hwa _ _ Hk) as [_ Hc]. destruct (next_is_multi f) eqn:Hf; [|by apply IH].
    apply own_app_nodup; [by apply IH|]. intros item (t & v & -> & _ & _ & Hn)%matches_elem; [|done..].
    simpl. intros He. rewrite <- (app_nil_r (sub_path ++ [k])) in He at 2. apply app_inv_head in He as ->. apply Hn. split; [|done].
    destruct f as [|[] f]; try done. apply well_shaped_cons in Hsf as (_ & _ & Hm). f_equal. naive_solver. }
  cbn [_matches]. destruct (branches n !! first) as [r|] eqn:Hr; [by apply Hstep|].
  destruct first; try constructor; [|by apply multi_matches_nodup].
  apply (fold_app_nodup (fun k v => if hidden sub_path k then []
      else (if next_is_multi f then own (sub_path ++ [k]) v else []) ++ _matches f (sub_path ++ [k]) v) _ sub_path); intros k c.
  - intros Hk. destruct (hidden sub_path k); [constructor | by apply Hstep].
  - intros item Hk Hin. destruct (hidden sub_path k); [by apply not_elem_of_nil in Hin|]. destruct (Hwa _ _ Hk) as [_ Hc].
    apply elem_of_app in Hin as [Ho|(t & v & -> & _)%matches_elem]; [|by exists t; rewrite <- app_assoc|done..].
    destruct (next_is_multi f); [|by apply not_elem_of_nil in Ho]. apply own_elem in Ho as (v & -> & _). by exists [].
Qed.

(** ** Lemmas: sizes *)

Definition total (m : gmap Level Node) : Z := map_fold (fun _ c acc => (values_size c + acc)%Z) 0%Z m.

Lemma values_size_total n : values_size n = (total (branches n) + (if is_none (value n) then 0 else 1))%Z.
Proof. by destruct n. Qed.

Lemma total_insert l c m : m !! l = None -> total (<[l := c]> m) = (values_size c + total m)%Z.
Proof. intros Hl. unfold total. apply (map_fold_insert_L (fun _ c acc => (values_size c + acc)%Z)); [intros; lia | done]. Qed.

Lemma total_lookup l m :
  total m = (values_size (default node_default (m !! l)) + total (delete l m))%Z.
Proof.
  destruct (m !! l) as [c|] eqn:Hl; simpl; [|by rewrite delete_id].
  rewrite <- (insert_delete_id _ _ _ Hl) at 1. by rewrite total_insert by apply lookup_delete_eq.
Qed.

Lemma total_update l c m :
  total (<[l := c]> m) = (total m + values_size c - values_size (default node_default (m !! l)))%Z.
Proof. rewrite <- insert_delete_eq, total_insert by apply lookup_delete_eq. rewrite (total_lookup l m). lia. Qed.

Lemma total_delete l m : total (delete l m) = (total m - values_size (default node_default (m !! l)))%Z.
Proof. rewrite (total_lookup l m). lia. Qed.

Lemma values_size_nonneg n : (0 <= values_size n)%Z.
Proof.
  induction n as [n IH] using node_children_ind. rewrite values_size_total.
  assert (0 <= total (branches n))%Z; [|destruct (is_none _); lia].
  apply (map_fold_weak_ind (fun r m => m ⊆ branches n -> 0 <= r)%Z); [lia | | done].
  intros l c m r Hl Hr Hsub. assert (branches n !! l = Some c) as Hc by (eapply lookup_weaken; [|done]; apply lookup_insert_eq).
  specialize (IH _ _ Hc). assert (0 <= r)%Z by (apply Hr; etrans; [by apply insert_subseteq | done]). lia.
Qed.

Lemma set_values_size path v n :
  values_size (_insert path v n) = (values_size n + (if is_none (contents n path) then 1 else 0))%Z.
Proof.
  revert n. induction path as [|l path IH]; intros n; cbn [_insert]; rewrite !values_size_total; cbn [value branches].
  - cbn [contents is_none]. destruct (is_none (value n)); lia.
  - rewrite total_update, IH, value_at_child. lia.
Qed.

Lemma take_values_size path n :
  values_size (snd (_remove path n)) = (values_size n - (if is_none (contents n path) then 0 else 1))%Z.
Proof.
  revert n. induction path as [|l path IH]; intros n; cbn [_remove].
  - cbn [snd contents]. rewrite !values_size_total. cbn [value branches is_none]. destruct (is_none (value n)); lia.
  - rewrite value_at_cons. destruct (branches n !! l) as [x|] eqn:Hx; cbn [mbind option_bind]; [|cbn; lia]. specialize (IH x).
    destruct (_remove path x) as [res x']. cbn [snd] in *. rewrite !values_size_total. cbn [value branches].
    destruct (node_is_empty x') eqn:He.
    + apply empty_node_default in He. subst x'. rewrite total_delete, Hx. change (default node_default (Some x)) with x.
      replace (values_size node_default) with 0%Z in IH by done. lia.
    + rewrite total_update, Hx. change (default node_default (Some x)) with x. lia.
Qed.

(** ** Lemmas: removing what a predicate rejects *)

Definition kept (f : V -> bool) (o : option V) : option V :=
  match o with Some v => if f v then Some v else None | None => None end.

(** What happens to one child. *)
Definition retain_child (f : V -> bool) (c : Node) (removeds : Z) : Z * Node :=
  match value c with
  | Some v => if f v then (removeds, c) else ((removeds + 1)%Z, mkNode None (branches c))
  | None => (removeds, c)
  end.

Definition retain_branch (f : V -> bool) (max_limit : Z) (l : Level) (c : Node) (acc : Z * gmap Level Node)
    : Z * gmap Level Node :=
  let '(removeds, bs) := acc in
  let '(removeds, c) := _retain f max_limit c removeds in
  let '(removeds, c) := retain_child f c removeds in
  (removeds, if node_is_empty c then bs else <[l := c]> bs).

Lemma _retain_unfold f max_limit n removeds :
  _retain f max_limit n removeds
  = if (max_limit <=? removeds)%Z then (removeds, n)
    else let '(removeds, bs) := map_fold (retain_branch f max_limit) (removeds, ∅) (branches n) in
         (removeds, mkNode (value n) bs).
Proof. by destruct n. Qed.

Definition retained (f : V -> bool) (n n' : Node) (r r' : Z) : Prop :=
  value n' = value n
  /\ (forall l t, contents n' (l :: t) = kept f (contents n (l :: t)))
  /\ (r <= r')%Z /\ (r' + values_size n' = r + values_size n)%Z
  /\ (wild_free n -> wild_free n').

Lemma retain_child_spec f c c1 r r1 :
  retained f c c1 r r1 ->
  let '(r2, c2) := retain_child f c1 r1 in
  (forall t, contents c2 t = kept f (contents c t)) /\ (r <= r2)%Z
  /\ (r2 + values_size c2 = r + values_size c)%Z /\ (wild_free c -> wild_free c2).
Proof.
  intros (Hv & Hc & Hr & Hs & Hw). unfold retain_child. rewrite Hv. destruct (value c) as [v|] eqn:Hval.
  - destruct (f v) eqn:Hf.
    + split; [|done]. intros [|l t]; [simpl; by rewrite Hv, Hval; simpl; rewrite Hf | apply Hc].
    + split; [intros [|l t]; [simpl; rewrite Hval; simpl; by rewrite Hf | apply Hc]|]. split; [lia|]. split.
      * revert Hs. rewrite (values_size_total c1), (values_size_total (mkNode _ _)), Hv. simpl. lia.
      * intros Hcw. apply Hw, wild_free_alt in Hcw. by apply wild_free_alt.
  - split; [|done]. intros [|l t]; [simpl; by rewrite Hv, Hval | apply Hc].
Qed.

(** The children processed so far. *)
Record branches_ok (f : V -> bool) (r : Z) (m : gmap Level Node) (acc : Z * gmap Level Node) : Prop := mkBranchesOk {
  bo_contents : forall l t, (c ← snd acc !! l; contents c t) = kept f (c ← m !! l; contents c t);
  bo_mono : (r <= fst acc)%Z;
  bo_size : (fst acc + total (snd acc) = r + total m)%Z;
  bo_nonneg : (0 <= total (snd acc))%Z;
  bo_dom : forall l, is_Some (snd acc !! l) -> is_Some (m !! l);
  bo_wild : map_Forall (fun l c => is_wildcard l = false /\ wild_free c) m ->
            map_Forall (fun l c => is_wildcard l = false /\ wild_free c) (snd acc)
}.

Lemma branches_ok_step f max_limit r m acc l c :
  (forall r, r + total (branches c) < max_limit ->
     let '(r', c') := _retain f max_limit c r in retained f c c' r r')%Z ->
  m !! l = None -> (r + total (<[l := c]> m) < max_limit)%Z ->
  branches_ok f r m acc -> branches_ok f r (<[l := c]> m) (retain_branch f max_limit l c acc).
Proof.
  intros IH Hl Hmax [Hc Hmono Hsize Hpos Hdom Hwild]. destruct acc as [r1 bs]. simpl in *.
  rewrite total_insert in Hmax by done. pose proof (values_size_nonneg c) as Hvs.
  assert (bs !! l = None) as Hbs.
  { destruct (bs !! l) eqn:Hb; [|done]. destruct (Hdom l) as [? Hx]; [by eauto | congruence]. }
  assert (r1 + total (branches c) < max_limit)%Z as Hlt.
  { rewrite values_size_total in Hmax. destruct (is_none (value c)); lia. }
  specialize (IH _ Hlt). unfold retain_branch. destruct (_retain f max_limit c r1) as [r2 c1].
  apply retain_child_spec in IH. destruct (retain_child f c1 r2) as [r3 c2]. destruct IH as (Hc2 & Hr & Hs & Hw).
  pose proof (values_size_nonneg c2) as Hvs2.
  destruct (node_is_empty c2) eqn:He.
  - apply empty_node_default in He. subst c2. replace (values_size node_default) with 0%Z in Hs by done.
    constructor; simpl; [| lia | rewrite total_insert by done; lia | done | |].
    + intros l' t. destruct (decide (l' = l)) as [->|Hne].
      * rewrite Hbs, lookup_insert_eq. simpl. by rewrite <- Hc2, value_at_default.
      * by rewrite lookup_insert_ne.
    + intros l' Hs'. rewrite lookup_insert_is_Some. destruct (decide (l = l')); [by left | right; by auto].
    + intros Hall. apply Hwild. by eapply map_Forall_insert_1_2.
  - constructor; simpl; [| lia | rewrite !total_insert by done; lia | rewrite total_insert by done; lia | |].
    + intros l' t. destruct (decide (l' = l)) as [->|Hne]; [rewrite !lookup_insert_eq; apply Hc2 | by rewrite !lookup_insert_ne].
    + intros l'. rewrite !lookup_insert_is_Some. naive_solver.
    + intros Hall. pose proof (map_Forall_insert_1_1 _ _ _ _ Hall) as [Hlw Hcw].
      apply map_Forall_insert_1_2 in Hall; [|done]. apply map_Forall_insert_2; auto.
Qed.

Lemma _retain_spec f max_limit n r :
  (r + total (branches n) < max_limit)%Z ->
  let '(r', n') := _retain f max_limit n r in retained f n n' r r'.
Proof.
  revert r. induction n as [n IH] using node_children_ind. intros r Hmax. rewrite _retain_unfold.
  assert (forall m, m ⊆ branches n -> 0 <= total m)%Z as Hpos.
  { intros m _. pose proof (values_size_nonneg (mkNode None m)) as Hp. rewrite values_size_total in Hp. simpl in Hp. lia. }
  rewrite (proj2 (Z.leb_gt _ _)) by (specialize (Hpos _ (reflexivity _)); lia).
  assert (branches_ok f r (branches n) (map_fold (retain_branch f max_limit) (r, ∅) (branches n))) as Hok.
  { apply (map_fold_weak_ind (fun acc m => m ⊆ branches n -> (r + total m < max_limit)%Z -> branches_ok f r m acc));
      [ | |done|done].
    - intros _ _. constructor; simpl; try done; lia.
    - intros l c m acc Hl Hm Hsub Hlt. assert (branches n !! l = Some c) as Hc by (eapply lookup_weaken; [|done]; apply lookup_insert_eq).
      apply branches_ok_step; [by apply (IH _ _ Hc) | done | done |]. apply Hm.
      + etrans; [by apply insert_subseteq | done].
      + rewrite total_insert in Hlt by done. pose proof (values_size_nonneg c). lia. }
  destruct (map_fold _ _ _) as [r' bs]. destruct Hok as [Hc Hmono Hsize Hp Hdom Hwild]. simpl in *.
  split; [done|]. split; [intros l t; apply Hc|]. split; [done|]. split.
  - rewrite !values_size_total. simpl. lia.
  - intros Hw. apply wild_free_alt in Hw. apply wild_free_alt. by apply Hwild.
Qed.

End node.
End RetainTree.

(** ** The storage *)

Record Retain : Type := mkRetain {
  msg_id : option Z;
  ret_from : MsgFrom;
  ret_publish : Publish
}.

(** [TimedValue]: a value and its deadline. *)
Definition TimedValue (V : Type) : Type := (V * option Z)%type.

Definition timed_new {V} (now : Z) (v : V) (timeout : option Z) : TimedValue V := (v, Z.add now <$> timeout).

Definition is_expired {V} (now : Z) (tv : TimedValue V) : bool :=
  match snd tv with Some e => (e <=? now)%Z | None => false end.

Record RetainStorage : Type := mkStorage {
  messages : RetainTree.Node (V := TimedValue Retain);
  retaineds : Z
}.

Definition storage_new : RetainStorage := mkStorage RetainTree.node_default 0.

Definition remove_expired_messages (now : Z) (st : RetainStorage) : Z * RetainStorage :=
  let '(removeds, messages) := RetainTree.retain usize_max (fun tv => negb (is_expired now tv)) (messages st) in
  (removeds, mkStorage messages (retaineds st - removeds)).

Definition set_with_timeout (now : Z) (topic : TopicName) (retain : Retain) (timeout : option Z)
    (st : RetainStorage) : result TopicError RetainStorage :=
  let? topic := from_str topic in
  let '(old, messages) := RetainTree.remove topic (messages st) in
  Ok (if negb (str_is_empty (payload (ret_publish retain))) then
        mkStorage (RetainTree.insert topic (timed_new now retain timeout) messages)
          (if is_none old then retaineds st + 1 else retaineds st)
      else mkStorage messages (if isSome old then retaineds st - 1 else retaineds st)).

Definition get_message (now : Z) (topic_filter : TopicFilter) (st : RetainStorage)
    : result TopicError (list (TopicName * Retain)) :=
  let? topic := from_str topic_filter in
  Ok (omap (fun '(t, r) => if is_expired now r then None else Some (to_string t, fst r))
        (RetainTree.matches topic (messages st))).

(** ** Executions and the specification *)

Inductive RetainOp : Type :=
| RSet (now : Z) (topic : TopicName) (r : Retain) (timeout : option Z)
| RExpire (now : Z).

Definition retain_step (st : RetainStorage) (o : RetainOp) : RetainStorage :=
  match o with
  | RSet now topic r timeout =>
      match set_with_timeout now topic r timeout st with Ok st' => st' | Err _ => st end
  | RExpire now => snd (remove_expired_messages now st)
  end.

(** A map from topic names to messages. *)
Abbreviation Retained := (gmap TopicName (TimedValue Retain)).

Definition spec_retain (m : Retained) (o : RetainOp) : Retained :=
  match o with
  | RSet now topic r timeout =>
      if is_ok (from_str topic) then
        if str_is_empty (payload (ret_publish r)) then delete topic m
        else <[topic := timed_new now r timeout]> m
      else m
  | RExpire now => filter (fun e => is_expired now (snd e) = false) m
  end.

(** Messages are set on topic names; the tree is smaller than the memory. *)
Definition names_only (o : RetainOp) : Prop :=
  match o with RSet _ topic _ _ => has_wildcard topic = false | RExpire _ => True end.

Definition small (st : RetainStorage) : Prop := (RetainTree.values_size (messages st) < usize_max)%Z.

(** The tree is the map, and the counter counts. *)
Record retain_inv (m : Retained) (st : RetainStorage) : Prop := mkRetainInv {
  ri_topic : forall t tv, RetainTree.contents (messages st) t = Some tv ->
    exists s, from_str s = Ok t /\ has_wildcard s = false;
  ri_map : forall s t, from_str s = Ok t -> RetainTree.contents (messages st) t = m !! s;
  ri_keys : forall s, is_Some (m !! s) -> is_ok (from_str s) = true;
  ri_wild : RetainTree.wild_free (messages st);
  ri_count : retaineds st = RetainTree.values_size (messages st)
}.

Lemma retain_new_inv : retain_inv ∅ storage_new.
Proof.
  constructor; simpl.
  - intros t tv. by rewrite RetainTree.value_at_default.
  - intros s t _. by rewrite RetainTree.value_at_default, lookup_empty.
  - intros s [? Hx]. by rewrite lookup_empty in Hx.
  - apply RetainTree.wild_free_default.
  - done.
Qed.

Lemma from_str_same s s' t : from_str s = Ok t -> from_str s' = Ok t -> s = s'.
Proof. intros H1 H2. by rewrite <- (from_str_print _ _ H1), <- (from_str_print _ _ H2). Qed.

Lemma names_wild_free s t :
  from_str s = Ok t -> has_wildcard s = false -> Forall (fun l => is_wildcard l = false) t.
Proof. intros Hs Hw. eapply Forall_impl; [by eapply TopicTree.from_str_names|]. naive_solver. Qed.

Lemma retain_set_inv m st now topic r timeout :
  retain_inv m st -> has_wildcard topic = false ->
  retain_inv (spec_retain m (RSet now topic r timeout)) (retain_step st (RSet now topic r timeout)).
Proof.
  intros [Ht Hm Hk Hw Hc] Hname. unfold retain_step, set_with_timeout, spec_retain.
  destruct (from_str topic) as [t|e] eqn:Hs; cbn [result_bind is_ok]; [|by constructor].
  unfold RetainTree.remove, RetainTree.insert.
  pose proof (RetainTree.take_contents t (messages st)) as Hrc.
  pose proof (RetainTree.take_result t (messages st)) as Hrr.
  pose proof (RetainTree.take_values_size t (messages st)) as Hrs.
  pose proof (RetainTree.take_wild_free t (messages st) Hw) as Hrw.
  destruct (RetainTree._remove t (messages st)) as [old ms]. cbn [fst snd] in *. subst old.
  assert (forall s t', from_str s = Ok t' -> t' = t <-> s = topic) as Heq.
  { intros s t' Hs'. split; [intros ->; by eapply from_str_same | intros ->; congruence]. }
  destruct (str_is_empty (payload (ret_publish r))); cbn [negb]; constructor; cbn [messages retaineds].
  - intros t' tv. rewrite Hrc. case_decide; [done | apply Ht].
  - intros s t' Hs'. rewrite Hrc, lookup_delete. specialize (Heq _ _ Hs').
    destruct (decide (t' = t)), (decide (topic = s)); naive_solver.
  - intros s. rewrite lookup_delete_is_Some. intros [_ ?]. by apply Hk.
  - done.
  - rewrite Hrs, Hc. by destruct (RetainTree.contents (messages st) t); cbn; lia.
  - intros t' tv. rewrite RetainTree.set_contents, Hrc. case_decide; [intros _; exists topic; by subst | apply Ht].
  - intros s t' Hs'. rewrite RetainTree.set_contents, Hrc, lookup_insert. specialize (Heq _ _ Hs').
    destruct (decide (t' = t)), (decide (topic = s)); naive_solver.
  - intros s. rewrite lookup_insert_is_Some. intros [<-|[_ ?]]; [by rewrite Hs | by apply Hk].
  - apply RetainTree.set_wild_free; [by eapply names_wild_free | done].
  - rewrite RetainTree.set_values_size, Hrs, Hc, Hrc, decide_True by done.
    destruct (RetainTree.contents (messages st) t); cbn; lia.
Qed.

Lemma kept_filter now (m : Retained) s :
  RetainTree.kept (fun tv => negb (is_expired now tv)) (m !! s)
  = filter (fun e => is_expired now (snd e) = false) m !! s.
Proof.
  rewrite map_lookup_filter. destruct (m !! s) as [tv|]; simpl; [|done]. by destruct (is_expired now tv).
Qed.

Lemma retain_expire_inv m st now :
  retain_inv m st -> small st ->
  retain_inv (spec_retain m (RExpire now)) (retain_step st (RExpire now)).
Proof.
  intros [Ht Hm Hk Hw Hc] Hsmall. unfold retain_step, remove_expired_messages, RetainTree.retain, spec_retain.
  pose proof (RetainTree._retain_spec (fun tv => negb (is_expired now tv)) usize_max (messages st) 0) as Hr.
  assert (forall tv, RetainTree.contents (messages st) [] <> Some tv) as Hroot.
  { intros tv Hx. destruct (Ht _ _ Hx) as (s & Hs & _). by apply from_str_nonempty in Hs. }
  pose proof (RetainTree.values_size_total (messages st)) as Hvt. unfold small in Hsmall.
  assert (0 + RetainTree.total (RetainTree.branches (messages st)) < usize_max)%Z as Hlt.
  { destruct (is_none _); lia. }
  specialize (Hr Hlt). destruct (RetainTree._retain _ _ _ _) as [r ms]. destruct Hr as (Hv & Hcont & _ & Hsize & Hwild).
  cbn [snd messages retaineds]. constructor; cbn [messages retaineds].
  - intros [|l t] tv; [cbn; rewrite Hv; intros Hx; by destruct (Hroot tv)|]. rewrite Hcont.
    destruct (RetainTree.contents (messages st) (l :: t)) eqn:Hx; [|done]. intros _. by eapply Ht.
  - intros s [|l t] Hs; [by apply from_str_nonempty in Hs|]. by rewrite Hcont, (Hm _ _ Hs), kept_filter.
  - intros s [tv Hs]. apply map_lookup_filter_Some in Hs as [Hs _]. by eauto.
  - by apply Hwild.
  - lia.
Qed.

Lemma retain_step_count st o :
  small st -> (forall m, retain_inv m st -> names_only o ->
    retain_inv (spec_retain m o) (retain_step st o)
    /\ RetainTree.values_size (messages (retain_step st o)) <= RetainTree.values_size (messages st) + 1)%Z.
Proof.
  intros Hs m Hi Hn. assert (retain_inv (spec_retain m o) (retain_step st o)) as Hi'.
  { destruct o; [by apply retain_set_inv | by apply retain_expire_inv]. }
  split; [done|]. rewrite <- (ri_count _ _ Hi), <- (ri_count _ _ Hi'). destruct o as [now topic r timeout|now]; simpl.
  - unfold set_with_timeout. destruct (from_str topic); cbn [result_bind]; [|lia]. destruct (RetainTree.remove _ _) as [old ms].
    destruct (str_is_empty _); cbn [negb retaineds]; [destruct (isSome old) | destruct (is_none old)]; lia.
  - unfold small in Hs. pose proof (RetainTree.values_size_total (messages st)) as Hvt. unfold remove_expired_messages, RetainTree.retain.
    pose proof (RetainTree._retain_spec (fun tv => negb (is_expired now tv)) usize_max (messages st) 0) as Hr.
    destruct (RetainTree._retain _ _ _ _) as [x ms]. cbn [snd retaineds].
    destruct Hr as (_ & _ & Hx & _); [destruct (is_none _); lia | lia].
Qed.

Lemma retain_run_inv ops m st :
  retain_inv m st -> Forall names_only ops ->
  (RetainTree.values_size (messages st) + Z.of_nat (length ops) < usize_max)%Z ->
  retain_inv (fold_left spec_retain ops m) (fold_left retain_step ops st).
Proof.
  revert m st. induction ops as [|o ops IH]; intros m st Hi Hn Hlen; simpl in *; [done|].
  apply Forall_cons in Hn as [Ho Hn].
  destruct (retain_step_count st o) with (m := m) as [Hi' Hc]; [unfold small; lia | done | done|].
  apply IH; [done | done | lia].
Qed.

Lemma new_size : RetainTree.values_size (messages storage_new) = 0%Z.
Proof. done. Qed.

(** ** Theorems *)

(** after any sequence of settings and expirations the tree of retained
    messages is a plain map from topic names to messages with deadlines, an
    empty payload deleting and an expiration dropping exactly what is due,
    and the counter is the number of messages in the tree. *)
Theorem retain_refines ops :
  Forall names_only ops -> (Z.of_nat (length ops) < usize_max)%Z ->
  retain_inv (fold_left spec_retain ops ∅) (fold_left retain_step ops storage_new).
Proof. intros Hn Hlen. apply retain_run_inv; [apply retain_new_inv | done | by rewrite new_size]. Qed.

(** a new subscriber is given exactly the retained messages that are not
    expired and whose topic matches its filter under MQTT's rules, [$] topics
    isolated from wildcards, each topic once. *)
Theorem retained_found ops now filter f :
  Forall names_only ops -> (Z.of_nat (length ops) < usize_max)%Z -> from_str filter = Ok f ->
  exists found, get_message now filter (fold_left retain_step ops storage_new) = Ok found
  /\ NoDup found.*1
  /\ forall name r, (name, r) ∈ found <->
       exists deadline, fold_left spec_retain ops ∅ !! name = Some (r, deadline)
         /\ is_expired now (r, deadline) = false
         /\ mqtt_match f (split_on "/"%char name) /\ TopicTree.isolated f (split_on "/"%char name) = true.
Proof.
  intros Hn Hlen Hf. pose proof (retain_run_inv ops ∅ storage_new retain_new_inv Hn) as Hi.
  rewrite new_size in Hi. specialize (Hi Hlen). set (m := fold_left spec_retain ops ∅) in *. set (st := fold_left retain_step ops storage_new) in *.
  destruct Hi as [Ht Hm Hk Hw _]. unfold get_message. rewrite Hf. cbn [result_bind]. eexists. split; [done|].
  set (items := RetainTree.matches f (messages st)).
  assert (forall t tv, (t, tv) ∈ items <-> RetainTree.contents (messages st) t = Some tv
    /\ mqtt_match f (map Level.to_string t) /\ TopicTree.isolated f (map Level.to_string t) = true) as Hitems.
  { intros t tv. unfold items, RetainTree.matches. rewrite RetainTree.matches_elem by (done || by eapply from_str_well_shaped).
    split.
    - intros (t' & v & [= -> ->] & Hc & Hl & _). split; [done|]. destruct (Ht _ _ Hc) as (s & Hs & Hws).
      apply TopicTree.level_match_root; [by eapply from_str_canonical | by eapply TopicTree.from_str_names | done].
    - intros (Hc & Hl). destruct (Ht _ _ Hc) as (s & Hs & Hws). exists t, tv. split; [done|]. split; [done|].
      split; [|by intros [_ ->]; apply from_str_nonempty in Hs].
      apply TopicTree.level_match_root; [by eapply from_str_canonical | by eapply TopicTree.from_str_names | done]. }
  split.
  - assert (NoDup items.*1) as Hnd by (apply RetainTree.matches_nodup; [by eapply from_str_well_shaped | done]).
    assert (forall t tv, (t, tv) ∈ items -> exists s, from_str s = Ok t) as Hparse.
    { intros t tv [Hc _]%Hitems. destruct (Ht _ _ Hc) as (s & Hs & _). by exists s. }
    clear Hitems. induction items as [|[t tv] items IH]; simpl; [constructor|]. apply NoDup_cons in Hnd as [Hnot Hnd].
    assert (NoDup (omap (fun '(t, r) => if is_expired now r then None else Some (to_string t, fst r)) items).*1) as IH'.
    { apply IH; [done|]. intros t' tv' Hin. apply (Hparse t' tv'). by right. }
    destruct (is_expired now tv); [done|]. simpl. apply NoDup_cons. split; [|done].
    intros ([n r] & He & ([t' tv'] & Hin & Ho)%list_elem_of_omap)%list_elem_of_fmap. simpl in He. subst n.
    destruct (is_expired now tv'); [done|]. injection Ho as He _. apply Hnot.
    destruct (Hparse t tv) as [s Hs]; [by left|]. destruct (Hparse t' tv') as [s' Hs']; [by right|].
    rewrite (from_str_print _ _ Hs), (from_str_print _ _ Hs') in He. subst s'. rewrite Hs in Hs'. injection Hs' as ->.
    apply list_elem_of_fmap. by exists (t', tv').
  - intros name r. rewrite list_elem_of_omap. split.
    + intros ([t [r' d]] & [Hc Hl]%Hitems & Ho). destruct (is_expired now (r', d)) eqn:He; [done|].
      injection Ho as <- <-. destruct (Ht _ _ Hc) as (s & Hs & _). rewrite (from_str_print _ _ Hs).
      exists d. rewrite (from_str_levels _ _ Hs) in Hl. rewrite (Hm _ _ Hs) in Hc. split; [exact Hc | done].
    + intros (d & Hd & He & Hl). assert (is_ok (from_str name) = true) as Hok by (apply Hk; eexists; exact Hd).
      destruct (from_str name) as [t|] eqn:Hs; [|done]. exists (t, (r, d)). rewrite Hitems, (from_str_levels _ _ Hs).
      split; [split; [rewrite (Hm _ _ Hs); exact Hd | exact Hl]|]. by rewrite He, (from_str_print _ _ Hs).
Qed.

(** ** Witnesses *)

Module RetainExample.

Definition message (text : string) : Retain :=
  mkRetain None (mkFrom (Id_from 0 1 "p") FromCustom) (publish_from (mkCodec false true AtLeastOnce "" None text)).

Definition ops : list RetainOp :=
  [RSet 0 "a/b" (message "1") (Some 100%Z); RSet 1 "a" (message "2") None; RSet 2 "$SYS/b" (message "3") None;
   RSet 3 "a/c" (message "4") (Some 10%Z); RExpire 20; RSet 21 "a/b" (message "") None; RSet 22 "a/b" (message "5") None].

Lemma ops_names : Forall names_only ops.
Proof. repeat constructor. Qed.

Lemma retain_refines_witness :
  retain_inv (fold_left spec_retain ops ∅) (fold_left retain_step ops storage_new).
Proof. apply (retain_refines ops); [exact ops_names | reflexivity]. Defined.

Lemma retained_found_witness :
  exists found, get_message 30 "+/b" (fold_left retain_step ops storage_new) = Ok found
  /\ NoDup found.*1 /\ ("a/b", message "5") ∈ found.
Proof.
  destruct (retained_found ops 30 "+/b" [SingleWildcard; Normal "b"]) as (found & Hf & Hn & Hin);
    [exact ops_names | reflexivity | reflexivity |].
  exists found. split; [exact Hf|]. split; [exact Hn|]. apply Hin. exists None.
  split; [vm_compute; reflexivity|]. split; [reflexivity|]. split; [|reflexivity].
  vm_compute. apply mm_single, (mm_level (Normal "b")); [reflexivity|]. apply mm_end.
Defined.

End RetainExample.
