(* ===== verification/Delayed.v ===== *)
(** * Delayed publishing: [src/vendor/rmqtt/src/delayed.rs]

    A publish to [$delayed/<seconds>/<topic>] is kept in a heap until its time
    is over and then forwarded; a task looks at the heap every half second. The
    heap is a [BinaryHeap] whose order is reversed, so that its head has the
    smallest expiry time; which of several with the same time comes first is
    not documented, so the heap is an interface with the documented laws.

    The feature [delayed] that compiles the call of this module into the
    session is off in the build of [ciqadamq]; see [Session].

    The lock is given up between looking at the head and removing it; a
    publish can come in between. The operations of the state machine are these
    steps under the lock, so that every interleaving is a list of them. *)

From Stdlib Require Import Ascii.
From stdpp Require Import sorting pretty.
From S2P Require Import Prelude Strs Topic Types.
Local Open Scope string_scope.
Local Open Scope list_scope.
Local Open Scope Z_scope.

(** ** The heap *)

(** [types::DelayedPublish]; times are in milliseconds. *)
Record DelayedPublish : Type := mkDelayed {
  expired_time : Z;
  d_from : MsgFrom;
  d_publish : Publish;
  d_message_storage_available : bool;
  d_message_expiry_interval : option Z
}.

Definition delayed_new (now : Z) (from : MsgFrom) (p : Publish) (available : bool) (expiry : option Z)
    : DelayedPublish :=
  mkDelayed (match delay_interval p with Some di => now + di * 1000 | None => now end) from p available expiry.

(** [is_expired] at the clock reading [now]. *)
Definition is_expired (now : Z) (dp : DelayedPublish) : bool := expired_time dp <? now.

(** [BinaryHeap] under the reversed order of [DelayedPublish]. *)
Class Heap (P : Type) : Type := {
  heap_new : P;
  heap_push : DelayedPublish -> P -> P;
  heap_peek : P -> option DelayedPublish;
  heap_pop : P -> option DelayedPublish * P;
  heap_len : P -> Z;
  heap_items : P -> list DelayedPublish
}.

(** The documented behaviour: a multiset; the head has the smallest expiry
    time, and popping removes the head. *)
Class HeapLaws (P : Type) `{Heap P} : Prop := {
  items_new : heap_items heap_new = [];
  items_push x h : heap_items (heap_push x h) ≡ₚ x :: heap_items h;
  items_len h : heap_len h = Z.of_nat (length (heap_items h));
  peek_none h : heap_peek h = None <-> heap_items h = [];
  peek_least h x : heap_peek h = Some x ->
    x ∈ heap_items h /\ Forall (fun y => expired_time x <= expired_time y) (heap_items h);
  pop_peek h : fst (heap_pop h) = heap_peek h;
  pop_items h x h' : heap_pop h = (Some x, h') -> heap_items h ≡ₚ x :: heap_items h';
  pop_none h h' : heap_pop h = (None, h') -> heap_items h' = []
}.

(** ** Parsing *)

Definition u32_max : Z := 2 ^ 32 - 1.

(** [publish.deref_mut().topic = topic]. *)
Definition set_topic (t : TopicName) (p : Publish) : Publish :=
  mkPublish (mkCodec (cp_dup (packet p)) (cp_retain (packet p)) (cp_qos (packet p)) t
               (cp_packet_id (packet p)) (cp_payload (packet p)))
    (target_clientid p) (delay_interval p) (publish_time p).

Definition set_delay_interval (d : option Z) (p : Publish) : Publish :=
  mkPublish (packet p) (target_clientid p) d (publish_time p).

Definition delayed_parse (p : Publish) : result string Publish :=
  match splitn 3 "/" (topic p) with
  | first :: delay :: t :: _ =>
      if bool_decide (first = "$delayed") then
        match parse_uint u32_max delay with
        | Some interval_s => Ok (set_topic t (set_delay_interval (Some interval_s) p))
        | None => Err ("the delay time of $delayed must be an integer, topic: " ++ topic p)%string
        end
      else Ok p
  | _ => Ok p
  end.

(** ** The sender *)

Section sender.
Context {P : Type} `{Heap P}.
(** [mqtt_delayed_publish_max] of the context. *)
Context (delayed_publish_max : Z).

(** [delay_publish]: the message comes back when the heap is full. *)
Definition delay_publish (now : Z) (from : MsgFrom) (p : Publish) (available : bool) (expiry : option Z)
    (msgs : P) : option (MsgFrom * Publish) * P :=
  if heap_len msgs <? delayed_publish_max
  then (None, heap_push (delayed_new now from p available expiry) msgs)
  else (Some (from, p), msgs).

(** What [send] hands to [inner_forwards]. *)
Definition sent_publish (dp : DelayedPublish) : Publish := set_delay_interval None (d_publish dp).

(** One round of the task without interruption; [clock k] is the reading of
    the [k]-th look at the head. *)
Fixpoint drain (fuel : nat) (clock : nat -> Z) (k : nat) (msgs : P) : list DelayedPublish * P :=
  match fuel with
  | O => ([], msgs)
  | S fuel' =>
      match heap_peek msgs with
      | None => ([], msgs)
      | Some head =>
          if is_expired (clock k) head then
            match heap_pop msgs with
            | (Some dp, msgs') =>
                let '(l, msgs'') := drain fuel' clock (S k) msgs' in (dp :: l, msgs'')
            | (None, msgs') => ([], msgs')
            end
          else ([], msgs)
      end
  end.

(** The steps under the lock. [armed]: the task has seen an expired head and
    is about to remove the head. *)
Record Sender : Type := mkSender {
  msgs : P;
  armed : bool;
  sent : list (Z * DelayedPublish);    (* with the instant, latest first *)
  accepted : list DelayedPublish;
  refused : list (MsgFrom * Publish)
}.

Inductive Op : Type :=
| OpPublish (from : MsgFrom) (p : Publish) (available : bool) (expiry : option Z)
| OpPeek
| OpPop.

(** The operation at clock reading [now]. *)
Definition step (now : Z) (o : Op) (s : Sender) : Sender :=
  match o with
  | OpPublish from p available expiry =>
      match delay_publish now from p available expiry (msgs s) with
      | (None, h) =>
          mkSender h (armed s) (sent s) (delayed_new now from p available expiry :: accepted s) (refused s)
      | (Some r, h) => mkSender h (armed s) (sent s) (accepted s) (r :: refused s)
      end
  | OpPeek =>
      mkSender (msgs s) (match heap_peek (msgs s) with Some head => is_expired now head | None => false end)
        (sent s) (accepted s) (refused s)
  | OpPop =>
      if armed s then
        match heap_pop (msgs s) with
        | (Some dp, h) => mkSender h false ((now, dp) :: sent s) (accepted s) (refused s)
        | (None, h) => mkSender h false (sent s) (accepted s) (refused s)
        end
      else s
  end.

Definition sender_new : Sender := mkSender heap_new false [] [] [].

(** The operations with the clock at each. *)
Definition run (ops : list (Z * Op)) (s : Sender) : Sender :=
  fold_left (fun s o => step (fst o) (snd o) s) ops s.

(** ** Lemmas *)

Context `{!HeapLaws P}.

Definition le_time (x y : DelayedPublish) : Prop := expired_time x <= expired_time y.

Lemma pop_least h x h' : heap_pop h = (Some x, h') ->
  heap_items h ≡ₚ x :: heap_items h' /\ Forall (le_time x) (heap_items h).
Proof.
  intros Hp. split; [by apply pop_items|].
  destruct (peek_least h x) as [_ Hl]; [by rewrite <- pop_peek, Hp | exact Hl].
Qed.

Lemma peek_pop h x : heap_peek h = Some x -> exists h', heap_pop h = (Some x, h').
Proof. intros Hp. pose proof (pop_peek h) as E. destruct (heap_pop h) as [o h']. cbn in E. subst. rewrite Hp. eauto. Qed.

(** The state reached at time [last] or before. *)
Record sender_ok (last : Z) (s : Sender) : Prop := {
  ok_conserved : accepted s ≡ₚ map snd (sent s) ++ heap_items (msgs s);
  ok_armed : armed s = true -> Exists (fun x => is_expired last x = true) (heap_items (msgs s));
  ok_sent : Forall (fun e => fst e <= last /\ expired_time (snd e) < fst e) (sent s);
  ok_bound : heap_len (msgs s) <= Z.max 0 delayed_publish_max
}.

Lemma sender_ok_later last now s : last <= now -> sender_ok last s -> sender_ok now s.
Proof.
  intros Hle [H1 H2 H3 H4]. split; [done| |eapply Forall_impl; [exact H3|]; cbn; lia|done].
  intros Ha. eapply Exists_impl; [apply (H2 Ha)|]. unfold is_expired. intros x Hx%Z.ltb_lt. apply Z.ltb_lt. lia.
Qed.

Lemma step_ok now o s : sender_ok now s -> sender_ok now (step now o s).
Proof.
  intros Hok. pose proof Hok as [H1 H2 H3 H4]. destruct o as [from p av ex| |]; cbn [step].
  - unfold delay_publish. destruct (Z.ltb_spec (heap_len (msgs s)) delayed_publish_max) as [Hlt|Hge]; [|by constructor].
    split; cbn; [|intros Ha|done|].
    + rewrite items_push, H1. apply Permutation_middle.
    + rewrite items_push. apply Exists_cons. right. by apply H2.
    + rewrite items_len, items_push. cbn [length]. rewrite items_len in Hlt. lia.
  - split; cbn; [done| |done|done]. destruct (heap_peek (msgs s)) as [x|] eqn:E; [|done]. intros Hx.
    apply Exists_exists. exists x. split; [|done]. by apply peek_least.
  - destruct (armed s) eqn:Ha; [|done].
    destruct (heap_pop (msgs s)) as [[x|] h] eqn:E.
    + destruct (pop_least _ _ _ E) as [Hp Hl]. split; cbn; [|done| |].
      * by rewrite H1, Hp, <- Permutation_middle.
      * constructor; [|done]. split; [done|]. cbn. specialize (H2 eq_refl). apply Exists_exists in H2 as (y & Hy & Hey%Z.ltb_lt).
        rewrite Forall_forall in Hl. specialize (Hl y Hy). unfold le_time in Hl. lia.
      * rewrite items_len in *. rewrite Hp in H4. cbn [length] in H4. lia.
    + assert (heap_items (msgs s) = []) as Hn by (apply peek_none; rewrite <- pop_peek, E; done).
      specialize (H2 eq_refl). rewrite Hn in H2. by apply Exists_nil in H2.
Qed.

Lemma run_ok last ops s :
  StronglySorted Z.le (last :: ops.*1) -> sender_ok last s -> exists last', sender_ok last' (run ops s).
Proof.
  revert last s. induction ops as [|[now o] ops IH]; intros last s Hs Hok; cbn; [by exists last|].
  cbn in Hs. apply StronglySorted_inv in Hs as [Hs Hle]. apply Forall_cons in Hle as [Hle _].
  apply (IH now); [done|]. by apply step_ok, (sender_ok_later last).
Qed.

(** ** Theorems *)

(** delayed publishing under every interleaving of publishes with the
    task: a message is forwarded once, only after its delay is over, none is
    lost between the heap and the forwarded ones, and the heap stays within
    its bound. *)
Theorem delayed_never_early ops :
  StronglySorted Z.le ops.*1 ->
  let s := run ops sender_new in
  accepted s ≡ₚ map snd (sent s) ++ heap_items (msgs s)
  /\ Forall (fun e => expired_time (snd e) < fst e) (sent s)
  /\ heap_len (msgs s) <= Z.max 0 delayed_publish_max.
Proof.
  intros Hs s. assert (exists last, sender_ok last s) as [last [H1 H2 H3 H4]].
  { destruct ops as [|[t o] ops]; cbn in Hs.
    - exists 0. split; cbn; [by rewrite items_new | done | done | rewrite items_len, items_new; cbn; lia].
    - assert (sender_ok t sender_new) as H0.
      { split; cbn; [by rewrite items_new | done | done | rewrite items_len, items_new; cbn; lia]. }
      destruct (run_ok t ((t, o) :: ops) sender_new) as [last Hl]; [|done|by exists last].
      cbn. constructor; [done|]. apply StronglySorted_inv in Hs as [_ Hle]. by constructor. }
  split; [done|]. split; [|done]. eapply Forall_impl; [exact H3|]. cbn. tauto.
Qed.

(** A round of the task that nothing interrupts forwards every message whose
    time is over, in the order of their times, and keeps the others. *)
Theorem drain_complete fuel clock k h :
  (forall i, clock i <= clock (S i)) -> heap_len h < Z.of_nat fuel ->
  let '(l, h') := drain fuel clock k h in
  heap_items h ≡ₚ l ++ heap_items h'
  /\ Forall (fun x => is_expired (clock k) x = false) (heap_items h')
  /\ StronglySorted le_time l.
Proof.
  intros Hc. revert k h. induction fuel as [|fuel IH]; intros k h Hf; cbn [drain].
  { rewrite items_len in Hf. lia. }
  destruct (heap_peek h) as [x|] eqn:E.
  2:{ apply peek_none in E. rewrite E. split; [done|]. split; [done | constructor]. }
  pose proof (peek_least h x E) as [Hin Hall].
  destruct (is_expired (clock k) x) eqn:Hx.
  2:{ split; [done|]. split; [|constructor]. eapply Forall_impl; [exact Hall|]. unfold is_expired in *.
      apply Z.ltb_ge in Hx. intros y Hy. apply Z.ltb_ge. lia. }
  destruct (peek_pop h x E) as [h1 Hp]. rewrite Hp. pose proof (pop_items h x h1 Hp) as Hitems.
  specialize (IH (S k) h1). rewrite items_len, Hitems in Hf. cbn [length] in Hf.
  specialize (IH ltac:(rewrite items_len; lia)). destruct (drain fuel clock (S k) h1) as [l h'].
  destruct IH as (I1 & I2 & I3). split; [by rewrite Hitems, I1|]. split.
  - eapply Forall_impl; [exact I2|]. unfold is_expired. intros y Hy%Z.ltb_ge. apply Z.ltb_ge. pose proof (Hc k). lia.
  - constructor; [done|]. assert (Forall (le_time x) (heap_items h1)) as Hle.
    { rewrite Hitems in Hall. by apply Forall_cons in Hall as [_ ?]. }
    rewrite I1 in Hle. by apply Forall_app in Hle as [? _].
Qed.

(** Only a full heap gives a delayed message back; otherwise it is kept until
    its delay from now is over. *)
Theorem delay_publish_spec now from p available expiry h di :
  delay_interval p = Some di ->
  match delay_publish now from p available expiry h with
  | (None, h') => heap_len h < delayed_publish_max
      /\ exists dp, heap_items h' ≡ₚ dp :: heap_items h /\ expired_time dp = now + di * 1000 /\ d_publish dp = p
  | (Some (f, q), h') => f = from /\ q = p /\ h' = h /\ delayed_publish_max <= heap_len h
  end.
Proof.
  intros Hd. unfold delay_publish.
  destruct (Z.ltb_spec (heap_len h) delayed_publish_max) as [Hlt|Hge]; [|done].
  split; [done|]. eexists. split; [apply items_push|]. unfold delayed_new. cbn. by rewrite Hd.
Qed.

End sender.

(** The topic is recovered from the delayed form, with its delay; any other
    topic is left alone. *)
Theorem delayed_parse_spec p :
  (forall n t, 0 <= n <= u32_max -> topic p = ("$delayed/" ++ show_uint n ++ "/" ++ t)%string ->
     delayed_parse p = Ok (set_topic t (set_delay_interval (Some n) p)))
  /\ (starts_with "$delayed/" (topic p) = false -> delayed_parse p = Ok p).
Proof.
  unfold delayed_parse. split.
  - intros n t Hn ->. cbn [splitn].
    change ("$delayed/" ++ ?x)%string with ("$delayed" ++ String "/" x)%string.
    rewrite split_once_app by done. change ("/" ++ t)%string with (String "/" t).
    rewrite split_once_app by (by apply show_uint_no_char). by rewrite parse_show_uint.
  - intros Ht. cbn [splitn]. destruct (split_once "/" (topic p)) as [[a b]|] eqn:E; [|done].
    apply split_once_Some in E. destruct (split_once "/" b) as [[c d]|]; [|done].
    rewrite bool_decide_false; [done|]. intros ->. by rewrite E in Ht.
Qed.

(** ** A heap: the sorted list, and the witness *)

Fixpoint sorted_push (x : DelayedPublish) (l : list DelayedPublish) : list DelayedPublish :=
  match l with
  | [] => [x]
  | y :: l' => if expired_time x <=? expired_time y then x :: l else y :: sorted_push x l'
  end.

Lemma sorted_push_perm x l : sorted_push x l ≡ₚ x :: l.
Proof.
  induction l as [|y l IH]; [done|]. cbn. destruct (_ <=? _); [done|]. rewrite IH. apply Permutation_swap.
Qed.

Lemma sorted_push_sorted x l : StronglySorted le_time l -> StronglySorted le_time (sorted_push x l).
Proof.
  induction 1 as [|y l Hs IH Hall]; cbn; [by repeat constructor|].
  destruct (Z.leb_spec (expired_time x) (expired_time y)) as [Hle|Hlt].
  - constructor; [by constructor|]. constructor; [done|]. eapply Forall_impl; [exact Hall|]. unfold le_time. lia.
  - constructor; [done|]. rewrite sorted_push_perm. constructor; [unfold le_time; lia | done].
Qed.

Record SortedHeap : Type := mkSorted { items : list DelayedPublish; items_sorted : StronglySorted le_time items }.

#[export] Instance sorted_heap : Heap SortedHeap := {
  heap_new := mkSorted [] (SSorted_nil _);
  heap_push x h := mkSorted (sorted_push x (items h)) (sorted_push_sorted x _ (items_sorted h));
  heap_peek h := head (items h);
  heap_pop h := match h with
                | mkSorted (x :: l) Hs => (Some x, mkSorted l (proj1 (StronglySorted_inv Hs)))
                | mkSorted [] _ => (None, h)
                end;
  heap_len h := Z.of_nat (length (items h));
  heap_items := items
}.

#[export] Instance sorted_heap_laws : HeapLaws SortedHeap.
Proof.
  split; cbn; intros.
  - done.
  - apply sorted_push_perm.
  - done.
  - by destruct (items h).
  - destruct h as [[|y l] Hs]; [done|]. cbn in *. simplify_eq. split; [by left|].
    apply StronglySorted_inv in Hs as [_ Hall]. by constructor.
  - by destruct h as [[|y l] Hs].
  - destruct h as [[|y l] Hs]; [done|]. by simplify_eq.
  - destruct h as [[|y l] Hs]; by simplify_eq.
Qed.

Module DelayedExample.

Definition a_publish (delay : Z) : Publish :=
  mkPublish (mkCodec false false AtMostOnce "t" None "x") None (Some delay) None.

Definition a_from : MsgFrom := mkFrom (Id_from 0 1 "c1") FromCustom.

(** A message with a delay of two seconds, one of a second that arrives
    between the task's look at the head and its removal. *)
Definition ops : list (Z * Op) :=
  [(0, OpPublish a_from (a_publish 2) true None); (2500, OpPeek);
   (2501, OpPublish a_from (a_publish 1) true None); (2502, OpPop); (3000, OpPeek); (3000, OpPop)].

Lemma delayed_never_early_witness :
  Forall (fun e => expired_time (snd e) < fst e) (sent (run (P := SortedHeap) 10 ops sender_new))
  /\ map fst (sent (run (P := SortedHeap) 10 ops sender_new)) = [2502].
Proof.
  split; [|by vm_compute]. apply (delayed_never_early (P := SortedHeap) 10 ops).
  repeat constructor; cbn; lia.
Defined.

End DelayedExample.
