(* ===== verification/Fitter.v ===== *)
(** * Connection limits: [src/vendor/rmqtt/src/fitter.rs]

    What a client asks for and what its listener allows make the limits of the
    connection: the keep-alive time, the window of unacknowledged messages, the
    expiry of the session, topic aliases. The keep-alive time is computed with
    [f32], binary32 floating point of the Standard Library's specification. *)

From Stdlib Require Import SpecFloat.
From S2P Require Import Prelude Strs Topic Types F64.
Local Open Scope string_scope.
Local Open Scope list_scope.
Local Open Scope Z_scope.

(** [ListenerConfig]: the fields the fitter reads; durations in seconds. *)
Record ListenerConfig : Type := mkListenerConfig {
  allow_zero_keepalive : bool;
  min_keepalive : Z;
  max_keepalive : Z;
  keepalive_backoff : spec_float;
  lc_max_mqueue_len : Z;
  mqueue_rate_limit : Z * Z;
  lc_max_inflight : Z;
  lc_session_expiry_interval : Z;
  max_session_expiry_interval : Z;
  lc_message_expiry_interval : Z;
  max_topic_aliases : Z
}.

(** The codec's [DisconnectReasonCode]: the codes the broker names, the one of
    a disconnect that asks for the will, and the rest by their number. *)
Module Code.
Inductive t : Type :=
| NormalDisconnection
| DisconnectWithWillMessage
| UnspecifiedError
| ProtocolError
| NotAuthorized
| ServerShuttingDown
| KeepAliveTimeout
| SessionTakenOver
| ReceiveMaximumExceeded
| MessageRateTooHigh
| QuotaExceeded
| AdministrativeAction
| ConnectionRateExceeded
| Code (n : Z).
End Code.

(** [Disconnect]: of version 5 with its reason code, its reason string and its
    session expiry, or another. *)
Inductive Disconnect : Type :=
| DisconnectV3
| DisconnectV5 (code : Code.t) (reason : option string) (session_expiry_interval_secs : option Z)
| DisconnectOther (reason : string).

(** ** [f32] *)

Definition f32_mul (a b : spec_float) : spec_float := SFmul 24 128 a b.

(** [n as f32] for [n : u16]: exact, a [u16] has sixteen bits. *)
Definition f32_of_u16 (n : Z) : spec_float := binary_normalize 24 128 n 0 false.

Definition f32_two : spec_float := f32_of_u16 2.

(** ** [DefaultFitter] *)

Section fitter.
(** The fields of the version 5 connect packet, and the protocol's level. *)
Context (proto_ver : ConnectInfo -> Z).
Context (receive_max : ConnectInfo -> option Z).
Context (session_expiry_interval_secs : ConnectInfo -> Z).
Context (topic_alias_max : ConnectInfo -> Z).
Context (conn_info : ConnectInfo) (cfg : ListenerConfig).

(** The grace period for a keep-alive time. *)
Definition keep_alive_grace (k : Z) : Z :=
  if k <? 6 then k + 3
  else to_uint u16_max (f32_mul (f32_mul (f32_of_u16 k) (keepalive_backoff cfg)) f32_two).

(** [keep_alive(&mut k)]: the result and the value left in [k]. *)
Definition keep_alive (k : Z) : result string Z * Z :=
  let zero := if allow_zero_keepalive cfg then Ok 0 else Err "Keepalive must be greater than 0" in
  if proto_ver conn_info =? 5 then
    if k =? 0 then (zero, k)
    else
      let k' := if k <? min_keepalive cfg then min_keepalive cfg
                else if max_keepalive cfg <? k then max_keepalive cfg else k in
      (Ok (keep_alive_grace k'), k')
  else if k =? 0 then (zero, k)
  else if k <? min_keepalive cfg then
    (Err ("Keepalive is too small and cannot be less than " ++ show_uint (min_keepalive cfg))%string, k)
  else if max_keepalive cfg <? k then
    (Err ("Keepalive is too large and cannot be greater than " ++ show_uint (max_keepalive cfg))%string, k)
  else (Ok (keep_alive_grace k), k).

Definition max_mqueue_len : Z := lc_max_mqueue_len cfg.

Definition max_inflight : Z :=
  match conn_info with
  | ConnV5 _ _ _ =>
      match receive_max conn_info with
      | Some m => Z.min (lc_max_inflight cfg) m
      | None => lc_max_inflight cfg
      end
  | ConnV3 _ _ _ => lc_max_inflight cfg
  end.

Definition session_expiry_interval (d : option Disconnect) : Z :=
  let expiry_interval :=
    match conn_info with
    | ConnV5 _ _ _ => session_expiry_interval_secs conn_info
    | ConnV3 _ _ _ => lc_session_expiry_interval cfg
    end in
  let interval :=
    match d with
    | Some (DisconnectV5 _ _ (Some secs)) => secs
    | _ => expiry_interval
    end in
  if max_session_expiry_interval cfg =? 0 then interval
  else Z.min interval (max_session_expiry_interval cfg).

(** [message_expiry]: the packet's property, in seconds. *)
Definition message_expiry_interval (message_expiry : option Z) : Z :=
  default (lc_message_expiry_interval cfg) message_expiry.

Definition max_client_topic_aliases : Z :=
  match conn_info with ConnV5 _ _ _ => max_topic_aliases cfg | ConnV3 _ _ _ => 0 end.

Definition max_server_topic_aliases : Z :=
  match conn_info with
  | ConnV5 _ _ _ => Z.min (topic_alias_max conn_info) (max_topic_aliases cfg)
  | ConnV3 _ _ _ => 0
  end.

End fitter.

(** ** Theorems *)

(** The limits of a connection never exceed the listener's: a version 5 client
    gets a keep-alive time within the listener's bounds, another client one it
    asked for within them, or none; the window, the topic aliases and the
    session's expiry are at most what the listener allows, and never more than
    a version 5 client offers. *)
Theorem negotiated_limits proto_ver receive_max expiry alias_max ci cfg :
  min_keepalive cfg <= max_keepalive cfg ->
  (forall k grace k', keep_alive proto_ver ci cfg k = (Ok grace, k') ->
     (k = 0 /\ grace = 0 /\ k' = 0 /\ allow_zero_keepalive cfg = true)
     \/ (k <> 0 /\ min_keepalive cfg <= k' <= max_keepalive cfg /\ grace = keep_alive_grace cfg k'
         /\ (proto_ver ci <> 5 \/ min_keepalive cfg <= k <= max_keepalive cfg -> k' = k)))
  /\ max_inflight receive_max ci cfg <= lc_max_inflight cfg
  /\ max_server_topic_aliases alias_max ci cfg <= Z.max 0 (max_topic_aliases cfg)
  /\ (forall d, max_session_expiry_interval cfg <> 0 ->
       session_expiry_interval expiry ci cfg d <= max_session_expiry_interval cfg).
Proof.
  intros Hle. split; [|split; [|split]].
  - intros k grace k'. unfold keep_alive.
    destruct (Z.eqb_spec (proto_ver ci) 5) as [H5|H5], (Z.eqb_spec k 0) as [->|Hk].
    1,3: destruct (allow_zero_keepalive cfg); [intros [= <- <-]; by left | done].
    + intros [= <- <-]. right.
      destruct (Z.ltb_spec k (min_keepalive cfg)), (Z.ltb_spec (max_keepalive cfg) k);
        (split; [done|]; split; [lia|]; split; [done|]; intros [?|?]; [done | lia]).
    + destruct (Z.ltb_spec k (min_keepalive cfg)); [done|].
      destruct (Z.ltb_spec (max_keepalive cfg) k); [done|]. intros [= <- <-]. right.
      split; [done|]. split; [lia|]. by split.
  - unfold max_inflight. destruct ci; [done|]. destruct (receive_max _); lia.
  - unfold max_server_topic_aliases. destruct ci; lia.
  - intros d Hm. unfold session_expiry_interval. rewrite (proj2 (Z.eqb_neq _ 0) Hm). lia.
Qed.

(** A factor of three quarters gives half as much time
    again, which is MQTT's grace period; short times get three seconds more. *)
Definition a_config : ListenerConfig :=
  mkListenerConfig true 0 65535 (S754_finite false 12582912 (-24)) 1000 (100, 10) 16 7200 0 300 0.

Example grace_values : map (keep_alive_grace a_config) [1; 5; 6; 7; 60; 1001; 65535] = [4; 8; 9; 10; 90; 1501; 65535].
Proof. by vm_compute. Qed.
