(* ===== verification/Hooks.v ===== *)
(** * Hooks: [src/vendor/rmqtt/src/hook.rs] and [register_auth_hooks] of [src/src/api.rs]

    Plugins and the application register handlers for the events of a
    connection. A handler is registered for a type of event with a priority and
    a random id, is inactive until its register is started, and is called with
    the result of the handlers before it; it says whether the ones after it are
    to be called. The handlers of a type are kept in a [BTreeMap], a list
    sorted by priority and id here, and called from its end.

    The sections hold the registry over arbitrary handlers, the questions the
    session asks it, and the application's registration. The theorems say which
    handlers an event reaches, and that with the application's handlers
    registered the session gets exactly the decisions of [Api]. *)

From Stdlib Require Import Ascii OrdersEx.
From stdpp Require Import sorting.
From S2P Require Import Prelude Strs Topic Types Acl Store Config Db Vault Api Access Auth.
Local Open Scope string_scope.
Local Open Scope list_scope.
Local Open Scope Z_scope.

(** ** Types of events *)

Module Ty.
Inductive t : Set :=
| BeforeStartup
| SessionCreated | SessionTerminated | SessionSubscribed | SessionUnsubscribed
| ClientAuthenticate | ClientConnect | ClientConnack | ClientConnected | ClientDisconnected
| ClientSubscribe | ClientUnsubscribe | ClientSubscribeCheckAcl | ClientKeepalive
| MessagePublishCheckAcl | MessagePublish | MessageDelivered | MessageAcked | MessageDropped
| MessageExpiryCheck | MessageNonsubscribed
| OfflineMessage | OfflineInflightMessages
| GrpcMessageReceived.

Definition names : list (string * t) :=
  [ ("before_startup", BeforeStartup);
    ("session_created", SessionCreated); ("session_terminated", SessionTerminated);
    ("session_subscribed", SessionSubscribed); ("session_unsubscribed", SessionUnsubscribed);
    ("client_authenticate", ClientAuthenticate); ("client_connect", ClientConnect);
    ("client_connack", ClientConnack); ("client_connected", ClientConnected);
    ("client_disconnected", ClientDisconnected); ("client_subscribe", ClientSubscribe);
    ("client_unsubscribe", ClientUnsubscribe);
    ("client_subscribe_check_acl", ClientSubscribeCheckAcl); ("client_keepalive", ClientKeepalive);
    ("message_publish_check_acl", MessagePublishCheckAcl); ("message_publish", MessagePublish);
    ("message_delivered", MessageDelivered); ("message_acked", MessageAcked);
    ("message_dropped", MessageDropped); ("message_expiry_check", MessageExpiryCheck);
    ("message_nonsubscribed", MessageNonsubscribed);
    ("offline_message", OfflineMessage); ("offline_inflight_messages", OfflineInflightMessages);
    ("grpc_message_received", GrpcMessageReceived) ].

(** [From<&str>]; [None]: [unreachable!]. *)
Definition from (s : string) : option t :=
  snd <$> List.find (fun n => bool_decide (fst n = s)) names.
End Ty.

#[export] Instance Ty_eq_dec : EqDecision Ty.t.
Proof. solve_decision. Defined.

#[export] Program Instance Ty_countable : Countable Ty.t :=
  inj_countable (fun t => position (fun n => bool_decide (snd n = t)) Ty.names)
    (fun i => i ≫= fun i => snd <$> Ty.names !! i) _.
Next Obligation. by intros []. Qed.

(** ** The BTreeMap of a type's handlers *)

(** A [u32]: it is only compared. *)
Definition Priority : Set := Z.
Definition HandlerId : Set := string.
#[export] Typeclasses Transparent Priority HandlerId.

Abbreviation Key := (Priority * HandlerId)%type.

(** The order of pairs: priority first, then the id. *)
Definition key_compare (a b : Key) : comparison :=
  match fst a ?= fst b with
  | Eq => String.compare (snd a) (snd b)
  | c => c
  end.

Definition key_lt (a b : Key) : Prop := key_compare a b = Lt.

(** [BTreeMap::insert], on the sorted list of its entries. *)
Fixpoint bt_insert {A} (k : Key) (a : A) (l : list (Key * A)) : list (Key * A) :=
  match l with
  | [] => [(k, a)]
  | (k', a') :: l' =>
      match key_compare k k' with
      | Lt => (k, a) :: l
      | Eq => (k, a) :: l'
      | Gt => (k', a') :: bt_insert k a l'
      end
  end.

Definition bt_get {A} (k : Key) (l : list (Key * A)) : option A :=
  snd <$> List.find (fun e => bool_decide (fst e = k)) l.

(** [get_mut] and a change of the entry. *)
Definition bt_adjust {A} (k : Key) (f : A -> A) (l : list (Key * A)) : list (Key * A) :=
  map (fun e => if decide (fst e = k) then (fst e, f (snd e)) else e) l.

(** ** Connection acknowledgements *)

Inductive ConnectAckReason : Type :=
| V3ConnectionAccepted | V3BadUserNameOrPassword | V3NotAuthorized | V3Other (code : Z)
| V5Success | V5BadUserNameOrPassword | V5NotAuthorized | V5Other (code : Z).

Definition ack_success (r : ConnectAckReason) : bool :=
  match r with V3ConnectionAccepted | V5Success => true | _ => false end.

(** ** The registry *)

Section hooks.
(** The session, the reasons of its end, requests to unsubscribe, windows of
    unacknowledged messages, user properties and gRPC messages are data the
    registry only passes on. *)
Context {Session Reason Unsubscribe Inflight UserProperties GrpcType GrpcMessage GrpcReply : Type}.
(** A handler, and the state of the broker it works on. *)
Context {H S : Type}.

Inductive HookParameter : Type :=
| BeforeStartup
| SessionCreated (s : Session)
| SessionTerminated (s : Session) (r : Reason)
| SessionSubscribed (s : Session) (sub : Subscribe)
| SessionUnsubscribed (s : Session) (unsub : Unsubscribe)
| ClientConnect (ci : ConnectInfo)
| ClientConnack (ci : ConnectInfo) (code : ConnectAckReason)
| ClientAuthenticate (ci : ConnectInfo)
| ClientConnected (s : Session)
| ClientDisconnected (s : Session) (r : Reason)
| ClientSubscribe (s : Session) (sub : Subscribe)
| ClientUnsubscribe (s : Session) (unsub : Unsubscribe)
| ClientSubscribeCheckAcl (s : Session) (sub : Subscribe)
| ClientKeepalive (s : Session) (ping : bool)
| MessagePublishCheckAcl (s : Session) (p : Publish)
| MessagePublish (s : option Session) (from : MsgFrom) (p : Publish)
| MessageDelivered (s : Session) (from : MsgFrom) (p : Publish)
| MessageAcked (s : Session) (from : MsgFrom) (p : Publish)
| MessageDropped (to : option Id) (from : MsgFrom) (p : Publish) (r : Reason)
| MessageExpiryCheck (s : Session) (from : MsgFrom) (p : Publish)
| MessageNonsubscribed (from : MsgFrom)
| OfflineMessage (s : Session) (from : MsgFrom) (p : Publish)
| OfflineInflightMessages (s : Session) (msgs : list Inflight)
| GrpcMessageReceived (typ : GrpcType) (msg : GrpcMessage).

Definition get_type (p : HookParameter) : Ty.t :=
  match p with
  | BeforeStartup => Ty.BeforeStartup
  | SessionCreated _ => Ty.SessionCreated
  | SessionTerminated _ _ => Ty.SessionTerminated
  | SessionSubscribed _ _ => Ty.SessionSubscribed
  | SessionUnsubscribed _ _ => Ty.SessionUnsubscribed
  | ClientAuthenticate _ => Ty.ClientAuthenticate
  | ClientConnect _ => Ty.ClientConnect
  | ClientConnack _ _ => Ty.ClientConnack
  | ClientConnected _ => Ty.ClientConnected
  | ClientDisconnected _ _ => Ty.ClientDisconnected
  | ClientSubscribe _ _ => Ty.ClientSubscribe
  | ClientUnsubscribe _ _ => Ty.ClientUnsubscribe
  | ClientSubscribeCheckAcl _ _ => Ty.ClientSubscribeCheckAcl
  | ClientKeepalive _ _ => Ty.ClientKeepalive
  | MessagePublishCheckAcl _ _ => Ty.MessagePublishCheckAcl
  | MessagePublish _ _ _ => Ty.MessagePublish
  | MessageDelivered _ _ _ => Ty.MessageDelivered
  | MessageAcked _ _ _ => Ty.MessageAcked
  | MessageDropped _ _ _ _ => Ty.MessageDropped
  | MessageExpiryCheck _ _ _ => Ty.MessageExpiryCheck
  | MessageNonsubscribed _ => Ty.MessageNonsubscribed
  | OfflineMessage _ _ _ => Ty.OfflineMessage
  | OfflineInflightMessages _ _ => Ty.OfflineInflightMessages
  | GrpcMessageReceived _ _ => Ty.GrpcMessageReceived
  end.

(** [HookResult]; the three results of the access hooks are [Acl]'s. *)
Inductive HookResult : Type :=
| ResUserProperties (props : UserProperties)
| ResAccess (r : Acl.HookResult)
| ResConnectAckReason (code : ConnectAckReason)
| ResTopicFilter (tf : option TopicFilter)
| ResPublish (p : Publish)
| ResMessageExpiry
| ResGrpcMessageReply (r : result string GrpcReply).

Context (run_handler : H -> HookParameter -> option HookResult -> M S (bool * option HookResult)).

Record HookEntry : Type := mkEntry { handler : H; enabled : bool }.

Definition HookEntry_new (h : H) : HookEntry := mkEntry h false.

Definition set_enabled (b : bool) (e : HookEntry) : HookEntry := mkEntry (handler e) b.

Abbreviation Manager := (gmap Ty.t (list (Key * HookEntry))).

Definition hook_manager_new : Manager := ∅.

(** [DefaultHookManager::add]; [uuid] is the id drawn. *)
Definition hook_add (uuid : HandlerId) (typ : Ty.t) (priority : Priority) (h : H) (m : Manager)
    : result string HandlerId * Manager :=
  let type_handlers := default [] (m !! typ) in
  let key := (priority, uuid) in
  if isSome (bt_get key type_handlers) then (Err "handler id is repetition", <[typ := type_handlers]> m)
  else (Ok uuid, <[typ := bt_insert key (HookEntry_new h) type_handlers]> m).

(** The handlers of [exec] in the order of their calls. *)
Fixpoint exec_loop (entries : list HookEntry) (p : HookParameter) (acc : option HookResult)
    : M S (option HookResult) :=
  match entries with
  | [] => ret acc
  | e :: entries' =>
      if enabled e then
        let! (proceed, new_acc) := run_handler (handler e) p acc in
        if proceed : bool then exec_loop entries' p new_acc else ret new_acc
      else exec_loop entries' p acc
  end.

Definition exec (m : Manager) (t : Ty.t) (p : HookParameter) : M S (option HookResult) :=
  match m !! t with
  | Some type_handlers => exec_loop (map snd (rev type_handlers)) p None
  | None => ret None
  end.

(** [DefaultHookRegister]: the keys it has added. *)
Abbreviation Register := (gset (Ty.t * Key)).

Definition hook_register_new : Register := ∅.

Definition add_priority (uuid : HandlerId) (typ : Ty.t) (priority : Priority) (h : H)
    (s : Manager * Register) : Manager * Register :=
  let '(m, type_ids) := s in
  match hook_add uuid typ priority h m with
  | (Ok id, m') => (m', {[(typ, (priority, id))]} ∪ type_ids)
  | (Err _, m') => (m', type_ids)
  end.

(** [Register::add]: the default priority. *)
Definition register_add (uuid : HandlerId) (typ : Ty.t) (h : H) : Manager * Register -> Manager * Register :=
  add_priority uuid typ 0 h.

Definition adjust_one (b : bool) (type_id : Ty.t * Key) (m : Manager) : Manager :=
  let '(typ, key) := type_id in
  match m !! typ with
  | Some type_handlers => <[typ := bt_adjust key (set_enabled b) type_handlers]> m
  | None => m
  end.

Definition adjust_status (b : bool) (type_ids : Register) (m : Manager) : Manager :=
  foldr (adjust_one b) m (elements type_ids).

Definition register_start (s : Manager * Register) : Manager * Register := (adjust_status true (snd s) (fst s), snd s).
Definition register_stop (s : Manager * Register) : Manager * Register := (adjust_status false (snd s) (fst s), snd s).

(** ** The questions of the session: [DefaultHookManager], [DefaultHook] *)

(** [ConnectInfo::proto_ver], from the codec's packet. *)
Context (proto_ver : ConnectInfo -> Z).
(** What the hooks read of a session, and of a packet besides [Publish]:
    [superuser().await.unwrap_or_default()], the listener's expiry interval in
    milliseconds, the packet's own in seconds, its creation. *)
Context (session_superuser : Session -> bool).
Context (listen_expiry : Session -> Z).
Context (message_expiry_interval : Publish -> option Z).
Context (create_time : Publish -> option Z).

Definition MQTT_LEVEL_5 : Z := 5.

(** The code of the client's protocol version. *)
Definition by_version (ci : ConnectInfo) (v3 v5 : ConnectAckReason) : ConnectAckReason :=
  if proto_ver ci =? MQTT_LEVEL_5 then v5 else v3.

Definition ack_ok (ci : ConnectInfo) : ConnectAckReason := by_version ci V3ConnectionAccepted V5Success.
Definition ack_bad (ci : ConnectInfo) : ConnectAckReason :=
  by_version ci V3BadUserNameOrPassword V5BadUserNameOrPassword.
Definition ack_refused (ci : ConnectInfo) : ConnectAckReason := by_version ci V3NotAuthorized V5NotAuthorized.

Definition client_authenticate (m : Manager) (ci : ConnectInfo) (allow_anonymous : bool)
    : M S (ConnectAckReason * bool * option AuthInfo) :=
  if is_none (conn_username ci) && allow_anonymous then ret (ack_ok ci, false, None)
  else
    let! result := exec m Ty.ClientAuthenticate (ClientAuthenticate ci) in
    match result with
    | Some (ResAccess (HookAuthResult BadUsernameOrPassword)) => ret (ack_bad ci, false, None)
    | Some (ResAccess (HookAuthResult AuthNotAuthorized)) => ret (ack_refused ci, false, None)
    | Some (ResAccess (HookAuthResult (AuthAllow superuser auth_info))) =>
        ret (ack_ok ci, superuser, auth_info)
    | _ => ret (if allow_anonymous then ack_ok ci else ack_refused ci, false, None)
    end.

Definition client_connect (m : Manager) (ci : ConnectInfo) : M S (option UserProperties) :=
  let! result := exec m Ty.ClientConnect (ClientConnect ci) in
  ret (match result with Some (ResUserProperties props) => Some props | _ => None end).

Definition client_connack (m : Manager) (ci : ConnectInfo) (return_code : ConnectAckReason)
    : M S ConnectAckReason :=
  let! result := exec m Ty.ClientConnack (ClientConnack ci return_code) in
  ret (match result with Some (ResConnectAckReason code) => code | _ => return_code end).

Definition publish_result (r : option HookResult) : option Publish :=
  match r with Some (ResPublish p) => Some p | _ => None end.

Definition message_publish (m : Manager) (s : option Session) (from : MsgFrom) (p : Publish)
    : M S (option Publish) :=
  let! result := exec m Ty.MessagePublish (MessagePublish s from p) in ret (publish_result result).

Definition message_delivered (m : Manager) (s : Session) (from : MsgFrom) (p : Publish)
    : M S (option Publish) :=
  let! result := exec m Ty.MessageDelivered (MessageDelivered s from p) in ret (publish_result result).

Definition grpc_message_received (m : Manager) (success : GrpcReply) (typ : GrpcType) (msg : GrpcMessage)
    : M S (result string GrpcReply) :=
  let! result := exec m Ty.GrpcMessageReceived (GrpcMessageReceived typ msg) in
  ret (match result with Some (ResGrpcMessageReply reply) => reply | _ => Ok success end).

Definition filter_result (r : option HookResult) : option TopicFilter :=
  match r with Some (ResTopicFilter (Some tf)) => Some tf | _ => None end.

Definition client_subscribe (m : Manager) (s : Session) (sub : Subscribe) : M S (option TopicFilter) :=
  let! reply := exec m Ty.ClientSubscribe (ClientSubscribe s sub) in ret (filter_result reply).

Definition client_unsubscribe (m : Manager) (s : Session) (unsub : Unsubscribe) : M S (option TopicFilter) :=
  let! reply := exec m Ty.ClientUnsubscribe (ClientUnsubscribe s unsub) in ret (filter_result reply).

(** The events whose result nobody reads. *)
Definition notify (m : Manager) (p : HookParameter) : M S unit :=
  let! _ := exec m (get_type p) p in ret tt.

Definition client_subscribe_check_acl (m : Manager) (s : Session) (sub : Subscribe)
    : M S (option SubscribeReturn) :=
  if session_superuser s then ret (Some (new_success (qos (opts sub)) None))
  else
    let! reply := exec m Ty.ClientSubscribeCheckAcl (ClientSubscribeCheckAcl s sub) in
    ret (match reply with Some (ResAccess (HookSubscribeAclResult r)) => Some r | _ => None end).

Definition message_publish_check_acl (m : Manager) (s : Session) (p : Publish) : M S PublishResult :=
  if session_superuser s then ret publish_acl_allow
  else
    let! result := exec m Ty.MessagePublishCheckAcl (MessagePublishCheckAcl s p) in
    ret (match result with
         | Some (ResAccess (HookPublishAclResult acl_result)) => acl_result
         | _ => publish_acl_allow
         end).

(** [NonZeroU32::new(x as u32)]. *)
Definition non_zero_u32 (x : Z) : option Z :=
  let n := x mod 2 ^ 32 in if n =? 0 then None else Some n.

(** [now], [now']: the readings of the clock, the second one only for a packet
    without a creation time. [/] on [i64] rounds towards zero. *)
Definition message_expiry_check (m : Manager) (now now' : Z) (s : Session) (from : MsgFrom) (p : Publish)
    : M S MessageExpiryCheckResult :=
  let! result := exec m Ty.MessageExpiryCheck (MessageExpiryCheck s from p) in
  ret (match result with
       | Some ResMessageExpiry => Expiry
       | _ =>
           let expiry_interval :=
             match message_expiry_interval p with Some i => i * 1000 | None => listen_expiry s end in
           if expiry_interval =? 0 then Remaining None
           else
             let remaining := now - default now' (create_time p) in
             if remaining <? expiry_interval
             then Remaining (non_zero_u32 (Z.quot (expiry_interval - remaining) 1000))
             else Expiry
       end).

(** ** Lemmas: the sorted list *)

Lemma key_compare_eq a b : key_compare a b = Eq <-> a = b.
Proof.
  unfold key_compare. destruct a as [pa ia], b as [pb ib]. cbn.
  destruct (Z.compare_spec pa pb) as [->|Hlt|Hgt].
  - split; [by intros ->%String.compare_eq_iff|intros [= ->]].
    pose proof (String.compare_antisym ib ib) as E. by destruct (String.compare ib ib).
  - split; [done|]. intros [= -> _]. lia.
  - split; [done|]. intros [= -> _]. lia.
Qed.

Lemma string_lt_trans a b c : String.compare a b = Lt -> String.compare b c = Lt -> String.compare a c = Lt.
Proof.
  pose proof (StrictOrder_Transitive (R := String_as_OT.lt) a b c) as H1. exact H1.
Qed.

Lemma key_lt_trans a b c : key_lt a b -> key_lt b c -> key_lt a c.
Proof.
  unfold key_lt, key_compare. destruct a as [pa ia], b as [pb ib], c as [pc ic]. cbn.
  destruct (Z.compare_spec pa pb) as [->|Hlt|Hgt]; try done.
  - destruct (Z.compare_spec pb pc) as [->|?|?]; try done. apply string_lt_trans.
  - intros _. destruct (Z.compare_spec pb pc) as [->|?|?]; try done; intros _;
      by rewrite (proj2 (Z.compare_lt_iff _ _)) by lia.
Qed.

Lemma key_compare_antisym a b : key_compare b a = CompOpp (key_compare a b).
Proof.
  unfold key_compare. rewrite (Z.compare_antisym (fst a) (fst b)).
  destruct (fst a ?= fst b); cbn; [apply String.compare_antisym|done|done].
Qed.

Definition bt_sorted {A} (l : list (Key * A)) : Prop := StronglySorted key_lt l.*1.

Lemma bt_insert_keys {A} k (a : A) l x : x ∈ (bt_insert k a l).*1 <-> x = k \/ x ∈ l.*1.
Proof.
  induction l as [|[k' a'] l IH]; cbn; [set_solver|].
  destruct (key_compare k k') eqn:E; cbn.
  - apply key_compare_eq in E as ->. set_solver.
  - set_solver.
  - rewrite !elem_of_cons, IH. naive_solver.
Qed.

Lemma bt_insert_sorted {A} k (a : A) l : bt_sorted l -> bt_sorted (bt_insert k a l).
Proof.
  unfold bt_sorted. induction l as [|[k' a'] l IH]; cbn; intros Hs; [by repeat constructor|].
  apply StronglySorted_inv in Hs as [Hs Hall]. destruct (key_compare k k') eqn:E; cbn.
  - apply key_compare_eq in E as ->. by constructor.
  - constructor; [by constructor|]. constructor; [done|].
    eapply Forall_impl; [exact Hall|]. intros x. by apply key_lt_trans.
  - constructor; [by apply IH|]. apply Forall_forall. intros x [->|Hx]%bt_insert_keys.
    + unfold key_lt. by rewrite key_compare_antisym, E.
    + rewrite Forall_forall in Hall. by apply Hall.
Qed.

Lemma bt_get_insert {A} k (a : A) l : bt_get k (bt_insert k a l) = Some a.
Proof.
  unfold bt_get. induction l as [|[k' a'] l IH]; cbn; [by rewrite bool_decide_true|].
  destruct (key_compare k k') eqn:E; cbn; [by rewrite bool_decide_true..|].
  rewrite bool_decide_false; [done|]. intros ->. pose proof (proj2 (key_compare_eq k k) eq_refl). congruence.
Qed.

Lemma bt_get_insert_ne {A} k k' (a : A) l : k <> k' -> bt_get k' (bt_insert k a l) = bt_get k' l.
Proof.
  intros Hne. unfold bt_get. induction l as [|[j b] l IH]; cbn; [by rewrite bool_decide_false|].
  destruct (key_compare k j) eqn:E; cbn.
  - apply key_compare_eq in E as ->. by rewrite !bool_decide_false.
  - by rewrite (bool_decide_false (k = k')).
  - case_bool_decide; [done|]. apply IH.
Qed.

Lemma bt_get_adjust {A} k k' (f : A -> A) l :
  bt_get k' (bt_adjust k f l) = if decide (k = k') then f <$> bt_get k' l else bt_get k' l.
Proof.
  unfold bt_get, bt_adjust. induction l as [|[j b] l IH]; cbn; [by case_decide|].
  destruct (decide (j = k)) as [->|Hj]; cbn.
  - destruct (decide (k = k')) as [->|Hk]; [by rewrite bool_decide_true|]. by rewrite bool_decide_false.
  - case_bool_decide as Hk'; [|exact IH]. subst. by rewrite decide_False.
Qed.

Lemma bt_adjust_keys {A} k (f : A -> A) l : (bt_adjust k f l).*1 = l.*1.
Proof.
  unfold bt_adjust. rewrite <- list_fmap_compose. apply list_fmap_ext. intros i e _. cbn. by case_decide.
Qed.

(** A sorted list has one entry for each key. *)
Lemma key_lt_irrefl k : ~ key_lt k k.
Proof. unfold key_lt. by rewrite (proj2 (key_compare_eq k k) eq_refl). Qed.

(** ** Lemmas: the registry *)

Definition entry (m : Manager) (t : Ty.t) (k : Key) : option HookEntry := bt_get k (default [] (m !! t)).

Definition registry_ok (m : Manager) : Prop := map_Forall (fun _ l => bt_sorted l) m.

Lemma adjust_one_lookup b t k m t' :
  adjust_one b (t, k) m !! t' = if decide (t = t') then bt_adjust k (set_enabled b) <$> m !! t' else m !! t'.
Proof.
  unfold adjust_one. destruct (decide (t = t')) as [->|Hne].
  - destruct (m !! t') eqn:E; [by rewrite lookup_insert_eq | by rewrite E].
  - destruct (m !! t) eqn:E; [by rewrite lookup_insert_ne | done].
Qed.

Lemma adjust_one_entry b tk m t k :
  entry (adjust_one b tk m) t k = if decide (tk = (t, k)) then set_enabled b <$> entry m t k else entry m t k.
Proof.
  destruct tk as [t' k']. unfold entry. rewrite adjust_one_lookup.
  destruct (decide (t' = t)) as [->|Hne]; [|rewrite decide_False by congruence; done].
  destruct (m !! t); cbn [fmap option_fmap option_map default id].
  - rewrite bt_get_adjust. destruct (decide (k' = k)) as [->|Hk]; [by rewrite decide_True | rewrite decide_False; congruence].
  - by case_decide.
Qed.

Lemma set_enabled_twice b b' e : set_enabled b (set_enabled b' e) = set_enabled b e.
Proof. done. Qed.

(** Starting or stopping a register switches its own handlers and no other,
    in whatever order the set is visited. *)
Lemma adjust_status_entry b ids m t k :
  entry (adjust_status b ids m) t k = if decide ((t, k) ∈ ids) then set_enabled b <$> entry m t k else entry m t k.
Proof.
  unfold adjust_status. assert (forall l : list (Ty.t * Key), entry (foldr (adjust_one b) m l) t k
    = if decide ((t, k) ∈ l) then set_enabled b <$> entry m t k else entry m t k) as ->.
  - induction l as [|tk l IH]; [by rewrite decide_False by apply not_elem_of_nil|]. cbn [foldr].
    rewrite adjust_one_entry, IH. destruct (decide (tk = (t, k))) as [->|Hne].
    + rewrite (decide_True (P := (t, k) ∈ (t, k) :: l)) by left. case_decide; [|done]. by destruct (entry m t k).
    + destruct (decide ((t, k) ∈ l)) as [Hin|Hin].
      * rewrite decide_True by (by right). done.
      * rewrite decide_False; [done|]. rewrite elem_of_cons. naive_solver.
  - destruct (decide ((t, k) ∈ ids)) as [Hin|Hin].
    + by rewrite decide_True by (by apply elem_of_elements).
    + by rewrite decide_False by (by rewrite elem_of_elements).
Qed.

Lemma adjust_status_keys b ids m t :
  fmap (M := list) fst <$> adjust_status b ids m !! t = fmap (M := list) fst <$> m !! t.
Proof.
  unfold adjust_status. induction (elements ids) as [|[t' k'] l IH]; [done|]. cbn [foldr].
  rewrite adjust_one_lookup. case_decide; [|exact IH]. rewrite <- IH.
  destruct (foldr _ m l !! t) as [x|]; [|done]. cbn. by rewrite bt_adjust_keys.
Qed.

Lemma adjust_status_ok b ids m : registry_ok m -> registry_ok (adjust_status b ids m).
Proof.
  intros Hm t l Hl. pose proof (adjust_status_keys b ids m t) as Hk. rewrite Hl in Hk.
  destruct (m !! t) as [l0|] eqn:E; [|done]. injection Hk as Hk. unfold bt_sorted. rewrite Hk. by apply (Hm t).
Qed.

Lemma hook_add_ok uuid t prio h m : registry_ok m -> registry_ok (snd (hook_add uuid t prio h m)).
Proof.
  intros Hm. assert (bt_sorted (default [] (m !! t))) as Hd.
  { destruct (m !! t) eqn:E; [by apply (Hm t) | constructor]. }
  unfold hook_add. destruct (isSome _); cbn; apply map_Forall_insert_2; auto using bt_insert_sorted.
Qed.

(** ** Lemmas: the calls *)

Fixpoint call_all (hs : list H) (p : HookParameter) (acc : option HookResult) : M S (option HookResult) :=
  match hs with
  | [] => ret acc
  | h :: hs' =>
      let! (proceed, new_acc) := run_handler h p acc in
      if proceed : bool then call_all hs' p new_acc else ret new_acc
  end.

(** The handlers of a type that are switched on, highest priority first. *)
Definition active (m : Manager) (t : Ty.t) : list (Key * H) :=
  map (fun e => (fst e, handler (snd e)))
    (List.filter (fun e => enabled (snd e)) (rev (default [] (m !! t)))).

Lemma exec_active m t p b : exec m t p b = call_all (map snd (active m t)) p None b.
Proof.
  unfold exec, active. destruct (m !! t) as [l|]; [|done]. cbn [default id].
  generalize (@None HookResult) as acc. revert b. induction (rev l) as [|[k e] es IH]; intros b acc; [done|].
  cbn. destruct (enabled e); cbn; [|apply IH]. unfold bind. destruct (run_handler _ _ _ _) as [[[] r] b']; [apply IH | done].
Qed.

Lemma active_spec m t k h :
  (k, h) ∈ active m t <-> exists e, (k, e) ∈ default [] (m !! t) /\ handler e = h /\ enabled e = true.
Proof.
  unfold active. rewrite list_elem_of_In, in_map_iff. split.
  - intros ([k' e] & [= <- <-] & [Hin He]%filter_In). exists e. rewrite <- in_rev in Hin.
    by rewrite list_elem_of_In.
  - intros (e & Hin%list_elem_of_In & <- & He). exists (k, e). split; [done|]. apply filter_In.
    by rewrite <- in_rev.
Qed.

Lemma ss_snoc {A} (R : A -> A -> Prop) l x : StronglySorted R l -> Forall (fun y => R y x) l -> StronglySorted R (l ++ [x]).
Proof.
  induction 1 as [|y l Hs IH Hy]; intros Hall; cbn; [by repeat constructor|].
  apply Forall_cons in Hall as [Hx Hall]. constructor; [by apply IH|]. apply Forall_app. split; [done | by constructor].
Qed.

Lemma active_sorted m t : registry_ok m -> StronglySorted (flip key_lt) (active m t).*1.
Proof.
  intros Hm. unfold active. set (l := default [] (m !! t)).
  assert (bt_sorted l) as Hs. { unfold l. destruct (m !! t) eqn:E; [by apply (Hm t) | constructor]. }
  assert (StronglySorted (flip key_lt) (rev l).*1) as Hr.
  { unfold bt_sorted in Hs. induction l as [|[k e] l IH]; [constructor|]. cbn [rev]. cbn in Hs.
    apply StronglySorted_inv in Hs as [Hs Hall]. rewrite fmap_app. apply ss_snoc; [by apply IH|].
    apply Forall_fmap, Forall_forall. intros x Hx%list_elem_of_In%in_rev. rewrite Forall_forall in Hall.
    apply Hall, list_elem_of_fmap. exists x. split; [done | by apply list_elem_of_In]. }
  clear -Hr. induction (rev l) as [|[k e] es IH]; [constructor|]. cbn in *.
  apply StronglySorted_inv in Hr as [Hs Hall]. destruct (enabled e); cbn; [|by apply IH].
  constructor; [by apply IH|]. apply Forall_forall. intros k' Hk'. rewrite Forall_forall in Hall. apply Hall.
  apply list_elem_of_fmap in Hk' as (x & -> & Hx%list_elem_of_In).
  apply in_map_iff in Hx as (y & <- & [Hy _]%filter_In). apply list_elem_of_fmap. exists y.
  split; [done | by apply list_elem_of_In].
Qed.

Lemma bt_get_elem {A} k (a : A) l : bt_sorted l -> bt_get k l = Some a <-> (k, a) ∈ l.
Proof.
  unfold bt_sorted, bt_get. induction l as [|[j b] l IH]; cbn; intros Hs; [set_solver|].
  apply StronglySorted_inv in Hs as [Hs Hall]. rewrite elem_of_cons. case_bool_decide as Hj; cbn.
  - subst j. split; [intros [= ->]; by left|]. intros [[= ->]|Hin]; [done|]. exfalso.
    apply (key_lt_irrefl k). rewrite Forall_forall in Hall. apply Hall, list_elem_of_fmap. by exists (k, a).
  - rewrite IH by done. naive_solver.
Qed.

(** ** Theorems on the registry *)

(** An event reaches exactly the handlers of its type that are switched on, in
    the order of their priorities, highest first, until one of them does not
    proceed. *)
Theorem handlers_called m t p b :
  registry_ok m ->
  exec m t p b = call_all (map snd (active m t)) p None b
  /\ StronglySorted (flip key_lt) (active m t).*1
  /\ forall k h, (k, h) ∈ active m t <-> entry m t k = Some (mkEntry h true).
Proof.
  intros Hm. split; [apply exec_active|]. split; [by apply active_sorted|]. intros k h.
  assert (bt_sorted (default [] (m !! t))) as Hs by (destruct (m !! t) eqn:E; [by apply (Hm t) | constructor]).
  rewrite active_spec. unfold entry. setoid_rewrite <- bt_get_elem; [|done]. split.
  - by intros ([h' e'] & -> & [= ->] & [= ->]).
  - intros He. by exists (mkEntry h true).
Qed.

(** Registering adds one handler, switched off, and never replaces one: a key
    that is taken is an error and changes nothing. *)
Theorem hook_add_spec uuid t prio h m t' k :
  match hook_add uuid t prio h m with
  | (Ok id, m') =>
      id = uuid /\ entry m t (prio, uuid) = None
      /\ entry m' t' k = if decide ((t, (prio, uuid)) = (t', k)) then Some (mkEntry h false) else entry m t' k
  | (Err _, m') => is_Some (entry m t (prio, uuid)) /\ entry m' t' k = entry m t' k
  end.
Proof.
  unfold hook_add, entry. destruct (bt_get (prio, uuid) (default [] (m !! t))) as [e|] eqn:E; cbn.
  - split; [by eexists|]. destruct (decide (t = t')) as [->|Hne]; [by rewrite lookup_insert_eq | by rewrite lookup_insert_ne].
  - split; [done|]. split; [done|]. destruct (decide (t = t')) as [->|Hne].
    + rewrite lookup_insert_eq. cbn. destruct (decide ((prio, uuid) = k)) as [<-|Hk].
      * rewrite decide_True by done. apply bt_get_insert.
      * rewrite decide_False by congruence. by apply bt_get_insert_ne.
    + rewrite lookup_insert_ne, decide_False by congruence. done.
Qed.

(** A message expires when its age reaches its interval; below that it is
    delivered with the whole seconds that are left, and with no expiry at all
    in its last second. *)
Theorem expiry_check_spec m now now' s from p b :
  m !! Ty.MessageExpiryCheck = None ->
  let interval := match message_expiry_interval p with Some i => i * 1000 | None => listen_expiry s end in
  let age := now - default now' (create_time p) in
  0 < interval < 2 ^ 32 * 1000 -> 0 <= age ->
  fst (message_expiry_check m now now' s from p b)
  = if interval <=? age then Expiry
    else Remaining (if interval - age <? 1000 then None else Some ((interval - age) / 1000)).
Proof.
  intros Hm interval age Hi Ha. unfold message_expiry_check, exec. rewrite Hm. cbn [bind ret fst].
  unfold bind, ret. cbn [fst]. fold interval. rewrite (proj2 (Z.eqb_neq interval 0)) by lia. fold age.
  destruct (Z.leb_spec interval age); [by rewrite (proj2 (Z.ltb_ge age interval)) by lia|].
  rewrite (proj2 (Z.ltb_lt age interval)) by lia. f_equal. unfold non_zero_u32.
  rewrite Z.quot_div_nonneg by lia.
  assert (0 <= (interval - age) / 1000 < 2 ^ 32) as Hq by (split; [apply Z.div_pos; lia | apply Z.div_lt_upper_bound; lia]).
  rewrite Z.mod_small by done. destruct (Z.ltb_spec (interval - age) 1000).
  - by rewrite Z.div_small by lia.
  - rewrite (proj2 (Z.eqb_neq _ 0)); [done|]. pose proof (Z.div_le_lower_bound (interval - age) 1000 1). lia.
Qed.

(** ** Plugins *)

(** What plugins do to the registry: each has its own register. *)
Inductive PluginOp : Type :=
| PluginAdd (plugin : nat) (uuid : HandlerId) (typ : Ty.t) (priority : Priority) (h : H)
| PluginStart (plugin : nat)
| PluginStop (plugin : nat).

Record Registry : Type := mkRegistry { manager : Manager; registers : gmap nat Register }.

Definition on_register (plugin : nat) (f : Manager * Register -> Manager * Register) (s : Registry) : Registry :=
  let '(m, ids) := f (manager s, default hook_register_new (registers s !! plugin)) in
  mkRegistry m (<[plugin := ids]> (registers s)).

Definition plugin_op (o : PluginOp) : Registry -> Registry :=
  match o with
  | PluginAdd plugin uuid typ priority h => on_register plugin (add_priority uuid typ priority h)
  | PluginStart plugin => on_register plugin register_start
  | PluginStop plugin => on_register plugin register_stop
  end.

(** The operation is on none of the types [ts]. *)
Definition avoids (ts : list Ty.t) (o : PluginOp) : Prop :=
  match o with PluginAdd _ _ typ _ _ => typ ∉ ts | _ => True end.

Definition untouched (ts : list Ty.t) (m0 : Manager) (s : Registry) : Prop :=
  (forall t, t ∈ ts -> manager s !! t = m0 !! t)
  /\ map_Forall (fun _ ids => forall t k, (t, k) ∈ ids -> t ∉ ts) (registers s).

Lemma adjust_status_other b ids m t : (forall k, (t, k) ∉ ids) -> adjust_status b ids m !! t = m !! t.
Proof.
  intros Hids. unfold adjust_status. assert (forall k, (t, k) ∉ elements ids) as Hl by (intros k; rewrite elem_of_elements; auto).
  induction (elements ids) as [|[t' k'] l IH]; [done|]. cbn [foldr]. rewrite adjust_one_lookup, decide_False.
  - apply IH. intros k. specialize (Hl k). set_solver.
  - intros ->. apply (Hl k'). by left.
Qed.

Lemma plugin_op_untouched ts m0 o s : avoids ts o -> untouched ts m0 s -> untouched ts m0 (plugin_op o s).
Proof.
  intros Ho [Hm Hr].
  assert (forall plugin t k, (t, k) ∈ default hook_register_new (registers s !! plugin) -> t ∉ ts) as Hreg.
  { intros plugin t k. destruct (registers s !! plugin) as [ids|] eqn:E; [apply (Hr plugin ids E) | set_solver]. }
  assert (forall b plugin t, t ∈ ts ->
    adjust_status b (default hook_register_new (registers s !! plugin)) (manager s) !! t = m0 !! t) as Hadj.
  { intros b plugin t Ht. rewrite adjust_status_other; [by apply Hm|]. intros k Hk. by apply (Hreg _ _ _ Hk). }
  destruct o as [plugin uuid typ prio h|plugin|plugin]; cbn [plugin_op].
  - unfold on_register, add_priority, hook_add. cbn in Ho. destruct (isSome _); cbn;
      (split; cbn [manager registers]; [|apply map_Forall_insert_2; [|done]]).
    + intros t Ht. rewrite lookup_insert_ne by (by intros ->). by apply Hm.
    + apply Hreg.
    + intros t Ht. rewrite lookup_insert_ne by (by intros ->). by apply Hm.
    + intros t k [[= -> ->]%elem_of_singleton|Hk]%elem_of_union; [done | by eapply Hreg].
  - split; cbn; [by apply Hadj | apply map_Forall_insert_2; [apply Hreg | done]].
  - split; cbn; [by apply Hadj | apply map_Forall_insert_2; [apply Hreg | done]].
Qed.

Lemma plugin_ops_untouched ts m0 ops s :
  Forall (avoids ts) ops -> untouched ts m0 s -> untouched ts m0 (fold_left (fun s o => plugin_op o s) ops s).
Proof.
  intros Hops. revert s. induction Hops as [|o ops Ho _ IH]; intros s Hs; [done|]. by apply IH, plugin_op_untouched.
Qed.

End hooks.

(** ** The checks always answer *)

Lemma subscribe_acl_answers a s r : subscribe_acl a s = Some r -> exists x, r = (false, Some (HookSubscribeAclResult x)).
Proof.
  unfold subscribe_acl. destruct (Acl.superuser a); [intros [= <-]; by eexists|].
  induction (rules a) as [|x rs IH]; [done|]. cbn. destruct (negb _); [done|].
  destruct (permission x); intros [= <-]; by eexists.
Qed.

Lemma publish_acl_answers a p b r : publish_acl a p b = Some r -> exists x, r = (false, Some (HookPublishAclResult x)).
Proof.
  unfold publish_acl. destruct (Acl.superuser a); [intros [= <-]; by eexists|].
  induction (rules a) as [|x rs IH]; [done|]. cbn. destruct (permission x).
  - destruct (publish_allow_hit x p); [intros [= <-]; by eexists | done].
  - destruct (publish_deny_hit x p); [intros [= <-]; by eexists | done].
Qed.

Lemma subscribe_check_answers cfg info s :
  exists r, subscribe_check cfg info s = (false, Some (HookSubscribeAclResult r)).
Proof.
  unfold subscribe_check. destruct (negb _); [by eexists|].
  destruct (info ≫= _) as [r|] eqn:E; [|by eexists].
  destruct info as [a|]; [|done]. by apply (subscribe_acl_answers a s).
Qed.

Lemma publish_check_answers cfg info p :
  exists r, publish_check cfg info p = (false, Some (HookPublishAclResult r)).
Proof.
  unfold publish_check. destruct (negb _); [by eexists|].
  destruct (info ≫= _) as [r|] eqn:E; [|by eexists].
  destruct info as [a|]; [|done]. by apply (publish_acl_answers a p true).
Qed.

(** ** The application's handlers *)

Section application.
Context {T : Type} `{KvTable T string Bytes}.
Context (bincode_decode : Bytes -> result string UserRecord).
Context {Phc : Type}.
Context (phc_parse : string -> option Phc) (argon2_verify : Phc -> Bytes -> bool).
Context (hmac_sha256 : Bytes -> Bytes -> Bytes) (sha256 : Bytes -> Bytes).
Context {J : Type}.
Context (from_utf8 : string -> option string).
Context (cfg : Settings) (w : World).
Context {Session Reason Unsubscribe Inflight UserProperties GrpcType GrpcMessage GrpcReply PluginHandler : Type}.

Local Abbreviation Broker := (Api.Broker T J).
Local Abbreviation Param := (@HookParameter Session Reason Unsubscribe Inflight GrpcType GrpcMessage).
Local Abbreviation Result := (@HookResult UserProperties GrpcReply).
Local Abbreviation authenticate :=
  (Api.authenticate bincode_decode phc_parse argon2_verify hmac_sha256 sha256 from_utf8 cfg w).

Context (run_plugin : PluginHandler -> Param -> option Result -> M Broker (bool * option Result)).
Context (proto_ver : ConnectInfo -> Z).
(** The flag and the rules a session was made with. *)
Context (session_superuser : Session -> bool) (auth_info : Session -> option AuthInfo).

Inductive AppHandler : Type := MqttAuth | DropLogger | Plugin (h : PluginHandler).

(** What [Api.hook] is asked; nothing for an event it does not look at. *)
Definition api_parameter (p : Param) : option Parameter_ :=
  match p with
  | ClientAuthenticate ci => Some (Api.ClientAuthenticate ci)
  | ClientSubscribeCheckAcl s sub => Some (Api.ClientSubscribeCheckAcl (auth_info s) sub)
  | MessagePublishCheckAcl s p => Some (Api.MessagePublishCheckAcl (auth_info s) p)
  | _ => None
  end.

Definition run_app (h : AppHandler) (p : Param) (acc : option Result) : M Broker (bool * option Result) :=
  match h with
  | MqttAuth =>
      match api_parameter p with
      | Some q =>
          let! (proceed, r) :=
            hook bincode_decode phc_parse argon2_verify hmac_sha256 sha256 from_utf8 cfg w q None in
          ret (proceed, ResAccess <$> r)
      | None => ret (true, acc)
      end
  | DropLogger => ret (true, acc)
  | Plugin h => run_plugin h p acc
  end.

Abbreviation AppManager := (gmap Ty.t (list (Key * @HookEntry AppHandler))).

(** [register_auth_hooks]; the ids are drawn in order. *)
Definition register_auth_hooks (u1 u2 u3 u4 : HandlerId) (m : AppManager)
    : AppManager * gset (Ty.t * Key) :=
  let s := (m, hook_register_new) in
  let s := register_add u1 Ty.ClientAuthenticate MqttAuth s in
  let s := register_add u2 Ty.ClientSubscribeCheckAcl MqttAuth s in
  let s := register_add u3 Ty.MessagePublishCheckAcl MqttAuth s in
  let s := register_add u4 Ty.MessageDropped DropLogger s in
  register_start s.

(** The types whose answer the application decides. *)
Definition auth_types : list Ty.t :=
  [Ty.ClientAuthenticate; Ty.ClientSubscribeCheckAcl; Ty.MessagePublishCheckAcl].

(** The key [add] registers a handler under: priority 0. *)
Local Abbreviation add_key u := (@pair Priority HandlerId 0 u).

Lemma register_add_free u t h (m : AppManager) ids :
  m !! t = None ->
  register_add u t h (m, ids) = (<[t := [(add_key u, mkEntry h false)]]> m, {[(t, add_key u)]} ∪ ids).
Proof. intros Hm. unfold register_add, add_priority, hook_add. by rewrite Hm. Qed.

Lemma singleton_entry (m : AppManager) t k e :
  fmap (M := list) fst <$> m !! t = Some [k] -> entry m t k = Some e -> m !! t = Some [(k, e)].
Proof.
  unfold entry, bt_get. destruct (m !! t) as [l|]; [|done]. cbn. intros [= Hk].
  destruct l as [|[k' e'] [|]]; try done. cbn in Hk. injection Hk as ->. cbn.
  rewrite bool_decide_true by done. by intros [= ->].
Qed.

Lemma registered u1 u2 u3 u4 (m : AppManager) t :
  (forall t, t ∈ auth_types -> m !! t = None) -> m !! Ty.MessageDropped = None -> t ∈ auth_types ->
  exists u, fst (register_auth_hooks u1 u2 u3 u4 m) !! t = Some [(add_key u, mkEntry MqttAuth true)].
Proof. clear phc_parse from_utf8.
  intros Hm Hd Ht. unfold register_auth_hooks, register_start.
  rewrite register_add_free by (apply Hm; set_solver).
  rewrite register_add_free by (rewrite lookup_insert_ne by done; apply Hm; set_solver).
  rewrite register_add_free by (rewrite !lookup_insert_ne by done; apply Hm; set_solver).
  rewrite register_add_free by (by rewrite !lookup_insert_ne).
  cbn [fst snd].
  assert (exists u, t <> Ty.MessageDropped /\ (<[Ty.MessageDropped:=[(add_key u4, mkEntry DropLogger false)]]>
     (<[Ty.MessagePublishCheckAcl:=[(add_key u3, mkEntry MqttAuth false)]]>
        (<[Ty.ClientSubscribeCheckAcl:=[(add_key u2, mkEntry MqttAuth false)]]>
           (<[Ty.ClientAuthenticate:=[(add_key u1, mkEntry MqttAuth false)]]> m)))) !! t
     = Some [(add_key u, mkEntry MqttAuth false)]
     /\ ((t, add_key u) = (Ty.ClientAuthenticate, add_key u1) \/ (t, add_key u) = (Ty.ClientSubscribeCheckAcl, add_key u2)
         \/ (t, add_key u) = (Ty.MessagePublishCheckAcl, add_key u3))) as (u & _ & Hl & Hin).
  { unfold auth_types in Ht. rewrite !elem_of_cons in Ht. destruct Ht as [->|[->|[->|Ht]]]; [| | |set_solver].
    - exists u1. split; [done|]. rewrite !lookup_insert_ne, lookup_insert_eq by done. eauto.
    - exists u2. split; [done|]. rewrite !lookup_insert_ne, lookup_insert_eq by done. eauto.
    - exists u3. split; [done|]. rewrite !lookup_insert_ne, lookup_insert_eq by done. eauto. }
  exists u. apply singleton_entry; [by rewrite adjust_status_keys, Hl|].
  rewrite adjust_status_entry, decide_True by set_solver. unfold entry. rewrite Hl. cbn.
  unfold bt_get. cbn. by rewrite bool_decide_true.
Qed.

(** A single handler, switched on, decides. *)
Lemma exec_single (m : AppManager) t u (p : Param) q b :
  m !! t = Some [(add_key u, mkEntry MqttAuth true)] -> api_parameter p = Some q ->
  exec run_app m t p b
  = (let '((_, r), b') := hook bincode_decode phc_parse argon2_verify hmac_sha256 sha256 from_utf8 cfg w q None b
     in (ResAccess <$> r, b')).
Proof.
  intros Hm Hq. unfold exec. rewrite Hm. cbn [rev map app snd exec_loop enabled handler]. unfold run_app. rewrite Hq.
  unfold bind, ret. destruct (hook _ _ _ _ _ _ _ _ _ _ b) as [[proceed r] b']. by destruct proceed.
Qed.

(** [MqttAuth], switched on, is the only handler of the types it decides. *)
Definition decides (m : AppManager) : Prop :=
  forall t, t ∈ auth_types -> exists u, m !! t = Some [(add_key u, mkEntry MqttAuth true)].

Lemma auth_registered u1 u2 u3 u4 (m : AppManager) regs ops :
  (forall t, t ∈ auth_types -> m !! t = None) -> m !! Ty.MessageDropped = None ->
  map_Forall (fun _ ids => forall t k, (t, k) ∈ ids -> t ∉ auth_types) regs ->
  Forall (avoids auth_types) ops ->
  decides (manager (fold_left (fun s o => plugin_op o s) ops
             (mkRegistry (fst (register_auth_hooks u1 u2 u3 u4 m)) regs))).
Proof. clear phc_parse from_utf8.
  intros Hm Hd Hregs Hops t Ht. destruct (registered u1 u2 u3 u4 m t Hm Hd Ht) as [u Hu]. exists u. rewrite <- Hu.
  apply (plugin_ops_untouched auth_types (fst (register_auth_hooks u1 u2 u3 u4 m)) ops); [done | by split | done].
Qed.

Lemma publish_decided (m : AppManager) s p b : decides m -> exists r,
  message_publish_check_acl run_app session_superuser m s p b = (r, b)
  /\ publish_acl_is_allow r = session_superuser s || grants_publish (publish_check cfg (auth_info s) p).
Proof.
  intros Hreg. destruct (Hreg Ty.MessagePublishCheckAcl ltac:(set_solver)) as [u Hu].
  unfold message_publish_check_acl. destruct (session_superuser s); [by eexists|].
  unfold bind at 1. rewrite (exec_single m _ u (MessagePublishCheckAcl s p) (Api.MessagePublishCheckAcl (auth_info s) p) b Hu eq_refl). cbn [hook]. unfold ret.
  destruct (publish_check_answers cfg (auth_info s) p) as [r Hr]. rewrite Hr. by exists r.
Qed.

(** C5: the session gets the application's decisions and no others: once its
    handlers are registered, and whatever plugins then register, start or stop
    on other events, a connection to a listener without anonymous clients is
    accepted exactly when [authenticate] allows it, with the flag and rules it
    gives; a subscription or publish of a session is granted exactly when the
    session is a superuser's or the check grants it. *)
Theorem auth_hooks_decide u1 u2 u3 u4 (m : AppManager) regs ops :
  (forall t, t ∈ auth_types -> m !! t = None) -> m !! Ty.MessageDropped = None ->
  map_Forall (fun _ ids => forall t k, (t, k) ∈ ids -> t ∉ auth_types) regs ->
  Forall (avoids auth_types) ops ->
  let m' := manager (fold_left (fun s o => plugin_op o s) ops
                       (mkRegistry (fst (register_auth_hooks u1 u2 u3 u4 m)) regs)) in
  (forall ci b,
     let '(ack, su, info, b') := client_authenticate run_app proto_ver m' ci false b in
     b' = snd (authenticate ci b)
     /\ (ack_success ack = true <-> is_Some (allowed (fst (authenticate ci b))))
     /\ (ack_success ack = true -> allowed (fst (authenticate ci b)) = Some (su, info)))
  /\ (forall s sub b, exists r,
        client_subscribe_check_acl run_app session_superuser m' s sub b = (Some r, b)
        /\ negb (failure r) = session_superuser s || grants_subscribe (subscribe_check cfg (auth_info s) sub))
  /\ (forall s p b, exists r,
        message_publish_check_acl run_app session_superuser m' s p b = (r, b)
        /\ publish_acl_is_allow r = session_superuser s || grants_publish (publish_check cfg (auth_info s) p)).
Proof.
  intros Hm Hd Hregs Hops m'. assert (decides m') as Hreg by by apply auth_registered.
  split; [|split].
  - intros ci b. destruct (Hreg Ty.ClientAuthenticate ltac:(set_solver)) as [u Hu].
    unfold client_authenticate. rewrite andb_false_r. unfold bind at 1.
    rewrite (exec_single m' _ u (ClientAuthenticate ci) (Api.ClientAuthenticate ci) b Hu eq_refl). cbn [hook].
    destruct (authenticate ci b) as [[proceed r] b']. cbn [fst snd fmap option_fmap option_map].
    assert (ack_success (ack_ok proto_ver ci) = true /\ ack_success (ack_bad proto_ver ci) = false
            /\ ack_success (ack_refused proto_ver ci) = false) as (A1 & A2 & A3)
      by (unfold ack_ok, ack_bad, ack_refused, by_version; by destruct (_ =? _)).
    destruct r as [[[su info| | |]|r|r]|]; cbn; rewrite ?A1, ?A2, ?A3;
      (split; [done|]; split; [|by try done]; split; try done; by intros [? [=]]).
  - intros s sub b. destruct (Hreg Ty.ClientSubscribeCheckAcl ltac:(set_solver)) as [u Hu].
    unfold client_subscribe_check_acl. destruct (session_superuser s).
    { eexists. split; [done|]. cbn. by rewrite new_success_granted. }
    unfold bind at 1. rewrite (exec_single m' _ u (ClientSubscribeCheckAcl s sub) (Api.ClientSubscribeCheckAcl (auth_info s) sub) b Hu eq_refl). cbn [hook]. unfold ret.
    destruct (subscribe_check_answers cfg (auth_info s) sub) as [r Hr]. rewrite Hr. by exists r.
  - intros s p b. by apply publish_decided.
Qed.

End application.

(** ** Witness: a node whose cluster plugin handles disconnections *)

Module HooksExample.

Record ASession : Type := mkASession { as_superuser : bool; as_info : option AuthInfo }.

Definition no_plugin (_ : unit) (p : @HookParameter ASession unit unit unit unit unit)
    (acc : option (@HookResult unit unit))
    : M (Api.Broker (gmap string Bytes) ReplOp) (bool * option (@HookResult unit unit)) := ret (true, acc).

(** The plugin registers a handler for the end of sessions and starts it. *)
Definition plugin_ops : list (@PluginOp (@AppHandler unit)) :=
  [PluginAdd 1 "ffff" Ty.SessionTerminated 0 (Plugin tt); PluginStart 1; PluginStop 2].

Definition a_manager : gmap Ty.t (list (Key * @HookEntry (@AppHandler unit))) :=
  manager (fold_left (fun s o => plugin_op o s) plugin_ops
    (mkRegistry (fst (register_auth_hooks "3" "1" "2" "0" ∅)) ∅)).

Lemma auth_hooks_decide_witness :
  (let '(ack, su, info, b) :=
     client_authenticate
       (run_app toy_decode (fun s => Some s) AuthExample.toy_verify AuthExample.toy_hmac (fun b => b)
          (fun s => Some s) AuthExample.settings AuthExample.world no_plugin as_info)
       (fun _ => 4) a_manager AuthExample.conn false AuthExample.after_create in
   ack = V3ConnectionAccepted /\ allowed (fst (AuthExample.auth AuthExample.conn AuthExample.after_create)) = Some (su, info)).
Proof.
  destruct (auth_hooks_decide toy_decode (fun s => Some s) AuthExample.toy_verify AuthExample.toy_hmac
    (fun b => b) (fun s => Some s) AuthExample.settings AuthExample.world no_plugin (fun _ => 4)
    as_superuser as_info "3" "1" "2" "0" ∅ ∅ plugin_ops) as [Hauth _].
  - intros t _. by rewrite lookup_empty.
  - by rewrite lookup_empty.
  - intros k x. by rewrite lookup_empty.
  - repeat constructor; cbn; unfold auth_types; set_solver.
  - specialize (Hauth AuthExample.conn AuthExample.after_create). unfold a_manager.
    assert (fst (fst (fst (client_authenticate
       (run_app toy_decode (fun s => Some s) AuthExample.toy_verify AuthExample.toy_hmac (fun b => b)
          (fun s => Some s) AuthExample.settings AuthExample.world no_plugin as_info)
       (fun _ => 4) a_manager AuthExample.conn false AuthExample.after_create))) = V3ConnectionAccepted) as Hack
      by (by vm_compute).
    unfold a_manager in Hack.
    destruct (client_authenticate _ _ _ _ _ _) as [[[ack su] info] b]. cbn [fst] in Hack. subst ack.
    split; [done|]. by apply Hauth.
Defined.

End HooksExample.
