(* ===== verification/Session.v ===== *)
(** * Sessions: [src/vendor/rmqtt/src/session.rs]

    What the session of a client does with the packets it gets: a publish runs
    through topic aliases, the delayed form, the hooks and the access check and
    is then retained, forwarded and stored; a subscription through the limits,
    the hooks and the access check to the router, and is answered with the
    stored messages; a message for the client is given a packet id, sent and
    kept until it is acknowledged. The end of a connection decides on the last
    will.

    The services the session calls (hooks, message store, retained messages,
    the other sessions, the client's sink) are the interface [Broker]; the run
    of a session records every call and its answer as an [Effect], and the
    theorems say which effects a packet has, in which order. The features of
    the crate are a record: [ciqadamq_build] is the one the program is built
    with. *)

From S2P Require Import Prelude Strs Topic Types Inflight Retain Delayed Fitter.
Local Open Scope string_scope.
Local Open Scope list_scope.
Local Open Scope Z_scope.

(** ** Data *)

(** The [cfg] features the session's code depends on. *)
Record Build : Type := mkBuild { f_msgstore : bool; f_retain : bool; f_delayed : bool }.

(** [Cargo.toml]: [msgstore], and neither [retain] nor [delayed]. *)
Definition ciqadamq_build : Build := mkBuild true false false.

(** [MqttError]: the variants the session makes, and any other. *)
Inductive Error : Type :=
| NotAuthorizedError (reason : string)       (* PublishAckReason, from the access check *)
| ImplementationSpecific (reason : string)   (* PublishAckReason, from the aliases *)
| TooManySubscriptions
| TooManyTopicLevels
| TopicErr (e : TopicError)
| FilterErr (e : filter_error)
| Other (e : string).

(** [Reason]: why a connection or a session ends, a message is dropped or a
    packet refused. [StaticReason] is [Reason::Error], [ErrorReason] what an
    error of a call becomes. *)
Inductive SessionReason : Type :=
| InflightReason (r : Inflight.Reason)
| ProtocolError (e : string)
| ErrorReason (e : Error)
| PublishRefused (r : PublishResult)
| DelayedPublishRefused
| MessageExpiration
| SubscribeFailed (e : Error)
| UnsubscribeFailed (e : Error)
| SubscribeRefused
| ConnectDisconnect (d : option Disconnect)
| ConnectReadWriteTimeout
| ConnectReadWriteError
| ConnectRemoteClose
| ConnectKeepaliveTimeout
| ConnectKicked (is_admin : bool)
| HandshakeRateExceeded
| SessionExpiration
| MessageQueueFull
| StaticReason (r : string)
| Reasons (l : list SessionReason)
| Unknown.

Definition pub_success (r : PublishResult) : bool := publish_acl_is_allow r.

(** ** Topic aliases of the client *)

Record ClientTopicAliases : Type := mkAliases {
  max_aliases : Z;
  alias_map : gmap Z TopicName
}.

Definition aliases_new (max_topic_aliases : Z) : ClientTopicAliases := mkAliases max_topic_aliases ∅.

Definition set_and_get (alias : option Z) (t : TopicName) (a : ClientTopicAliases)
    : result Error TopicName * ClientTopicAliases :=
  match alias, str_is_empty t with
  | Some alias, true =>
      (match alias_map a !! alias with
       | Some t => Ok t
       | None => Err (ImplementationSpecific "implementation specific error, the ‘topic‘ associated with the ‘alias‘ was not found")
       end, a)
  | Some alias, false =>
      if isSome (alias_map a !! alias) then (Ok t, mkAliases (max_aliases a) (<[alias := t]> (alias_map a)))
      else if Z.of_nat (size (alias_map a)) >=? max_aliases a
      then (Err (ImplementationSpecific
                 ("implementation specific error, the number of topic aliases exceeds the limit ("
                  ++ show_uint (max_aliases a) ++ ")")), a)
      else (Ok t, mkAliases (max_aliases a) (<[alias := t]> (alias_map a)))
  | None, true => (Err (ImplementationSpecific "implementation specific error, ‘alias’ and ‘topic’ are both empty"), a)
  | None, false => (Ok t, a)
  end.

(** ** Services *)

(** What was called with what, and the answers that matter. *)
Inductive Effect (Cids : Type) : Type :=
| EHook (from : MsgFrom) (p : Publish)
| ECheck (p : Publish) (r : PublishResult)
| ERetain (t : TopicName) (r : Retain) (expiry : option Z)
| EForward (from : MsgFrom) (p : Publish)
| EStore (id : Z) (from : MsgFrom) (p : Publish) (expiry : Z) (cids : option Cids)
| EDelay (from : MsgFrom) (p : Publish)
| EDrop (to : option Id) (from : MsgFrom) (p : Publish) (why : SessionReason)
| ENonsubscribed (from : MsgFrom)
| EAck (pid : Z) (r : PublishResult)
| EReceived (pid : Z) (r : PublishResult)
| EComplete (pid : Z)
| ERelease (pid : Z)
| EAcked (from : MsgFrom) (p : Publish)
| ESubCheck (s : Subscribe) (r : option SubscribeReturn)
| ESubscribe (s : Subscribe)
| ESubscribed (s : Subscribe)
| EUnsubscribe (u : Unsubscribe)
| EUnsubscribed (u : Unsubscribe)
| EEnqueue (from : MsgFrom) (p : Publish)
| ESend (p : Publish) (expiry : option Z)
| ERouterAdd (tf : TopicFilter) (o : SubscriptionOptions)
| EOffline (from : MsgFrom) (p : Publish)
| EPong
| EAuth
| ESubAckV3 (pid : Z) (codes : list (option QoS))
| ESubAckV5 (pid : Z) (codes : list (option SubscribeAckReason))
| EUnsubAck (pid : Z) (codes : nat)
| EDisconnect (code : Code.t)
| EDisconnected (why : SessionReason)
| EInflight (l : list OutInflightMessage)
| ETerminated (why : SessionReason)
| ERemove.
Arguments EHook {Cids}. Arguments ECheck {Cids}. Arguments ERetain {Cids}. Arguments EForward {Cids}.
Arguments EStore {Cids}. Arguments EDelay {Cids}. Arguments EDrop {Cids}. Arguments ENonsubscribed {Cids}.
Arguments EAck {Cids}. Arguments EReceived {Cids}. Arguments EComplete {Cids}. Arguments ERelease {Cids}.
Arguments EAcked {Cids}. Arguments ESubCheck {Cids}. Arguments ESubscribe {Cids}. Arguments ESubscribed {Cids}.
Arguments EEnqueue {Cids}. Arguments ESend {Cids}. Arguments ERouterAdd {Cids}. Arguments EOffline {Cids}.
Arguments EPong {Cids}. Arguments EAuth {Cids}. Arguments ESubAckV3 {Cids}. Arguments ESubAckV5 {Cids}. Arguments EUnsubAck {Cids}.
Arguments EDisconnect {Cids}. Arguments EDisconnected {Cids}. Arguments EInflight {Cids}.
Arguments ETerminated {Cids}. Arguments ERemove {Cids}. Arguments EUnsubscribe {Cids}. Arguments EUnsubscribed {Cids}.

(** The services, over the state [S] of the broker. [Cids] is the list of
    recipients the other sessions report to the message store. *)
Class Broker (S Cids : Type) : Type := {
  hook_message_publish : MsgFrom -> Publish -> M S (option Publish);
  hook_check_publish : Publish -> M S PublishResult;
  hook_message_dropped : option Id -> MsgFrom -> Publish -> SessionReason -> M S unit;
  hook_nonsubscribed : MsgFrom -> M S unit;
  hook_acked : MsgFrom -> Publish -> M S unit;
  hook_expiry : MsgFrom -> Publish -> M S MessageExpiryCheckResult;
  hook_delivered : MsgFrom -> Publish -> M S (option Publish);
  hook_subscribe : Subscribe -> M S (option TopicFilter);
  hook_check_subscribe : Subscribe -> M S (option SubscribeReturn);
  hook_subscribed : Subscribe -> M S unit;
  hook_unsubscribe : Unsubscribe -> M S (option TopicFilter);
  hook_unsubscribed : Unsubscribe -> M S unit;
  hook_offline_message : MsgFrom -> Publish -> M S unit;
  hook_terminated : SessionReason -> M S unit;
  mgr_enable : M S bool;
  mgr_next_msg_id : M S Z;
  mgr_store : Z -> MsgFrom -> Publish -> Z -> option Cids -> M S (result string unit);
  retain_enable : M S bool;
  retain_set : TopicName -> Retain -> option Z -> M S (result Error unit);
  retain_get : TopicFilter -> M S (result Error (list (TopicName * Retain)));
  delayed_send : MsgFrom -> Publish -> bool -> option Z -> M S (result Error (option (MsgFrom * Publish)));
  shared_forwards : MsgFrom -> Publish
                    -> M S (result (list (Id * MsgFrom * Publish * SessionReason)) (option Cids));
  shared_subscribe : Subscribe -> M S (result Error SubscribeReturn);
  shared_unsubscribe : Unsubscribe -> M S (result Error bool);
  shared_message_load : TopicFilter -> option SharedGroup -> M S (result Error (list (Z * MsgFrom * Publish)));
  shared_publish : MsgFrom -> Publish -> M S (result (MsgFrom * Publish * SessionReason) unit);
  shared_id_same : M S (option bool);
  shared_remove : M S (result Error unit);
  subscriptions_len : M S (result Error Z);
  subscriptions_extend : list (TopicFilter * SubscriptionOptions) -> M S (result Error unit);
  router_add : TopicFilter -> SubscriptionOptions -> M S (result Error unit);
  tx_forward : MsgFrom -> Publish -> M S (result (MsgFrom * Publish) unit);
  tx_rerelease : OutInflightMessage -> M S (result Error unit);
  queue_send : MsgFrom -> Publish -> M S (result (MsgFrom * Publish) unit);
  now_millis : M S TimestampMillis;
  send_publish_ack : Z -> PublishResult -> M S (result Error unit);
  send_publish_received : Z -> PublishResult -> M S (result Error unit);
  send_publish_complete : Z -> M S (result Error unit);
  send_publish_release : Z -> M S (result Error unit);
  sink_publish : Publish -> option Z -> M S (result Error unit)
}.

(** ** The session *)

(** [last_will_enable]'s flags, [StateFlags]. *)
Record StateFlags : Type := mkFlags {
  kicked : bool;
  clean_start : bool;
  disconnect_received : bool;
  by_admin_kick : bool
}.

Section session.
Context {S Cids D : Type} `{Broker S Cids} `{DequeMap D}.
Context (build : Build) (cfg : ListenerConfig).
(** [delayed_publish], [max_subscriptions], [max_topic_levels] and
    [max_qos_allowed] of the listener; [mqtt_delayed_publish_immediate]. *)
Context (delayed_publish delayed_immediate : bool) (max_subscriptions max_topic_levels : Z).
Context (max_qos_allowed : QoS).
(** [QoS::less_value] of the codec, and what it keeps of a packet besides
    [Publish]: the alias and the expiry in its properties. *)
Context (less_value : QoS -> QoS -> QoS).
Context (topic_alias : Publish -> option Z) (message_expiry : Publish -> option Z).
Context (id : Id).

(** The session's own state, the broker it calls and what it did so far. *)
Record Run : Type := mkRun {
  world : S;
  in_inflight : InInflight;
  out_inflight : OutInflight D;
  client_topic_aliases : option ClientTopicAliases;
  effects : list (Effect Cids)
}.

Abbreviation Act := (M Run).

Definition with_world (s : S) (r : Run) : Run :=
  mkRun s (in_inflight r) (out_inflight r) (client_topic_aliases r) (effects r).

(** A question to the broker, and a call that is recorded with its answer. *)
Definition ask {A} (m : M S A) : Act A := fun r => let '(a, s) := m (world r) in (a, with_world s r).

Definition record (e : Effect Cids) : Act unit := fun r =>
  (tt, mkRun (world r) (in_inflight r) (out_inflight r) (client_topic_aliases r) (effects r ++ [e])).

Definition perform {A} (e : A -> Effect Cids) (m : M S A) : Act A :=
  let! a := ask m in let! _ := record (e a) in ret a.

Definition on_in {A} (f : InInflight -> A * InInflight) : Act A := fun r =>
  let '(a, i) := f (in_inflight r) in
  (a, mkRun (world r) i (out_inflight r) (client_topic_aliases r) (effects r)).

Definition on_out {A} (f : OutInflight D -> A * OutInflight D) : Act A := fun r =>
  let '(a, o) := f (out_inflight r) in
  (a, mkRun (world r) (in_inflight r) o (client_topic_aliases r) (effects r)).

(** ** Publishing *)

Definition message_dropped (to : option Id) (from : MsgFrom) (p : Publish) (why : SessionReason) : Act unit :=
  perform (fun _ => EDrop to from p why) (hook_message_dropped to from p why).

Fixpoint drop_all (errs : list (Id * MsgFrom * Publish * SessionReason)) : Act unit :=
  match errs with
  | [] => ret tt
  | (to, from, p, why) :: errs' => let! _ := message_dropped (Some to) from p why in drop_all errs'
  end.

Definition set_retain (msg_id : option Z) (from : MsgFrom) (p : Publish) (expiry : option Z)
    : Act (result Error unit) :=
  if f_retain build then
    let! enable := ask retain_enable in
    if enable && retain p then
      let r := mkRetain msg_id from p in
      perform (fun _ => ERetain (topic p) r expiry) (retain_set (topic p) r expiry)
    else ret (Ok tt)
  else ret (Ok tt).

Definition inner_forwards (from : MsgFrom) (p : Publish) (available : bool) (expiry : option Z)
    : Act (result Error unit) :=
  let! msg_id :=
    if f_msgstore build && available then let! i := ask mgr_next_msg_id in ret (Some i) else ret None in
  try! _ := set_retain msg_id from p expiry in
  let stored_msg := match msg_id, expiry with Some i, Some e => Some (i, e) | _, _ => None end in
  let! res := perform (fun _ => EForward from p) (shared_forwards from p) in
  let! sub_cids :=
    match res with
    | Ok None =>
        let! _ := perform (fun _ => ENonsubscribed from) (hook_nonsubscribed from) in ret None
    | Ok (Some sub_cids) => ret (Some sub_cids)
    | Err errs => let! _ := drop_all errs in ret None
    end in
  match stored_msg with
  | Some (i, e) =>
      let! _ := perform (fun _ => EStore i from p e sub_cids) (mgr_store i from p e sub_cids) in ret (Ok tt)
  | None => ret (Ok tt)
  end.

Definition forwards (from : MsgFrom) (p : Publish) (available : bool) (expiry : option Z)
    : Act (result Error unit) :=
  if f_delayed build && isSome (delay_interval p) then
    try! back := perform (fun _ => EDelay from p) (delayed_send from p available expiry) in
    match back with
    | Some (f, q) =>
        if delayed_immediate then inner_forwards f q available expiry
        else let! _ := message_dropped None f q DelayedPublishRefused in ret (Ok tt)
    | None => ret (Ok tt)
    end
  else inner_forwards from p available expiry.

(** How long a message is kept: as long as it asks for, when it is kept. *)
Definition expiry_of (available : bool) (p : Publish) : Act (option Z) :=
  let! kept :=
    if available then ret true
    else if retain p && f_retain build then ask retain_enable else ret false in
  ret (if kept : bool then Some (message_expiry_interval cfg (message_expiry p)) else None).

Definition storage_available : Act bool := if f_msgstore build then ask mgr_enable else ret false.

Definition from_custom (id : Id) : MsgFrom := mkFrom id FromCustom.
Definition from_lastwill (id : Id) : MsgFrom := mkFrom id FromLastWill.

Definition apply_alias (p : Publish) : Act (result Error Publish) := fun r =>
  match client_topic_aliases r with
  | Some a =>
      let '(res, a') := set_and_get (topic_alias p) (topic p) a in
      (result_map (fun t => set_topic t p) res,
       mkRun (world r) (in_inflight r) (out_inflight r) (Some a') (effects r))
  | None => (Ok p, r)
  end.

Definition parse_delayed (p : Publish) : result Error Publish :=
  if f_delayed build && delayed_publish then
    match delayed_parse p with Ok p => Ok p | Err e => Err (Other e) end
  else Ok p.

(** The hook that may change a message. *)
Definition hook_publish (from : MsgFrom) (p : Publish) : Act Publish :=
  let! changed := perform (fun _ => EHook from p) (hook_message_publish from p) in ret (default p changed).

(** [_publish] once the topic is known. *)
Definition check_and_forward (from : MsgFrom) (p : Publish) : Act (result Error PublishResult) :=
  let! p := hook_publish from p in
  let! acl_result := perform (ECheck p) (hook_check_publish p) in
  if negb (publish_acl_is_allow acl_result) then
    let! _ := message_dropped None from p (PublishRefused acl_result) in
    ret (if disconnect acl_result
         then Err (NotAuthorizedError (default "" (reason_string acl_result)))
         else Ok acl_result)
  else
    let! available := storage_available in
    let! expiry := expiry_of available p in
    try! _ := forwards from p available expiry in
    ret (Ok publish_acl_allow).

Definition _publish (p : Publish) : Act (result Error PublishResult) :=
  try! p := apply_alias p in
  let from := from_custom id in
  try! p := ret (parse_delayed p) in
  check_and_forward from p.

Definition publish (p : Publish) : Act (result Error PublishResult) :=
  try! pub_res := _publish p in
  ret (if pub_success pub_res then Ok pub_res
       else if disconnect pub_res then Err (NotAuthorizedError (default "" (reason_string pub_res)))
       else Ok pub_res).

(** [Self::packet_id]. *)
Definition the_packet_id (pid : option Z) : result SessionReason Z :=
  match pid with Some pid => Ok pid | None => Err (ProtocolError "packet_id is None") end.

Definition or_reason {A} (r : result Error A) : result SessionReason A :=
  match r with Ok a => Ok a | Err e => Err (ErrorReason e) end.

Definition process_publish (p : Publish) : Act (result SessionReason unit) :=
  match pub_qos p with
  | AtLeastOnce =>
      try! pid := ret (the_packet_id (packet_id p)) in
      let! added := on_in (in_add pid AtLeastOnce) in
      match added with
      | Err e =>
          let! _ := message_dropped None (from_custom id) p (InflightReason e) in
          ret (Err (InflightReason e))
      | Ok inflight_res =>
          let release : Act unit :=
            if inflight_res then let! _ := on_in (in_remove pid) in ret tt else ret tt in
          let! pubres := publish p in
          match pubres with
          | Err e => let! _ := release in ret (Err (ErrorReason e))
          | Ok pubres =>
              let! ack_res := perform (fun _ => EAck pid pubres) (send_publish_ack pid pubres) in
              let! _ := release in
              ret (or_reason ack_res)
          end
      end
  | ExactlyOnce =>
      try! pid := ret (the_packet_id (packet_id p)) in
      let! pub_res := publish p in
      match pub_res with
      | Err e => ret (Err (ErrorReason e))
      | Ok pub_res =>
          let! added := if pub_success pub_res then on_in (in_add pid ExactlyOnce) else ret (Ok false) in
          match added with
          | Err e => ret (Err (InflightReason e))
          | Ok inflight_res =>
              let! rec_res := perform (fun _ => EReceived pid pub_res) (send_publish_received pid pub_res) in
              let! _ :=
                if inflight_res && negb (is_ok rec_res) then let! _ := on_in (in_remove pid) in ret tt
                else ret tt in
              ret (or_reason rec_res)
          end
      end
  | AtMostOnce =>
      let! res := publish p in ret (result_map (fun _ => tt) (or_reason res))
  end.

(** The publish of a [PUBREL]: the id is free again. *)
Definition process_publish_release (pid : Z) : Act (result SessionReason unit) :=
  let! _ := on_in (in_remove pid) in
  let! res := perform (fun _ => EComplete pid) (send_publish_complete pid) in
  ret (or_reason res).

(** ** The end of a connection *)

Definition last_will_enable (flags : StateFlags) (clean_session : bool) : bool :=
  let session_present := kicked flags && negb (clean_start flags) && negb clean_session in
  negb (disconnect_received flags || session_present).

(** [lw]: the last will as [Publish::try_from] makes it a message. *)
Definition process_last_will (lw : option (result Error Publish)) : Act (result Error unit) :=
  match lw with
  | Some p =>
      try! p := ret p in
      let from := from_lastwill id in
      let! p := hook_publish from p in
      let! available := storage_available in
      let! expiry := expiry_of available p in
      forwards from p available expiry
  | None => ret (Ok tt)
  end.

(** What [run] does about the last will: the delay it leaves to the offline
    session, if any; errors are logged. *)
Definition end_of_connection (flags : StateFlags) (clean_session : bool) (will_delay : option Z)
    (lw : option (result Error Publish)) : Act (option Z) :=
  if last_will_enable flags clean_session then
    if clean_session || is_none will_delay then let! _ := process_last_will lw in ret None
    else ret will_delay
  else ret None.

(** ** Messages for this client *)

(** [set dup], [retain], [qos], [packet_id] of a packet. *)
Definition with_header (dup retain : bool) (q : QoS) (pid : option Z) (p : Publish) : Publish :=
  mkPublish (mkCodec dup retain q (topic p) pid (payload p)) (target_clientid p) (delay_interval p) (publish_time p).

Definition set_dup (p : Publish) : Publish := with_header true (retain p) (pub_qos p) (packet_id p) p.
Definition set_packet_id (pid : option Z) (p : Publish) : Publish :=
  with_header (cp_dup (packet p)) (retain p) (pub_qos p) pid p.

(** The end of the two loops: a message to the session's own queue. *)
Definition enqueue (from : MsgFrom) (p : Publish) : Act unit :=
  let! res := perform (fun _ => EEnqueue from p) (shared_publish from p) in
  match res with
  | Ok _ => ret tt
  | Err (f, q, why) => message_dropped (Some id) f q why
  end.

(** The retained message as it is sent to a new subscriber. *)
Definition retained_publish (now : TimestampMillis) (q : QoS) (t : TopicName) (p : Publish) : Publish :=
  with_create_time now (set_topic t (with_header false true (less_value (pub_qos p) q) None p)).

Fixpoint send_retain_messages (q : QoS) (retains : list (TopicName * Retain)) : Act unit :=
  match retains with
  | [] => ret tt
  | (t, r) :: retains' =>
      let! now := ask now_millis in
      let! _ := enqueue (ret_from r) (retained_publish now q t (ret_publish r)) in
      send_retain_messages q retains'
  end.

Definition stored_publish (q : QoS) (p : Publish) : Publish :=
  with_header false false (less_value (pub_qos p) q) None p.

Definition excluded (excludeds : option (list (NodeId * Z))) (from : MsgFrom) (i : Z) : bool :=
  match excludeds with
  | Some l => bool_decide ((node_id (from_id from), i) ∈ l)
  | None => false
  end.

Fixpoint _send_storaged_messages (q : QoS) (excludeds : option (list (NodeId * Z)))
    (storaged : list (Z * MsgFrom * Publish)) : Act unit :=
  match storaged with
  | [] => ret tt
  | (i, from, p) :: storaged' =>
      let! _ := if excluded excludeds from i then ret tt else enqueue from (stored_publish q p) in
      _send_storaged_messages q excludeds storaged'
  end.

Definition send_storaged_messages (tf : TopicFilter) (q : QoS) (group : option SharedGroup)
    (excludeds : option (list (NodeId * Z))) : Act (result Error unit) :=
  try! storaged := ask (shared_message_load tf group) in
  let! _ := _send_storaged_messages q excludeds storaged in ret (Ok tt).

(** ** Subscribing *)

Definition set_opts_qos (q : QoS) (s : Subscribe) : Subscribe := mkSubscribe (topic_filter s) (set_qos q (opts s)).

(** Retained messages for a new subscription: the ids they have in the message
    store, [None] when retained messages are off. *)
Definition send_retained (s : Subscribe) (prev : option SubscriptionOptions) (q : QoS)
    : Act (result Error (option (list (NodeId * Z)))) :=
  if f_retain build then
    let! enable := ask retain_enable in
    if enable : bool then
      if match retain_handling (opts s) with
         | Some AtSubscribe => true
         | Some AtSubscribeNew => is_none prev
         | Some NoAtSubscribe => false
         | None => true
         end
      then
        try! retains := ask (retain_get (topic_filter s)) in
        let! _ := send_retain_messages q retains in
        ret (Ok (Some (omap (fun x => (fun i => (node_id (from_id (ret_from (snd x))), i)) <$> msg_id (snd x)) retains)))
      else ret (Ok (Some []))
    else ret (Ok None)
  else ret (Ok None).

(** What follows a subscription the router has. *)
Definition after_subscribe (s : Subscribe) (sub_ret : SubscribeReturn) : Act (result Error SubscribeReturn) :=
  match success sub_ret with
  | Some q =>
      try! excludeds := send_retained s (prev_opts sub_ret) q in
      let! enable := storage_available in
      try! _ :=
        if enable : bool
        then send_storaged_messages (topic_filter s) q (shared_group (opts s)) excludeds
        else ret (Ok tt) in
      let! _ := perform (fun _ => ESubscribed s) (hook_subscribed s) in
      ret (Ok sub_ret)
  | None => ret (Ok sub_ret)
  end.

(** The two limits of the listener. *)
Definition check_subscribe_limits (s : Subscribe) : Act (result Error unit) :=
  try! _ :=
    if max_subscriptions >? 0 then
      try! n := ask subscriptions_len in
      ret (if n >=? max_subscriptions then Err TooManySubscriptions else Ok tt)
    else ret (Ok tt) in
  ret (if max_topic_levels >? 0 then
         match Topic.from_str (topic_filter s) with
         | Ok t => if Z.of_nat (length t) >? max_topic_levels then Err TooManyTopicLevels else Ok tt
         | Err e => Err (TopicErr e)
         end
       else Ok tt).

Definition _subscribe (s : Subscribe) : Act (result Error SubscribeReturn) :=
  try! _ := check_subscribe_limits s in
  let s := set_opts_qos (less_value (qos (opts s)) max_qos_allowed) s in
  let! changed := ask (hook_subscribe s) in
  let s := mkSubscribe (default (topic_filter s) changed) (opts s) in
  let! acl_result := perform (ESubCheck s) (hook_check_subscribe s) in
  let subscribe (s : Subscribe) : Act (result Error SubscribeReturn) :=
    try! sub_ret := perform (fun _ => ESubscribe s) (shared_subscribe s) in
    after_subscribe s sub_ret in
  match acl_result with
  | Some acl_result =>
      match success acl_result with
      | Some q => subscribe (set_opts_qos (less_value (qos (opts s)) q) s)
      | None => ret (Ok acl_result)
      end
  | None => subscribe s
  end.

(** An error of the filter ends the connection; an error of the subscription
    is the answer to this filter. *)
Definition filter_reason {A} (r : result filter_error A) : result Error A :=
  match r with Ok a => Ok a | Err e => Err (FilterErr e) end.

(** The codes of a version 3 answer: the granted level, or failure. *)
Fixpoint subscribes_v3 (shared limit : bool) (tfs : list (string * QoS)) : Act (result Error (list (option QoS))) :=
  match tfs with
  | [] => ret (Ok [])
  | (tf, q) :: tfs' =>
      try! s := ret (filter_reason (from_v3 tf q shared limit)) in
      let! r := _subscribe s in
      try! acks := subscribes_v3 shared limit tfs' in
      ret (Ok (match r with Ok sub_ret => success sub_ret | Err _ => None end :: acks))
  end.

(** The codes of a version 5 answer; [None] is an unspecified error. *)
Fixpoint subscribes_v5 (shared limit : bool) (sub_id : option Z) (tfs : list (string * SubscriptionOptionsV5))
    : Act (result Error (list (option SubscribeAckReason))) :=
  match tfs with
  | [] => ret (Ok [])
  | (tf, o) :: tfs' =>
      try! s := ret (filter_reason (from_v5 tf o shared limit sub_id)) in
      let! r := _subscribe s in
      try! status := subscribes_v5 shared limit sub_id tfs' in
      ret (Ok (match r with Ok sub_ret => Some (ack_reason sub_ret) | Err _ => None end :: status))
  end.

Definition unsubscribe (u : Unsubscribe) : Act (result Error unit) :=
  let! changed := ask (hook_unsubscribe u) in
  let u := mkUnsubscribe (default (unsub_topic_filter u) changed) (unsub_shared_group u) in
  try! ok := perform (fun _ => EUnsubscribe u) (shared_unsubscribe u) in
  let! _ := if ok : bool then perform (fun _ => EUnsubscribed u) (hook_unsubscribed u) else ret tt in
  ret (Ok tt).

Fixpoint unsubscribes (shared limit : bool) (tfs : list string) : Act (result Error unit) :=
  match tfs with
  | [] => ret (Ok tt)
  | tf :: tfs' =>
      try! u := ret (filter_reason (unsub_from tf shared limit)) in
      try! _ := unsubscribe u in
      unsubscribes shared limit tfs'
  end.

(** ** Delivery *)

Definition needs_ack (q : QoS) : bool :=
  match q with AtMostOnce => false | _ => true end.

Definition moment_of (q : QoS) : option MomentStatus :=
  match q with AtLeastOnce => Some UnAck | ExactlyOnce => Some UnReceived | AtMostOnce => None end.

(** A packet id for a message that needs one and has none. *)
Definition with_packet_id (p : Publish) : Act (result Error Publish) :=
  if needs_ack (pub_qos p) && (negb (cp_dup (packet p)) || is_none (packet_id p)) then
    let! pid := on_out next_id in
    ret (match pid with
         | Ok pid => Ok (set_packet_id (if pid =? 0 then None else Some pid) p)
         | Err e => Err (Other e)
         end)
  else ret (Ok p).

Definition deliver (from : MsgFrom) (p : Publish) : Act (result Error unit) :=
  let! expiry := ask (hook_expiry from p) in
  if is_expiry expiry then let! _ := message_dropped (Some id) from p MessageExpiration in ret (Ok tt)
  else
    try! p := with_packet_id p in
    let! changed := ask (hook_delivered from p) in
    let p := default p changed in
    try! _ := perform (fun _ => ESend p (remaining_secs expiry)) (sink_publish p (remaining_secs expiry)) in
    match moment_of (pub_qos p) with
    | Some status =>
        let! now := ask now_millis in
        let! _ := on_out (push_back (out_new now status from p)) in ret (Ok tt)
    | None => ret (Ok tt)
    end.

(** [PUBACK] and [PUBCOMP]: the message is acknowledged. *)
Definition process_ack (pid : Z) : Act (result SessionReason unit) :=
  let! m := on_out (out_remove pid) in
  let! _ :=
    match m with
    | Some m => perform (fun _ => EAcked (out_from m) (out_publish m)) (hook_acked (out_from m) (out_publish m))
    | None => ret tt
    end in
  ret (Ok tt).

(** [PUBREC]: the second half of an exactly-once delivery. *)
Definition process_publish_received (pid : Z) : Act (result SessionReason unit) :=
  let! now := ask now_millis in
  let! _ := on_out (fun o => (tt, update_status now pid UnComplete o)) in
  let! res := perform (fun _ => ERelease pid) (send_publish_release pid) in
  ret (or_reason res).

(** ** Taking a session over *)

Definition forward (from : MsgFrom) (p : Publish) : Act unit :=
  let! res := perform (fun _ => EEnqueue from p) (tx_forward from p) in
  match res with
  | Ok _ => ret tt
  | Err (f, q) => message_dropped (Some id) f q (StaticReason "Send Publish message error, Tx is closed")
  end.

Definition reforward (m : OutInflightMessage) : Act (result Error unit) :=
  match moment m with
  | UnAck | UnReceived => let! _ := forward (out_from m) (set_dup (out_publish m)) in ret (Ok tt)
  | UnComplete =>
      let! expiry := ask (hook_expiry (out_from m) (out_publish m)) in
      if is_expiry expiry then ret (Ok tt) else ask (tx_rerelease m)
  end.

Record OfflineInfo : Type := mkOffline {
  off_subscriptions : list (TopicFilter * SubscriptionOptions);
  offline_messages : list (MsgFrom * Publish);
  inflight_messages : list OutInflightMessage
}.

Fixpoint transfer_subscriptions (subs : list (TopicFilter * SubscriptionOptions)) : Act unit :=
  match subs with
  | [] => ret tt
  | (tf, o) :: subs' =>
      let! _ := perform (fun _ => ERouterAdd tf o) (router_add tf o) in
      let! _ :=
        if f_msgstore build then let! _ := send_storaged_messages tf (qos o) (shared_group o) None in ret tt
        else ret tt in
      transfer_subscriptions subs'
  end.

(** The loop of [pop]: the list is given last message first. *)
Fixpoint reforward_all (ms : list OutInflightMessage) : Act unit :=
  match ms with
  | [] => ret tt
  | m :: ms' =>
      let! _ :=
        match moment m with UnComplete => ret tt | _ => let! _ := reforward m in ret tt end in
      reforward_all ms'
  end.

Fixpoint forward_all (ms : list (MsgFrom * Publish)) : Act unit :=
  match ms with
  | [] => ret tt
  | (from, p) :: ms' => let! _ := forward from p in forward_all ms'
  end.

Definition transfer_session_state (clear_subscriptions : bool) (info : OfflineInfo) : Act (result Error unit) :=
  let! _ := if clear_subscriptions then ret tt else transfer_subscriptions (off_subscriptions info) in
  try! _ :=
    if clear_subscriptions then ret (Ok tt) else ask (subscriptions_extend (off_subscriptions info)) in
  let! _ := reforward_all (rev (inflight_messages info)) in
  let! _ := forward_all (offline_messages info) in
  ret (Ok tt).

Definition send_rerelease (m : OutInflightMessage) : Act (result SessionReason unit) :=
  try! pid := ret (the_packet_id (packet_id (out_publish m))) in
  let! now := ask now_millis in
  let! _ := on_out (push_back (out_new now UnComplete (out_from m) (out_publish m))) in
  let! res := perform (fun _ => ERelease pid) (send_publish_release pid) in
  ret (or_reason res).

(** ** Messages to the session *)

(** [Message]; whether the sender of the answer is closed only decides a kick. *)
Inductive SessionMessage : Type :=
| MsgForward (from : MsgFrom) (p : Publish)
| MsgSendRerelease (m : OutInflightMessage)
| MsgKick (closed clean_start is_admin : bool)
| MsgSubscribe (s : Subscribe)
| MsgSubscribes (l : list Subscribe)
| MsgUnsubscribe (u : Unsubscribe)
| MsgStateTransfer (info : OfflineInfo) (clean_start : bool)
| MsgClosed (why : SessionReason).

(** A message for this client waits in the queue, or is dropped. *)
Definition queue_message (from : MsgFrom) (p : Publish) : Act unit :=
  let! res := ask (queue_send from p) in
  match res with
  | Ok _ => ret tt
  | Err (f, q) => message_dropped (Some id) f q MessageQueueFull
  end.

Fixpoint subscribe_all (l : list Subscribe) : Act unit :=
  match l with
  | [] => ret tt
  | s :: l' => let! _ := _subscribe s in subscribe_all l'
  end.

(** The flags a kick sets. *)
Definition kick_flags (cs is_admin : bool) (flags : StateFlags) : StateFlags :=
  mkFlags true (clean_start flags || cs) (disconnect_received flags) (by_admin_kick flags || is_admin).

Definition process_message (msg : SessionMessage) (flags : StateFlags)
    : Act (result SessionReason unit * StateFlags) :=
  match msg with
  | MsgForward from p => let! _ := queue_message from p in ret (Ok tt, flags)
  | MsgSendRerelease m => let! res := send_rerelease m in ret (res, flags)
  | MsgKick closed cs is_admin =>
      ret (if closed : bool then (Ok tt, flags) else (Err (ConnectKicked is_admin), kick_flags cs is_admin flags))
  | MsgSubscribe s => let! _ := _subscribe s in ret (Ok tt, flags)
  | MsgSubscribes l => let! _ := subscribe_all l in ret (Ok tt, flags)
  | MsgUnsubscribe u => let! _ := unsubscribe u in ret (Ok tt, flags)
  | MsgStateTransfer info cs => let! res := transfer_session_state cs info in ret (or_reason res, flags)
  | MsgClosed why => ret (Err why, flags)
  end.

(** ** The offline session *)

(** What the loop of an offline session wakes up for. *)
Inductive OfflineEvent : Type :=
| OffForward (from : MsgFrom) (p : Publish)
| OffKick (closed clean_start is_admin : bool)
| OffOther
| OffClosed
| OffExpired
| OffWillDelay.

(** One round: the will that is still due, and whether the loop ends. *)
Definition offline_step (lw : option (result Error Publish)) (e : OfflineEvent)
    (s : StateFlags * option Z) : Act (StateFlags * option Z * bool) :=
  let '(flags, will) := s in
  match e with
  | OffForward from p =>
      let! _ := perform (fun _ => EOffline from p) (hook_offline_message from p) in
      let! _ := queue_message from p in
      ret (flags, will, false)
  | OffKick closed cs is_admin =>
      if closed : bool then ret (flags, will, false)
      else ret (kick_flags cs is_admin flags, will, true)
  | OffOther => ret (flags, will, false)
  | OffClosed => ret (flags, will, true)
  | OffExpired =>
      let! _ := if isSome will then let! _ := process_last_will lw in ret tt else ret tt in
      ret (flags, will, true)
  | OffWillDelay =>
      let! _ := if isSome will then let! _ := process_last_will lw in ret tt else ret tt in
      ret (flags, None, false)
  end.

(** The loop over the events as they come. *)
Fixpoint offline_run_loop (lw : option (result Error Publish)) (es : list OfflineEvent)
    (s : StateFlags * option Z) : Act (StateFlags * option Z * bool) :=
  match es with
  | [] => ret (s, false)
  | e :: es' =>
      let! (s', over) := offline_step lw e s in
      if over : bool then ret (s', true) else offline_run_loop lw es' s'
  end.

(** [clean], with the messages the delivery queue holds. *)
Fixpoint drop_queue (why : SessionReason) (l : list (MsgFrom * Publish)) : Act unit :=
  match l with
  | [] => ret tt
  | (from, p) :: l' => let! _ := message_dropped (Some id) from p why in drop_queue why l'
  end.

Definition clean (queued : list (MsgFrom * Publish)) (why : SessionReason) : Act unit :=
  let! _ := drop_queue why queued in
  let! window := on_out to_inflight_messages in
  let! _ := drop_queue why (map (fun m => (out_from m, out_publish m)) window) in
  let! _ := perform (fun _ => ETerminated why) (hook_terminated why) in
  let! same := ask shared_id_same in
  match same with
  | Some true => let! _ := perform (fun _ => ERemove) shared_remove in ret tt
  | _ => ret tt
  end.

(** ** Lemmas: the effects of a computation *)

(** [m] adds effects and returns a result that satisfy [Q], from every state. *)
Definition does {A} (m : Act A) (Q : A -> list (Effect Cids) -> Prop) : Prop :=
  forall r, wp m (fun a r' => exists new, effects r' = effects r ++ new /\ Q a new) r.

Lemma does_ret {A} (a : A) (Q : A -> list (Effect Cids) -> Prop) : Q a [] -> does (ret a) Q.
Proof. intros HQ r. exists []. by rewrite app_nil_r. Qed.

Lemma does_bind {A B} (m : Act A) (k : A -> Act B) P Q :
  does m P -> (forall a n, P a n -> does (k a) (fun b n' => Q b (n ++ n'))) -> does (bind m k) Q.
Proof.
  intros Hm Hk r. apply wp_bind. eapply wp_mono; [apply Hm|]. cbv beta. intros a r1 (n & E1 & HP).
  eapply wp_mono; [by apply (Hk a n HP)|]. cbv beta. intros b r2 (n' & E2 & HQ). exists (n ++ n').
  split; [by rewrite E2, E1, app_assoc | done].
Qed.

Lemma does_mono {A} (m : Act A) (P Q : A -> list (Effect Cids) -> Prop) :
  does m P -> (forall a n, P a n -> Q a n) -> does m Q.
Proof. intros Hm HPQ r. eapply wp_mono; [apply Hm|]. cbv beta. intros a r' (n & E & HP). eauto. Qed.

Lemma does_try {E A B} (m : Act (result E A)) (k : A -> Act (result E B)) P Q :
  does m P -> (forall e n, P (Err e) n -> Q (Err e) n) ->
  (forall a n, P (Ok a) n -> does (k a) (fun b n' => Q b (n ++ n'))) -> does (and_then m k) Q.
Proof.
  intros Hm He Hk. eapply does_bind; [exact Hm|]. cbv beta. intros [a|e] n HP; [by apply Hk|].
  apply does_ret. rewrite app_nil_r. by apply He.
Qed.

(** A question has no effect; its answer is one the broker can give. *)
Definition answers {A} (m : M S A) (a : A) : Prop := exists s, fst (m s) = a.

Lemma does_ask {A} (m : M S A) (Q : A -> list (Effect Cids) -> Prop) :
  (forall a, answers m a -> Q a []) -> does (ask m) Q.
Proof.
  intros HQ r. unfold wp, ask. destruct (m (world r)) as [a s] eqn:E. exists [].
  split; [by rewrite app_nil_r|]. apply HQ. exists (world r). by rewrite E.
Qed.

Lemma does_perform {A} (e : A -> Effect Cids) (m : M S A) (Q : A -> list (Effect Cids) -> Prop) :
  (forall a, answers m a -> Q a [e a]) -> does (perform e m) Q.
Proof.
  intros HQ r. unfold perform. apply wp_bind. eapply wp_mono; [apply (does_ask m (fun a n => answers m a /\ n = []))|].
  { done. }
  cbv beta. intros a r1 (n & E1 & Ha & ->). exists [e a]. cbn. split; [|by apply HQ]. by rewrite E1, app_nil_r.
Qed.

Lemma does_on_in {A} (f : InInflight -> A * InInflight) (Q : A -> list (Effect Cids) -> Prop) :
  (forall i, Q (fst (f i)) []) -> does (on_in f) Q.
Proof.
  intros HQ r. unfold wp, on_in. destruct (f (in_inflight r)) as [a i] eqn:E. exists []. cbn.
  split; [by rewrite app_nil_r|]. specialize (HQ (in_inflight r)). by rewrite E in HQ.
Qed.

Lemma does_on_out {A} (f : OutInflight D -> A * OutInflight D) (Q : A -> list (Effect Cids) -> Prop) :
  (forall o, Q (fst (f o)) []) -> does (on_out f) Q.
Proof.
  intros HQ r. unfold wp, on_out. destruct (f (out_inflight r)) as [a i] eqn:E. exists []. cbn.
  split; [by rewrite app_nil_r|]. specialize (HQ (out_inflight r)). by rewrite E in HQ.
Qed.

(** One step of a proof about effects. *)
Ltac effects_step :=
  first
    [ apply does_ret
    | apply does_ask; intros ? ?
    | apply does_perform; intros ? ?
    | apply does_on_in; intros ?
    | apply does_on_out; intros ? ].

(** The messages a run hands on, the checks it makes, the ones it keeps. *)
Definition handed_on (e : Effect Cids) : option (MsgFrom * Publish) :=
  match e with
  | ERetain _ r _ => Some (ret_from r, ret_publish r)
  | EForward from p | EStore _ from p _ _ | EDelay from p => Some (from, p)
  | _ => None
  end.

Definition forwarded (e : Effect Cids) : option (MsgFrom * Publish) :=
  match e with EForward from p => Some (from, p) | _ => None end.

Definition the_check (e : Effect Cids) : option (Publish * PublishResult) :=
  match e with ECheck p r => Some (p, r) | _ => None end.

Definition enqueued (e : Effect Cids) : option (MsgFrom * Publish) :=
  match e with EEnqueue from p => Some (from, p) | _ => None end.

(** Every effect of the list hands on this message, if any; it is forwarded
    at most once, and nothing is checked. *)
Record hands_on (from : MsgFrom) (p : Publish) (n : list (Effect Cids)) : Prop := {
  h_only : Forall (fun x => x = (from, p)) (omap handed_on n);
  h_once : (length (omap forwarded n) <= 1)%nat;
  h_unchecked : omap the_check n = []
}.

(** Nothing is handed on or checked. *)
Definition silent (n : list (Effect Cids)) : Prop :=
  omap handed_on n = [] /\ omap forwarded n = [] /\ omap the_check n = [].

Lemma silent_nil : silent [].
Proof. done. Qed.

Lemma silent_app n n' : silent n -> silent n' -> silent (n ++ n').
Proof. intros (A1 & A2 & A3) (B1 & B2 & B3). unfold silent. by rewrite !omap_app_list, A1, A2, A3, B1, B2, B3. Qed.

Lemma hands_on_app from p n n' : hands_on from p n -> silent n' -> hands_on from p (n ++ n').
Proof.
  intros [H1 H2 H3] (B1 & B2 & B3). split; rewrite omap_app_list, ?B1, ?B2, ?B3, app_nil_r; done.
Qed.

Lemma hands_on_silent from p n n' : silent n -> hands_on from p n' -> hands_on from p (n ++ n').
Proof. intros (B1 & B2 & B3) [H1 H2 H3]. by split; rewrite omap_app_list, ?B1, ?B2, ?B3. Qed.

Lemma silent_hands_on from p n : silent n -> hands_on from p n.
Proof. intros (B1 & B2 & B3). split; rewrite ?B1, ?B2, ?B3; cbn; [constructor | lia | done]. Qed.

Lemma message_dropped_silent to from p why : does (message_dropped to from p why) (fun _ n => silent n).
Proof. by effects_step. Qed.

Lemma drop_all_silent errs : does (drop_all errs) (fun _ n => silent n).
Proof.
  induction errs as [|[[[to from] p] why] errs IH]; cbn [drop_all]; [by effects_step|].
  eapply does_bind; [apply message_dropped_silent|]. cbv beta. intros _ n Hn.
  eapply does_mono; [apply IH|]. cbv beta. intros _ n'. by apply silent_app.
Qed.

(** ** Lemmas: publishing *)

(** A full heap gives a delayed message back as it was, [delay_publish_spec]. *)
Definition delayed_gives_back : Prop := forall from p available expiry f q,
  answers (delayed_send from p available expiry) (Ok (Some (f, q))) -> f = from /\ q = p.

Definition stored (e : Effect Cids) : option (MsgFrom * Publish) :=
  match e with EStore _ from p _ _ => Some (from, p) | _ => None end.

Lemma set_retain_hands_on i from p expiry :
  does (set_retain i from p expiry)
    (fun res n => hands_on from p n /\ omap forwarded n = [] /\ omap stored n = []
                  /\ (f_retain build = false -> res = Ok tt)).
Proof.
  unfold set_retain. destruct (f_retain build); [|effects_step; by split; [apply silent_hands_on|]].
  eapply does_bind; [apply (does_ask _ (fun _ n => n = [])); done|]. cbv beta. intros enable n ->.
  destruct (enable && retain p); effects_step; [|by split; [apply silent_hands_on|]].
  split; [|done]. split; cbn; [by repeat constructor | lia | done].
Qed.

(** A message that is forwarded goes to the other sessions exactly once, and
    then to the store when it has an id and a time to live. *)
Lemma inner_forwards_does from p available expiry :
  does (inner_forwards from p available expiry) (fun res n =>
    hands_on from p n
    /\ (f_retain build = false ->
          res = Ok tt /\ omap forwarded n = [(from, p)]
          /\ omap stored n = if f_msgstore build && available && isSome expiry then [(from, p)] else [])).
Proof.
  unfold inner_forwards.
  eapply does_bind with (P := fun i n => n = [] /\ isSome i = f_msgstore build && available).
  { destruct (f_msgstore build && available); [|by effects_step].
    eapply does_bind; [apply (does_ask _ (fun _ n => n = [])); done|]. cbv beta. intros i n ->. by effects_step. }
  cbv beta. intros i n [-> Hi].
  eapply does_try; [apply set_retain_hands_on| |]; cbv beta.
  { intros e n (H1 & H2 & H3 & H4). split; [done|]. intros Hf. by specialize (H4 Hf). }
  intros _ n1 (H1 & H2 & H3 & _). cbn [app].
  eapply does_bind; [apply (does_perform _ _ (fun _ n => n = [EForward from p])); done|].
  cbv beta. intros res n2 ->.
  eapply does_bind with (P := fun _ n => silent n /\ omap stored n = []).
  { destruct res as [[c|]|errs]; [by effects_step| |].
    - eapply does_bind; [apply (does_perform _ _ (fun _ n => n = [ENonsubscribed from])); done|].
      cbv beta. intros _ n ->. by effects_step.
    - eapply does_bind with (P := fun _ n => silent n /\ omap stored n = []).
      + induction errs as [|[[[to f] q] why] errs IH]; cbn [drop_all]; [by effects_step|].
        eapply does_bind; [apply (does_perform _ _ (fun _ n => n = [EDrop (Some to) f q why])); done|].
        cbv beta. intros _ n ->. eapply does_mono; [apply IH|]. cbv beta. intros _ n' [A B].
        split; [by apply (silent_app [_]) | done].
      + cbv beta. intros _ n [Hs Hn]. effects_step. by rewrite app_nil_r. }
  cbv beta. intros cids n3 [H3a H3b].
  assert (hands_on from p (n1 ++ [EForward from p] ++ n3)) as Hall.
  { rewrite app_assoc. apply hands_on_app; [|done]. destruct H1 as [A1 A2 A3].
    split; rewrite omap_app_list, ?A3, ?H2; cbn; [apply Forall_app; split; [done | by repeat constructor] | lia | done]. }
  assert (omap forwarded (n1 ++ [EForward from p] ++ n3) = [(from, p)]) as Hfw.
  { destruct H3a as (_ & B & _). by rewrite !omap_app_list, H2, B. }
  assert (omap stored (n1 ++ [EForward from p] ++ n3) = []) as Hst by (by rewrite !omap_app_list, H3, H3b).
  assert (forall x, n1 ++ [EForward from p] ++ n3 ++ x = (n1 ++ [EForward from p] ++ n3) ++ x) as Happ
    by (intros x; by rewrite <- !app_assoc).
  rewrite <- Hi. destruct i as [i|], expiry as [e|]; cbn [isSome is_none negb andb].
  2-4: effects_step; by rewrite Happ, app_nil_r.
  eapply does_bind; [apply (does_perform _ _ (fun _ n => n = [EStore i from p e cids])); done|].
  cbv beta. intros _ n4 ->. effects_step. rewrite Happ. cbn [app] in *.
  split; [|by rewrite !omap_app_list in *; rewrite Hfw, Hst].
  destruct Hall as [A1 A2 A3]. split; rewrite omap_app_list; cbn.
  - apply Forall_app. split; [done | by repeat constructor].
  - by rewrite app_nil_r.
  - by rewrite app_nil_r.
Qed.

Lemma forwards_does from p available expiry : delayed_gives_back ->
  does (forwards from p available expiry) (fun res n =>
    hands_on from p n
    /\ (f_retain build = false -> f_delayed build = false \/ delay_interval p = None ->
          res = Ok tt /\ omap forwarded n = [(from, p)]
          /\ omap stored n = if f_msgstore build && available && isSome expiry then [(from, p)] else [])).
Proof.
  intros Hback. unfold forwards. destruct (f_delayed build && isSome (delay_interval p)) eqn:Hd.
  2:{ eapply does_mono; [apply inner_forwards_does|]. cbv beta. intros res n [H1 H2]. split; [done|]. auto. }
  apply andb_true_iff in Hd as [Hd1 Hd2].
  eapply does_mono with (P := fun _ n => hands_on from p n).
  2:{ cbv beta. intros res n Hn. split; [done|]. intros _ [?|Hp]; [congruence | by rewrite Hp in Hd2]. }
  eapply does_try with (P := fun res n => n = [EDelay from p]
    /\ answers (delayed_send from p available expiry) res).
  { effects_step. done. }
  { intros e n [-> _]. split; cbn; [by repeat constructor | lia | done]. }
  cbv beta. intros back n [-> Ha].
  assert (forall n', hands_on from p n' -> hands_on from p ([EDelay from p] ++ n')) as Hcons.
  { intros n' [A1 A2 A3]. split; cbn; [by constructor | done | done]. }
  destruct back as [[f q]|].
  - destruct (Hback _ _ _ _ _ _ Ha) as [-> ->]. destruct delayed_immediate.
    + eapply does_mono; [apply inner_forwards_does|]. cbv beta. intros res n' [H1 _]. by apply Hcons.
    + eapply does_bind; [apply message_dropped_silent|]. cbv beta. intros _ n' Hn'. effects_step.
      rewrite app_nil_r. by apply Hcons, silent_hands_on.
  - effects_step. by apply Hcons, silent_hands_on.
Qed.

Lemma apply_alias_silent p : does (apply_alias p) (fun _ n => n = []).
Proof.
  intros r. unfold wp, apply_alias. destruct (client_topic_aliases r) as [a|].
  - destruct (set_and_get _ _ a) as [res a']. exists []. cbn. by rewrite app_nil_r.
  - exists []. by rewrite app_nil_r.
Qed.

Lemma expiry_of_does available p :
  does (expiry_of available p) (fun e n => n = []
    /\ (available = true -> isSome e = true) /\ (f_retain build = false -> isSome e = available)).
Proof.
  unfold expiry_of.
  eapply does_bind with (P := fun kept n => n = [] /\ (available = true -> kept = true)
    /\ (f_retain build = false -> kept = available)).
  - destruct available; [by effects_step|]. destruct (f_retain build).
    + destruct (retain p); by effects_step.
    + rewrite andb_false_r. by effects_step.
  - cbv beta. intros kept n (-> & Hk & Hr). effects_step. destruct kept; cbn; [done|]. split; [done|]. split; [|done].
    intros ->. by specialize (Hk eq_refl).
Qed.

Lemma storage_available_does : does storage_available (fun b n => n = [] /\ (f_msgstore build = false -> b = false)).
Proof. unfold storage_available. destruct (f_msgstore build); by effects_step. Qed.

Lemma hook_publish_does from p :
  does (hook_publish from p) (fun q n => n = [EHook from p]
    /\ exists c, answers (hook_message_publish from p) c /\ q = default p c).
Proof.
  unfold hook_publish.
  eapply does_bind; [apply (does_perform _ _ (fun c n => n = [EHook from p] /\ answers (hook_message_publish from p) c)); done|].
  cbv beta. intros c n [-> Ha]. effects_step. split; [done|]. by exists c.
Qed.

(** What is kept, and forwarding. *)
Definition keep_and_forward (from : MsgFrom) (p : Publish) : Act (result Error unit) :=
  let! available := storage_available in
  let! expiry := expiry_of available p in
  forwards from p available expiry.

Lemma keep_and_forward_does from p : delayed_gives_back ->
  does (keep_and_forward from p) (fun res n =>
    hands_on from p n
    /\ (f_retain build = false -> f_delayed build = false \/ delay_interval p = None ->
          res = Ok tt /\ omap forwarded n = [(from, p)])).
Proof.
  intros Hback. unfold keep_and_forward.
  eapply does_bind; [apply storage_available_does|]. cbv beta. intros b n [-> _].
  eapply does_bind; [apply expiry_of_does|]. cbv beta. intros e n (-> & _).
  eapply does_mono; [by apply forwards_does|]. cbv beta. cbn [app]. intros res n [H1 H2]. split; [done|]. intros Hf Hd. by destruct (H2 Hf Hd) as (? & ? & _).
Qed.

(** The outcome of a publish: its effects begin with the hook and the check,
    and what follows an allowed one hands on the checked message. *)
Definition outcome (n : list (Effect Cids)) : Prop :=
  silent n
  \/ exists q0 q ack rest, n = EHook (from_custom id) q0 :: ECheck q ack :: rest
     /\ answers (hook_check_publish q) ack
     /\ if publish_acl_is_allow ack
        then hands_on (from_custom id) q rest
             /\ (f_retain build = false -> f_delayed build = false -> omap forwarded rest = [(from_custom id, q)])
        else silent rest.

Lemma outcome_app n n' : outcome n -> silent n' -> outcome (n ++ n').
Proof.
  intros [Hn|(q0 & q & ack & rest & -> & Ha & Hr)] Hn'; [left; by apply silent_app|]. right.
  exists q0, q, ack, (rest ++ n'). split; [done|]. split; [done|]. destruct (publish_acl_is_allow ack).
  - destruct Hr as [H1 H2]. split; [by apply hands_on_app|]. intros Hf Hd. destruct Hn' as (_ & B & _).
    by rewrite omap_app_list, B, app_nil_r, H2.
  - by apply silent_app.
Qed.

Lemma _publish_outcome p : delayed_gives_back ->
  does (_publish p) (fun res n => outcome n).
Proof.
  clear less_value max_qos_allowed.
  intros Hback. unfold _publish.
  eapply does_try; [apply apply_alias_silent|intros e n ->; by left|]. cbv beta. intros p1 n ->.
  eapply does_try with (P := fun _ n => n = []); [by effects_step|intros e n ->; by left|].
  cbv beta. intros p2 n ->. cbn [app]. unfold check_and_forward.
  eapply does_bind; [apply hook_publish_does|]. cbv beta. intros q n [-> _].
  eapply does_bind; [apply (does_perform _ _ (fun a n => n = [ECheck q a] /\ answers (hook_check_publish q) a)); done|].
  cbv beta. intros ack n [-> Ha]. destruct (publish_acl_is_allow ack) eqn:Hack; cbn [negb].
  - change (does (let! available := storage_available in let! expiry := expiry_of available q in
                  try! _ := forwards (from_custom id) q available expiry in ret (Ok publish_acl_allow))
              (fun _ n' => outcome ([EHook (from_custom id) p2] ++ [ECheck q ack] ++ n'))).
    eapply does_bind; [apply storage_available_does|]. cbv beta. intros b n [-> _].
    eapply does_bind; [apply expiry_of_does|]. cbv beta. intros e n (-> & _).
    eapply does_try with (P := fun _ n => hands_on (from_custom id) q n
      /\ (f_retain build = false -> f_delayed build = false -> omap forwarded n = [(from_custom id, q)])).
    + eapply does_mono; [by apply forwards_does|]. cbv beta. naive_solver.
    + intros _ n Hn. right. exists p2, q, ack, n. split; [done|]. by rewrite Hack.
    + cbv beta. intros _ n Hn. effects_step. rewrite app_nil_r. right. exists p2, q, ack, n. split; [done|]. by rewrite Hack.
  - eapply does_bind; [apply message_dropped_silent|]. cbv beta. intros _ n Hn. effects_step.
    rewrite app_nil_r. right. exists p2, q, ack, n. split; [done|]. by rewrite Hack.
Qed.

Lemma publish_outcome p : delayed_gives_back -> does (publish p) (fun _ n => outcome n).
Proof. clear less_value max_qos_allowed.
  intros Hback. unfold publish. eapply does_try; [by apply _publish_outcome|done|].
  cbv beta. intros a n Hn. effects_step. by rewrite app_nil_r.
Qed.

Lemma release_silent (b : bool) pid :
  does (if b then let! _ := on_in (in_remove pid) in ret tt else ret tt) (fun _ n => n = []).
Proof.
  destruct b; [|by effects_step]. eapply does_bind; [apply (does_on_in _ (fun _ n => n = [])); done|].
  cbv beta. intros _ n ->. by effects_step.
Qed.

Lemma process_publish_outcome p : delayed_gives_back -> does (process_publish p) (fun _ n => outcome n).
Proof. clear less_value max_qos_allowed.
  intros Hback. unfold process_publish. destruct (pub_qos p).
  - eapply does_bind; [by apply publish_outcome|]. cbv beta. intros res n Hn. effects_step. by rewrite app_nil_r.
  - eapply does_try with (P := fun _ n => n = []); [by effects_step|intros e n ->; by left|]. cbv beta. intros pid n ->.
    eapply does_bind; [apply (does_on_in _ (fun _ n => n = [])); done|]. cbv beta. intros added n ->. cbn [app].
    destruct added as [b|e].
    2:{ eapply does_bind; [apply message_dropped_silent|]. cbv beta. intros _ n Hn. effects_step. left.
        by rewrite app_nil_r. }
    eapply does_bind; [by apply publish_outcome|]. cbv beta. intros [res|e] n Hn.
    2:{ eapply does_bind; [apply release_silent|]. cbv beta. intros _ n' ->. effects_step. by rewrite !app_nil_r. }
    eapply does_bind; [apply (does_perform _ _ (fun _ n => n = [EAck pid res])); done|]. cbv beta. intros a n' ->.
    eapply does_bind; [apply release_silent|]. cbv beta. intros _ n' ->. effects_step. cbn [app].
    by apply outcome_app.
  - eapply does_try with (P := fun _ n => n = []); [by effects_step|intros e n ->; by left|]. cbv beta. intros pid n ->.
    cbn [app]. eapply does_bind; [by apply publish_outcome|]. cbv beta. intros [res|e] n Hn.
    2:{ effects_step. by rewrite app_nil_r. }
    eapply does_bind with (P := fun _ n => n = []); [destruct (pub_success res); by effects_step|].
    cbv beta. intros [b|e] n' ->; [|effects_step; by rewrite !app_nil_r].
    eapply does_bind; [apply (does_perform _ _ (fun _ n => n = [EReceived pid res])); done|]. cbv beta. intros a n' ->.
    eapply does_bind; [apply release_silent|]. cbv beta. intros _ n' ->. effects_step. cbn [app].
    by apply outcome_app.
Qed.

(** ** Theorems: publishing *)

Lemma omap_elem {A B} (f : A -> option B) (l : list A) x b : x ∈ l -> f x = Some b -> b ∈ omap f l.
Proof. intros Hx Hf. apply list_elem_of_omap. eauto. Qed.

(** The access check guards publishing: whatever a client publishes, at any
    quality of service and in any state of its session, a message is retained,
    delayed, forwarded or stored only in the client's own name and only after
    the check has allowed this very message, as the hook left it; it is
    forwarded at most once. *)
Theorem publish_checked p r : delayed_gives_back ->
  let r' := snd (process_publish p r) in
  exists new, effects r' = effects r ++ new
  /\ (forall n1 e n2 from q, new = n1 ++ e :: n2 -> handed_on e = Some (from, q) ->
        from = from_custom id /\ exists ack, ECheck q ack ∈ n1 /\ publish_acl_is_allow ack = true)
  /\ (length (omap forwarded new) <= 1)%nat.
Proof.
  clear less_value max_qos_allowed.
  intros Hback. pose proof (wp_run _ _ _ (process_publish_outcome p Hback r)) as (n & E & Hn).
  exists n. split; [exact E|]. destruct Hn as [(A1 & A2 & A3)|(q0 & q & ack & rest & -> & _ & Hr)].
  - split; [|rewrite A2; cbn; lia]. intros n1 e n2 from q -> He. exfalso.
    assert ((from, q) ∈ omap handed_on (n1 ++ e :: n2)) as Hin by (eapply omap_elem; [|exact He]; set_solver).
    rewrite A1 in Hin. by apply elem_of_nil in Hin.
  - split.
    + intros n1 e n2 from q' En He.
      destruct n1 as [|x1 n1]; [by injection En as <- _|]. injection En as <- En.
      destruct n1 as [|x2 n1]; [by injection En as <- _|]. injection En as <- ->.
      assert ((from, q') ∈ omap handed_on (n1 ++ e :: n2)) as Hin by (eapply omap_elem; [|exact He]; set_solver).
      destruct (publish_acl_is_allow ack) eqn:Hack.
      * destruct Hr as [[A1 _ _] _]. rewrite Forall_forall in A1. specialize (A1 _ Hin). injection A1 as -> ->.
        split; [done|]. exists ack. split; [set_solver | done].
      * destruct Hr as (A1 & _). rewrite A1 in Hin. by apply elem_of_nil in Hin.
    + cbn. destruct (publish_acl_is_allow ack); [by destruct Hr as [[_ A2 _] _]|]. destruct Hr as (_ & A2 & _).
      rewrite A2. cbn. lia.
Qed.

Lemma process_last_will_does p : delayed_gives_back ->
  does (process_last_will (Some (Ok p))) (fun res n => exists q rest, n = EHook (from_lastwill id) p :: rest
    /\ (exists c, answers (hook_message_publish (from_lastwill id) p) c /\ q = default p c)
    /\ hands_on (from_lastwill id) q rest
    /\ (f_retain build = false -> f_delayed build = false ->
          res = Ok tt /\ omap forwarded rest = [(from_lastwill id, q)])).
Proof.
  intros Hback. unfold process_last_will.
  eapply does_try with (P := fun a n => a = Ok p /\ n = []); [by effects_step|by intros e n [? _]|].
  cbv beta. intros p1 n [[= ->] ->]. eapply does_bind; [apply hook_publish_does|]. cbv beta. intros q n [-> Hc].
  eapply does_mono; [by apply (keep_and_forward_does (from_lastwill id) q)|]. cbv beta.
  intros res n [H1 H2]. exists q, n. split; [done|]. split; [done|]. split; [done|]. auto.
Qed.

(** The last will has no access check: a client's will is handed on as its
    own without a question to the check, whatever the topic; in the build
    without retained and delayed messages it is forwarded, exactly once. *)
Theorem last_will_unchecked p r : delayed_gives_back ->
  let '(res, r') := process_last_will (Some (Ok p)) r in
  exists new, effects r' = effects r ++ new /\ omap the_check new = []
  /\ (f_retain build = false -> f_delayed build = false ->
        res = Ok tt /\ exists q, omap forwarded new = [(from_lastwill id, q)]).
Proof.
  intros Hback. pose proof (process_last_will_does p Hback r) as Hw. unfold wp in Hw.
  destruct (process_last_will _ r) as [res r']. destruct Hw as (n & E & q & rest & -> & _ & [_ _ A3] & H2).
  exists (EHook (from_lastwill id) p :: rest). split; [exact E|]. split; [exact A3|].
  intros Hf Hd. destruct (H2 Hf Hd) as [-> H3]. split; [done|]. by exists q.
Qed.

(** ** The window of incoming packet ids *)

(** [m] leaves the window as it is. *)
Definition keeps_window {A} (m : Act A) : Prop := forall r, in_inflight (snd (m r)) = in_inflight r.

Lemma window_ret {A} (a : A) : keeps_window (ret a).
Proof. done. Qed.

Lemma window_bind {A B} (m : Act A) (k : A -> Act B) : keeps_window m -> (forall a, keeps_window (k a)) -> keeps_window (bind m k).
Proof.
  intros Hm Hk r. unfold bind. specialize (Hm r). destruct (m r) as [a r1]. rewrite Hk. exact Hm.
Qed.

Lemma window_try {E A B} (m : Act (result E A)) (k : A -> Act (result E B)) :
  keeps_window m -> (forall a, keeps_window (k a)) -> keeps_window (and_then m k).
Proof. intros Hm Hk. apply window_bind; [done|]. intros [a|e]; [done | apply window_ret]. Qed.

Lemma window_ask {A} (m : M S A) : keeps_window (ask m).
Proof. intros r. unfold ask. by destruct (m (world r)). Qed.

Lemma window_perform {A} (e : A -> Effect Cids) (m : M S A) : keeps_window (perform e m).
Proof. apply window_bind; [apply window_ask|]. intros a. by apply window_bind. Qed.

Lemma window_alias p : keeps_window (apply_alias p).
Proof. intros r. unfold apply_alias. destruct (client_topic_aliases r); [by destruct (set_and_get _ _ _)|done]. Qed.

(** By the structure of the computation; [known] proves it of its calls. *)
Ltac window_by known :=
  repeat first
    [ known | apply window_ret | apply window_ask | apply window_perform | apply window_alias
    | apply window_try; [|intros ?] | apply window_bind; [|intros ?]
    | progress cbv beta | case_goal ].

Lemma window_drop_all errs : keeps_window (drop_all errs).
Proof. induction errs as [|[[[to from] p] why] errs IH]; cbn [drop_all]; [done|]. apply window_bind; [apply window_perform | done]. Qed.

Lemma window_inner from p b e : keeps_window (inner_forwards from p b e).
Proof.
  unfold inner_forwards, set_retain. window_by ltac:(apply window_drop_all).
Qed.

Lemma window_publish p : keeps_window (publish p).
Proof. clear less_value max_qos_allowed.
  unfold publish, _publish, check_and_forward, hook_publish, storage_available, expiry_of, forwards, message_dropped.
  window_by ltac:(apply window_inner).
Qed.

Lemma on_in_run {A} (f : InInflight -> A * InInflight) r :
  fst (on_in f r) = fst (f (in_inflight r)) /\ in_inflight (snd (on_in f r)) = snd (f (in_inflight r)).
Proof. unfold on_in. by destruct (f (in_inflight r)). Qed.

Lemma bind_run {A B} (m : Act A) (k : A -> Act B) r : bind m k r = k (fst (m r)) (snd (m r)).
Proof. unfold bind. by destruct (m r). Qed.

Lemma window_run {A} (m : Act A) r : keeps_window m -> in_inflight (snd (m r)) = in_inflight r.
Proof. auto. Qed.

Lemma release_run (b : bool) pid r :
  in_inflight (snd ((if b then (let! _ := on_in (in_remove pid) in ret tt) else ret tt) r))
  = if b then snd (in_remove pid (in_inflight r)) else in_inflight r.
Proof. destruct b; [|done]. rewrite bind_run. cbn. apply on_in_run. Qed.

(** The window keeps its invariant; only a QoS 2 publish leaves its packet id
    in it, and only when it was not there. *)
Theorem process_publish_window p r :
  in_inv (in_inflight r) ->
  let r' := snd (process_publish p r) in
  in_inv (in_inflight r')
  /\ (in_inflight r' = in_inflight r
      \/ exists pid, pub_qos p = ExactlyOnce /\ packet_id p = Some pid /\ pid ∉ cached (in_inflight r)
         /\ in_inflight r' = snd (in_add pid ExactlyOnce (in_inflight r))).
Proof.
  clear less_value max_qos_allowed.
  intros Hi r'. assert (in_inflight r' = in_inflight r
      \/ exists pid, pub_qos p = ExactlyOnce /\ packet_id p = Some pid /\ pid ∉ cached (in_inflight r)
         /\ in_inflight r' = snd (in_add pid ExactlyOnce (in_inflight r))) as Hr'.
  2:{ split; [|done]. destruct Hr' as [->|(pid & _ & _ & _ & ->)]; [done|]. by apply (in_step_inv _ (IAdd pid ExactlyOnce)). }
  unfold r', process_publish. destruct (pub_qos p).
  - left. rewrite bind_run. cbn. apply window_publish.
  - left. unfold and_then. rewrite bind_run. cbn [fst snd ret]. destruct (the_packet_id (packet_id p)) as [pid|e]; [|done].
    rewrite bind_run. destruct (on_in_run (in_add pid AtLeastOnce) r) as [-> E2].
    destruct (fst (in_add pid AtLeastOnce (in_inflight r))) as [b|e] eqn:E.
    + assert (forall r2, in_inflight r2 = in_inflight (snd (on_in (in_add pid AtLeastOnce) r)) ->
        (if b then snd (in_remove pid (in_inflight r2)) else in_inflight r2) = in_inflight r) as Hrel.
      { intros r2 ->. rewrite E2. destruct b; [by apply in_add_remove|]. apply in_add_same. congruence. }
      rewrite bind_run. destruct (fst (publish p _)) as [res|e].
      * rewrite bind_run, bind_run. cbn [snd ret]. rewrite release_run. apply Hrel.
        rewrite window_perform. apply window_publish.
      * rewrite bind_run. cbn [snd ret]. rewrite release_run. apply Hrel. apply window_publish.
    + rewrite bind_run. cbn [snd ret]. unfold message_dropped. rewrite window_perform, E2. apply in_add_same. congruence.
  - unfold and_then. rewrite bind_run. cbn [fst snd ret]. destruct (packet_id p) as [pid|]; [|by left]. cbn [the_packet_id].
    rewrite bind_run. pose proof (window_publish p r) as Hk.
    destruct (publish p r) as [[res|e] r1]; [|by left]. cbn [fst snd] in *. rewrite bind_run.
    destruct (pub_success res).
    + destruct (on_in_run (in_add pid ExactlyOnce) r1) as [-> E2]. rewrite Hk in *.
      destruct (fst (in_add pid ExactlyOnce (in_inflight r))) as [b|e] eqn:E.
      2:{ left. cbn. rewrite E2. apply in_add_same. congruence. }
      assert (b = true -> pid ∉ cached (in_inflight r)) as Hfresh.
      { intros ->. revert E. unfold in_add. destruct (_ >=? _); [done|]. by case_decide. }
      rewrite bind_run, bind_run. cbn [snd ret]. rewrite release_run.
      destruct b; cbn [andb]; [|left; rewrite window_perform, E2; apply in_add_same; congruence].
      destruct (negb _); rewrite window_perform, E2; [|right; exists pid; split; [done|]; split; [done|]; split; [by apply Hfresh|]; by rewrite ?window_perform, ?E2]. left.
      revert E. unfold in_add. destruct (_ >=? _); [done|]. case_decide as Hp; [done|]. intros _. unfold in_remove. cbn.
      rewrite decide_True by set_solver. destruct (in_inflight r) as [c m n]. cbn in *. f_equal; [set_solver | lia].
    + left. cbn [fst snd ret]. rewrite bind_run, bind_run. cbn [snd ret andb]. by rewrite window_perform.
Qed.

Lemma allowed_forwarded p :
  f_retain build = false -> f_delayed build = false ->
  (forall q ack, answers (hook_check_publish q) ack -> publish_acl_is_allow ack = true) ->
  does (check_and_forward (from_custom id) p)
    (fun res new => res = Ok publish_acl_allow /\ exists q, omap forwarded new = [(from_custom id, q)]).
Proof.
  intros Hf Hd Hallow. unfold check_and_forward.
  eapply does_bind; [apply hook_publish_does|]. cbv beta. intros q n [-> _].
  eapply does_bind; [apply (does_perform _ _ (fun a n => n = [ECheck q a] /\ publish_acl_is_allow a = true))|].
  { intros a Ha. split; [done | by eapply Hallow]. }
  cbv beta. intros ack n [-> ->]. cbn [negb].
  eapply does_bind; [apply storage_available_does|]. cbv beta. intros b n [-> _].
  eapply does_bind; [apply expiry_of_does|]. cbv beta. intros e n (-> & _).
  unfold forwards. rewrite Hd. cbn [andb].
  eapply does_try; [apply inner_forwards_does| |]; cbv beta.
  - intros e' n [_ H2]. by destruct (H2 Hf) as [? _].
  - intros u n [_ H2]. destruct (H2 Hf) as (_ & H3 & _). effects_step. split; [done|]. exists q.
    cbn [app]. rewrite app_nil_r. exact H3.
Qed.

(** the packet id is looked at after the message is handed on: a QoS 2 message
    whose id the session still holds, so that it must be a repetition, is
    forwarded again, and only then refused. *)
Theorem repetition_forwarded p pid r :
  f_retain build = false -> f_delayed build = false ->
  (forall q ack, answers (hook_check_publish q) ack -> publish_acl_is_allow ack = true) ->
  client_topic_aliases r = None ->
  pub_qos p = ExactlyOnce -> packet_id p = Some pid -> pid ∈ cached (in_inflight r) ->
  let '(res, r') := process_publish p r in
  (exists e, res = Err (InflightReason e))
  /\ exists new q, effects r' = effects r ++ new /\ omap forwarded new = [(from_custom id, q)].
Proof.
  intros Hf Hd Hallow Hal Hq Hpid Hin.
  assert (_publish p r = check_and_forward (from_custom id) p r) as Hcore.
  { unfold _publish, apply_alias, parse_delayed, and_then, bind. rewrite Hal, Hd. done. }
  pose proof (allowed_forwarded p Hf Hd Hallow r) as Hp. unfold wp in Hp. rewrite <- Hcore in Hp.
  unfold process_publish. rewrite Hq, Hpid. cbn [the_packet_id]. unfold and_then at 1. rewrite bind_run. cbn [fst snd ret].
  rewrite bind_run. pose proof (window_publish p r) as Hk. unfold publish, and_then in *. rewrite bind_run in *.
  destruct (_publish p r) as [res r1]. destruct Hp as (new & E & -> & q & Hnew). cbn [fst snd ret] in *.
  cbn [pub_success publish_acl_is_allow reason_code publish_acl_allow]. rewrite bind_run.
  destruct (on_in_run (in_add pid ExactlyOnce) r1) as [-> _]. rewrite Hk. unfold in_add at 1.
  assert (effects (snd (on_in (in_add pid ExactlyOnce) r1)) = effects r1) as He
    by (unfold on_in; by destruct (in_add _ _ _)).
  destruct (_ >=? _); cbn [fst].
  - cbn. split; [by eexists|]. exists new, q. by rewrite He.
  - rewrite decide_True by done. cbn. split; [by eexists|]. exists new, q. by rewrite He.
Qed.

(** ** Theorems: subscribing *)

Definition subscribed (e : Effect Cids) : option Subscribe :=
  match e with ESubscribe s => Some s | _ => None end.

Lemma enqueue_does from p : does (enqueue from p) (fun _ n => omap subscribed n = []).
Proof.
  unfold enqueue. eapply does_bind; [apply (does_perform _ _ (fun _ n => n = [EEnqueue from p])); done|].
  cbv beta. intros [u|[[f q] why]] n ->; [by effects_step|]. unfold message_dropped. by effects_step.
Qed.

Lemma no_subscribe_app n n' : omap subscribed n = [] -> omap subscribed n' = [] -> omap subscribed (n ++ n') = [].
Proof. intros H1 H2. by rewrite omap_app_list, H1, H2. Qed.

Lemma send_retain_does q retains : does (send_retain_messages q retains) (fun _ n => omap subscribed n = []).
Proof.
  induction retains as [|[t r] retains IH]; cbn [send_retain_messages]; [by effects_step|].
  eapply does_bind; [apply (does_ask _ (fun _ n => n = [])); done|]. cbv beta. intros now n ->.
  eapply does_bind; [apply enqueue_does|]. cbv beta. intros _ n Hn. eapply does_mono; [apply IH|].
  cbv beta. intros _ n'. cbn [app]. by apply no_subscribe_app.
Qed.

Lemma send_storaged_does q ex ms : does (_send_storaged_messages q ex ms) (fun _ n => omap subscribed n = []).
Proof.
  induction ms as [|[[i from] p] ms IH]; cbn [_send_storaged_messages]; [by effects_step|].
  eapply does_bind with (P := fun _ n => omap subscribed n = []).
  { destruct (excluded ex from i); [by effects_step | apply enqueue_does]. }
  cbv beta. intros _ n Hn. eapply does_mono; [apply IH|]. cbv beta. intros _ n'. by apply no_subscribe_app.
Qed.

Lemma after_subscribe_does s ret_ : does (after_subscribe s ret_) (fun _ n => omap subscribed n = []).
Proof.
  unfold after_subscribe. destruct (success ret_) as [q|]; [|by effects_step].
  eapply does_try with (P := fun _ n => omap subscribed n = []); [|done|].
  { unfold send_retained. destruct (f_retain build); [|by effects_step].
    eapply does_bind; [apply (does_ask _ (fun _ n => n = [])); done|]. cbv beta. intros enable n ->.
    destruct enable; [|by effects_step]. case_goal; [|by effects_step].
    eapply does_try with (P := fun _ n => n = []); [by effects_step|by intros ? ? ->|]. cbv beta. intros rs n ->.
    eapply does_bind; [apply send_retain_does|]. cbv beta. intros _ n Hn. effects_step. cbn [app]. by rewrite app_nil_r. }
  cbv beta. intros ex n Hn. eapply does_bind; [apply storage_available_does|]. cbv beta. intros b n' [-> _].
  eapply does_try with (P := fun _ n => omap subscribed n = []).
  { destruct b; [|by effects_step]. unfold send_storaged_messages.
    eapply does_try with (P := fun _ n => n = []); [by effects_step|by intros ? ? ->|]. cbv beta. intros ms n' ->.
    eapply does_bind; [apply send_storaged_does|]. cbv beta. intros _ n' Hn'. effects_step. cbn [app]. by rewrite app_nil_r. }
  { intros e n' Hn'. cbn [app]. by apply no_subscribe_app. }
  cbv beta. intros _ n' Hn'. eapply does_bind; [apply (does_perform _ _ (fun _ n => n = [ESubscribed s])); done|].
  cbv beta. intros _ n2 ->. effects_step. cbn [app]. apply no_subscribe_app; [done|]. by apply no_subscribe_app.
Qed.

Lemma limits_does s : does (check_subscribe_limits s) (fun _ n => n = []).
Proof.
  unfold check_subscribe_limits. eapply does_try with (P := fun _ n => n = []); [|done|].
  - destruct (max_subscriptions >? 0); [|by effects_step].
    eapply does_try with (P := fun _ n => n = []); [by effects_step|done|]. cbv beta. intros k n ->. by effects_step.
  - cbv beta. intros _ n ->. by effects_step.
Qed.

Lemma qos_set_opts q s : qos (opts (set_opts_qos q s)) = q.
Proof. unfold set_opts_qos. cbn. by destruct (opts s). Qed.

(** What a subscription does: nothing, or the check of [s0] and then at most one
    subscription [s'] that the check does not refuse. *)
Definition sub_outcome (s : Subscribe) (res : result Error SubscribeReturn) (new : list (Effect Cids)) : Prop :=
  new = []
  \/ exists s0 ack rest, new = ESubCheck s0 ack :: rest
     /\ match ack with
        | Some a => match success a with None => rest = [] /\ res = Ok a | Some _ => True end
        | None => True
        end
     /\ (rest = [] \/ exists s' rest', rest = ESubscribe s' :: rest' /\ omap subscribed rest' = []
          /\ topic_filter s' = topic_filter s0
          /\ qos_code (qos (opts s')) <= Z.min (qos_code (qos (opts s))) (qos_code max_qos_allowed)
          /\ match ack with
             | Some a => exists q, success a = Some q /\ qos_code (qos (opts s')) <= qos_code q
             | None => True
             end).

(** C28: a subscription reaches the router at most once, and only after the access
    check was asked about the same filter and did not refuse it; its quality
    of service is at most the requested one, the listener's and the one the
    check grants. A refusal is the answer, and has no other effect. *)
Theorem subscribe_checked s r :
  (forall a b, qos_code (less_value a b) = Z.min (qos_code a) (qos_code b)) ->
  let '(res, r') := _subscribe s r in
  exists new, effects r' = effects r ++ new /\ sub_outcome s res new.
Proof.
  intros Hless. assert (does (_subscribe s) (sub_outcome s)) as Hdo.
  2:{ specialize (Hdo r). unfold wp in Hdo. by destruct (_subscribe s r). }
  unfold _subscribe. eapply does_try; [apply limits_does|intros e n ->; by left|]. cbv beta. intros _ n ->. cbn [app].
  eapply does_bind; [apply (does_ask _ (fun _ n => n = [])); done|]. cbv beta. intros c n ->. cbn [app].
  set (s0 := mkSubscribe _ _). eapply does_bind; [apply (does_perform _ _ (fun a n => n = [ESubCheck s0 a])); done|].
  cbv beta. intros ack n ->. cbn [app].
  assert (qos (opts s0) = less_value (qos (opts s)) max_qos_allowed) as Hq0 by apply qos_set_opts.
  assert (forall s', does (try! sub_ret := perform (fun _ => ESubscribe s') (shared_subscribe s') in after_subscribe s' sub_ret)
    (fun _ n => exists rest', n = ESubscribe s' :: rest' /\ omap subscribed rest' = [])) as Hsub.
  { intros s'. eapply does_try; [apply (does_perform _ _ (fun _ n => n = [ESubscribe s'])); done|intros e n ->; by exists []|].
    cbv beta. intros a n ->. eapply does_mono; [apply after_subscribe_does|]. cbv beta. intros _ n Hn. by exists n. }
  destruct ack as [a|].
  - destruct (success a) as [q|] eqn:Ha.
    + eapply does_mono; [apply Hsub|]. cbv beta. intros res n (rest' & -> & Hr). right.
      exists s0, (Some a). eexists. split; [done|]. rewrite Ha. split; [done|]. right.
      eexists _, rest'. split; [done|]. split; [done|]. split; [done|]. rewrite qos_set_opts, !Hless, Hq0, Hless.
      split; [lia|]. exists q. split; [done | lia].
    + effects_step. right. exists s0, (Some a), []. rewrite Ha. split; [done|]. split; [done | by left].
  - eapply does_mono; [apply Hsub|]. cbv beta. intros res n (rest' & -> & Hr). right.
    exists s0, None. eexists. split; [done|]. split; [done|]. right.
    eexists _, rest'. split; [done|]. split; [done|]. split; [done|]. rewrite Hq0, Hless. split; [lia | done].
Qed.

(** ** Theorems: delivery *)

(** The session after a call of the broker that is recorded. *)
Definition after {A} (m : M S A) (e : list (Effect Cids)) (r : Run) : Run :=
  mkRun (snd (m (world r))) (in_inflight r) (out_inflight r) (client_topic_aliases r) (effects r ++ e).

Lemma ask_run {A} (m : M S A) r : ask m r = (fst (m (world r)), after m [] r).
Proof. unfold ask, after, with_world. destruct (m (world r)). by rewrite app_nil_r. Qed.

Lemma perform_run {A} (e : A -> Effect Cids) (m : M S A) r :
  perform e m r = (fst (m (world r)), after m [e (fst (m (world r)))] r).
Proof. unfold perform. rewrite bind_run, ask_run. unfold after. cbn. by rewrite app_nil_r. Qed.

Lemma on_out_run {A} (f : OutInflight D -> A * OutInflight D) r :
  on_out f r = (fst (f (out_inflight r)),
    mkRun (world r) (in_inflight r) (snd (f (out_inflight r))) (client_topic_aliases r) (effects r)).
Proof. unfold on_out. by destruct (f (out_inflight r)). Qed.

Lemma next_id_ok (o : OutInflight D) pid : 0 <= next o -> fst (next_id o) = Ok pid ->
  0 < pid /\ exist pid o = false.
Proof.
  unfold next_id, exist. generalize (Z.to_nat u16_max). intros rounds Hn.
  assert (forall n, 0 <= n -> fst (next_id_loop rounds (queues o) n) = Ok pid -> 0 < pid /\ isSome (dm_get pid (queues o)) = false) as Hl.
  { clear Hn. induction rounds as [|rounds IH]; intros n Hn; [done|]. cbn [next_id_loop].
    assert (0 <= wrap_u16 (n + 1)) by (apply Z.mod_pos_bound; lia).
    destruct (Z.eqb_spec n 0); [by apply IH|]. destruct (isSome (dm_get n (queues o))) eqn:E; [by apply IH|].
    cbn. intros [= <-]. split; [lia | done]. }
  intros Hf. apply (Hl (next o) Hn). by destruct (next_id_loop _ _ _).
Qed.

Lemma next_id_queues (o : OutInflight D) : queues (snd (next_id o)) = queues o.
Proof. unfold next_id. by destruct (next_id_loop _ _ _). Qed.

(** The packet a message is sent as: without a packet id of the sender's own,
    unless it is not to be acknowledged or is a repetition with its id. *)
Definition sent_as (o : OutInflight D) (p q : Publish) : Prop :=
  match pub_qos p, cp_dup (packet p), packet_id p with
  | AtMostOnce, _, _ => q = p
  | _, true, Some _ => q = p
  | _, _, _ => exists pid, q = set_packet_id (Some pid) p /\ 0 < pid /\ exist pid o = false
  end.

Lemma with_packet_id_run p r :
  0 <= next (out_inflight r) ->
  let '(res, r1) := with_packet_id p r in
  world r1 = world r /\ effects r1 = effects r /\ queues (out_inflight r1) = queues (out_inflight r)
  /\ match res with
     | Ok q => sent_as (out_inflight r) p q /\ (needs_ack (pub_qos p) = true -> is_Some (packet_id q))
               /\ pub_qos q = pub_qos p
     | Err e => pub_qos p <> AtMostOnce /\ exists why, e = Other why /\ fst (next_id (out_inflight r)) = Err why
     end.
Proof.
  intros Hn. unfold with_packet_id, sent_as. destruct (needs_ack (pub_qos p) && _) eqn:Hneeds.
  - rewrite bind_run, on_out_run. cbn [fst snd ret]. cbn [world effects out_inflight].
    rewrite next_id_queues. split; [done|]. split; [done|]. split; [done|].
    apply andb_true_iff in Hneeds as [Hq Hid].
    destruct (fst (next_id (out_inflight r))) as [pid|e] eqn:E; [|by split; [destruct (pub_qos p)|exists e]].
    apply next_id_ok in E as [Hpid Hex]; [|done]. rewrite (proj2 (Z.eqb_neq pid 0)) by lia.
    split; [|by split; [eexists|]].
    destruct (pub_qos p); [done| |]; (destruct (cp_dup (packet p)), (packet_id p); try done; by exists pid).
  - cbn. split; [done|]. split; [done|]. split; [done|].
    destruct (pub_qos p); cbn in Hneeds; [by repeat split| |];
      (destruct (cp_dup (packet p)), (packet_id p); try done; by repeat split; eexists).
Qed.


(** ** Theorems: taking over, and the offline session *)

Lemma forward_does from p : does (forward from p) (fun _ n => omap enqueued n = [(from, p)]).
Proof.
  unfold forward. eapply does_bind; [apply (does_perform _ _ (fun _ n => n = [EEnqueue from p])); done|].
  cbv beta. intros [u|[f q]] n ->; [by effects_step|]. unfold message_dropped. by effects_step.
Qed.

Definition unfinished (m : OutInflightMessage) : bool :=
  match moment m with UnComplete => false | _ => true end.

Definition resent (m : OutInflightMessage) : MsgFrom * Publish := (out_from m, set_dup (out_publish m)).

Lemma enqueued_app n n' l l' : omap enqueued n = l -> omap enqueued n' = l' -> omap enqueued (n ++ n') = l ++ l'.
Proof. intros <- <-. apply omap_app_list. Qed.

Lemma reforward_all_does ms :
  does (reforward_all ms) (fun _ n => omap enqueued n = map resent (List.filter unfinished ms)).
Proof.
  induction ms as [|m ms IH]; cbn [reforward_all]; [by effects_step|].
  eapply does_bind with (P := fun _ n => omap enqueued n = map resent (List.filter unfinished [m])).
  - cbn. unfold unfinished. destruct (moment m) eqn:Hm; [| |by effects_step].
    1,2: eapply does_bind with (P := fun _ n => omap enqueued n = [resent m]);
      [|cbv beta; intros _ n Hn; effects_step; by rewrite app_nil_r].
    1,2: unfold reforward; rewrite Hm; eapply does_bind; [apply forward_does|];
      cbv beta; intros _ n Hn; effects_step; by rewrite app_nil_r.
  - cbv beta. intros _ n Hn. eapply does_mono; [apply IH|]. cbv beta. intros _ n' Hn'.
    rewrite (enqueued_app _ _ _ _ Hn Hn'). rewrite <- map_app. f_equal. cbn. by destruct (unfinished m).
Qed.

Lemma forward_all_does ms : does (forward_all ms) (fun _ n => omap enqueued n = ms).
Proof.
  induction ms as [|[from p] ms IH]; cbn [forward_all]; [by effects_step|].
  eapply does_bind; [apply forward_does|]. cbv beta. intros _ n Hn. eapply does_mono; [apply IH|].
  cbv beta. intros _ n' Hn'. by rewrite (enqueued_app _ _ _ _ Hn Hn').
Qed.

(** a session that is taken over gets every message of the old one again: the
    unacknowledged ones marked as duplicates, and then those that waited; but
    the unacknowledged ones come in the reverse of their order, and one whose
    exactly-once delivery is half done is left out. *)
Theorem transfer_order clear info r :
  let '(res, r') := transfer_session_state clear info r in
  exists new, effects r' = effects r ++ new
  /\ (res = Ok tt -> exists from_store, (clear = true -> from_store = [])
      /\ omap enqueued new
         = from_store ++ map resent (rev (List.filter unfinished (inflight_messages info))) ++ offline_messages info).
Proof.
  assert (does (transfer_session_state clear info) (fun res n => res = Ok tt -> exists from_store,
    (clear = true -> from_store = []) /\ omap enqueued n
      = from_store ++ map resent (rev (List.filter unfinished (inflight_messages info))) ++ offline_messages info)) as Hd.
  2:{ specialize (Hd r). unfold wp in Hd. by destruct (transfer_session_state clear info r). }
  unfold transfer_session_state.
  eapply does_bind with (P := fun _ n => clear = true -> omap enqueued n = []).
  { destruct clear; [by effects_step|]. intros r0. unfold wp. 
    assert (forall (m : Act unit), does m (fun _ _ => True) -> wp m (fun _ r' => exists n, effects r' = effects r0 ++ n /\ (false = true -> omap enqueued n = [])) r0) as Hany.
    { intros m Hm. eapply wp_mono; [apply Hm|]. cbv beta. intros _ r1 (n & E & _). by exists n. }
    apply Hany. clear Hany. induction (off_subscriptions info) as [|[tf o] subs IH]; cbn [transfer_subscriptions]; [by effects_step|].
    eapply does_bind with (P := fun _ _ => True); [by effects_step|]. cbv beta. intros _ n _.
    eapply does_bind with (P := fun _ _ => True); [|cbv beta; intros _ n' _; by eapply does_mono; [apply IH|]].
    destruct (f_msgstore build); [|by effects_step]. eapply does_bind with (P := fun _ _ => True); [|by intros; effects_step].
    unfold send_storaged_messages. eapply does_try with (P := fun _ _ => True); [by effects_step|done|]. cbv beta.
    intros ms n' _. eapply does_bind; [apply send_storaged_does|]. cbv beta. intros. by effects_step. }
  cbv beta. intros _ n1 Hn1.
  eapply does_try with (P := fun _ n => n = []); [destruct clear; by effects_step|done|].
  cbv beta. intros _ n ->. eapply does_bind; [apply reforward_all_does|]. cbv beta. intros _ n2 Hn2.
  eapply does_bind; [apply forward_all_does|]. cbv beta. intros _ n3 Hn3. effects_step. intros _.
  exists (omap enqueued n1). split; [done|]. rewrite app_nil_r. cbn [app].
  rewrite !omap_app_list, Hn2, Hn3. do 3 f_equal. clear.
  induction (inflight_messages info) as [|m ms IH]; [done|]. cbn. rewrite List.filter_app, IH. cbn.
  destruct (unfinished m); cbn; [done | by rewrite app_nil_r].
Qed.

(** The will becomes due before the offline session ends: at the end of its
    delay or at the expiry of the session, unless the session is taken over. *)
Fixpoint will_due (es : list OfflineEvent) : bool :=
  match es with
  | [] => false
  | OffExpired :: _ | OffWillDelay :: _ => true
  | OffKick false _ _ :: _ | OffClosed :: _ => false
  | _ :: es' => will_due es'
  end.

Lemma offline_step_other lw e flags will :
  match e with OffExpired | OffWillDelay => will = None | _ => True end ->
  does (offline_step lw e (flags, will)) (fun res n => omap forwarded n = []
    /\ snd (fst res) = match e with OffWillDelay => None | _ => will end
    /\ snd res = match e with OffKick c _ _ => negb c | OffClosed | OffExpired => true | _ => false end).
Proof.
  intros Hw. destruct e as [from p|[] cs ad| | | |]; cbn [offline_step]; try (by effects_step).
  - eapply does_bind; [apply (does_perform _ _ (fun _ n => n = [EOffline from p])); done|]. cbv beta. intros _ n ->.
    eapply does_bind with (P := fun _ n => omap forwarded n = []).
    { unfold queue_message. eapply does_bind; [apply (does_ask _ (fun _ n => n = [])); done|]. cbv beta. intros res n ->.
      destruct res as [u|[f q]]; [by effects_step|]. unfold message_dropped. by effects_step. }
    cbv beta. intros _ n Hn. effects_step. cbn. by rewrite app_nil_r.
  - subst will. cbn [isSome is_none negb]. eapply does_bind with (P := fun _ n => n = []); [by effects_step|].
    cbv beta. intros _ n ->. by effects_step.
  - subst will. cbn [isSome is_none negb]. eapply does_bind with (P := fun _ n => n = []); [by effects_step|].
    cbv beta. intros _ n ->. by effects_step.
Qed.

Lemma offline_none lw es flags :
  does (offline_run_loop lw es (flags, None)) (fun _ n => omap forwarded n = []).
Proof.
  revert flags. induction es as [|e es IH]; intros flags; cbn [offline_run_loop]; [by effects_step|].
  eapply does_bind; [apply offline_step_other; by destruct e|]. cbv beta. intros [[flags' will'] over] n (Hn & Hw & Ho).
  cbn in Hw. assert (will' = None) as -> by (by destruct e).
  destruct over; [effects_step; by rewrite app_nil_r|]. eapply does_mono; [apply IH|]. cbv beta. intros _ n' Hn'.
  by rewrite omap_app_list, Hn, Hn'.
Qed.

Definition makes_due (e : OfflineEvent) : bool :=
  match e with OffExpired | OffWillDelay => true | _ => false end.

Lemma offline_step_due p e flags d :
  delayed_gives_back -> f_retain build = false -> f_delayed build = false -> makes_due e = true ->
  does (offline_step (Some (Ok p)) e (flags, Some d)) (fun res n => (snd res = true \/ snd (fst res) = None)
    /\ exists q, omap forwarded n = [(from_lastwill id, q)]).
Proof.
  intros Hback Hf Hd He.
  assert (does (let! _ := process_last_will (Some (Ok p)) in ret tt)
            (fun _ n => exists q, omap forwarded n = [(from_lastwill id, q)])) as Hwill.
  { eapply does_bind; [by apply process_last_will_does|]. cbv beta. intros u n (q & rest & -> & _ & _ & H2). effects_step.
    exists q. rewrite app_nil_r. cbn. by apply H2. }
  destruct e; try done; cbn [offline_step isSome is_none negb]; (eapply does_bind; [exact Hwill|]);
    cbv beta; intros _ n Hn; effects_step; rewrite app_nil_r; auto.
Qed.

(** a delayed last will is sent exactly once when it becomes due, and not at
    all when the client has come back before. *)
Theorem offline_will_once p es flags d r :
  delayed_gives_back -> f_retain build = false -> f_delayed build = false ->
  let r' := snd (offline_run_loop (Some (Ok p)) es (flags, Some d) r) in
  exists new, effects r' = effects r ++ new
  /\ if will_due es then exists q, omap forwarded new = [(from_lastwill id, q)] else omap forwarded new = [].
Proof.
  intros Hback Hf Hd.
  assert (forall flags, does (offline_run_loop (Some (Ok p)) es (flags, Some d)) (fun _ n =>
    if will_due es then exists q, omap forwarded n = [(from_lastwill id, q)] else omap forwarded n = [])) as Hdo.
  2:{ pose proof (wp_run _ _ _ (Hdo flags r)) as Hr. exact Hr. }
  induction es as [|e es IH]; intros fl; cbn [offline_run_loop]; [by effects_step|].
  destruct (makes_due e) eqn:He.
  - eapply does_bind; [by apply offline_step_due|]. cbv beta. intros [[fl' w'] over] n [Hs [q Hq]]. cbn in Hs.
    replace (will_due (e :: es)) with true by (by destruct e). destruct over; [effects_step; exists q; by rewrite app_nil_r|].
    destruct Hs as [?| ->]; [done|]. eapply does_mono; [apply offline_none|]. cbv beta. intros _ n' Hn'. exists q.
    by rewrite omap_app_list, Hq, Hn'.
  - eapply does_bind; [apply offline_step_other; by destruct e|]. cbv beta. intros [[fl' w'] over] n (Hn & Hw & Ho).
    cbn in Hw, Ho. assert (w' = Some d) as -> by (by destruct e). destruct over.
    + effects_step. rewrite app_nil_r, Hn. by destruct e as [| [] | | | |].
    + eapply does_mono; [apply IH|]. cbv beta. intros _ n' Hn'. rewrite omap_app_list, Hn. cbn [app].
      by destruct e as [| [] | | | |].
Qed.

End session.

(** ** Witnesses: a broker that answers everything *)

Module SessionExample.

(** Messages to [chatsync] are allowed, the message store is on. *)
Definition sample_broker {S Cids : Type} (recipients : option Cids) : Broker S Cids := {|
  hook_message_publish := fun _ _ => ret None;
  hook_check_publish := fun p =>
    ret (if decide (topic p = "chatsync") then publish_acl_allow else publish_acl_rejected true None);
  hook_message_dropped := fun _ _ _ _ => ret tt;
  hook_nonsubscribed := fun _ => ret tt;
  hook_acked := fun _ _ => ret tt;
  hook_expiry := fun _ _ => ret (Remaining None);
  hook_delivered := fun _ _ => ret None;
  hook_subscribe := fun _ => ret None;
  hook_check_subscribe := fun s => ret (Some (new_success AtLeastOnce None));
  hook_subscribed := fun _ => ret tt;
  hook_unsubscribe := fun _ => ret None;
  hook_unsubscribed := fun _ => ret tt;
  hook_offline_message := fun _ _ => ret tt;
  hook_terminated := fun _ => ret tt;
  mgr_enable := ret true;
  mgr_next_msg_id := ret 7;
  mgr_store := fun _ _ _ _ _ => ret (Ok tt);
  retain_enable := ret false;
  retain_set := fun _ _ _ => ret (Ok tt);
  retain_get := fun _ => ret (Ok []);
  delayed_send := fun _ _ _ _ => ret (Ok None);
  shared_forwards := fun _ _ => ret (Ok recipients);
  shared_subscribe := fun s => ret (Ok (new_success (qos (opts s)) None));
  shared_unsubscribe := fun _ => ret (Ok true);
  shared_message_load := fun _ _ => ret (Ok []);
  shared_publish := fun _ _ => ret (Ok tt);
  shared_id_same := ret (Some true);
  shared_remove := ret (Ok tt);
  subscriptions_len := ret (Ok 0);
  subscriptions_extend := fun _ => ret (Ok tt);
  router_add := fun _ _ => ret (Ok tt);
  tx_forward := fun _ _ => ret (Ok tt);
  tx_rerelease := fun _ => ret (Ok tt);
  queue_send := fun _ _ => ret (Ok tt);
  now_millis := ret 0;
  send_publish_ack := fun _ _ => ret (Ok tt);
  send_publish_received := fun _ _ => ret (Ok tt);
  send_publish_complete := fun _ => ret (Ok tt);
  send_publish_release := fun _ => ret (Ok tt);
  sink_publish := fun _ _ => ret (Ok tt)
|}.

Definition quiet_broker {S : Type} : Broker S unit := sample_broker (Some tt).

#[local] Existing Instance quiet_broker.
#[local] Existing Instances InflightExample.Q_ops InflightExample.Q_laws.

Definition listener : ListenerConfig := a_config.

Definition client : Id := Id_from 0 1 "c1".

Definition start {S : Type} (s : S) : @Run S unit InflightExample.Q :=
  mkRun s (mkIn {[ 9 ]} 16 1) (out_inflight_new 16 20 0) None [].

Definition message (q : QoS) (t : TopicName) (pid : option Z) : Publish :=
  publish_from (mkCodec false false q t pid "x").

Lemma quiet_gives_back {S : Type} : @delayed_gives_back S unit quiet_broker.
Proof. intros from p av e f q [s Hs]. done. Qed.

Definition send (q : QoS) (t : TopicName) (pid : option Z) :=
  process_publish (S := unit) (D := InflightExample.Q) ciqadamq_build listener false false (fun _ => None) (fun _ => None)
    client (message q t pid) (start tt).

(** A first QoS 2 message is forwarded, stored and acknowledged. *)
Example first_publish : map forwarded (effects (snd (send ExactlyOnce "chatsync" (Some 8))))
  = [None; None; Some (from_custom client, message ExactlyOnce "chatsync" (Some 8)); None; None].
Proof. by vm_compute. Qed.

Lemma publish_checked_witness :
  (length (omap forwarded (effects (snd (send AtLeastOnce "secret" (Some 8%Z))))) <= 1)%nat.
Proof.
  destruct (publish_checked ciqadamq_build listener false false (fun _ => None) (fun _ => None)
    client (message AtLeastOnce "secret" (Some 8)) (start (S := unit) tt) quiet_gives_back) as (new & E & _ & Hl).
  unfold send. rewrite E. exact Hl.
Defined.

(** Where every message is allowed. *)
Definition open_broker : Broker unit unit := {|
  hook_message_publish := fun _ _ => ret None;
  hook_check_publish := fun _ => ret publish_acl_allow;
  hook_message_dropped := hook_message_dropped; hook_nonsubscribed := hook_nonsubscribed;
  hook_acked := hook_acked; hook_expiry := hook_expiry; hook_delivered := hook_delivered;
  hook_subscribe := hook_subscribe; hook_check_subscribe := hook_check_subscribe;
  hook_subscribed := hook_subscribed; hook_unsubscribe := hook_unsubscribe;
  hook_unsubscribed := hook_unsubscribed; hook_offline_message := hook_offline_message;
  hook_terminated := hook_terminated; mgr_enable := mgr_enable; mgr_next_msg_id := mgr_next_msg_id;
  mgr_store := mgr_store; retain_enable := retain_enable; retain_set := retain_set; retain_get := retain_get;
  delayed_send := delayed_send; shared_forwards := shared_forwards; shared_subscribe := shared_subscribe;
  shared_unsubscribe := shared_unsubscribe;
  shared_message_load := shared_message_load; shared_publish := shared_publish;
  shared_id_same := shared_id_same; shared_remove := shared_remove; subscriptions_len := subscriptions_len;
  subscriptions_extend := subscriptions_extend; router_add := router_add; tx_forward := tx_forward;
  tx_rerelease := tx_rerelease; queue_send := queue_send; now_millis := now_millis;
  send_publish_ack := send_publish_ack; send_publish_received := send_publish_received;
  send_publish_complete := send_publish_complete; send_publish_release := send_publish_release;
  sink_publish := sink_publish
|}.

Definition repeated : result SessionReason unit * @Run unit unit InflightExample.Q :=
  process_publish (H := open_broker) ciqadamq_build listener false false (fun _ => None) (fun _ => None) client
    (message ExactlyOnce "chatsync" (Some 9)) (start tt).

Lemma repetition_forwarded_witness :
  (exists e, fst repeated = Err (InflightReason e))
  /\ exists q, omap forwarded (effects (snd repeated)) = [(from_custom client, q)].
Proof.
  pose proof (repetition_forwarded (H := open_broker) ciqadamq_build listener false false (fun _ => None) (fun _ => None)
    client (message ExactlyOnce "chatsync" (Some 9)) 9 (start (S := unit) tt) eq_refl eq_refl) as Hr.
  assert (forall q ack, answers (@hook_check_publish unit unit open_broker q) ack -> publish_acl_is_allow ack = true) as Ha
    by (by intros q ack [s <-]).
  specialize (Hr Ha eq_refl eq_refl eq_refl ltac:(by apply (bool_decide_unpack _); vm_compute)). fold repeated in Hr.
  destruct repeated as [res r']. destruct Hr as [He (new & q & E & Hf)]. split; [exact He|]. exists q.
  cbn [snd]. rewrite E. exact Hf.
Defined.

Definition less (a b : QoS) : QoS := if qos_code a <=? qos_code b then a else b.

Lemma less_min a b : qos_code (less a b) = Z.min (qos_code a) (qos_code b).
Proof. by destruct a, b. Qed.

(** A listener that caps subscriptions at quality of service 0. *)
Definition capped : result Error SubscribeReturn * @Run unit unit InflightExample.Q :=
  _subscribe ciqadamq_build 10 0 AtMostOnce less client (mkSubscribe "chat/u1/#" (set_qos ExactlyOnce opts_default)) (start tt).

Lemma subscribe_checked_witness :
  sub_outcome AtMostOnce (mkSubscribe "chat/u1/#" (set_qos ExactlyOnce opts_default)) (fst capped) (effects (snd capped))
  /\ (fun s => (topic_filter s, qos (opts s))) <$> omap subscribed (effects (snd capped)) = [("chat/u1/#", AtMostOnce)].
Proof.
  split; [|by vm_compute].
  pose proof (subscribe_checked ciqadamq_build 10 0 AtMostOnce less client
    (mkSubscribe "chat/u1/#" (set_qos ExactlyOnce opts_default)) (start (S := unit) tt) less_min) as Hs.
  fold capped in Hs. destruct capped as [res r']. cbn [fst snd]. destruct Hs as (new & -> & Hs). exact Hs.
Defined.


(** A will with a delay: a message for the client comes, then the delay ends,
    then the session expires. *)
Definition events : list OfflineEvent :=
  [OffForward (from_custom client) (message AtMostOnce "chat/u1" None); OffWillDelay; OffExpired].

Lemma offline_will_once_witness :
  exists q, omap forwarded (effects (snd (offline_run_loop (S := unit) (D := InflightExample.Q) ciqadamq_build listener
    false (fun _ => None) client (Some (Ok (message AtMostOnce "last/words" None))) events
    (mkFlags false false false false, Some 5) (start tt)))) = [(from_lastwill client, q)].
Proof.
  destruct (offline_will_once ciqadamq_build listener false (fun _ => None) client
    (message AtMostOnce "last/words" None) events (mkFlags false false false false) 5 (start (S := unit) tt)
    quiet_gives_back eq_refl eq_refl) as (new & E & Hw).
  rewrite E. exact Hw.
Defined.

End SessionExample.
