(* ===== verification/SessionLoop.v ===== *)
(** * The life of a session: [run], [run_loop] and [process_mqtt_message] of
      [src/vendor/rmqtt/src/session.rs]

    [Session] says what a session does with one packet or one message. Here is
    the loop that gets them: it waits for the first of five things (the
    keep-alive timer, the timer of the unacknowledged messages, the delivery
    queue, a message to the session, a packet of the client), handles it and
    waits again, until something ends it. Then the connection is closed, the
    last will dealt with, and the session is terminated, handed over or goes on
    offline.

    The loop runs over a list of [Event]s: what it woke up for, and when. Which
    of several things that are ready comes first is chosen at random in the
    code; a theorem for all lists holds for every choice. An event whose timer
    is not due, or a message from the queue while the window of unacknowledged
    messages is full, does not wake the loop and is skipped.

    [expected] is MQTT's answer to a packet, [will_expected] when a will is to
    be sent, by the events and not by the session's flags. *)

From S2P Require Import Prelude Strs Topic Types Inflight Retain Delayed Fitter Session.
Local Open Scope string_scope.
Local Open Scope list_scope.
Local Open Scope Z_scope.

(** ** Data *)

(** [Packet], of either version; the answers to a subscription differ. A
    PUBREC has a reason code in version 5, and 0 stands for version 3's. *)
Inductive Packet : Type :=
| PPublish (p : Publish)
| PPublishRelease (pid : Z)
| PPublishAck (pid : Z)
| PPublishReceived (pid reason : Z)
| PPublishComplete (pid : Z)
| PSubscribeV3 (pid : Z) (tfs : list (string * QoS))
| PSubscribeV5 (pid : Z) (sub_id : option Z) (tfs : list (string * SubscriptionOptionsV5))
| PUnsubscribeV3 (pid : Z) (tfs : list string)
| PUnsubscribeV5 (pid : Z) (tfs : list string)
| PPingRequest
| PDisconnect (d : Disconnect)
| PAuth
| POther (debug : string).

Record DisconnectInfo : Type := mkDisconnectInfo {
  disconnected_at : TimestampMillis;
  reasons : list SessionReason;
  mqtt_disconnect : option Disconnect
}.

Definition is_disconnected (i : DisconnectInfo) : bool := negb (disconnected_at i =? 0).

Definition disconnected_reason_add (r : SessionReason) (i : DisconnectInfo) : DisconnectInfo :=
  mkDisconnectInfo (disconnected_at i) (reasons i ++ [r]) (mqtt_disconnect i).

Definition disconnected_set (now : TimestampMillis) (d : option Disconnect) (reason : option SessionReason)
    (i : DisconnectInfo) : DisconnectInfo :=
  let i := if is_disconnected i then i else mkDisconnectInfo now (reasons i) (mqtt_disconnect i) in
  let i :=
    match d with
    | Some d => mkDisconnectInfo (disconnected_at i) (reasons i ++ [ConnectDisconnect (Some d)]) (Some d)
    | None => i
    end in
  match reason with Some r => disconnected_reason_add r i | None => i end.

(** The disconnect packet of version 5 the broker sends: a code with the
    printed reason, or the client's own. *)
Inductive ServerDisconnect : Type :=
| WithReason (code : Code.t) (why : SessionReason)
| AsReceived (d : Disconnect).

(** What wakes the loop: each branch with what it waits for. *)
Inductive Wakeup : Type :=
| WKeepAlive
| WDeliverTimeout
| WQueue (x : option (option (MsgFrom * Publish)))
| WMessage (m : option SessionMessage)
| WPacket (r : result Error (option Packet)).

(** The instants, in milliseconds: the loop begins to wait, and wakes up. *)
Record Event : Type := mkEvent { waits : Z; woken : Z; wakeup : Wakeup }.

(** The locals of the loop: the flags, [StateFlags::Ping], the disconnect info
    of the session and the deadline of the keep-alive timer. *)
Record Online : Type := mkOnline {
  flags : StateFlags;
  ping : bool;
  info : DisconnectInfo;
  keep_alive_delay : Z
}.

Definition with_flags (f : StateFlags) (st : Online) : Online := mkOnline f (ping st) (info st) (keep_alive_delay st).
Definition with_ping (b : bool) (st : Online) : Online := mkOnline (flags st) b (info st) (keep_alive_delay st).
Definition with_info (i : DisconnectInfo) (st : Online) : Online := mkOnline (flags st) (ping st) i (keep_alive_delay st).
Definition with_deadline (d : Z) (st : Online) : Online := mkOnline (flags st) (ping st) (info st) d.

Definition no_flags : StateFlags := mkFlags false false false false.

Definition flag_disconnect (f : StateFlags) : StateFlags := mkFlags (kicked f) (clean_start f) true (by_admin_kick f).

(** [LastWill] of the connect packet, with the delay of version 5; what the
    codec keeps of it besides [Publish] stays with the codec. *)
Inductive LastWill : Type :=
| WillV3 (retain : bool) (q : QoS) (t : TopicName) (message : string)
| WillV5 (retain : bool) (q : QoS) (t : TopicName) (message : string) (will_delay_interval_sec : option Z).

Definition lw_delay (w : LastWill) : option Z :=
  match w with WillV3 _ _ _ _ => None | WillV5 _ _ _ _ d => d end.

(** [TryFrom<LastWill> for Publish], which never fails. *)
Definition lw_publish (now : TimestampMillis) (w : LastWill) : result Error Publish :=
  let '(retain, q, t, m) :=
    match w with WillV3 retain q t m => (retain, q, t, m) | WillV5 retain q t m _ => (retain, q, t, m) end in
  Ok (with_create_time now (publish_from (mkCodec false retain q t None m))).

(** The rest of the client's connection, and the hooks of its end. *)
Class Connection (S : Type) : Type := {
  connections_inc : M S unit;
  connections_dec : M S unit;
  send_subscribe_ack_v3 : Z -> list (option QoS) -> M S (result Error unit);
  send_subscribe_ack_v5 : Z -> list (option SubscribeAckReason) -> M S (result Error unit);
  send_unsubscribe_ack : Z -> nat -> M S (result Error unit);
  send_ping_response : M S (result Error unit);
  send_auth : M S (result Error unit);
  send_disconnect : ServerDisconnect -> M S (result Error unit);
  sink_flush : M S (result Error unit);
  sink_close : M S (result Error unit);
  hook_keepalive : bool -> M S unit;
  session_keepalive : bool -> M S unit;
  hook_client_disconnected : SessionReason -> M S unit;
  hook_offline_inflight : list OutInflightMessage -> M S unit;
  queue_drain : M S (list (MsgFrom * Publish))
}.

(** What has become of a session: it is still connected, still offline, another
    connection has taken it over, or it was terminated. *)
Inductive Life : Type :=
| StillOnline (st : Online)
| StillOffline
| HandedOver
| Terminated (why : SessionReason).

Section loop.
Context {S Cids D : Type} `{Broker S Cids} `{DequeMap D} `{Connection S}.
Context (build : Build) (cfg : ListenerConfig).
Context (delayed_publish delayed_immediate : bool) (max_subscriptions max_topic_levels : Z).
Context (max_qos_allowed : QoS) (less_value : QoS -> QoS -> QoS).
Context (topic_alias : Publish -> option Z) (message_expiry : Publish -> option Z).
(** Shared subscriptions are supported; the feature [limit-subscription] is
    built in, and [limit_subscription] of the listener. *)
Context (shared limit_feature limit_subscription : bool).
(** The connect packet: [clean_session] of version 3, the session expiry of
    version 5, the last will as a message and its delay. *)
Context (conn_info : ConnectInfo) (v3_clean_session : bool).
Context (session_expiry_interval_secs : ConnectInfo -> Z).
Context (lw : option (result Error Publish)) (will_delay_interval : option Z).
(** The codec's codes of errors and refused publishes. *)
Context (mqtt_code : Error -> Code.t) (in_use_code : Z -> Code.t) (publish_code : PublishResult -> Code.t).
Context (id : Id).

Local Abbreviation Run := (@Run S Cids D).
Local Abbreviation Act := (M Run).
Local Abbreviation process_publish :=
  (@process_publish S Cids D _ build cfg delayed_publish delayed_immediate topic_alias message_expiry id).
Local Abbreviation subscribes_v3 :=
  (@subscribes_v3 S Cids D _ build max_subscriptions max_topic_levels max_qos_allowed less_value id).
Local Abbreviation subscribes_v5 :=
  (@subscribes_v5 S Cids D _ build max_subscriptions max_topic_levels max_qos_allowed less_value id).
Local Abbreviation process_message :=
  (@process_message S Cids D _ _ build max_subscriptions max_topic_levels max_qos_allowed less_value id).
Local Abbreviation end_of_connection :=
  (@end_of_connection S Cids D _ build cfg delayed_immediate message_expiry id).
Local Abbreviation offline_run_loop :=
  (@offline_run_loop S Cids D _ build cfg delayed_immediate message_expiry id).
Local Abbreviation process_last_will :=
  (@process_last_will S Cids D _ build cfg delayed_immediate message_expiry id).

(** ** Packets *)

Definition limit_subs : bool := limit_feature && limit_subscription.

Definition answer_subscribe_v3 (pid : Z) (tfs : list (string * QoS)) : Act (result SessionReason unit) :=
  let! status := subscribes_v3 shared limit_subs tfs in
  match status with
  | Err e => ret (Err (SubscribeFailed e))
  | Ok status =>
      let! res := perform (fun _ => ESubAckV3 pid status) (send_subscribe_ack_v3 pid status) in
      ret (or_reason res)
  end.

Definition answer_subscribe_v5 (pid : Z) (sub_id : option Z) (tfs : list (string * SubscriptionOptionsV5))
    : Act (result SessionReason unit) :=
  let! ack := subscribes_v5 shared limit_subs sub_id tfs in
  match ack with
  | Err e => ret (Err (SubscribeFailed e))
  | Ok status =>
      let! res := perform (fun _ => ESubAckV5 pid status) (send_subscribe_ack_v5 pid status) in
      ret (or_reason res)
  end.

(** A version 5 answer has a code [Success] for each of the [codes] filters,
    one of version 3 has none. *)
Definition answer_unsubscribe (pid : Z) (tfs : list string) (codes : nat) : Act (result SessionReason unit) :=
  let! res := unsubscribes shared limit_subscription tfs in
  match res with
  | Err e => ret (Err (UnsubscribeFailed e))
  | Ok _ =>
      let! res := perform (fun _ => EUnsubAck pid codes) (send_unsubscribe_ack pid codes) in
      ret (or_reason res)
  end.

(** The end of [process_mqtt_message]: the client is alive. *)
Definition client_alive (st : Online) : Act Online :=
  let! _ := ask (hook_keepalive (ping st)) in
  let! _ := ask (session_keepalive (ping st)) in
  ret (if ping st then with_ping false st else st).

Definition alive_after (m : Act (result SessionReason unit)) (st : Online)
    : Act (result SessionReason unit * Online) :=
  let! res := m in
  match res with
  | Ok _ => let! st := client_alive st in ret (Ok tt, st)
  | Err why => ret (Err why, st)
  end.

Definition process_mqtt_message (pkt : Packet) (st : Online) : Act (result SessionReason unit * Online) :=
  match pkt with
  | PPublish p => let! now := ask now_millis in alive_after (process_publish (with_create_time now p)) st
  | PPublishRelease pid => alive_after (process_publish_release pid) st
  | PPublishAck pid => alive_after (process_ack pid) st
  | PPublishReceived pid _ => alive_after (process_publish_received pid) st
  | PPublishComplete pid => alive_after (process_ack pid) st
  | PSubscribeV3 pid tfs => alive_after (answer_subscribe_v3 pid tfs) st
  | PSubscribeV5 pid sub_id tfs => alive_after (answer_subscribe_v5 pid sub_id tfs) st
  | PUnsubscribeV3 pid tfs => alive_after (answer_unsubscribe pid tfs 0) st
  | PUnsubscribeV5 pid tfs => alive_after (answer_unsubscribe pid tfs (length tfs)) st
  | PPingRequest =>
      let! res := perform (fun _ => EPong) send_ping_response in
      match res with
      | Ok _ => let! st := client_alive (with_ping true st) in ret (Ok tt, st)
      | Err e => ret (Err (ErrorReason e), st)
      end
  | PDisconnect d =>
      let! now := ask now_millis in
      ret (Ok tt, with_info (disconnected_set now (Some d) None (info st))
                    (with_flags (flag_disconnect (flags st)) st))
  | PAuth => alive_after (let! res := perform (fun _ => EAuth) send_auth in ret (or_reason res)) st
  | POther debug => ret (Err (StaticReason ("Received an unimplemented message, " ++ debug)), st)
  end.

(** ** The loop *)

(** [while let Some(m) = pop_front_timeout()]: every round takes one message
    out, so there are at most as many as messages, and one that finds none. *)
Fixpoint resend_loop (rounds : nat) : Act (result Error unit) :=
  match rounds with
  | O => ret (Ok tt)
  | Datatypes.S rounds' =>
      let! now := ask now_millis in
      let! iflt_msg := on_out (pop_front_timeout now) in
      match iflt_msg with
      | Some m => try! _ := reforward id m in resend_loop rounds'
      | None => ret (Ok tt)
      end
  end.

Definition resend_timeouts : Act (result Error unit) := fun r =>
  resend_loop (Datatypes.S (dm_len (queues (out_inflight r)))) r.

(** [keep_alive] is in seconds; none is a very long one. *)
Definition keep_alive_interval (keep_alive : Z) : Z :=
  (if keep_alive =? 0 then 2 ^ 32 - 1 else keep_alive) * 1000.

(** When the timer of the unacknowledged messages fires. *)
Definition deliver_timeout_delay (waits : Z) : Act Z :=
  let! now := ask now_millis in
  let! t := on_out (fun o => (get_timeout now o, o)) in
  ret (waits + default 120000 t).

(** One round of the loop; an error ends it. *)
Definition online_step (keep_alive : Z) (e : Event) (st : Online) : Act (result SessionReason unit * Online) :=
  let! timeout_at := deliver_timeout_delay (waits e) in
  match wakeup e with
  | WKeepAlive =>
      ret (if keep_alive_delay st <=? woken e then Err ConnectKeepaliveTimeout else Ok tt, st)
  | WDeliverTimeout =>
      if timeout_at <=? woken e then let! res := resend_timeouts in ret (or_reason res, st)
      else ret (Ok tt, st)
  | WQueue x =>
      let! credit := on_out (fun o => (has_credit o, o)) in
      if credit : bool then
        match x with
        | Some (Some (from, p)) =>
            let! res := (try! _ := deliver id from p in ask sink_flush) in ret (or_reason res, st)
        | Some None => ret (Ok tt, st)
        | None => ret (Err (StaticReason "Message delivery queue is closed"), st)
        end
      else ret (Ok tt, st)
  | WMessage (Some msg) =>
      let! (res, f) := process_message msg (flags st) in ret (res, with_flags f st)
  | WMessage None => ret (Err (StaticReason "No message received from the Rx"), st)
  | WPacket r =>
      let st := with_deadline (woken e + keep_alive_interval keep_alive) st in
      match r with
      | Ok (Some pkt) => process_mqtt_message pkt st
      | Ok None => ret (Err ConnectRemoteClose, st)
      | Err e => ret (Err (ErrorReason e), st)
      end
  end.

(** The loop over the events so far: why it has ended, if it has. *)
Fixpoint run_loop (keep_alive : Z) (es : list Event) (st : Online) : Act (option SessionReason * Online) :=
  match es with
  | [] => ret (None, st)
  | e :: es' =>
      let! (res, st) := online_step keep_alive e st in
      match res with
      | Err why => ret (Some why, st)
      | Ok _ => run_loop keep_alive es' st
      end
  end.

(** ** The whole life *)

(** [ToReasonCode for Reason]. *)
Fixpoint to_reason_code (r : SessionReason) : Code.t :=
  match r with
  | ConnectDisconnect (Some (DisconnectV5 code _ _)) => code
  | ConnectDisconnect _ => Code.NormalDisconnection
  | ConnectReadWriteTimeout => Code.KeepAliveTimeout
  | ConnectReadWriteError => Code.UnspecifiedError
  | ConnectRemoteClose => Code.ServerShuttingDown
  | ConnectKeepaliveTimeout => Code.KeepAliveTimeout
  | ConnectKicked is_admin => if is_admin then Code.AdministrativeAction else Code.NotAuthorized
  | HandshakeRateExceeded => Code.ConnectionRateExceeded
  | SessionExpiration => Code.SessionTakenOver
  | SubscribeFailed _ => Code.UnspecifiedError
  | UnsubscribeFailed _ => Code.UnspecifiedError
  | SubscribeRefused => Code.NotAuthorized
  | PublishRefused r => publish_code r
  | DelayedPublishRefused => Code.NotAuthorized
  | MessageExpiration => Code.MessageRateTooHigh
  | MessageQueueFull => Code.QuotaExceeded
  | InflightReason InflightWindowFull => Code.ReceiveMaximumExceeded
  | InflightReason (PacketIdInUse pid) => in_use_code pid
  | ProtocolError _ => Code.ProtocolError
  | StaticReason _ => Code.UnspecifiedError
  | ErrorReason e => mqtt_code e
  | Reasons l => match l with first :: _ => to_reason_code first | [] => Code.UnspecifiedError end
  | Unknown => Code.UnspecifiedError
  end.

Definition clean_session (d : option Disconnect) : bool :=
  match conn_info with
  | ConnV3 _ _ _ => v3_clean_session
  | ConnV5 _ _ _ => session_expiry_interval session_expiry_interval_secs conn_info cfg d =? 0
  end.

(** The reasons so far are the reason; without one the client has gone. *)
Definition final_reason (i : DisconnectInfo) : SessionReason * DisconnectInfo :=
  match reasons i with
  | [] => (ConnectRemoteClose, disconnected_reason_add ConnectRemoteClose i)
  | rs => (Reasons rs, i)
  end.

Definition disconnect_packet (reason : SessionReason) : ServerDisconnect :=
  match reason with
  | ConnectDisconnect (Some (DisconnectV5 c s e)) => AsReceived (DisconnectV5 c s e)
  | _ => WithReason (to_reason_code reason) reason
  end.

Definition packet_code (d : ServerDisconnect) : Code.t :=
  match d with
  | WithReason c _ => c
  | AsReceived (DisconnectV5 c _ _) => c
  | AsReceived _ => Code.NormalDisconnection
  end.

(** [clean], with what is in the delivery queue. *)
Definition terminate (why : SessionReason) : Act Life :=
  let! queued := ask queue_drain in
  let! _ := clean id queued why in
  ret (Terminated why).

(** The session goes on offline until it expires or is kicked. *)
Definition go_offline (f : StateFlags) (will : option Z) (offline : list OfflineEvent) : Act Life :=
  let! (s, over) := offline_run_loop lw offline (f, will) in
  if negb over then ret StillOffline
  else if kicked (fst s) then ret HandedOver
  else terminate SessionExpiration.

(** From the end of the loop to the hook [client_disconnected]: whether the
    session is clean, the will that is left and the disconnect info. *)
Definition leave (why : SessionReason) (st : Online) : Act (bool * option Z * DisconnectInfo) :=
  let i := disconnected_reason_add why (info st) in
  let! _ := ask connections_dec in
  let! _ := ask sink_close in
  let clean := clean_session (mqtt_disconnect i) in
  let! now := ask now_millis in
  let i := disconnected_set now None None i in
  let! will := end_of_connection (flags st) clean will_delay_interval lw in
  let '(reason, i) := final_reason i in
  let! _ :=
    match conn_info with
    | ConnV5 _ _ _ =>
        let d := disconnect_packet reason in
        let! _ := perform (fun _ => EDisconnect (packet_code d)) (send_disconnect d) in ret tt
    | ConnV3 _ _ _ => ret tt
    end in
  let! _ := perform (fun _ => EDisconnected reason) (hook_client_disconnected reason) in
  ret (clean, will, i).

(** [run]'s last part. *)
Definition settle (f : StateFlags) (clean : bool) (will : option Z) (i : DisconnectInfo) (offline : list OfflineEvent)
    : Act Life :=
  if kicked f then
    if by_admin_kick f then terminate (Reasons (reasons i)) else ret HandedOver
  else if clean then terminate (Reasons (reasons i))
  else
    let! ms := on_out (fun o => (clone_inflight_messages o, o)) in
    let! _ :=
      match ms with
      | [] => ret tt
      | _ => perform (fun _ => EInflight ms) (hook_offline_inflight ms)
      end in
    go_offline f will offline.

Definition online_start (start keep_alive : Z) (i : DisconnectInfo) : Online :=
  mkOnline no_flags false i (start + keep_alive_interval keep_alive).

(** [run], over what the loop online and the loop offline wake up for. *)
Definition run (start keep_alive : Z) (i : DisconnectInfo) (es : list Event) (offline : list OfflineEvent) : Act Life :=
  let! _ := ask connections_inc in
  let! (ended, st) := run_loop keep_alive es (online_start start keep_alive i) in
  match ended with
  | None => ret (StillOnline st)
  | Some why =>
      let! (clean, will, i) := leave why st in
      settle (flags st) clean will i offline
  end.

(** [offline_restart]: a session from before a restart, with its disconnect. *)
Definition offline_restart (d : option Disconnect) (offline : list OfflineEvent) : Act Life :=
  let! will := end_of_connection no_flags (clean_session d) will_delay_interval lw in
  go_offline no_flags will offline.

(** ** Lemmas: which effects the loop has *)

(** All effects of [m] satisfy [Q]. *)
Definition only {A} (Q : Effect Cids -> Prop) (m : Act A) : Prop := does m (fun _ n => Forall Q n).

Section only.
Context (Q : Effect Cids -> Prop).

Lemma only_ret {A} (a : A) : only Q (ret a).
Proof. by apply does_ret. Qed.

Lemma only_bind {A B} (m : Act A) (k : A -> Act B) : only Q m -> (forall a, only Q (k a)) -> only Q (bind m k).
Proof.
  intros Hm Hk. eapply does_bind; [exact Hm|]. cbv beta. intros a n Hn. eapply does_mono; [apply Hk|].
  cbv beta. intros b n' Hn'. by apply Forall_app.
Qed.

Lemma only_try {E A B} (m : Act (result E A)) (k : A -> Act (result E B)) :
  only Q m -> (forall a, only Q (k a)) -> only Q (and_then m k).
Proof. intros Hm Hk. apply only_bind; [done|]. intros [a|e]; [apply Hk | apply only_ret]. Qed.

Lemma only_ask {A} (m : M S A) : only Q (ask m).
Proof. by apply does_ask. Qed.

Lemma only_perform {A} (e : A -> Effect Cids) (m : M S A) : (forall a, Q (e a)) -> only Q (perform e m).
Proof. intros HQ. apply does_perform. intros a _. by repeat constructor. Qed.

Lemma only_on_in {A} (f : InInflight -> A * InInflight) : only Q (on_in f).
Proof. by apply does_on_in. Qed.

Lemma only_on_out {A} (f : OutInflight D -> A * OutInflight D) : only Q (on_out f).
Proof. by apply does_on_out. Qed.

Lemma only_alias p : only Q (apply_alias topic_alias p).
Proof. eapply does_mono; [apply apply_alias_silent|]. by intros _ n ->. Qed.

End only.

Lemma only_mono {A} (Q Q' : Effect Cids -> Prop) (m : Act A) : only Q m -> (forall e, Q e -> Q' e) -> only Q' m.
Proof. intros Hm HQ. eapply does_mono; [exact Hm|]. cbv beta. intros _ n Hn. by eapply Forall_impl. Qed.

(** By the structure of the computation; [known] proves it of its calls. *)
Ltac only_by known :=
  repeat first
    [ known | apply only_ret | apply only_ask | apply only_perform; intros ?; exact I
    | apply only_on_in | apply only_on_out | apply only_alias
    | apply only_try; [|intros ?] | apply only_bind; [|intros ?]
    | progress cbv beta zeta | case_goal ].

(** What a session does while it is connected; without the answers to a
    packet; what hands on nothing; and what neither answers nor hands on. *)
Definition online_effect (e : Effect Cids) : Prop :=
  match e with
  | EDisconnect _ | EDisconnected _ | EInflight _ | EOffline _ _ | ETerminated _ | ERemove => False
  | _ => True
  end.

Definition no_answer (e : Effect Cids) : Prop :=
  match e with
  | EAck _ _ | EReceived _ _ | EComplete _ | ERelease _ | EPong | EAuth | ESubAckV3 _ _ | ESubAckV5 _ _ | EUnsubAck _ _ => False
  | _ => online_effect e
  end.

Definition idle_effect (e : Effect Cids) : Prop :=
  match e with
  | ERetain _ _ _ | EForward _ _ | EStore _ _ _ _ _ | EDelay _ _ => False
  | _ => online_effect e
  end.

Definition mute_effect (e : Effect Cids) : Prop :=
  match e with
  | ERetain _ _ _ | EForward _ _ | EStore _ _ _ _ _ | EDelay _ _ => False
  | _ => no_answer e
  end.

Lemma idle_online e : idle_effect e -> online_effect e.
Proof. by destruct e. Qed.

Lemma no_answer_online e : no_answer e -> online_effect e.
Proof. by destruct e. Qed.

Lemma mute_no_answer e : mute_effect e -> no_answer e.
Proof. by destruct e. Qed.

Lemma mute_idle e : mute_effect e -> idle_effect e.
Proof. by destruct e. Qed.

Lemma drop_all_mute errs : only mute_effect (drop_all errs).
Proof. induction errs as [|[[[to from] p] why] errs IH]; cbn [drop_all]; unfold message_dropped; only_by ltac:(apply IH). Qed.

Lemma forwards_no_answer from p available expiry :
  only no_answer (forwards build delayed_immediate from p available expiry).
Proof.
  unfold forwards, inner_forwards, set_retain, message_dropped.
  only_by ltac:(apply (only_mono _ _ _ (drop_all_mute _) mute_no_answer)).
Qed.

Lemma publish_no_answer p :
  only no_answer (publish build cfg delayed_publish delayed_immediate topic_alias message_expiry id p).
Proof.
  unfold publish, _publish, check_and_forward, hook_publish, storage_available, expiry_of, message_dropped.
  only_by ltac:(apply forwards_no_answer).
Qed.

Lemma publish_online p : only online_effect (process_publish p).
Proof.
  unfold Session.process_publish, message_dropped.
  only_by ltac:(apply (only_mono _ _ _ (publish_no_answer _) no_answer_online)).
Qed.

Lemma send_storaged_mute q ex ms : only mute_effect (_send_storaged_messages less_value id q ex ms).
Proof.
  induction ms as [|[[i from] p] ms IH]; cbn [_send_storaged_messages]; unfold enqueue, message_dropped;
    only_by ltac:(apply IH).
Qed.

Lemma send_retain_mute q rs : only mute_effect (send_retain_messages less_value id q rs).
Proof.
  induction rs as [|[t x] rs IH]; cbn [send_retain_messages]; unfold enqueue, message_dropped; only_by ltac:(apply IH).
Qed.

Lemma subscribe_mute s :
  only mute_effect (_subscribe build max_subscriptions max_topic_levels max_qos_allowed less_value id s).
Proof.
  unfold _subscribe, check_subscribe_limits, after_subscribe, send_retained, send_storaged_messages, storage_available.
  only_by ltac:(first [apply send_storaged_mute | apply send_retain_mute]).
Qed.

Lemma subscribes_v3_mute limit tfs : only mute_effect (subscribes_v3 shared limit tfs).
Proof.
  induction tfs as [|[tf q] tfs IH]; cbn [Session.subscribes_v3]; only_by ltac:(first [apply subscribe_mute | apply IH]).
Qed.

Lemma subscribes_v5_mute limit sub_id tfs : only mute_effect (subscribes_v5 shared limit sub_id tfs).
Proof.
  induction tfs as [|[tf o] tfs IH]; cbn [Session.subscribes_v5]; only_by ltac:(first [apply subscribe_mute | apply IH]).
Qed.

Lemma unsubscribes_mute limit tfs : only mute_effect (unsubscribes (Cids := Cids) (D := D) shared limit tfs).
Proof. induction tfs as [|tf tfs IH]; cbn [unsubscribes]; unfold unsubscribe; only_by ltac:(apply IH). Qed.

Lemma forward_mute from p : only mute_effect (forward id from p).
Proof. unfold forward, message_dropped. only_by fail. Qed.

Lemma reforward_mute m : only mute_effect (reforward id m).
Proof. unfold reforward. only_by ltac:(apply forward_mute). Qed.

Lemma reforward_all_mute ms : only mute_effect (reforward_all id ms).
Proof. induction ms as [|m ms IH]; cbn [reforward_all]; only_by ltac:(first [apply reforward_mute | apply IH]). Qed.

Lemma forward_all_mute ms : only mute_effect (forward_all id ms).
Proof. induction ms as [|[from p] ms IH]; cbn [forward_all]; only_by ltac:(first [apply forward_mute | apply IH]). Qed.

Lemma transfer_subscriptions_mute subs : only mute_effect (transfer_subscriptions build less_value id subs).
Proof.
  induction subs as [|[tf o] subs IH]; cbn [transfer_subscriptions]; unfold send_storaged_messages;
    only_by ltac:(first [apply send_storaged_mute | apply IH]).
Qed.

Lemma subscribe_all_mute l :
  only mute_effect (subscribe_all build max_subscriptions max_topic_levels max_qos_allowed less_value id l).
Proof. induction l as [|s l IH]; cbn [subscribe_all]; only_by ltac:(first [apply subscribe_mute | apply IH]). Qed.

Lemma transfer_mute clear info : only mute_effect (transfer_session_state build less_value id clear info).
Proof.
  unfold transfer_session_state.
  only_by ltac:(first [apply transfer_subscriptions_mute | apply reforward_all_mute | apply forward_all_mute]).
Qed.

Lemma process_message_idle msg f : only idle_effect (process_message msg f).
Proof.
  destruct msg; cbn [Session.process_message]; unfold queue_message, message_dropped, send_rerelease, unsubscribe.
  all: only_by ltac:(first [apply (only_mono _ _ _ (subscribe_mute _) mute_idle)
    | apply (only_mono _ _ _ (subscribe_all_mute _) mute_idle) | apply (only_mono _ _ _ (transfer_mute _ _) mute_idle)]).
Qed.

Lemma resend_mute rounds : only mute_effect (resend_loop rounds).
Proof. induction rounds as [|rounds IH]; cbn [resend_loop]; only_by ltac:(first [apply reforward_mute | apply IH]). Qed.

Lemma deliver_mute from p : only mute_effect (deliver id from p).
Proof. unfold deliver, message_dropped, with_packet_id. only_by fail. Qed.

(** An effect of a connected session, where anything that is handed on is the
    client's own and was allowed by the check. *)
Definition granted (q : Publish) : Prop :=
  exists ack, answers (hook_check_publish q) ack /\ publish_acl_is_allow ack = true.

Definition checked_effect (e : Effect Cids) : Prop :=
  online_effect e /\ forall from q, handed_on e = Some (from, q) -> from = from_custom id /\ granted q.

Lemma idle_checked e : idle_effect e -> checked_effect e.
Proof. intros He. split; [by apply idle_online|]. by destruct e. Qed.

Lemma outcome_checked n : outcome build id n -> Forall online_effect n -> Forall checked_effect n.
Proof.
  intros Hn Ho. rewrite Forall_forall in *. intros e He. split; [by apply Ho|]. intros from q Hq.
  assert ((from, q) ∈ omap handed_on n) as Hin by by eapply omap_elem.
  destruct Hn as [(A & _)|(q0 & q1 & ack & rest & -> & Ha & Hr)]; [rewrite A in Hin; by apply elem_of_nil in Hin|].
  cbn in Hin. destruct (publish_acl_is_allow ack) eqn:Hack.
  - destruct Hr as [[A _ _] _]. rewrite Forall_forall in A. specialize (A _ Hin). injection A as -> ->.
    split; [done|]. by exists ack.
  - destruct Hr as (A & _). rewrite A in Hin. by apply elem_of_nil in Hin.
Qed.

Lemma does_and {A} (m : Act A) (P Q : A -> list (Effect Cids) -> Prop) :
  does m P -> does m Q -> does m (fun a n => P a n /\ Q a n).
Proof.
  intros HP HQ r. specialize (HP r). specialize (HQ r). unfold wp in *. destruct (m r) as [a r'].
  destruct HP as (n & E & Hn), HQ as (n' & E' & Hn'). rewrite E in E'. apply app_inv_head in E' as <-. eauto.
Qed.

Context (Hback : delayed_gives_back).

Lemma publish_checked_effect p : only checked_effect (process_publish p).
Proof.
  eapply does_mono; [apply (does_and _ _ _ (process_publish_outcome _ _ _ _ _ _ _ p Hback) (publish_online p))|].
  cbv beta. intros _ n [Hn Ho]. by apply outcome_checked.
Qed.

Ltac idle := eapply only_mono; [|exact idle_checked].
Ltac muted := idle; eapply only_mono; [|exact mute_idle].

Lemma client_alive_checked st : only checked_effect (client_alive st).
Proof. idle. unfold client_alive. only_by fail. Qed.

Lemma alive_after_checked m st : only checked_effect m -> only checked_effect (alive_after m st).
Proof. intros Hm. unfold alive_after. only_by ltac:(first [apply Hm | apply client_alive_checked]). Qed.

Lemma packet_checked pkt st : only checked_effect (process_mqtt_message pkt st).
Proof.
  destruct pkt; cbn [process_mqtt_message]; try (apply alive_after_checked).
  - apply only_bind; [apply only_ask|]. intros now. apply alive_after_checked, publish_checked_effect.
  - idle. unfold process_publish_release. only_by fail.
  - idle. unfold process_ack. only_by fail.
  - idle. unfold process_publish_received. only_by fail.
  - idle. unfold process_ack. only_by fail.
  - idle. unfold answer_subscribe_v3. only_by ltac:(apply (only_mono _ _ _ (subscribes_v3_mute _ _) mute_idle)).
  - idle. unfold answer_subscribe_v5. only_by ltac:(apply (only_mono _ _ _ (subscribes_v5_mute _ _ _) mute_idle)).
  - idle. unfold answer_unsubscribe. only_by ltac:(apply (only_mono _ _ _ (unsubscribes_mute _ _) mute_idle)).
  - idle. unfold answer_unsubscribe. only_by ltac:(apply (only_mono _ _ _ (unsubscribes_mute _ _) mute_idle)).
  - idle. unfold client_alive. only_by fail.
  - idle. only_by fail.
  - idle. only_by fail.
  - idle. only_by fail.
Qed.

Lemma online_step_checked k e st : only checked_effect (online_step k e st).
Proof.
  unfold online_step, deliver_timeout_delay.
  only_by ltac:(first [apply packet_checked | idle; apply process_message_idle | muted; apply deliver_mute
    | muted; unfold resend_timeouts; intros r; apply resend_mute]).
Qed.

Lemma run_loop_checked k es st : only checked_effect (run_loop k es st).
Proof.
  revert st. induction es as [|e es IH]; intros st; cbn [run_loop]; [apply only_ret|].
  apply only_bind; [apply online_step_checked|]. intros [[u|why] st']; [apply IH | apply only_ret].
Qed.

(** ** Lemmas: the state of the loop *)

Definition is_packet (e : Event) : bool := match wakeup e with WPacket _ => true | _ => false end.

Definition is_disconnect (e : Event) : bool :=
  match wakeup e with WPacket (Ok (Some (PDisconnect _))) => true | _ => false end.

(** A kick that does not find the connection closed, and its clean start. *)
Definition kick_of (e : Event) : option bool :=
  match wakeup e with WMessage (Some (MsgKick false cs _)) => Some cs | _ => None end.

Definition event_flags (e : Event) (f : StateFlags) : StateFlags :=
  match wakeup e with
  | WPacket (Ok (Some (PDisconnect _))) => flag_disconnect f
  | WMessage (Some (MsgKick false cs ad)) => kick_flags cs ad f
  | _ => f
  end.

(** One result and state: the deadline moves with a packet, the flags are those
    of DISCONNECTs and kicks; a kick ends the loop and a DISCONNECT does not. *)
Definition step_state (k : Z) (e : Event) (st : Online) (a : result SessionReason unit * Online) : Prop :=
  keep_alive_delay (snd a) = (if is_packet e then woken e + keep_alive_interval k else keep_alive_delay st)
  /\ flags (snd a) = event_flags e (flags st)
  /\ (is_disconnect e = false -> mqtt_disconnect (info (snd a)) = mqtt_disconnect (info st))
  /\ is_ok (fst a) && isSome (kick_of e) = false
  /\ negb (is_ok (fst a)) && is_disconnect e = false.

(** [m] returns something that satisfies [P], from every state. *)
Definition returns {A} (P : A -> Prop) (m : Act A) : Prop := forall r, P (fst (m r)).

Lemma returns_ret {A} (P : A -> Prop) a : P a -> returns P (ret a).
Proof. by intros HP r. Qed.

Lemma returns_bind {A B} (P : B -> Prop) (m : Act A) (k : A -> Act B) : (forall a, returns P (k a)) -> returns P (bind m k).
Proof. intros Hk r. unfold bind. destruct (m r) as [a r']. apply Hk. Qed.

Lemma client_alive_state st r : exists b, fst (client_alive st r) = with_ping b st.
Proof.
  revert r. change (returns (fun st' => exists b, st' = with_ping b st) (client_alive st)).
  apply returns_bind. intros _. apply returns_bind. intros _. apply returns_ret.
  destruct (ping st) eqn:Hp; [by exists false|]. exists false. destruct st. cbn in Hp. by subst.
Qed.

Lemma alive_returns (P : result SessionReason unit * Online -> Prop) st :
  (forall b, P (Ok tt, with_ping b st)) -> returns P (let! st := client_alive st in ret (Ok tt, st)).
Proof.
  intros HP r. unfold bind. pose proof (client_alive_state st r) as [b Hb].
  destruct (client_alive st r) as [st' r']. cbn in Hb. subst st'. apply HP.
Qed.

Lemma packet_flags e pkt f : wakeup e = WPacket pkt -> is_disconnect e = false -> event_flags e f = f.
Proof. unfold is_disconnect, event_flags. intros ->. by destruct pkt as [[[]|]|]. Qed.

Lemma alive_after_state m k e st pkt :
  wakeup e = WPacket pkt -> is_disconnect e = false ->
  returns (step_state k e st) (alive_after m (with_deadline (woken e + keep_alive_interval k) st)).
Proof.
  intros Hw Hd. assert (is_packet e = true) as Hp by (unfold is_packet; by rewrite Hw).
  assert (kick_of e = None) as Hk by (unfold kick_of; by rewrite Hw).
  pose proof (packet_flags e pkt (flags st) Hw Hd) as Hf. unfold step_state. rewrite Hp, Hd, Hf, Hk.
  apply returns_bind. intros [u|why]; [apply alive_returns; intros b|apply returns_ret]; by rewrite ?andb_false_r.
Qed.

Lemma process_message_state msg f :
  returns (fun a => snd a = match msg with MsgKick false cs ad => kick_flags cs ad f | _ => f end
                    /\ match msg with MsgKick false _ _ => is_ok (fst a) = false | _ => True end) (process_message msg f).
Proof.
  destruct msg; cbn [Session.process_message]; try (apply returns_bind; intros ?); apply returns_ret; try done.
  by destruct closed.
Qed.

Lemma online_step_state k e st : returns (step_state k e st) (online_step k e st).
Proof.
  apply returns_bind. intros due. unfold step_state, is_packet, is_disconnect, event_flags, kick_of.
  destruct (wakeup e) as [| |x|[msg|]|[[pkt|]|err]] eqn:Hw.
  - apply returns_ret. cbn. by rewrite ?andb_false_r.
  - destruct (due <=? woken e); [apply returns_bind; intros res|]; apply returns_ret; cbn; by rewrite ?andb_false_r.
  - apply returns_bind. intros credit. destruct credit, x as [[[from p]|]|];
      try (apply returns_bind; intros res); apply returns_ret; cbn; by rewrite ?andb_false_r.
  - intros r. unfold bind. pose proof (process_message_state msg (flags st) r) as [F1 F2].
    destruct (process_message msg (flags st) r) as [[res f] r']. cbn in *. subst f. rewrite andb_false_r.
    destruct msg as [| |[] ? ?| | | | |]; cbn; rewrite ?andb_false_r; try done. by rewrite F2.
  - apply returns_ret. by cbn.
  - assert (forall m, is_disconnect e = false -> returns (step_state k e st)
      (alive_after m (with_deadline (woken e + keep_alive_interval k) st))) as Hm by (intros; by eapply alive_after_state).
    unfold step_state, is_packet, is_disconnect, event_flags, kick_of in Hm. rewrite Hw in Hm.
    destruct pkt; cbn [process_mqtt_message]; try (by apply Hm).
    + apply returns_bind. intros now. by apply Hm.
    + apply returns_bind. intros [u|err]; [apply alive_returns; intros b|apply returns_ret]; by cbn.
    + apply returns_bind. intros now. by apply returns_ret.
    + by apply returns_ret.
  - by apply returns_ret.
  - by apply returns_ret.
Qed.

(** The instant the client was last heard of. *)
Definition last_packet (start : Z) (es : list Event) : Z :=
  fold_left (fun t e => if is_packet e then woken e else t) es start.

(** As long as the loop goes on there was no kick. *)
Definition loop_state (k : Z) (es : list Event) (st : Online) (a : option SessionReason * Online) : Prop :=
  fst a = None ->
  flags (snd a) = (if existsb is_disconnect es then flag_disconnect (flags st) else flags st)
  /\ (existsb is_disconnect es = false -> mqtt_disconnect (info (snd a)) = mqtt_disconnect (info st))
  /\ forall t, keep_alive_delay st = t + keep_alive_interval k ->
       keep_alive_delay (snd a) = last_packet t es + keep_alive_interval k.

Lemma unkicked_flags e f :
  kick_of e = None -> event_flags e f = if is_disconnect e then flag_disconnect f else f.
Proof.
  unfold kick_of, event_flags, is_disconnect.
  by destruct (wakeup e) as [| |x|[[| |[] ? ?| | | | |]|]|[[[]|]|err]].
Qed.

Lemma run_loop_state k es st : returns (loop_state k es st) (run_loop k es st).
Proof.
  revert st. induction es as [|e es IH]; intros st; cbn [run_loop]; [by apply returns_ret|].
  intros r. unfold bind. pose proof (online_step_state k e st r) as (F1 & F2 & F3 & F4 & _).
  destruct (online_step k e st r) as [[[u|why] st1] r1]; cbn in F1, F2, F3, F4; [|done].
  destruct (kick_of e) eqn:Hk; [done|]. rewrite unkicked_flags in F2 by done.
  intros Hn. destruct (IH st1 r1 Hn) as (J1 & J2 & J3). cbn [existsb last_packet fold_left].
  rewrite J1, F2. split; [by destruct (is_disconnect e), (existsb is_disconnect es)|]. split.
  - intros [He Hes]%orb_false_iff. by rewrite J2, F3.
  - intros t Ht. apply J3. rewrite F1. by destruct (is_packet e).
Qed.

(** The loop over more events goes on where it was. *)
Lemma run_loop_app k es es' st r :
  run_loop k (es ++ es') st r
  = let '((ended, st1), r1) := run_loop k es st r in
    match ended with Some why => ((Some why, st1), r1) | None => run_loop k es' st1 r1 end.
Proof.
  revert st r. induction es as [|e es IH]; intros st r; cbn [run_loop app]; [done|].
  unfold bind. destruct (online_step k e st r) as [[[u|why] st1] r1]; [apply IH | done].
Qed.

(** ** Lemmas: the end of the connection *)

(** The two hooks of the end. *)
Inductive Mark : Type := Left | Ended (why : SessionReason).

Definition mark (e : Effect Cids) : option Mark :=
  match e with EDisconnected _ => Some Left | ETerminated why => Some (Ended why) | _ => None end.

(** Nothing but the will is handed on. *)
Definition will_only (e : Effect Cids) : Prop := forall from q, handed_on e = Some (from, q) -> from = from_lastwill id.

Definition will_of (e : Effect Cids) : option Publish :=
  match e with
  | EForward from p => match typ from with FromLastWill => Some p | _ => None end
  | _ => None
  end.

(** The will was forwarded once, or not at all. *)
Definition sent (b : bool) (n : list (Effect Cids)) : Prop :=
  if b then exists q, omap will_of n = [q] else omap will_of n = [].

Lemma forwarded_wills n :
  omap will_of n
  = map snd (List.filter (fun x => match typ (fst x) with FromLastWill => true | _ => false end) (omap forwarded n)).
Proof.
  induction n as [|e n IH]; [done|]. destruct e; cbn; try exact IH.
  destruct (typ from) eqn:Ht; cbn; rewrite ?Ht; cbn; by rewrite IH.
Qed.

(** In the build of the program a client's will is surely forwarded. *)
Definition sure : Prop := f_retain build = false /\ f_delayed build = false /\ exists p, lw = Some (Ok p).

(** A part of the end: its hooks, and whether it sends the will. *)
Definition part (l : list Mark) (b : bool) (n : list (Effect Cids)) : Prop :=
  Forall will_only n /\ omap mark n = l /\ (sure -> sent b n).

Lemma part_app l l' b b' n n' : part l b n -> part l' b' n' -> b && b' = false -> part (l ++ l') (b || b') (n ++ n').
Proof.
  intros (A1 & A2 & A3) (B1 & B2 & B3) Hb. split; [by apply Forall_app|]. split; [by rewrite omap_app_list, A2, B2|].
  intros Hs. specialize (A3 Hs). specialize (B3 Hs). unfold sent in *. rewrite omap_app_list.
  destruct b, b'; cbn in *; try done.
  - destruct A3 as [q ->]. rewrite B3. by exists q.
  - destruct B3 as [q ->]. rewrite A3. by exists q.
  - by rewrite A3, B3.
Qed.

Definition aside (e : Effect Cids) : Prop := mark e = None /\ handed_on e = None.

Lemma part_aside n : Forall aside n -> part [] false n.
Proof.
  intros Hn. split; [|split].
  - eapply Forall_impl; [exact Hn|]. intros e [_ He] from q. by rewrite He.
  - induction Hn as [|e n [He _] _ IH]; cbn; [done|]. by rewrite He.
  - intros _. unfold sent. induction Hn as [|e n [_ He] _ IH]; cbn; [done|].
    destruct e; cbn in *; try done; apply IH.
Qed.

Lemma part_nil : part [] false [].
Proof. by apply part_aside. Qed.

Lemma does_aside {A} (m : Act A) : only aside m -> does m (fun _ n => part [] false n).
Proof. intros Hm. eapply does_mono; [exact Hm|]. cbv beta. intros _ n. apply part_aside. Qed.

(** [m] comes before the rest of the end and does nothing of it. *)
Lemma part_then {A B} (m : Act A) (k : A -> Act B) (Q : B -> list (Effect Cids) -> Prop) l b l' b' :
  does m (fun _ n => part l b n) -> b && b' = false ->
  (forall x n, part (l ++ l') (b || b') n -> Q x n) ->
  (forall a, does (k a) (fun _ n => part l' b' n)) -> does (bind m k) Q.
Proof.
  intros Hm Hb HQ Hk. eapply does_bind; [exact Hm|]. cbv beta. intros a n Hn.
  eapply does_mono; [apply Hk|]. cbv beta. intros x n' Hn'. by apply HQ, part_app.
Qed.

(** What [process_last_will] hands on is the will. *)
Lemma process_last_will_part : does (process_last_will lw) (fun _ n => part [] true n).
Proof.
  assert (only online_effect (process_last_will lw)) as Ho.
  { unfold Session.process_last_will, hook_publish, storage_available, expiry_of.
    only_by ltac:(apply (only_mono _ _ _ (forwards_no_answer _ _ _ _) no_answer_online)). }
  assert (does (process_last_will lw) (fun _ n => Forall will_only n /\ (sure -> sent true n))) as Hw.
  { destruct lw as [[p|e]|] eqn:Hlw.
    - eapply does_mono; [by apply process_last_will_does|]. cbv beta. intros res n (q & rest & -> & _ & [A1 _ _] & A4).
      rewrite Forall_forall in A1. split.
      + constructor; [done|]. apply Forall_forall. intros e He from q' Hq.
        assert ((from, q') ∈ omap handed_on rest) as Hin by by eapply omap_elem. by specialize (A1 _ Hin) as [= -> _].
      + intros (Hr & Hd & _). destruct (A4 Hr Hd) as [_ A5]. exists q. cbn.
        by rewrite forwarded_wills, A5.
    - cbn. apply does_ret. split; [done|]. intros (_ & _ & p & Hp). congruence.
    - cbn. apply does_ret. split; [done|]. intros (_ & _ & p & Hp). congruence. }
  eapply does_mono; [apply (does_and _ _ _ Ho Hw)|]. cbv beta. intros _ n (A1 & A2 & A3).
  split; [done|]. split; [|exact A3].
  clear A2 A3. induction A1 as [|e n He _ IH]; cbn; [done|]. by destruct e.
Qed.

Definition at_once (f : StateFlags) (clean : bool) : bool :=
  last_will_enable f clean && (clean || is_none will_delay_interval).

Lemma end_of_connection_part f clean :
  does (end_of_connection f clean will_delay_interval lw) (fun w n => part [] (at_once f clean) n
    /\ w = if last_will_enable f clean && negb (at_once f clean) then will_delay_interval else None).
Proof.
  unfold Session.end_of_connection, at_once. destruct (last_will_enable f clean); [|by apply does_ret; split; [apply part_nil|]].
  cbn [andb]. destruct (clean || is_none will_delay_interval); [|by apply does_ret; split; [apply part_nil|]].
  eapply does_bind; [apply process_last_will_part|]. cbv beta. intros _ n Hn. apply does_ret. by rewrite app_nil_r.
Qed.

Lemma drop_queue_aside why l : only aside (drop_queue id why l).
Proof.
  induction l as [|[from p] l IH]; cbn [drop_queue]; unfold message_dropped; [apply only_ret|].
  apply only_bind; [by apply only_perform|]. intros _. apply IH.
Qed.

Lemma terminate_part why : does (terminate why) (fun life n => life = Terminated why /\ part [Ended why] false n).
Proof.
  unfold terminate, clean.
  apply (does_bind _ _ (fun _ n => part [] false n)); [by apply does_aside, only_ask|]. intros queued n Hn.
  apply (does_bind _ _ (fun _ n => part [Ended why] false n)).
  - eapply (part_then _ _ _ [] false [Ended why] false); [apply does_aside, drop_queue_aside | done | by auto |]. intros _.
    eapply (part_then _ _ _ [] false [Ended why] false); [apply does_aside, only_on_out | done | by auto |]. intros window.
    eapply (part_then _ _ _ [] false [Ended why] false); [apply does_aside, drop_queue_aside | done | by auto |]. intros _.
    eapply (part_then _ _ _ [Ended why] false [] false); [|done | by auto|].
    + apply does_perform. intros _ _. split; [by repeat constructor|]. by split.
    + intros _. eapply (part_then _ _ _ [] false [] false); [apply does_aside, only_ask | done | by auto |]. intros same.
      apply does_aside. destruct same as [[]|]; try apply only_ret.
      apply only_bind; [by apply only_perform|]. intros _. apply only_ret.
  - cbv beta. intros _ n' Hn'. apply does_ret. rewrite app_nil_r. split; [done|]. by apply (part_app [] [_] false false).
Qed.

(** Effects that are no hook of the end and hand on at most the will. *)
Definition offline_effect (e : Effect Cids) : Prop := mark e = None /\ will_only e.

Lemma aside_offline e : aside e -> offline_effect e.
Proof. intros [Hm Hh]. split; [done|]. intros from q. by rewrite Hh. Qed.

Lemma offline_step_only e s : only offline_effect (offline_step build cfg delayed_immediate message_expiry id lw e s).
Proof.
  assert (only offline_effect (process_last_will lw)) as Hw.
  { eapply does_mono; [apply process_last_will_part|]. cbv beta. intros _ n (A1 & A2 & _). rewrite Forall_forall in *.
    intros x Hx. split; [|by apply A1]. destruct (mark x) as [k|] eqn:Hk; [|done].
    assert (k ∈ omap mark n) as Hin by by eapply omap_elem. rewrite A2 in Hin. by apply elem_of_nil in Hin. }
  destruct s as [f will]. destruct e as [from p|closed cs ad| | | |]; cbn [offline_step]; unfold queue_message, message_dropped.
  - eapply only_mono; [|exact aside_offline]. apply only_bind; [by apply only_perform|]. intros _.
    apply only_bind; [|intros _; apply only_ret]. apply only_bind; [apply only_ask|]. intros [u|[f' q]]; [apply only_ret|].
    by apply only_perform.
  - destruct closed; apply only_ret.
  - apply only_ret.
  - apply only_ret.
  - only_by ltac:(apply Hw).
  - only_by ltac:(apply Hw).
Qed.

Lemma offline_run_loop_only es s : only offline_effect (offline_run_loop lw es s).
Proof.
  revert s. induction es as [|e es IH]; intros s; cbn [Session.offline_run_loop]; [apply only_ret|].
  apply only_bind; [apply offline_step_only|]. intros [s' []]; [apply only_ret | apply IH].
Qed.

Lemma offline_run_loop_part es f will :
  does (offline_run_loop lw es (f, will)) (fun _ n => part [] (isSome will && will_due es) n).
Proof.
  assert (does (offline_run_loop lw es (f, will)) (fun _ n => sure -> sent (isSome will && will_due es) n)) as Hs.
  { destruct will as [d|]; cbn [isSome is_none negb andb].
    - destruct (decide (f_retain build = false /\ f_delayed build = false)) as [[Hr Hd]|Hn].
      2:{ eapply does_mono; [apply offline_run_loop_only|]. cbv beta. intros _ n _ (? & ? & _). by destruct Hn. }
      destruct lw as [[p|e]|] eqn:Hlw.
      2,3: rewrite <- Hlw; eapply does_mono; [apply (offline_run_loop_only es)|]; cbv beta; intros _ n _ (_ & _ & p & Hp); congruence.
      intros r. pose proof (offline_will_once build cfg delayed_immediate message_expiry id p es f d r Hback Hr Hd) as Ho.
      unfold wp. destruct (Session.offline_run_loop _ _ _ _ _ _ _ _ r) as [x r']. cbn in Ho.
      destruct Ho as (n & E & Hn). exists n. split; [exact E|]. intros _. unfold sent. rewrite forwarded_wills.
      destruct (will_due es); [destruct Hn as [q ->]; by exists q | by rewrite Hn].
    - eapply does_mono; [apply offline_none|]. cbv beta. intros _ n Hn _. unfold sent. by rewrite forwarded_wills, Hn. }
  eapply does_mono; [apply (does_and _ _ _ Hs (offline_run_loop_only es (f, will)))|]. cbv beta. intros _ n [A1 A2].
  split; [eapply Forall_impl; [exact A2|]; by intros e [_ He]|]. split; [|exact A1].
  clear A1. induction A2 as [|e n [He _] _ IH]; cbn; [done|]. by rewrite He.
Qed.

(** The hooks a life ends with. *)
Definition last_marks (life : Life) : list Mark := match life with Terminated why => [Ended why] | _ => [] end.

Definition over_or_offline (life : Life) : Prop := match life with StillOnline _ => False | _ => True end.

Lemma go_offline_part f will offline :
  does (go_offline f will offline)
    (fun life n => over_or_offline life /\ part (last_marks life) (isSome will && will_due offline) n).
Proof.
  unfold go_offline. eapply does_bind; [apply offline_run_loop_part|]. cbv beta. intros [[f' w'] over] n Hn.
  destruct over; cbn [negb fst]; [|by apply does_ret; rewrite app_nil_r].
  destruct (kicked f'); [by apply does_ret; rewrite app_nil_r|].
  eapply does_mono; [apply terminate_part|]. cbv beta. intros life n' [-> Hn']. split; [done|].
  rewrite <- (orb_false_r (_ && will_due offline)). apply (part_app [] [_]); [done | done | by rewrite andb_false_r].
Qed.

Lemma leave_part why st :
  does (leave why st) (fun '(clean, will, i) n =>
    clean = clean_session (mqtt_disconnect (info st))
    /\ part [Left] (at_once (flags st) clean) n
    /\ will = if last_will_enable (flags st) clean && negb (at_once (flags st) clean) then will_delay_interval else None).
Proof.
  unfold leave.
  assert (forall A (m : M S A) (B : Type) (k : A -> Act B) Q, (forall a, does (k a) Q) -> does (bind (ask m) k) Q) as Hask.
  { intros A m B k Q Hk. eapply does_bind; [apply (does_ask _ (fun _ n => n = [])); done|].
    cbv beta. intros a n ->. apply Hk. }
  do 2 (apply Hask; intros _). apply Hask. intros now. cbn [mqtt_disconnect disconnected_reason_add].
  set (i := disconnected_set _ _ _ _).
  eapply does_bind; [apply end_of_connection_part|]. cbv beta. intros will n [Hn ->].
  destruct (final_reason i) as [reason i'].
  eapply does_bind with (P := fun _ n' => part [] false n').
  { destruct conn_info; [by apply does_ret, part_nil|].
    apply does_aside. apply only_bind; [by apply only_perform|]. intros _. apply only_ret. }
  cbv beta. intros _ n' Hn'.
  eapply does_bind; [apply (does_perform _ _ (fun _ n => n = [EDisconnected reason])); done|].
  cbv beta. intros _ n2 ->. apply does_ret. split; [done|]. split; [|done]. rewrite app_nil_r.
  assert (part [Left] false [EDisconnected reason]) as Hl by (split; [by repeat constructor|]; by split).
  pose proof (part_app _ _ _ _ _ _ Hn' Hl eq_refl) as Hr.
  pose proof (part_app _ _ _ _ _ _ Hn Hr (andb_false_r _)) as Hall. by rewrite orb_false_r in Hall.
Qed.

Lemma settle_part f clean will i offline :
  does (settle f clean will i offline) (fun life n => over_or_offline life
    /\ part (last_marks life) (negb (kicked f) && negb clean && isSome will && will_due offline) n).
Proof.
  assert (forall why, does (terminate why) (fun life n => over_or_offline life /\ part (last_marks life) false n)) as Ht.
  { intros why. eapply does_mono; [apply terminate_part|]. by intros life n [-> Hn]. }
  unfold settle. destruct (kicked f); cbn [negb andb].
  { destruct (by_admin_kick f); [apply Ht|]. by apply does_ret; split; [|apply part_nil]. }
  destruct clean; cbn [negb andb]; [apply Ht|].
  eapply does_bind; [apply does_aside, only_on_out|]. cbv beta. intros ms n Hn.
  apply (does_bind _ _ (fun _ n' => part [] false n')).
  { destruct ms as [|m ms]; [by apply does_ret, part_nil|]. by apply does_aside, only_perform. }
  cbv beta. intros _ n' Hn'. eapply does_mono; [apply go_offline_part|]. cbv beta. intros life n2 [Ho Hn2]. split; [done|].
  apply (part_app [] _ false); [done| |done]. by apply (part_app [] _ false).
Qed.

(** Whether the will is sent, of a connection that has ended, as the code decides. *)
Definition will_sent (f : StateFlags) (clean : bool) (offline : list OfflineEvent) : bool :=
  last_will_enable f clean
  && (clean || is_none will_delay_interval || (negb (kicked f) && will_due offline)).

Lemma run_parts start k i es offline r :
  let st0 := online_start start k i in
  let '(ended, st) := fst (run_loop k es st0 (snd (ask connections_inc r))) in
  let '(life, r') := run start k i es offline r in
  exists before after, effects r' = effects r ++ before ++ after /\ Forall checked_effect before
  /\ match ended with
     | None => life = StillOnline st /\ after = []
     | Some _ => over_or_offline life
         /\ part (Left :: last_marks life) (will_sent (flags st) (clean_session (mqtt_disconnect (info st))) offline) after
     end.
Proof.
  unfold run. rewrite bind_run. set (r0 := snd (ask connections_inc r)). set (st0 := online_start start k i).
  assert (effects r0 = effects r) as E0 by (unfold r0; rewrite ask_run; cbn; by rewrite app_nil_r).
  unfold bind. pose proof (run_loop_checked k es st0 r0) as Hl. unfold wp in Hl.
  destruct (run_loop k es st0 r0) as [[ended st] r1]. destruct Hl as (before & E1 & Hb). cbn [fst].
  destruct ended as [why|]; [|exists before, []; by rewrite app_nil_r, E1, E0].
  pose proof (leave_part why st r1) as Hv. unfold wp in Hv. destruct (leave why st r1) as [[[c w] i'] r2].
  destruct Hv as (n2 & E2 & Hc & Hn2 & Hw).
  pose proof (settle_part (flags st) c w i' offline r2) as Hs. unfold wp in Hs.
  destruct (settle (flags st) c w i' offline r2) as [life r3]. destruct Hs as (n3 & E3 & Ho & Hn3).
  exists before, (n2 ++ n3). split; [by rewrite E3, E2, E1, E0, <- !app_assoc|]. split; [done|]. split; [done|].
  subst c. set (clean := clean_session _) in *. set (late := _ && will_due offline) in Hn3.
  replace (will_sent (flags st) clean offline) with (at_once (flags st) clean || late).
  - apply (part_app [Left]); [done..|]. subst late w. unfold at_once.
    destruct (last_will_enable _ _), clean, will_delay_interval; cbn; rewrite ?andb_false_r; done.
  - subst late w. unfold at_once, will_sent.
    destruct (last_will_enable _ _), clean, will_delay_interval, (kicked (flags st)); cbn; rewrite ?andb_false_r; done.
Qed.

(** When the will is expected, after the events [es] and the event [e] that
    ended the connection, for a session that is clean or not. *)
Definition will_expected (clean : bool) (es : list Event) (e : Event) (offline : list OfflineEvent) : bool :=
  if existsb is_disconnect es then false
  else match kick_of e with
       | Some clean_start => (clean || clean_start) && (clean || is_none will_delay_interval)
       | None => clean || is_none will_delay_interval || will_due offline
       end.

Lemma will_sent_expected es e offline d st :
  flags st = event_flags e (if existsb is_disconnect es then flag_disconnect no_flags else no_flags) ->
  is_disconnect e = false -> (existsb is_disconnect es = false -> mqtt_disconnect (info st) = d) ->
  will_sent (flags st) (clean_session (mqtt_disconnect (info st))) offline
  = will_expected (clean_session d) es e offline.
Proof.
  intros -> He Hd. unfold will_expected. destruct (existsb is_disconnect es).
  - unfold will_sent, last_will_enable, event_flags.
    by destruct (wakeup e) as [| |x|[[| |[] ? ?| | | | |]|]|[[[]|]|err]].
  - rewrite Hd by done. unfold will_sent, last_will_enable, event_flags, kick_of, is_disconnect in *.
    destruct (wakeup e) as [| |x|[[| |[] [] ?| | | | |]|]|[[[]|]|err]]; cbn; try done;
      by destruct (clean_session d), will_delay_interval.
Qed.

Lemma checked_no_will n : Forall checked_effect n -> omap will_of n = [].
Proof.
  intros Hn. induction Hn as [|e n [_ He] _ IH]; [done|]. cbn.
  destruct (will_of e) as [q|] eqn:Hw; [|exact IH]. destruct e; try done. cbn in Hw.
  destruct (typ from) eqn:Ht; try done. destruct (He _ _ eq_refl) as [-> _]. done.
Qed.

(** ** Lemmas: answers *)

(** MQTT's answers, with the packet id and the number of codes. *)
Inductive Answer : Type :=
| PubAck (pid : Z)
| PubRec (pid : Z)
| PubComp (pid : Z)
| PubRel (pid : Z)
| SubAck (pid : Z) (codes : nat)
| UnsubAck (pid : Z) (codes : nat)
| PingResp
| AuthResp.

Definition answer (e : Effect Cids) : option Answer :=
  match e with
  | EAck pid _ => Some (PubAck pid)
  | EReceived pid _ => Some (PubRec pid)
  | EComplete pid => Some (PubComp pid)
  | ERelease pid => Some (PubRel pid)
  | ESubAckV3 pid codes => Some (SubAck pid (length codes))
  | ESubAckV5 pid codes => Some (SubAck pid (length codes))
  | EUnsubAck pid codes => Some (UnsubAck pid codes)
  | EPong => Some PingResp
  | EAuth => Some AuthResp
  | _ => None
  end.

(** The answer MQTT wants to a packet of the client. A PUBREC whose reason code
    is an error ends the delivery, and wants none. *)
Definition expected (pkt : Packet) : list Answer :=
  match pkt with
  | PPublish p =>
      match pub_qos p, packet_id p with
      | AtLeastOnce, Some pid => [PubAck pid]
      | ExactlyOnce, Some pid => [PubRec pid]
      | _, _ => []
      end
  | PPublishRelease pid => [PubComp pid]
  | PPublishReceived pid reason => if reason <? 128 then [PubRel pid] else []
  | PSubscribeV3 pid tfs => [SubAck pid (length tfs)]
  | PSubscribeV5 pid _ tfs => [SubAck pid (length tfs)]
  | PUnsubscribeV3 pid _ => [UnsubAck pid 0]
  | PUnsubscribeV5 pid tfs => [UnsubAck pid (length tfs)]
  | PPingRequest => [PingResp]
  | PAuth => [AuthResp]
  | _ => []
  end.

(** What the session sends: it does not look at the reason code of a PUBREC. *)
Definition given (pkt : Packet) : list Answer :=
  match pkt with PPublishReceived pid _ => [PubRel pid] | _ => expected pkt end.

(** The answers are [l]; when [m] fails they may be missing. *)
Definition answers_with {E A} (l : list Answer) (res : result E A) (n : list (Effect Cids)) : Prop :=
  omap answer n = l \/ (is_ok res = false /\ omap answer n = []).

Lemma no_answers n : Forall no_answer n -> omap answer n = [].
Proof. induction 1 as [|e n He _ IH]; [done|]. by destruct e. Qed.

Lemma does_unanswered {A} (m : Act A) : only no_answer m -> does m (fun _ n => omap answer n = []).
Proof. intros Hm. eapply does_mono; [exact Hm|]. cbv beta. intros _ n. apply no_answers. Qed.

Lemma mute_unanswered {A} (m : Act A) : only mute_effect m -> does m (fun _ n => omap answer n = []).
Proof. intros Hm. apply does_unanswered. by eapply only_mono; [|exact mute_no_answer]. Qed.

(** [m] without an answer comes before, or comes after. *)
Lemma unanswered_then {A B} (m : Act A) (k : A -> Act B) (Q : B -> list (Effect Cids) -> Prop) :
  does m (fun _ n => omap answer n = []) ->
  (forall n n' b, omap answer n = omap answer n' -> Q b n -> Q b n') ->
  (forall a, does (k a) Q) -> does (bind m k) Q.
Proof.
  intros Hm HQ Hk. eapply does_bind; [exact Hm|]. cbv beta. intros a n Hn. eapply does_mono; [apply Hk|].
  cbv beta. intros b n'. apply HQ. by rewrite omap_app_list, Hn.
Qed.

Lemma answers_with_ext {E A} l n n' (res : result E A) :
  omap answer n = omap answer n' -> answers_with l res n -> answers_with l res n'.
Proof. intros Hn. unfold answers_with. by rewrite Hn. Qed.

(** The answer is sent, and then there is none. *)
Lemma answer_sent {A} (e : Effect Cids) x (m : M S (result Error unit)) (k : result Error unit -> Act A) :
  answer e = Some x -> (forall res, only no_answer (k res)) ->
  does (let! res := perform (fun _ => e) m in k res) (fun _ n => omap answer n = [x]).
Proof.
  intros He Hk. eapply does_bind; [apply (does_perform _ _ (fun _ n => n = [e])); done|]. cbv beta. intros res n ->.
  eapply does_mono; [apply does_unanswered, Hk|]. cbv beta. intros a n Hn. cbn. by rewrite He, Hn.
Qed.

Lemma sent_answers {E A} x (m : Act (result E A)) :
  does m (fun _ n => omap answer n = [x]) -> does m (fun res n => answers_with [x] res n).
Proof. intros Hm. eapply does_mono; [exact Hm|]. intros res n Hn. by left. Qed.

Lemma refused_answers {E A} l (e : E) n : omap answer n = [] -> answers_with (A := A) l (Err e) n.
Proof. by right. Qed.

Lemma release_no_answer (b : bool) pid :
  only no_answer ((if b then let! _ := on_in (in_remove pid) in ret tt else ret tt) : Act unit).
Proof. only_by fail. Qed.

Lemma does_ok {E A B} (a : A) (k : A -> Act (result E B)) Q : does (k a) Q -> does (and_then (ret (Ok a)) k) Q.
Proof. intros Hk r. apply Hk. Qed.

(** The next step, for which [known] proves that it sends no answer. *)
Ltac unanswered known :=
  eapply unanswered_then; [apply does_unanswered; known | intros ? ? ?; apply answers_with_ext |].

Lemma process_publish_answers p :
  does (process_publish p) (fun res n => answers_with (expected (PPublish p)) res n).
Proof.
  unfold Session.process_publish. cbn [expected]. destruct (pub_qos p).
  - eapply does_bind; [apply does_unanswered, publish_no_answer|]. cbv beta. intros res n Hn. apply does_ret. left.
    by rewrite app_nil_r, Hn.
  - destruct (packet_id p) as [pid|]; cbn [the_packet_id]; [apply does_ok | by apply does_ret, refused_answers].
    unanswered ltac:(apply only_on_in). intros [b|e].
    + unanswered ltac:(apply publish_no_answer).
      intros [pubres|e].
      * apply sent_answers, answer_sent; [done|]. intros res. only_by ltac:(apply release_no_answer).
      * eapply does_bind; [apply does_unanswered, release_no_answer|]. cbv beta. intros _ n Hn. apply does_ret.
        apply refused_answers. by rewrite app_nil_r.
    + eapply does_bind; [apply does_unanswered; by apply only_perform|]. cbv beta. intros _ n Hn. apply does_ret.
      apply refused_answers. by rewrite app_nil_r.
  - destruct (packet_id p) as [pid|]; cbn [the_packet_id]; [apply does_ok | by apply does_ret, refused_answers].
    unanswered ltac:(apply publish_no_answer).
    intros [pub_res|e]; [|by apply does_ret, refused_answers].
    unanswered ltac:(only_by fail).
    intros [b|e]; [|by apply does_ret, refused_answers].
    apply sent_answers, answer_sent; [done|]. intros res. only_by ltac:(apply release_no_answer).
Qed.

(** A subscription has a code for every filter. *)
Lemma subscribes_v3_codes limit tfs :
  returns (fun res => forall codes, res = Ok codes -> length codes = length tfs) (subscribes_v3 shared limit tfs).
Proof.
  induction tfs as [|[tf q] tfs IH]; cbn [Session.subscribes_v3]; [apply returns_ret; by intros ? [= <-]|].
  apply returns_bind. intros [s|e]; [|by apply returns_ret]. apply returns_bind. intros res r. unfold and_then, bind.
  specialize (IH r). destruct (subscribes_v3 shared limit tfs r) as [[acks|e] r']; [|done].
  cbn. intros ? [= <-]. cbn. by rewrite (IH acks).
Qed.

Lemma subscribes_v5_codes limit sub_id tfs :
  returns (fun res => forall codes, res = Ok codes -> length codes = length tfs) (subscribes_v5 shared limit sub_id tfs).
Proof.
  induction tfs as [|[tf q] tfs IH]; cbn [Session.subscribes_v5]; [apply returns_ret; by intros ? [= <-]|].
  apply returns_bind. intros [s|e]; [|by apply returns_ret]. apply returns_bind. intros res r. unfold and_then, bind.
  specialize (IH r). destruct (subscribes_v5 shared limit sub_id tfs r) as [[acks|e] r']; [|done].
  cbn. intros ? [= <-]. cbn. by rewrite (IH acks).
Qed.

Lemma does_returns {A} (m : Act A) (P : A -> Prop) (Q : A -> list (Effect Cids) -> Prop) :
  does m Q -> returns P m -> does m (fun a n => P a /\ Q a n).
Proof.
  intros HQ HP r. specialize (HQ r). specialize (HP r). unfold wp in *. destruct (m r) as [a r'].
  destruct HQ as (n & E & Hn). by exists n.
Qed.

Lemma unsubscribe_answers pid tfs codes :
  does (answer_unsubscribe pid tfs codes) (fun res n => answers_with [UnsubAck pid codes] res n).
Proof.
  eapply does_bind; [apply mute_unanswered, unsubscribes_mute|]. cbv beta. intros [u|e] n Hn.
  - eapply does_mono; [apply sent_answers, answer_sent; [done|intros res; apply only_ret]|]. cbv beta. intros res n'.
    apply answers_with_ext. by rewrite omap_app_list, Hn.
  - apply does_ret, refused_answers. by rewrite app_nil_r.
Qed.

Lemma alive_answers l m st :
  does m (fun res n => answers_with l res n) -> does (alive_after m st) (fun a n => answers_with l (fst a) n).
Proof.
  intros Hm. eapply does_bind; [exact Hm|]. cbv beta. intros [u|why] n Hn.
  - eapply does_mono.
    { apply (mute_unanswered (let! st := client_alive st in ret (Ok tt, st))). unfold client_alive. only_by fail. }
    cbv beta. intros a n' Hn'. unfold answers_with in *. rewrite omap_app_list, Hn', app_nil_r. by destruct Hn as [|[? _]]; [left|].
  - apply does_ret. by rewrite app_nil_r.
Qed.

(** ** Theorems *)

(** The life of a session: while the client is connected, whatever it publishes
    is handed on in its own name and only when the check allowed it; from the
    hook [client_disconnected] on, which runs once, nothing is handed on but
    the last will; a session is terminated at most once and after that, and
    exactly when no other connection takes it over. *)
Theorem session_life start k i es offline r :
  let '(life, r') := run start k i es offline r in
  exists before after, effects r' = effects r ++ before ++ after
  /\ Forall checked_effect before /\ Forall will_only after
  /\ omap mark after = match life with StillOnline _ => [] | _ => Left :: last_marks life end.
Proof.
  pose proof (run_parts start k i es offline r) as Hr. cbv zeta in Hr.
  destruct (fst (run_loop _ _ _ _)) as [ended st]. destruct (run start k i es offline r) as [life r'].
  destruct Hr as (before & after & E & Hb & Hend). exists before, after. split; [done|]. split; [done|].
  destruct ended as [why|]; [|destruct Hend as [-> ->]; by split].
  destruct Hend as (Ho & A1 & A2 & _). split; [done|]. rewrite A2. by destruct life.
Qed.

(** C26: the last will of a client, over the whole life of its session, in the
    program's build (without [retain] and [delayed]) and for a will that is a
    valid message. It is not sent while the client is connected, and never
    after a DISCONNECT. When the connection is lost, it is sent exactly once: at
    once when the session is clean or the will has no delay, and otherwise when
    it is due offline, and not at all when another connection takes the session
    over by then. When another connection kicks the client and goes on with its
    session, it is not sent. A kick that ends the session, by a clean start, by
    an administrator or because the session is clean, sends it at once, unless
    the will has a delay and the session is not clean: then it is lost. *)
Theorem last_will_exact start k i es r : sure ->
  let ended es := fst (fst (run_loop k es (online_start start k i) (snd (ask connections_inc r)))) in
  ended es = None ->
  (forall offline, exists new, effects (snd (run start k i es offline r)) = effects r ++ new /\ sent false new)
  /\ forall e es' offline why, ended (es ++ [e]) = Some why ->
     exists new, effects (snd (run start k i (es ++ e :: es') offline r)) = effects r ++ new
     /\ sent (will_expected (clean_session (mqtt_disconnect i)) es e offline) new.
Proof.
  intros Hsure ended Hes.
  assert (forall es' offline, let '(e', st) := fst (run_loop k es' (online_start start k i) (snd (ask connections_inc r))) in
    exists new, effects (snd (run start k i es' offline r)) = effects r ++ new
    /\ sent (isSome e' && will_sent (flags st) (clean_session (mqtt_disconnect (info st))) offline) new) as Hall.
  { intros es' offline. pose proof (run_parts start k i es' offline r) as Hr. cbv zeta in Hr.
    destruct (fst (run_loop _ es' _ _)) as [e' st]. destruct (run start k i es' offline r) as [life r'].
    destruct Hr as (before & after & E & Hb & Hend). exists (before ++ after). split; [exact E|].
    unfold sent. rewrite omap_app_list, (checked_no_will before) by done. cbn [app].
    destruct e' as [why|]; [|by destruct Hend as [_ ->]]. destruct Hend as (_ & _ & _ & Hw). exact (Hw Hsure). }
  split.
  - intros offline. specialize (Hall es offline). unfold ended in Hes.
    destruct (fst (run_loop k es _ _)) as [e' st]. cbn in Hes. subst e'. exact Hall.
  - intros e es' offline why Hw. specialize (Hall (es ++ e :: es') offline). unfold ended in Hes, Hw.
    pose proof (run_loop_state k es (online_start start k i) (snd (ask connections_inc r))) as Hs.
    rewrite run_loop_app in Hall, Hw. destruct (run_loop k es _ _) as [[e' st] r1]. cbn in Hes. subst e'.
    destruct (Hs eq_refl) as (F1 & F2 & _). cbn [fst snd] in F1, F2. cbn [run_loop] in Hall, Hw. unfold bind in Hall, Hw.
    pose proof (online_step_state k e st r1) as (_ & G1 & G2 & _ & G4).
    destruct (online_step k e st r1) as [[[u|err] st'] r2]; cbn [fst snd is_ok negb andb ret isSome] in *; [done|].
    unfold ret in Hall. cbn [fst snd isSome is_none negb andb] in Hall.
    rewrite (will_sent_expected es e offline (mqtt_disconnect i)) in Hall; [exact Hall | by rewrite G1, F1 | done |].
    intros Hd. by rewrite G2, F2.
Qed.

(** C27: the protocol's answers: a packet of the client that is handled gets
    exactly the answer MQTT wants, with its packet id, and none other: a PUBACK
    or PUBREC for a message by its quality of service, a PUBCOMP for a PUBREL, a
    PUBREL for a PUBREC, one code per filter for a subscription, an AUTH for an
    AUTH. When handling it fails, which ends the connection, it has no answer or
    this one. The exception is a PUBREC whose reason code is an error, which
    must not be answered: it gets a PUBREL like any other. *)
Theorem packet_answered pkt st r :
  let '((res, _), r') := process_mqtt_message pkt st r in
  exists new, effects r' = effects r ++ new
  /\ let answers l := omap answer new = l \/ (is_ok res = false /\ omap answer new = []) in
     match pkt with
     | PPublishReceived pid reason =>
         (reason < 128 -> answers (expected pkt)) /\ (128 <= reason -> expected pkt = [] /\ answers [PubRel pid])
     | _ => answers (expected pkt)
     end.
Proof.
  assert (does (process_mqtt_message pkt st) (fun a n => answers_with (given pkt) (fst a) n)) as Hd.
  2:{ specialize (Hd r). unfold wp in Hd. destruct (process_mqtt_message pkt st r) as [[res st'] r'].
      destruct Hd as (new & E & Hn). exists new. split; [exact E|]. destruct pkt; try exact Hn. cbn [expected].
      destruct (Z.ltb_spec reason 128); (split; [|]; intros ?; try lia; by try split). }
  unfold given.
  destruct pkt; cbn [process_mqtt_message].
  - unanswered ltac:(apply only_ask). intros now.
    apply alive_answers. apply (process_publish_answers (with_create_time now p)).
  - apply alive_answers.
    unanswered ltac:(apply only_on_in). intros _.
    apply sent_answers, answer_sent; [done|]. intros res. apply only_ret.
  - apply alive_answers. unfold process_ack. eapply does_mono; [apply mute_unanswered; only_by fail|]. cbv beta. intros a n Hn. by left.
  - apply alive_answers.
    unanswered ltac:(apply only_ask). intros now.
    unanswered ltac:(apply only_on_out). intros _.
    apply sent_answers, answer_sent; [done|]. intros res. apply only_ret.
  - apply alive_answers. unfold process_ack. eapply does_mono; [apply mute_unanswered; only_by fail|]. cbv beta. intros a n Hn. by left.
  - apply alive_answers. eapply does_bind; [apply (does_returns _ _ _ (mute_unanswered _ (subscribes_v3_mute _ _)) (subscribes_v3_codes _ _))|].
    cbv beta. intros [codes|e] n [Hl Hn]; [|apply does_ret, refused_answers; by rewrite app_nil_r].
    eapply does_mono; [apply sent_answers, answer_sent; [done|intros res; apply only_ret]|]. cbv beta. intros res n' Hn'.
    cbn [given expected]. rewrite <- (Hl codes eq_refl). eapply answers_with_ext; [|exact Hn']. by rewrite omap_app_list, Hn.
  - apply alive_answers. eapply does_bind; [apply (does_returns _ _ _ (mute_unanswered _ (subscribes_v5_mute _ _ _)) (subscribes_v5_codes _ _ _))|].
    cbv beta. intros [codes|e] n [Hl Hn]; [|apply does_ret, refused_answers; by rewrite app_nil_r].
    eapply does_mono; [apply sent_answers, answer_sent; [done|intros res; apply only_ret]|]. cbv beta. intros res n' Hn'.
    cbn [given expected]. rewrite <- (Hl codes eq_refl). eapply answers_with_ext; [|exact Hn']. by rewrite omap_app_list, Hn.
  - apply alive_answers, unsubscribe_answers.
  - apply alive_answers, unsubscribe_answers.
  - eapply does_mono; [apply answer_sent; [done|]|].
    + intros [u|e]; [|apply only_ret]. unfold client_alive. only_by fail.
    + cbv beta. intros a n Hn. by left.
  - eapply does_mono; [apply mute_unanswered; only_by fail|]. cbv beta. intros a n Hn. by left.
  - apply alive_answers, sent_answers, answer_sent; [done|]. intros res. apply only_ret.
  - apply does_ret. by apply refused_answers.
Qed.

(** The keep-alive timer measures silence exactly: a client that has sent
    its last packet at some instant is disconnected by the timer when it
    fires at least the keep-alive time after that instant, and not before;
    whatever else the session was busy with meanwhile. *)
Theorem keep_alive_exact start k i es e r :
  wakeup e = WKeepAlive -> fst (fst (run_loop k es (online_start start k i) r)) = None ->
  fst (fst (run_loop k (es ++ [e]) (online_start start k i) r))
  = if last_packet start es + keep_alive_interval k <=? woken e then Some ConnectKeepaliveTimeout else None.
Proof.
  intros He Hn. rewrite run_loop_app.
  pose proof (run_loop_state k es (online_start start k i) r) as F.
  destruct (run_loop k es (online_start start k i) r) as [[ended st] r1]. cbn in Hn. subst ended.
  destruct (F eq_refl) as (_ & _ & Hd). rewrite <- (Hd start eq_refl). cbn [run_loop fst snd].
  unfold bind at 1, online_step. rewrite bind_run, He. cbn [ret].
  destruct (keep_alive_delay st <=? woken e); reflexivity.
Qed.

(** The rounds of [resend_timeouts] are enough: more make no difference. *)
Theorem resend_enough `{!DequeMapLaws D} rounds r :
  (dm_len (queues (out_inflight r)) < rounds)%nat -> resend_loop rounds r = resend_timeouts r.
Proof.
  assert (forall m (r : Run), out_inflight (snd (reforward id m r)) = out_inflight r) as Hkeep.
  { assert (forall A (m : M S A) (r : Run), out_inflight (snd (ask m r)) = out_inflight r) as Ha
      by (intros A m r0; unfold ask; by destruct (m (world r0))).
    assert (forall A (e : A -> Effect Cids) (m : M S A) (r : Run), out_inflight (snd (perform e m r)) = out_inflight r) as Hp
      by (intros A e m r0; unfold perform; rewrite bind_run; cbn; apply Ha).
    assert (forall from p (r : Run), out_inflight (snd (forward id from p r)) = out_inflight r) as Hf.
    { intros from p r0. unfold forward. rewrite bind_run. destruct (fst (perform _ _ r0)) as [u|[f q]]; [apply Hp|].
      unfold message_dropped. by rewrite !Hp. }
    intros m r0. unfold reforward. destruct (moment m).
    1,2: rewrite bind_run; apply Hf.
    rewrite bind_run. destruct (is_expiry _); cbn; by rewrite ?Ha. }
  assert (forall n rounds r, (dm_len (queues (out_inflight r)) < n)%nat -> (dm_len (queues (out_inflight r)) < rounds)%nat ->
    resend_loop rounds r = resend_loop n r) as Hall.
  2:{ intros Hr. unfold resend_timeouts. apply Hall; [lia | done]. }
  clear r rounds. induction n as [|n IH]; intros rounds r Hn Hr; [lia|]. destruct rounds as [|rounds]; [lia|].
  cbn [resend_loop]. rewrite !bind_run, !ask_run, !on_out_run. cbn [fst snd].
  set (r0 := after now_millis [] r). assert (out_inflight r0 = out_inflight r) as E0 by done. rewrite E0.
  set (pop := pop_front_timeout _ _).
  assert (match fst pop with Some _ => Datatypes.S (dm_len (queues (snd pop))) = dm_len (queues (out_inflight r)) | None => True end) as Hpop.
  { unfold pop, pop_front_timeout, pop_front. destruct (front_timeout _ _); [|done].
    pose proof (dm_pop_front_iter (queues (out_inflight r))) as [Hf Ht].
    destruct (dm_pop_front (queues (out_inflight r))) as [[[k m]|] q]; [|done]. cbn in *. rewrite !dm_len_iter, Ht.
    by destruct (dm_iter (queues (out_inflight r))). }
  destruct (fst pop) as [m|]; [|done]. unfold and_then. rewrite !bind_run.
  destruct (fst (reforward id m _)) as [u|e]; [|done]. apply IH; rewrite Hkeep; cbn; lia.
Qed.

(** The branch of [run] that answers with the client's own DISCONNECT is never
    taken: the reason of the end is always a list of reasons, or that the
    client has gone. *)
Lemma own_disconnect_unsent i d : disconnect_packet (fst (final_reason i)) <> AsReceived d.
Proof. unfold final_reason. by destruct (reasons i). Qed.

End loop.

(** ** Witnesses *)

Module SessionLoopExample.
Import SessionExample.

#[local] Existing Instance quiet_broker.
#[local] Existing Instances InflightExample.Q_ops InflightExample.Q_laws.

(** A connection on which everything can be sent. *)
Definition quiet_connection {S : Type} : Connection S := {|
  connections_inc := ret tt;
  connections_dec := ret tt;
  send_subscribe_ack_v3 := fun _ _ => ret (Ok tt);
  send_subscribe_ack_v5 := fun _ _ => ret (Ok tt);
  send_unsubscribe_ack := fun _ _ => ret (Ok tt);
  send_ping_response := ret (Ok tt);
  send_auth := ret (Ok tt);
  send_disconnect := fun _ => ret (Ok tt);
  sink_flush := ret (Ok tt);
  sink_close := ret (Ok tt);
  hook_keepalive := fun _ => ret tt;
  session_keepalive := fun _ => ret tt;
  hook_client_disconnected := fun _ => ret tt;
  hook_offline_inflight := fun _ => ret tt;
  queue_drain := ret []
|}.

#[local] Existing Instance quiet_connection.

(** A version 5 client with a session of two hours and a will after a minute. *)
Definition v5_client : ConnectInfo := ConnV5 client None None.

Definition v5_will (delay : option Z) : LastWill := WillV5 false AtMostOnce "last/words" "x" delay.

Definition the_will : Publish := with_create_time 0 (message AtMostOnce "last/words" None).

Definition never_disconnected : DisconnectInfo := mkDisconnectInfo 0 [] None.

Abbreviation loop :=
  (run_loop (S := unit) (D := InflightExample.Q) ciqadamq_build listener false false 10 0 ExactlyOnce less
     (fun _ => None) (fun _ => None) true false false client).

Abbreviation life delay :=
  (run (S := unit) (D := InflightExample.Q) ciqadamq_build listener false false 10 0 ExactlyOnce less
     (fun _ => None) (fun _ => None) true false false v5_client false (fun _ => 7200) (Some (lw_publish 0 (v5_will delay))) (lw_delay (v5_will delay))
     (fun _ => Code.UnspecifiedError) (fun _ => Code.UnspecifiedError) (fun _ => Code.NotAuthorized) client).

Definition at_ (t : Z) (w : Wakeup) : Event := mkEvent t t w.

Definition gets (t : Z) (pkt : Packet) : Event := at_ t (WPacket (Ok (Some pkt))).

(** A subscription, a message, a ping, and then the network is gone. *)
Definition lost : list Event :=
  [ gets 1000 (PSubscribeV5 1 None [("chat/u1/#", mkCodecV5 AtLeastOnce false false AtSubscribe)]);
    gets 2000 (PPublish (message AtLeastOnce "chatsync" (Some 8)));
    gets 50000 PPingRequest; at_ 95000 WKeepAlive; at_ 110000 WKeepAlive ].

(** A client that says goodbye. *)
Definition bye : list Event := [gets 1000 (PDisconnect (DisconnectV5 Code.NormalDisconnection None None)); at_ 1500 (WPacket (Ok None))].

Definition wills (delay : option Z) (es : list Event) (offline : list OfflineEvent) : list Publish :=
  omap will_of (effects (snd (life delay 0 60 never_disconnected es offline (start tt)))).

Example will_of_lost : wills None lost [] = [the_will]. Proof. by vm_compute. Qed.
Example will_after_bye : wills None bye [OffWillDelay; OffExpired] = []. Proof. by vm_compute. Qed.
Example will_later : wills (Some 60) lost [OffWillDelay; OffExpired] = [the_will]. Proof. by vm_compute. Qed.
Example will_not_wanted : wills (Some 60) lost [OffKick false false false] = []. Proof. by vm_compute. Qed.

(** A client that says goodbye and asks for its will all the same, with the
    reason code 0x04: the will is not sent. *)
Example will_asked_for : wills None [gets 1000 (PDisconnect (DisconnectV5 Code.DisconnectWithWillMessage None None));
    at_ 1500 (WPacket (Ok None))] [] = [].
Proof. by vm_compute. Qed.

(** A clean start from elsewhere ends the session: a will without delay is
    sent, one with a delay is lost. *)
Example will_lost : (fun d => wills d [at_ 1000 (WMessage (Some (MsgKick false true false)))] []) <$> [None; Some 60]
  = [[the_will]; []].
Proof. by vm_compute. Qed.

(** After a DISCONNECT the client's packets are still processed. *)
Example bye_and_more :
  omap forwarded (effects (snd (life None 0 60 never_disconnected
    [gets 1000 (PDisconnect DisconnectV3); gets 1100 (PPublish (message AtMostOnce "chatsync" None))] [] (start tt))))
  = [(from_custom client, with_create_time 0 (message AtMostOnce "chatsync" None))].
Proof. by vm_compute. Qed.

(** Lost after 110 seconds, the session offline until the will is due; and lost
    with nothing more by then. *)
Lemma last_will_exact_witness :
  (exists q, wills (Some 60) lost [OffWillDelay; OffExpired] = [q])
  /\ wills (Some 60) (take 4 lost) [] = [] /\ wills (Some 60) lost [OffKick false false false] = [].
Proof.
  assert (sure ciqadamq_build (Some (lw_publish 0 (v5_will (Some 60))))) as Hs by (split; [done|]; split; [done|]; by eexists).
  pose proof (last_will_exact (S := unit) (D := InflightExample.Q) ciqadamq_build listener false false 10 0 ExactlyOnce
    less (fun _ => None) (fun _ => None) true false false v5_client false (fun _ => 7200)
    (Some (lw_publish 0 (v5_will (Some 60)))) (lw_delay (v5_will (Some 60)))
    (fun _ => Code.UnspecifiedError) (fun _ => Code.UnspecifiedError) (fun _ => Code.NotAuthorized) client
    quiet_gives_back 0 60 never_disconnected (take 4 lost) (start tt) Hs) as Hw.
  destruct Hw as [Hon Hoff]; [vm_compute; reflexivity|].
  assert (forall offline, exists new, effects (snd (life (Some 60) 0 60 never_disconnected lost offline (start tt))) = [] ++ new
    /\ sent (will_expected (lw_delay (v5_will (Some 60)))
         (clean_session listener v5_client false (fun _ => 7200) None) (take 4 lost) (at_ 110000 WKeepAlive) offline) new) as Hl.
  { intros offline. apply (Hoff (at_ 110000 WKeepAlive) [] offline ConnectKeepaliveTimeout). vm_compute. reflexivity. }
  split; [|split].
  - destruct (Hl [OffWillDelay; OffExpired]) as (new & E & Hn). unfold wills. rewrite E. exact Hn.
  - destruct (Hon []) as (new & E & Hn). unfold wills. rewrite E. exact Hn.
  - destruct (Hl [OffKick false false false]) as (new & E & Hn). unfold wills. rewrite E. exact Hn.
Defined.

(** The last packet came at 50 seconds, so the timer of 60 is due at 110. *)
Lemma keep_alive_exact_witness :
  fst (fst (loop 60 (take 4 lost ++ [at_ 110000 WKeepAlive]) (online_start 0 60 never_disconnected) (start tt)))
  = Some ConnectKeepaliveTimeout.
Proof.
  assert (fst (fst (loop 60 (take 4 lost) (online_start 0 60 never_disconnected) (start tt))) = None) as Hn
    by (vm_compute; reflexivity).
  pose proof (keep_alive_exact (S := unit) (D := InflightExample.Q) ciqadamq_build listener false false 10 0 ExactlyOnce
    less (fun _ => None) (fun _ => None) true false false client 0 60 never_disconnected (take 4 lost) (at_ 110000 WKeepAlive)
    (start tt) eq_refl Hn) as Hk.
  rewrite Hk. vm_compute. reflexivity.
Defined.

End SessionLoopExample.
