(* ===== verification/SessionAcl.v ===== *)
(** * Sessions on a node of the application

    [Session] asks a broker, [Hooks] answers with the handlers that are
    registered, [Access] says what the application's handlers grant. Here they
    are put together: the instances [hooked_broker] and [hooked_connection]
    answer a session's questions to the hooks with the registry and leave the
    rest to another broker and connection. On a node with the application's
    handlers, the session of an ordinary user hands on what it publishes only
    to the configured topics, over its whole life; its last will goes to any. *)

From S2P Require Import Prelude Strs Topic Types Acl Store Config Db Vault Api Access Auth.
From S2P Require Import Inflight Retain Fitter Hooks Session SessionLoop.
Local Open Scope string_scope.
Local Open Scope list_scope.
Local Open Scope Z_scope.

Section application.
Context {T : Type} `{KvTable T string Bytes}.
Context (bincode_decode : Bytes -> result string UserRecord).
Context {Phc : Type}.
Context (phc_parse : string -> option Phc) (argon2_verify : Phc -> Bytes -> bool).
Context (hmac_sha256 : Bytes -> Bytes -> Bytes) (sha256 : Bytes -> Bytes).
Context {J : Type}.
Context (from_utf8 : string -> option string).
Context (cfg : Settings) (w : World).
Context {Sess UserProperties GrpcType GrpcMessage GrpcReply PluginHandler : Type}.

Local Abbreviation Node := (Api.Broker T J).
Local Abbreviation Param := (@HookParameter Sess SessionReason Unsubscribe OutInflightMessage GrpcType GrpcMessage).
Local Abbreviation Result := (@Hooks.HookResult UserProperties GrpcReply).

Context (run_plugin : PluginHandler -> Param -> option Result -> M Node (bool * option Result)).
Context (session_superuser : Sess -> bool) (auth_info : Sess -> option AuthInfo).
Context (listen_expiry : Sess -> Z) (message_expiry : Publish -> option Z).

Local Abbreviation run_app :=
  (run_app bincode_decode phc_parse argon2_verify hmac_sha256 sha256 from_utf8 cfg w run_plugin auth_info).

(** The registry, the session, and who answers the other questions. *)
Context (m : gmap Ty.t (list (Key * @HookEntry (@AppHandler PluginHandler)))).
Context (sess : Sess).
Context {Cids : Type} (rest : Session.Broker Node Cids).

(** [self.hook] and [hook_mgr()]: the registry. *)
Definition hooked_broker : Session.Broker Node Cids := {|
  hook_message_publish := fun from p => Hooks.message_publish run_app m (Some sess) from p;
  hook_check_publish := fun p => message_publish_check_acl run_app session_superuser m sess p;
  hook_message_dropped := fun to from p why => notify run_app m (Hooks.MessageDropped to from p why);
  hook_nonsubscribed := fun from => notify run_app m (Hooks.MessageNonsubscribed from);
  hook_acked := fun from p => notify run_app m (Hooks.MessageAcked sess from p);
  hook_expiry := fun from p =>
    let! now := now_millis in let! now' := now_millis in
    message_expiry_check run_app listen_expiry message_expiry publish_time m now now' sess from p;
  hook_delivered := fun from p => message_delivered run_app m sess from p;
  hook_subscribe := fun s => client_subscribe run_app m sess s;
  hook_check_subscribe := fun s => client_subscribe_check_acl run_app session_superuser m sess s;
  hook_subscribed := fun s => notify run_app m (Hooks.SessionSubscribed sess s);
  hook_unsubscribe := fun u => client_unsubscribe run_app m sess u;
  hook_unsubscribed := fun u => notify run_app m (Hooks.SessionUnsubscribed sess u);
  hook_offline_message := fun from p => notify run_app m (Hooks.OfflineMessage sess from p);
  hook_terminated := fun why => notify run_app m (Hooks.SessionTerminated sess why);
  mgr_enable := mgr_enable;
  mgr_next_msg_id := mgr_next_msg_id;
  mgr_store := mgr_store;
  retain_enable := retain_enable;
  retain_set := retain_set;
  retain_get := retain_get;
  delayed_send := delayed_send;
  shared_forwards := shared_forwards;
  shared_subscribe := shared_subscribe;
  shared_unsubscribe := shared_unsubscribe;
  shared_message_load := shared_message_load;
  shared_publish := shared_publish;
  shared_id_same := shared_id_same;
  shared_remove := shared_remove;
  subscriptions_len := subscriptions_len;
  subscriptions_extend := subscriptions_extend;
  router_add := router_add;
  tx_forward := tx_forward;
  tx_rerelease := tx_rerelease;
  queue_send := queue_send;
  now_millis := now_millis;
  send_publish_ack := send_publish_ack;
  send_publish_received := send_publish_received;
  send_publish_complete := send_publish_complete;
  send_publish_release := send_publish_release;
  sink_publish := sink_publish
|}.

Context (line : Connection Node).

Definition hooked_connection : Connection Node := {|
  connections_inc := connections_inc;
  connections_dec := connections_dec;
  send_subscribe_ack_v3 := send_subscribe_ack_v3;
  send_subscribe_ack_v5 := send_subscribe_ack_v5;
  send_unsubscribe_ack := send_unsubscribe_ack;
  send_ping_response := send_ping_response;
  send_auth := send_auth;
  send_disconnect := send_disconnect;
  sink_flush := sink_flush;
  sink_close := sink_close;
  hook_keepalive := fun is_ping => notify run_app m (Hooks.ClientKeepalive sess is_ping);
  session_keepalive := session_keepalive;
  hook_client_disconnected := fun why => notify run_app m (Hooks.ClientDisconnected sess why);
  hook_offline_inflight := fun ms => notify run_app m (Hooks.OfflineInflightMessages sess ms);
  queue_drain := queue_drain
|}.

Context {D : Type} `{DequeMap D}.
Context (build : Build) (lcfg : ListenerConfig) (delayed_publish delayed_immediate : bool).
Context (topic_alias : Publish -> option Z) (id : Id).

Local Abbreviation process_publish :=
  (@process_publish Node Cids D hooked_broker build lcfg delayed_publish delayed_immediate topic_alias message_expiry id).
Local Abbreviation process_last_will :=
  (@process_last_will Node Cids D hooked_broker build lcfg delayed_immediate message_expiry id).
Local Abbreviation Run := (@Run Node Cids D).

(** The session of an ordinary user, with the rules it got when it connected. *)
Definition ordinary (record : UserRecord) (ci : ConnectInfo) : Prop :=
  acl_enabled (acl cfg) = true /\ Db.superuser record = false /\ session_superuser sess = false
  /\ auth_info sess = Some (build_auth_info record (acl cfg) ci).

(** The check allows the session exactly the configured topics. *)
Lemma check_ordinary record ci p b : decides m -> ordinary record ci -> exists a,
  message_publish_check_acl run_app session_superuser m sess p b = (a, b)
  /\ publish_acl_is_allow a = bool_decide (topic p ∈ allowed_topics (acl cfg) ci).
Proof.
  intros Hm (Hen & Hsu & Hss & Hai).
  destruct (publish_decided bincode_decode phc_parse argon2_verify hmac_sha256 sha256 from_utf8 cfg w run_plugin
    session_superuser auth_info m sess p b Hm) as (a & Ea & Hg).
  exists a. split; [exact Ea|]. rewrite Hg, Hss, Hai, publish_allowlist by done. cbn.
  by case_bool_decide.
Qed.

(** One packet: whatever the client publishes, in any state of the session, everything
    retained, delayed, forwarded or stored of it comes from this client and is
    on one of the configured topics. *)
Theorem ordinary_session_publishes record ci p (r : Run) :
  decides m -> ordinary record ci -> @delayed_gives_back Node Cids hooked_broker ->
  let r' := snd (process_publish p r) in
  exists new, effects r' = effects r ++ new
  /\ forall from q, (from, q) ∈ omap handed_on new -> from = from_custom id /\ topic q ∈ allowed_topics (acl cfg) ci.
Proof.
  intros Hm Ho Hback.
  pose proof (wp_run _ _ _ (@process_publish_outcome Node Cids D hooked_broker build lcfg delayed_publish
    delayed_immediate topic_alias message_expiry id p Hback r)) as (n & E & Hn).
  exists n. split; [exact E|]. intros from q Hin. destruct Hn as [(A1 & _)|(q0 & q' & ack & rs & -> & [b Ha] & Hr)].
  { rewrite A1 in Hin. by apply elem_of_nil in Hin. }
  cbn in Hin. destruct (publish_acl_is_allow ack) eqn:Hack.
  2:{ destruct Hr as (A1 & _). rewrite A1 in Hin. by apply elem_of_nil in Hin. }
  destruct Hr as [[A1 _ _] _]. rewrite Forall_forall in A1. specialize (A1 _ Hin). injection A1 as -> ->.
  split; [done|]. cbn in Ha.
  destruct (check_ordinary record ci q' b Hm Ho) as (a & Ea & Hg). rewrite Ea in Ha. cbn in Ha. subst a.
  rewrite Hack in Hg. symmetry in Hg. by apply bool_decide_eq_true in Hg.
Qed.

(** The rest of what a session is made from. *)
Context (max_subscriptions max_topic_levels : Z) (max_qos_allowed : QoS) (less_value : QoS -> QoS -> QoS).
Context (shared limit_feature limit_subscription : bool).
Context (conn_info : ConnectInfo) (v3_clean_session : bool) (session_expiry_interval_secs : ConnectInfo -> Z).
Context (lw : option (result Error Publish)) (will_delay_interval : option Z).
Context (mqtt_code : Error -> Code.t) (in_use_code : Z -> Code.t) (publish_code : PublishResult -> Code.t).

Local Abbreviation run :=
  (@SessionLoop.run Node Cids D hooked_broker _ hooked_connection build lcfg delayed_publish delayed_immediate
     max_subscriptions max_topic_levels max_qos_allowed less_value topic_alias message_expiry
     shared limit_feature limit_subscription conn_info v3_clean_session session_expiry_interval_secs
     lw will_delay_interval mqtt_code in_use_code publish_code id).

(** C6: an ordinary user's session on a node with the application's handlers,
    from the first packet of its connection to its end, whatever the client
    sends and whatever the node sends to the session: everything that is
    retained, delayed, forwarded or stored on its behalf comes from this client,
    and is on one of the configured topics unless it is its last will. *)
Theorem ordinary_session_life record ci start k i es offline (r : Run) :
  decides m -> ordinary record ci -> @delayed_gives_back Node Cids hooked_broker ->
  let r' := snd (run start k i es offline r) in
  exists new, effects r' = effects r ++ new
  /\ forall from q, (from, q) ∈ omap handed_on new ->
       from_id from = id
       /\ ((typ from = FromCustom /\ topic q ∈ allowed_topics (acl cfg) ci) \/ typ from = FromLastWill).
Proof.
  intros Hm Ho Hback.
  pose proof (@session_life Node Cids D hooked_broker _ hooked_connection build lcfg delayed_publish delayed_immediate
    max_subscriptions max_topic_levels max_qos_allowed less_value topic_alias message_expiry
    shared limit_feature limit_subscription conn_info v3_clean_session session_expiry_interval_secs
    lw will_delay_interval mqtt_code in_use_code publish_code id Hback start k i es offline r) as Hl.
  destruct (run start k i es offline r) as [life r']. destruct Hl as (before & after & E & Hb & Ha & _).
  exists (before ++ after). split; [exact E|]. intros from q (e & He & Hq)%list_elem_of_omap.
  rewrite Forall_forall in Hb, Ha. apply elem_of_app in He as [He|He].
  - destruct (Hb e He) as [_ Hc]. destruct (Hc _ _ Hq) as [-> (ack & [b Hack] & Hallow)]. split; [done|]. left.
    split; [done|]. cbn in Hack. destruct (check_ordinary record ci q b Hm Ho) as (a & Ea & Hg).
    rewrite Ea in Hack. cbn in Hack. subst a. rewrite Hallow in Hg. symmetry in Hg. by apply bool_decide_eq_true in Hg.
  - rewrite (Ha e He _ _ Hq). split; [done|]. by right.
Qed.

(** No handler is registered for an event. *)
Lemma exec_unregistered t p b : m !! t = None -> exec run_app m t p b = (None, b).
Proof. intros Hm. unfold exec. by rewrite Hm. Qed.

(** C7: the last will of the same session escapes the check: a message to a
    topic that is not configured, which the check refuses, is forwarded to its
    topic when it is the will the client connected with (in the build of the
    program, and with no plugin that changes messages). *)
Theorem last_will_any_topic record ci p (r : Run) :
  decides m -> ordinary record ci -> topic p ∉ allowed_topics (acl cfg) ci ->
  m !! Ty.MessagePublish = None -> build = ciqadamq_build ->
  @delayed_gives_back Node Cids hooked_broker ->
  (forall b, publish_acl_is_allow (fst (@hook_check_publish Node Cids hooked_broker p b)) = false)
  /\ let '(res, r') := process_last_will (Some (Ok p)) r in
     res = Ok tt
     /\ exists new, effects r' = effects r ++ new /\ omap forwarded new = [(from_lastwill id, p)].
Proof.
  intros Hm Ho Ht Hp Hb Hback. split.
  - intros b. destruct (check_ordinary record ci p b Hm Ho) as (a & Ea & Hg).
    change (publish_acl_is_allow (fst (message_publish_check_acl run_app session_superuser m sess p b)) = false).
    rewrite Ea. cbn [fst]. rewrite Hg. by apply bool_decide_eq_false.
  - pose proof (@process_last_will_does Node Cids D hooked_broker build lcfg delayed_immediate message_expiry id p Hback r) as Hw.
    unfold wp in Hw. destruct (process_last_will _ r) as [res r'].
    destruct Hw as (n & E & q & rs & -> & (c & [b Hc] & ->) & _ & H2).
    destruct H2 as [-> H2]; [by rewrite Hb..|]. split; [done|]. eexists. split; [exact E|]. cbn.
    cbn in Hc. unfold Hooks.message_publish, bind in Hc. rewrite exec_unregistered in Hc by done. cbn in Hc. by subst c.
Qed.

End application.

(** ** Witness: alice's session *)

Module SessionAclExample.
Import HooksExample.
#[local] Existing Instances InflightExample.Q_ops InflightExample.Q_laws.

Definition no_plugin (_ : unit) (p : @HookParameter ASession SessionReason Unsubscribe OutInflightMessage unit unit)
    (acc : option (@Hooks.HookResult unit unit))
    : M (Api.Broker (gmap string Bytes) ReplOp) (bool * option (@Hooks.HookResult unit unit)) := ret (true, acc).

Definition alice_session : ASession :=
  mkASession false (Some (build_auth_info alice (acl AuthExample.settings) alice_conn)).

Lemma manager_decides : decides a_manager.
Proof.
  apply auth_registered.
  - intros t _. by rewrite lookup_empty.
  - by rewrite lookup_empty.
  - intros k x. by rewrite lookup_empty.
  - repeat constructor; cbn; unfold auth_types; set_solver.
Qed.

Abbreviation node_broker :=
  (hooked_broker toy_decode (fun s => Some s) AuthExample.toy_verify AuthExample.toy_hmac (fun b => b)
     (fun s => Some s) AuthExample.settings AuthExample.world no_plugin as_superuser as_info (fun _ => 0)
     (fun _ => None) a_manager alice_session SessionExample.quiet_broker).

Lemma alice_ordinary : ordinary AuthExample.settings as_superuser as_info alice_session alice alice_conn.
Proof. by repeat split. Qed.

Lemma node_gives_back : @delayed_gives_back _ unit node_broker.
Proof. intros from p av e f q [s Hs]. done. Qed.

(** Alice publishes to [chatsync], a configured topic: the message is handed on. *)
Definition published := process_publish (H := node_broker) (D := InflightExample.Q) ciqadamq_build
  SessionExample.listener false false (fun _ => None) (fun _ => None) SessionExample.client
  (SessionExample.message AtLeastOnce "chatsync" (Some 8)) (SessionExample.start AuthExample.after_create).

Lemma ordinary_session_publishes_witness :
  (exists q, (from_custom SessionExample.client, q) ∈ omap handed_on (effects (snd published)))
  /\ forall from q, (from, q) ∈ omap handed_on (effects (snd published)) ->
       topic q ∈ allowed_topics (acl AuthExample.settings) alice_conn.
Proof.
  destruct (ordinary_session_publishes toy_decode (fun s => Some s) AuthExample.toy_verify AuthExample.toy_hmac
    (fun b => b) (fun s => Some s) AuthExample.settings AuthExample.world no_plugin as_superuser as_info (fun _ => 0)
    (fun _ => None) a_manager alice_session SessionExample.quiet_broker ciqadamq_build SessionExample.listener false false
    (fun _ => None) SessionExample.client alice alice_conn (SessionExample.message AtLeastOnce "chatsync" (Some 8))
    (SessionExample.start AuthExample.after_create)
    manager_decides alice_ordinary node_gives_back) as (new & E & Hnew).
  split.
  - exists (SessionExample.message AtLeastOnce "chatsync" (Some 8)).
    assert (omap handed_on (effects (snd published))
            = [(from_custom SessionExample.client, SessionExample.message AtLeastOnce "chatsync" (Some 8));
               (from_custom SessionExample.client, SessionExample.message AtLeastOnce "chatsync" (Some 8))]) as ->
      by (by vm_compute).
    by left.
  - intros from q Hin. unfold published in Hin. rewrite E in Hin. by apply (Hnew from q).
Defined.

(** Her connection: a message to [chatsync], one to another user's topic, and
    the end of the network, with her will for a third one. *)
Definition her_will : Publish := SessionExample.message AtMostOnce "chat/u3/m/all" None.

Definition her_packets : list Event :=
  [ SessionLoopExample.gets 1000 (PPublish (SessionExample.message AtLeastOnce "chatsync" (Some 8)));
    SessionLoopExample.gets 2000 (PPublish (SessionExample.message AtMostOnce "chat/u2/m/all" None));
    SessionLoopExample.at_ 3000 (WPacket (Ok None)) ].

Abbreviation node_connection :=
  (hooked_connection toy_decode (fun s => Some s) AuthExample.toy_verify AuthExample.toy_hmac (fun b => b)
     (fun s => Some s) AuthExample.settings AuthExample.world no_plugin as_info a_manager alice_session
     SessionLoopExample.quiet_connection).

Definition lived :=
  run (H := node_broker) (H1 := node_connection) (D := InflightExample.Q) ciqadamq_build SessionExample.listener
    false false 10 0 ExactlyOnce SessionExample.less (fun _ => None) (fun _ => None) true false false alice_conn true
    (fun _ => 0) (Some (Ok her_will)) None (fun _ => Code.UnspecifiedError) (fun _ => Code.UnspecifiedError)
    (fun _ => Code.NotAuthorized) SessionExample.client 0 60 SessionLoopExample.never_disconnected her_packets []
    (SessionExample.start AuthExample.after_create).

Lemma ordinary_session_life_witness :
  map (fun x => (typ (fst x), topic (snd x))) (omap handed_on (effects (snd lived)))
    = [(FromCustom, "chatsync"); (FromCustom, "chatsync"); (FromLastWill, "chat/u3/m/all"); (FromLastWill, "chat/u3/m/all")]
  /\ forall from q, (from, q) ∈ omap handed_on (effects (snd lived)) -> typ from = FromCustom ->
       topic q ∈ allowed_topics (acl AuthExample.settings) alice_conn.
Proof.
  split; [vm_compute; reflexivity|].
  destruct (ordinary_session_life toy_decode (fun s => Some s) AuthExample.toy_verify AuthExample.toy_hmac
    (fun b => b) (fun s => Some s) AuthExample.settings AuthExample.world no_plugin as_superuser as_info (fun _ => 0)
    (fun _ => None) a_manager alice_session SessionExample.quiet_broker SessionLoopExample.quiet_connection
    ciqadamq_build SessionExample.listener false false (fun _ => None) SessionExample.client
    10 0 ExactlyOnce SessionExample.less true false false alice_conn true (fun _ => 0) (Some (Ok her_will)) None
    (fun _ => Code.UnspecifiedError) (fun _ => Code.UnspecifiedError) (fun _ => Code.NotAuthorized)
    alice alice_conn 0 60 SessionLoopExample.never_disconnected her_packets [] (SessionExample.start AuthExample.after_create)
    manager_decides alice_ordinary node_gives_back) as (new & E & Hnew).
  intros from q Hin Ht. unfold lived in Hin. rewrite E in Hin. destruct (Hnew from q Hin) as [_ [[_ Hq]|Hw]]; [exact Hq|].
  congruence.
Defined.

(** Her will goes to another user's topic. *)
Definition willed := process_last_will (H := node_broker) (D := InflightExample.Q) ciqadamq_build
  SessionExample.listener false (fun _ => None) SessionExample.client
  (Some (Ok (SessionExample.message AtMostOnce "chat/u2/m/all" None))) (SessionExample.start AuthExample.after_create).

Lemma last_will_any_topic_witness :
  omap forwarded (effects (snd willed))
  = [(from_lastwill SessionExample.client, SessionExample.message AtMostOnce "chat/u2/m/all" None)].
Proof.
  pose proof (last_will_any_topic toy_decode (fun s => Some s) AuthExample.toy_verify AuthExample.toy_hmac
    (fun b => b) (fun s => Some s) AuthExample.settings AuthExample.world no_plugin as_superuser as_info (fun _ => 0)
    (fun _ => None) a_manager alice_session SessionExample.quiet_broker ciqadamq_build SessionExample.listener false
    SessionExample.client alice alice_conn (SessionExample.message AtMostOnce "chat/u2/m/all" None)
    (SessionExample.start AuthExample.after_create)
    manager_decides alice_ordinary) as Hw.
  assert (topic (SessionExample.message AtMostOnce "chat/u2/m/all" None)
            ∉ allowed_topics (acl AuthExample.settings) alice_conn) as Ht
    by (apply (bool_decide_unpack _); by vm_compute).
  assert (a_manager !! Ty.MessagePublish = None) as Hm by (by vm_compute).
  specialize (Hw Ht Hm eq_refl node_gives_back). fold willed in Hw.
  destruct willed as [res r']. destruct Hw as (_ & _ & new & E & Hf). cbn [snd]. rewrite E. exact Hf.
Defined.

End SessionAclExample.
