(* ===== verification/Shared.v ===== *)
(** * The registry of the sessions: [src/vendor/rmqtt/src/shared.rs]

    [DefaultShared] maps a client id to its session and to the sender of the
    session's channel. A handle on it for one client, [LockEntry], registers,
    removes and kicks sessions and changes their subscriptions, each in the
    router and in the session. A published message is routed and a copy is sent
    to the channel of every client it is routed to.

    Sessions and channels are shared with the session's task by reference; the
    operations here reach them through the registry, so an entry holds what the
    references lead to, and [kick], which goes on with a session it has taken
    out of the registry, has it as a value.

    The executions ([Op], [run]) take a handshake apart into its kick, its
    registration and the takeover by the new session's task: a handshake may be
    refused after the kick, and then the router keeps the subscriptions of a
    session that is gone. [left_over] computes, beside the execution, which
    subscriptions these are. *)

From S2P Require Import Prelude Strs Topic Trie Types Router Inflight Session.
Local Open Scope string_scope.
Local Open Scope list_scope.

(** ** Data *)

(** [Message]: what is sent to a session's task. *)
Inductive Message : Type :=
| Forward (from : MsgFrom) (p : Publish)
| Kick (by_id : Id) (clean_start is_admin : bool)
| SessionStateTransfer (info : OfflineInfo) (clean_start : bool)
| Subscribes (l : list Subscribe)
| SendRerelease (m : OutInflightMessage)
| SubscribeMessage (sub : Subscribe)
| UnsubscribeMessage (u : Unsubscribe)
| Closed (why : SessionReason).

(** The sending half of a channel: a message is lost when the other half is
    gone, and waits to be received otherwise. *)
Record Tx : Type := mkTx { tx_closed : bool; sent : list Message }.

Definition unbounded_send (m : Message) (t : Tx) : option Tx :=
  if tx_closed t then None else Some (mkTx false (sent t ++ [m])).

Inductive EntryError : Type :=
| SessionNotExist            (* "session is not exist" *)
| NodeException              (* the assertion of [subscribe] fails: a panic *)
| RouterError (e : TopicError)
| LockHeld
| KickReply                  (* "recv kick result is .." *)
| ClusterError (e : string). (* an error of the log of a cluster or of its transport *)

(** How the wait for the kicked session ends: it answers, it drops the sender
    of the answer, or five seconds pass. *)
Inductive KickWait : Type := Answered | SenderDropped | WaitTimeout.

Inductive OfflineSession : Type := NotExist | Exist (info : option OfflineInfo).

(** A lock that is taken and given up. *)
Lemma unlocked (cid : ClientId) (lk : gset ClientId) : cid ∉ lk -> (lk ∪ {[cid]}) ∖ {[cid]} = lk.
Proof. clear. set_solver. Qed.

(** The server's router, [scx.extends.router()], as the registry uses it: the
    node's own one or the one of a cluster. [r_matches] is given which clients
    of this node are connected. *)
Class RouterOps (R : Type) : Type := {
  r_add : TopicFilter -> Id -> SubscriptionOptions -> M R (result EntryError unit);
  r_remove : TopicFilter -> Id -> M R (result EntryError bool);
  r_matches : (ClientId -> bool) -> Id -> TopicName -> R -> result TopicError (gmap NodeId (list SubRelation))
}.

(** The node's own router. *)
#[export] Instance default_router `{SharedSubscription} : RouterOps DefaultRouter := {|
  r_add tf id o rt :=
    match Router.add tf id o rt with
    | Ok rt' => (Ok tt, rt')
    | Err e => (Err (RouterError e), rt)
    end;
  r_remove tf id rt :=
    let '(res, rt') := Router.remove tf id rt in
    (match res with Ok b => Ok b | Err e => Err (RouterError e) end, rt');
  (* [DefaultRouter::is_online] asks the registry; the node is not looked at. *)
  r_matches connected this_id t rt := _matches (fun _ cid => connected cid) this_id t rt
|}.

Section shared.
Context {D R : Type} `{DequeMap D} `{RouterOps R}.
(** The node's id and its clock, and of the codec crate [QoS::less_value] and
    the write to the subscription identifiers of a packet with properties. *)
Context (this_node : NodeId) (now : TimestampMillis) (less_value : QoS -> QoS -> QoS).
Context (set_subscription_ids : list Z -> Publish -> Publish).

(** A session, with the parts of it the registry uses. *)
Record SessionRef : Type := mkSession {
  s_id : Id;
  s_subscriptions : gmap TopicFilter SubscriptionOptions;
  s_connected : bool;
  s_deliver_queue : list (MsgFrom * Publish);
  s_out_inflight : OutInflight D
}.

Record EntryItem : Type := mkEntry { s : SessionRef; tx : Tx }.

(** [DefaultShared], and the router it reaches through its context. *)
Record Registry : Type := mkRegistry {
  lockers : gset ClientId;
  peers : gmap ClientId EntryItem;
  router : R
}.

Definition registry_new (rt : R) : Registry := mkRegistry ∅ ∅ rt.

Definition set_peers (f : gmap ClientId EntryItem -> gmap ClientId EntryItem) (r : Registry) : Registry :=
  mkRegistry (lockers r) (f (peers r)) (router r).
Definition set_router (rt : R) (r : Registry) : Registry := mkRegistry (lockers r) (peers r) rt.
Definition set_lockers (f : gset ClientId -> gset ClientId) (r : Registry) : Registry :=
  mkRegistry (f (lockers r)) (peers r) (router r).

Definition with_subscriptions (f : gmap TopicFilter SubscriptionOptions -> gmap TopicFilter SubscriptionOptions)
    (s : SessionRef) : SessionRef :=
  mkSession (s_id s) (f (s_subscriptions s)) (s_connected s) (s_deliver_queue s) (s_out_inflight s).

(** What a client's own session's methods do, through its entry. *)
Definition update_session (cid : ClientId) (f : SessionRef -> SessionRef) (r : Registry) : Registry :=
  set_peers (alter (fun e => mkEntry (f (s e)) (tx e)) cid) r.

(** ** Looking things up *)

Definition tx_of (cid : ClientId) (r : Registry) : option (Tx * Id) :=
  (fun e => (tx e, s_id (s e))) <$> peers r !! cid.

Definition exist (cid : ClientId) (r : Registry) : bool := isSome (peers r !! cid).

Definition is_connected (cid : ClientId) (r : Registry) : bool :=
  match peers r !! cid with Some e => s_connected (s e) | None => false end.

(** [id_same]: whether the registered session is the handle's own. *)
Definition id_same (id : Id) (r : Registry) : option bool :=
  (fun e => Id_eq (s_id (s e)) id) <$> peers r !! client_id id.

Record SessionStatus : Type := mkStatus { st_id : Id; st_online : bool; st_handshaking : bool }.

Definition session_status (cid : ClientId) (r : Registry) : option SessionStatus :=
  (fun e => mkStatus (s_id (s e)) (s_connected (s e)) false) <$> peers r !! cid.

Definition sessions_count (r : Registry) : Z := Z.of_nat (size (peers r)).

Definition subscriptions_count (r : Registry) : Z :=
  fold_right (fun e n => (Z.of_nat (size (s_subscriptions (s (snd e)))) + n)%Z) 0%Z (map_to_list (peers r)).

Definition entry_subscriptions (id : Id) (r : Registry) : option (list SubsSearchResult) :=
  (fun e => map (fun x => mkFound (node_id (s_id (s e))) (client_id (s_id (s e))) (remote_addr (s_id (s e))) (fst x) (snd x))
              (map_to_list (s_subscriptions (s e)))) <$> peers r !! client_id id.

(** ** The subscriptions of a session, [SessionSubs] *)

Definition subscriptions_add (cid : ClientId) (tf : TopicFilter) (o : SubscriptionOptions)
    : M Registry (option SubscriptionOptions) := fun r =>
  (e ← peers r !! cid; s_subscriptions (s e) !! tf,
   update_session cid (with_subscriptions <[tf := o]>) r).

Definition subscriptions_remove (cid : ClientId) (tf : TopicFilter) : M Registry bool := fun r =>
  (isSome (e ← peers r !! cid; s_subscriptions (s e) !! tf),
   update_session cid (with_subscriptions (delete tf)) r).

Definition subscriptions_extend (cid : ClientId) (subs : list (TopicFilter * SubscriptionOptions)) (r : Registry) : Registry :=
  fold_left (fun r x => snd (subscriptions_add cid (fst x) (snd x) r)) subs r.

(** ** The router *)

Definition router_add (tf : TopicFilter) (id : Id) (o : SubscriptionOptions) : M Registry (result EntryError unit) := fun r =>
  let '(res, rt) := r_add tf id o (router r) in (res, set_router rt r).

Definition router_remove (tf : TopicFilter) (id : Id) : M Registry (result EntryError bool) := fun r =>
  let '(res, rt) := r_remove tf id (router r) in (res, set_router rt r).

Definition router_matches (this_id : Id) (t : TopicName) (r : Registry)
    : result TopicError (gmap NodeId (list SubRelation)) :=
  r_matches (fun cid => is_connected cid r) this_id t (router r).

(** ** [LockEntry] *)

Definition try_lock (id : Id) : M Registry (result EntryError unit) := fun r =>
  if bool_decide (client_id id ∈ lockers r) then (Err LockHeld, r)
  else (Ok tt, set_lockers (fun l => l ∪ {[client_id id]}) r).

(** [drop] of a handle that holds the lock. *)
Definition drop (id : Id) : M Registry unit := fun r => (tt, set_lockers (fun l => l ∖ {[client_id id]}) r).

(** The session found is the handle's, which by then may be another one. *)
Definition _unsubscribe (self_id id : Id) (tf : TopicFilter) : M Registry (result EntryError unit) :=
  try! _ := router_remove tf id in
  let! _ := subscriptions_remove (client_id self_id) tf in
  ret (Ok tt).

(** The loop over the filters; an error is only logged. *)
Fixpoint unsubscribe_all (self_id id : Id) (tfs : list TopicFilter) : M Registry unit :=
  match tfs with
  | [] => ret tt
  | tf :: tfs' => let! _ := _unsubscribe self_id id tf in unsubscribe_all self_id id tfs'
  end.

(** [_remove] ([keep] is [fun _ => true]) and [_remove_with]. *)
Definition remove_if (keep : SessionRef -> bool) (clear_subscriptions : bool) (self_id : Id)
    : M Registry (option (SessionRef * Tx)) := fun r =>
  match peers r !! client_id self_id with
  | Some e =>
      if keep (s e) then
        (let! _ :=
           if clear_subscriptions
           then unsubscribe_all self_id (s_id (s e)) (map fst (map_to_list (s_subscriptions (s e))))
           else ret tt in
         ret (Some (s e, tx e))) (set_peers (delete (client_id self_id)) r)
      else (None, r)
  | None => (None, r)
  end.

Definition _remove (clear_subscriptions : bool) (self_id : Id) : M Registry (option (SessionRef * Tx)) :=
  remove_if (fun _ => true) clear_subscriptions self_id.

Definition _remove_with (clear_subscriptions : bool) (with_id : Id) (self_id : Id)
    : M Registry (option (SessionRef * Tx)) :=
  remove_if (fun s => Id_eq (s_id s) with_id) clear_subscriptions self_id.

Definition remove (self_id : Id) : M Registry (option (SessionRef * Tx)) := _remove true self_id.

Definition remove_with (id : Id) (self_id : Id) : M Registry (option (SessionRef * Tx)) := _remove_with true id self_id.

(** [set]: the session replaces whatever is registered for the client. *)
Definition set (e : EntryItem) (self_id : Id) : M Registry unit := fun r =>
  (tt, set_peers <[client_id self_id := e]> r).

(** [to_offline_info] of a session of this broker cannot fail. *)
Definition to_offline_info (s : SessionRef) : OfflineInfo :=
  mkOffline (map_to_list (s_subscriptions s)) (s_deliver_queue s)
    (fst (to_inflight_messages (s_out_inflight s))).

(** The message to the session that is registered, unless its channel is closed. *)
Definition kick_send (clean_start is_admin : bool) (self_id : Id) : M Registry bool := fun r =>
  match e ← peers r !! client_id self_id; (fun t => (e, t)) <$> unbounded_send (Kick self_id clean_start is_admin) (tx e) with
  | Some (e, t) => (true, set_peers <[client_id self_id := mkEntry (s e) t]> r)
  | None => (false, r)
  end.

(** What follows the wait. *)
Definition kick_remove (clean_start clear_subscriptions : bool) (self_id : Id) : M Registry OfflineSession :=
  let! removed := _remove clear_subscriptions self_id in
  ret match removed with
      | Some (s, _) => Exist (if clean_start then None else Some (to_offline_info s))
      | None => NotExist
      end.

(** [kick]: [meanwhile] is what the other tasks do while it waits. *)
Definition kick (wait : KickWait) (meanwhile : Registry -> Registry) (clean_start clear_subscriptions is_admin : bool)
    (self_id : Id) : M Registry (result EntryError OfflineSession) :=
  let! waits := kick_send clean_start is_admin self_id in
  try! _ :=
    if waits then fun r => (match wait with SenderDropped => Err KickReply | _ => Ok tt end, meanwhile r)
    else ret (Ok tt) in
  let! offline := kick_remove clean_start clear_subscriptions self_id in
  ret (Ok offline).

Definition subscribe (sub : Subscribe) (self_id : Id) : M Registry (result EntryError SubscribeReturn) := fun r =>
  match peers r !! client_id self_id with
  | None => (Err SessionNotExist, r)
  | Some peer =>
      if negb (node_id (s_id (s peer)) =? this_node)%Z then (Err NodeException, r)
      else
        (try! _ := router_add (topic_filter sub) self_id (opts sub) in
         let! prev_opts := subscriptions_add (client_id self_id) (topic_filter sub) (opts sub) in
         ret (Ok (new_success (qos (opts sub)) prev_opts))) r
  end.

(** An error of the router is only logged. *)
Definition unsubscribe (u : Unsubscribe) (self_id : Id) : M Registry (result EntryError bool) := fun r =>
  match peers r !! client_id self_id with
  | None => (Err SessionNotExist, r)
  | Some _ =>
      (let! _ := router_remove (unsub_topic_filter u) self_id in
       let! remove_ok := subscriptions_remove (client_id self_id) (unsub_topic_filter u) in
       ret (Ok remove_ok)) r
  end.

(** To the channel of one client. *)
Definition send_to (cid : ClientId) (m : Message) : M Registry (result string Id) := fun r =>
  match peers r !! cid with
  | None => (Err "the client has disconnected", r)
  | Some e =>
      match unbounded_send m (tx e) with
      | Some t => (Ok (s_id (s e)), set_peers <[cid := mkEntry (s e) t]> r)
      | None => (Err "Connection Tx is closed", r)
      end
  end.

Definition publish (from : MsgFrom) (p : Publish) (self_id : Id) : M Registry (result (MsgFrom * Publish * SessionReason) unit) :=
  fun r =>
  match peers r !! client_id self_id with
  | None => (Err (from, p, StaticReason "Tx is None"), r)
  | Some _ =>
      let '(res, r) := send_to (client_id self_id) (Forward from p) r in
      (match res with Ok _ => Ok tt | Err _ => Err (from, p, StaticReason "Tx is closed") end, r)
  end.

(** ** Forwarding *)

Abbreviation SubscriptionClientIds := (option (list (ClientId * option (TopicFilter * SharedGroup)))).

Definition relation_client_ids (rel : SubRelation) : list (ClientId * option (TopicFilter * SharedGroup)) :=
  let '(tf, cid, _, _, group_shared) := rel in
  match group_shared with
  | Some (group, _, cids) =>
      map (fun g_cid => (g_cid, if String.eqb g_cid cid then Some (tf, group) else None)) cids
  | None => [(cid, None)]
  end.

Definition non_empty {A} (l : list A) : option (list A) := match l with [] => None | _ => Some l end.

Definition _collect_subscription_client_ids (relations_map : gmap NodeId (list SubRelation)) : SubscriptionClientIds :=
  non_empty (map_to_list relations_map ≫= (fun x => snd x ≫= relation_client_ids)).

Definition _merge_subscription_client_ids (a b : SubscriptionClientIds) : SubscriptionClientIds :=
  match a, b with
  | Some l, None => non_empty l
  | Some l, Some l' => non_empty (l ++ l')
  | None, Some l' => non_empty l'
  | None, None => None
  end.

(** The copy for one subscription. *)
Definition forward_copy (p : Publish) (o : SubscriptionOptions) (sub_ids : option (list Z)) : Publish :=
  let retain :=
    match retain_as_published o with
    | Some retain_as_published => if retain_as_published : bool then retain p else false
    | None => false
    end in
  let q := with_header false retain (less_value (pub_qos p) (qos o)) None p in
  match sub_ids with Some ids => set_subscription_ids ids q | None => q end.

Definition To_from (cid : ClientId) : Id := Id_from now 0 cid.

Abbreviation Undelivered := (list (Id * MsgFrom * Publish * SessionReason)).

(** One subscription: the copy is sent, or given back. *)
Definition forward_one (from : MsgFrom) (p : Publish) (rel : SubRelation) : M Registry Undelivered :=
  let '(_, cid, o, sub_ids, _) := rel in
  let copy := forward_copy p o sub_ids in
  fun r =>
    match tx_of cid r with
    | None => ([(To_from cid, from, copy, StaticReason "the client has disconnected")], r)
    | Some (_, to) =>
        let '(res, r) := send_to cid (Forward from copy) r in
        (match res with
         | Ok _ => []
         | Err _ => [(to, from, copy, StaticReason "Connection Tx is closed")]
         end, r)
    end.

Fixpoint forward_each (from : MsgFrom) (p : Publish) (relations : list SubRelation) : M Registry Undelivered :=
  match relations with
  | [] => ret []
  | rel :: relations' =>
      let! errs := forward_one from p rel in
      let! errs' := forward_each from p relations' in
      ret (errs ++ errs')
  end.

Definition forwards_to (from : MsgFrom) (p : Publish) (relations : list SubRelation) : M Registry (result Undelivered unit) :=
  let! errs := forward_each from p relations in
  ret (match errs with [] => Ok tt | _ => Err errs end).

(** The one relation of a message for a given client. *)
Definition target_relation (p : Publish) (target : ClientId) : SubRelation :=
  (topic p, target, set_qos (pub_qos p) opts_default, None, None).

(** A topic that cannot be routed is logged and reaches nobody. *)
Definition relations_of (from : MsgFrom) (p : Publish) (r : Registry) : gmap NodeId (list SubRelation) :=
  match router_matches (from_id from) (topic p) r with Ok m => m | Err _ => ∅ end.

Definition forwards (from : MsgFrom) (p : Publish) : M Registry (result Undelivered SubscriptionClientIds) :=
  match target_clientid p with
  | Some target =>
      try! _ := forwards_to from p [target_relation p target] in
      ret (Ok (Some [(target, None)]))
  | None => fun r =>
      let relations_map := relations_of from p r in
      let sub_cids := _collect_subscription_client_ids relations_map in
      (try! _ :=
         match relations_map !! this_node with
         | Some relations => forwards_to from p relations
         | None => ret (Ok tt)
         end in
       ret (Ok sub_cids)) r
  end.

(** For the other nodes of a cluster: the relations of shared groups are
    returned and not served. *)
Definition is_shared (rel : SubRelation) : bool := isSome (let '(_, _, _, _, g) := rel in g).

Definition forwards_and_get_shareds (from : MsgFrom) (p : Publish)
    : M Registry (result Undelivered (gmap NodeId (list SubRelation) * SubscriptionClientIds)) :=
  match target_clientid p with
  | Some target =>
      try! _ := forwards_to from p [target_relation p target] in
      ret (Ok (∅, Some [(target, None)]))
  | None => fun r =>
      let relations_map := relations_of from p r in
      let sub_client_ids := _collect_subscription_client_ids relations_map in
      let shareds := omap (fun rels => non_empty (List.filter is_shared rels)) relations_map in
      let relations := map_to_list relations_map ≫= (fun x => List.filter (fun rel => negb (is_shared rel)) (snd x)) in
      (try! _ := match relations with [] => ret (Ok tt) | _ => forwards_to from p relations end in
       ret (Ok (shareds, sub_client_ids))) r
  end.

(** ** Other *)

(** [random_session]: [i] is the random number. *)
Definition random_session (i : Z) (r : Registry) : option SessionRef :=
  map (fun x => s (snd x)) (map_to_list (peers r)) !! Z.to_nat (i mod Z.of_nat (size (peers r)))%Z.

(** ** Lemmas: forwarding *)

Definition rel_client (rel : SubRelation) : ClientId := let '(_, cid, _, _, _) := rel in cid.

(** What an entry gets: nothing once its channel is closed. *)
Definition receive (ms : list Message) (e : EntryItem) : EntryItem :=
  if tx_closed (tx e) then e else mkEntry (s e) (mkTx false (sent (tx e) ++ ms)).

(** The copies of a message for one client. *)
Definition copies (from : MsgFrom) (p : Publish) (relations : list SubRelation) (cid : ClientId) : list Message :=
  omap (fun rel => let '(_, c, o, sub_ids, _) := rel in
          if String.eqb c cid then Some (Forward from (forward_copy p o sub_ids)) else None) relations.

(** The copy that is given back: the client has no session here, or its
    channel is closed. *)
Definition bounced (from : MsgFrom) (p : Publish) (r : Registry) (rel : SubRelation)
    : option (Id * MsgFrom * Publish * SessionReason) :=
  let '(_, cid, o, sub_ids, _) := rel in
  let copy := forward_copy p o sub_ids in
  match peers r !! cid with
  | None => Some (To_from cid, from, copy, StaticReason "the client has disconnected")
  | Some e =>
      if tx_closed (tx e) then Some (s_id (s e), from, copy, StaticReason "Connection Tx is closed") else None
  end.

(** Only channels differ, and no channel was closed or opened. *)
Record forwarded_to (f : ClientId -> list Message) (r r' : Registry) : Prop := mkForwardedTo {
  ft_peers cid : peers r' !! cid = receive (f cid) <$> peers r !! cid;
  ft_router : router r' = router r;
  ft_lockers : lockers r' = lockers r
}.

Lemma receive_nil e : receive [] e = e.
Proof. unfold receive. destruct e as [s [[] l]]; [done|]. simpl. by rewrite app_nil_r. Qed.

Lemma receive_app ms ms' e : receive ms' (receive ms e) = receive (ms ++ ms') e.
Proof. unfold receive. destruct e as [s [[] l]]; [done|]. simpl. by rewrite app_assoc. Qed.

Lemma forwarded_to_nil f r : (forall cid, f cid = []) -> forwarded_to f r r.
Proof.
  intros Hf. split; [|done..]. intros cid. rewrite Hf. destruct (peers r !! cid) as [e|]; [|done].
  simpl. by rewrite receive_nil.
Qed.

Lemma forwarded_to_trans f g h r r' r'' :
  forwarded_to f r r' -> forwarded_to g r' r'' -> (forall cid, h cid = f cid ++ g cid) -> forwarded_to h r r''.
Proof.
  intros [Hp Hr Hl] [Hp' Hr' Hl'] Hh. split; [|by rewrite Hr' | by rewrite Hl'].
  intros cid. rewrite Hp', Hp, Hh. destruct (peers r !! cid) as [e|]; [|done]. simpl. by rewrite receive_app.
Qed.

Lemma send_to_spec cid m r :
  let '(res, r') := send_to cid m r in
  forwarded_to (fun c => if String.eqb cid c then [m] else []) r r'
  /\ (is_ok res = true <-> exists e, peers r !! cid = Some e /\ tx_closed (tx e) = false).
Proof.
  unfold send_to. destruct (peers r !! cid) as [e|] eqn:He.
  - unfold unbounded_send. destruct (tx_closed (tx e)) eqn:Hc.
    + split; [|split; [done | intros (e' & [= <-] & He'); congruence]]. split; [|done..]. intros c. destruct (String.eqb_spec cid c) as [->|Hne].
      * rewrite He. unfold receive. simpl. by rewrite Hc.
      * destruct (peers r !! c); [|done]. simpl. by rewrite receive_nil.
    + split; [|split; [by eauto | done]]. split; [|done..]. intros c. simpl. destruct (String.eqb_spec cid c) as [->|Hne].
      * rewrite lookup_insert_eq, He. unfold receive. simpl. by rewrite Hc.
      * rewrite lookup_insert_ne by done. destruct (peers r !! c); [|done]. simpl. by rewrite receive_nil.
  - split; [|split; [done | by intros (e & ? & _)]]. split; [|done..]. intros c. destruct (String.eqb_spec cid c) as [->|Hne].
    + by rewrite He.
    + destruct (peers r !! c); [|done]. simpl. by rewrite receive_nil.
Qed.

Lemma forward_one_spec from p rel r :
  let '(errs, r') := forward_one from p rel r in
  forwarded_to (copies from p [rel]) r r' /\ errs = omap (bounced from p r) [rel].
Proof.
  destruct rel as [[[[tf cid] o] sub_ids] g]. unfold forward_one, tx_of.
  pose proof (send_to_spec cid (Forward from (forward_copy p o sub_ids)) r) as Hs.
  destruct (peers r !! cid) as [e|] eqn:He; cbn -[send_to].
  - destruct (send_to _ _ r) as [res r']. destruct Hs as [Hf Hok]. rewrite He. split.
    + destruct Hf as [Hp Hr Hl]. split; [|done..]. intros c. rewrite Hp. unfold copies. cbn. by destruct (String.eqb cid c).
    + destruct (tx_closed (tx e)) eqn:Hc, res as [id|err]; try done.
      * destruct (proj1 Hok eq_refl) as (e' & [= <-] & He'). congruence.
      * destruct Hok as [_ Hok]. discriminate Hok. by eauto.
  - rewrite He. split; [|done]. split; [|done..]. intros c. unfold copies. cbn.
    destruct (String.eqb_spec cid c) as [->|Hne]; [by rewrite He|].
    destruct (peers r !! c); [|done]. simpl. by rewrite receive_nil.
Qed.

(** Sending to some does not change which channels are open. *)
Lemma bounced_stable from p f r r' rel : forwarded_to f r r' -> bounced from p r' rel = bounced from p r rel.
Proof.
  intros [Hp _ _]. destruct rel as [[[[tf cid] o] sub_ids] g]. unfold bounced. rewrite Hp.
  destruct (peers r !! cid) as [e|]; [|done]. unfold receive. simpl. destruct (tx_closed (tx e)) eqn:Hc; simpl; by rewrite ?Hc.
Qed.

Lemma forward_each_spec from p relations r :
  let '(errs, r') := forward_each from p relations r in
  forwarded_to (copies from p relations) r r' /\ errs = omap (bounced from p r) relations.
Proof.
  revert r. induction relations as [|rel relations IH]; intros r.
  - split; [|done]. by apply forwarded_to_nil.
  - cbn [forward_each]. unfold bind, ret. pose proof (forward_one_spec from p rel r) as H1.
    destruct (forward_one from p rel r) as [errs r1]. destruct H1 as [Hf ->]. specialize (IH r1).
    destruct (forward_each from p relations r1) as [errs' r2]. destruct IH as [Hf' ->]. split.
    + eapply forwarded_to_trans; [done..|]. intros cid. unfold copies. by rewrite <- omap_app_list.
    + change (rel :: relations) with ([rel] ++ relations). rewrite omap_app_list. f_equal.
      clear Hf'. induction relations as [|rel' relations IH]; [done|]. cbn. rewrite IH.
      by rewrite (bounced_stable _ _ _ _ _ _ Hf).
Qed.

(** The subscriptions a message is sent to: the client it names, or those the
    router finds on this node. *)
Definition audience (from : MsgFrom) (p : Publish) (r : Registry) : list SubRelation :=
  match target_clientid p with
  | Some target => [target_relation p target]
  | None => default [] (relations_of from p r !! this_node)
  end.

Definition reported (from : MsgFrom) (p : Publish) (r : Registry) : SubscriptionClientIds :=
  match target_clientid p with
  | Some target => Some [(target, None)]
  | None => _collect_subscription_client_ids (relations_of from p r)
  end.

Lemma copies_elem from p rels cid m :
  m ∈ copies from p rels cid
  <-> exists tf o ids g, (tf, cid, o, ids, g) ∈ rels /\ m = Forward from (forward_copy p o ids).
Proof.
  unfold copies. rewrite list_elem_of_omap. split.
  - intros ([[[[tf c] o] ids] g] & Hin & Hm). destruct (String.eqb_spec c cid) as [->|]; [|done].
    injection Hm as <-. by eauto 10.
  - intros (tf & o & ids & g & Hin & ->). exists (tf, cid, o, ids, g). by rewrite String.eqb_refl.
Qed.

Lemma forwards_spec from p r :
  let '(res, r') := forwards from p r in
  forwarded_to (copies from p (audience from p r)) r r'
  /\ res = match omap (bounced from p r) (audience from p r) with
           | [] => Ok (reported from p r)
           | errs => Err errs
           end.
Proof.
  unfold forwards, audience, reported.
  destruct (target_clientid p) as [target|].
  - unfold and_then, forwards_to, bind, ret.
    pose proof (forward_each_spec from p [target_relation p target] r) as Hs.
    destruct (forward_each _ _ _ r) as [errs r']. destruct Hs as [Hf ->]. by destruct (omap _ _).
  - destruct (relations_of from p r !! this_node) as [rels|].
    + unfold and_then, forwards_to, bind, ret. pose proof (forward_each_spec from p rels r) as Hs.
      destruct (forward_each _ _ _ r) as [errs r']. destruct Hs as [Hf ->]. simpl. by destruct (omap _ _).
    + cbn. split; [|done]. by apply forwarded_to_nil.
Qed.

End shared.

(** ** Lemmas: the registry of a node on its own *)

Section local.
Context {D : Type} `{DequeMap D} `{SharedSubscription}.
Context (this_node : NodeId) (now : TimestampMillis) (less_value : QoS -> QoS -> QoS).
Context (set_subscription_ids : list Z -> Publish -> Publish).

Implicit Type r : @Registry D DefaultRouter.
Abbreviation Registry := (@Registry D DefaultRouter).
Abbreviation registry_new := (registry_new router_new : Registry).
Abbreviation subscribe := (subscribe this_node).
Abbreviation forwards := (forwards this_node now less_value set_subscription_ids).
Abbreviation audience := (audience this_node).
Abbreviation copies := (copies less_value set_subscription_ids).
Abbreviation bounced := (bounced now less_value set_subscription_ids).
Abbreviation forward_each := (forward_each now less_value set_subscription_ids).
Abbreviation forward_copy := (forward_copy less_value set_subscription_ids).

(** A session of the registry has this subscription. *)
Definition session_sub (r : Registry) (cid : ClientId) (tf : TopicFilter) : option (Id * SubscriptionOptions) :=
  e ← peers r !! cid; (fun o => (s_id (s e), o)) <$> s_subscriptions (s e) !! tf.

(** Subscriptions of a session that was taken out so that its successor goes on
    with them, and that no session of the client has taken over. *)
Abbreviation Leftover := (ClientId -> TopicFilter -> option (Id * SubscriptionOptions)).

Definition no_leftover : Leftover := fun _ _ => None.

Implicit Type left : Leftover.

(** The router has exactly the subscriptions of the registered sessions, each
    under the session's own id, and those that are left over. *)
Record consistent left (r : Registry) : Prop := mkConsistent {
  c_router : rwf (router r);
  c_ids cid e : peers r !! cid = Some e -> client_id (s_id (s e)) = cid /\ node_id (s_id (s e)) = this_node;
  c_left cid tf : is_Some (left cid tf) -> session_sub r cid tf = None;
  c_subs tf cid : Router.subscribed (router r) tf cid
                  = match left cid tf with Some x => Some x | None => session_sub r cid tf end
}.

(** Registries that differ only in channels, locks and what the sessions hold
    apart from their subscriptions. *)
Definition same_subscriptions (r r' : Registry) : Prop :=
  router r' = router r
  /\ forall cid, (fun e => (s_id (s e), s_subscriptions (s e))) <$> peers r' !! cid
          = (fun e => (s_id (s e), s_subscriptions (s e))) <$> peers r !! cid.

#[export] Instance same_subscriptions_refl : Reflexive same_subscriptions.
Proof. by intros r. Qed.

#[export] Instance same_subscriptions_trans : Transitive same_subscriptions.
Proof. intros r1 r2 r3 [H1 H2] [H3 H4]. split; [congruence|]. intros cid. by rewrite H4, H2. Qed.

Lemma same_subscriptions_sub r r' cid tf : same_subscriptions r r' -> session_sub r' cid tf = session_sub r cid tf.
Proof.
  intros [_ Hp]. specialize (Hp cid). unfold session_sub.
  destruct (peers r' !! cid) as [e'|], (peers r !! cid) as [e|]; try done. simpl in *. by injection Hp as -> ->.
Qed.

Lemma consistent_same left r r' : same_subscriptions r r' -> consistent left r -> consistent left r'.
Proof.
  intros Hs [Hr Hi Hl Hc]. pose proof (fun cid tf => same_subscriptions_sub r r' cid tf Hs) as Hsub.
  destruct Hs as [Hrt Hp]. split.
  - by rewrite Hrt.
  - intros cid e' He'. specialize (Hp cid). rewrite He' in Hp. simpl in Hp.
    destruct (peers r !! cid) as [e|] eqn:He; [|done]. injection Hp as -> _. by apply Hi.
  - intros cid tf. rewrite Hsub. apply Hl.
  - intros tf cid. by rewrite Hrt, Hsub.
Qed.

Lemma forwarded_to_same f r r' : forwarded_to f r r' -> same_subscriptions r r'.
Proof.
  intros [Hp Hr _]. split; [done|]. intros cid. rewrite Hp. destruct (peers r !! cid) as [e|]; [|done].
  unfold receive. simpl. by destruct (tx_closed (tx e)).
Qed.

(** Changing one entry without touching its id and subscriptions. *)
Lemma alter_same f cid r :
  (forall e, s_id (s (f e)) = s_id (s e) /\ s_subscriptions (s (f e)) = s_subscriptions (s e)) ->
  same_subscriptions r (set_peers (alter f cid) r).
Proof.
  intros Hf. split; [done|]. intros c. simpl. rewrite lookup_alter. case_decide as Hc; [subst|done].
  destruct (peers r !! c) as [e|]; [|done]. simpl. by destruct (Hf e) as [-> ->].
Qed.

Lemma kick_send_same clean admin id r : same_subscriptions r (snd (kick_send clean admin id r)).
Proof.
  unfold kick_send. destruct (peers r !! client_id id) as [e|] eqn:He; [|done]. unfold unbounded_send. cbn.
  destruct (tx_closed (tx e)); [done|]. split; [done|]. intros c. cbn.
  destruct (decide (client_id id = c)) as [<-|Hne]; [|by rewrite lookup_insert_ne].
  by rewrite lookup_insert_eq, He.
Qed.

(** The session of a handle whose id is not another session's. *)
Lemma own_session r id e :
  id_same id r <> Some false -> peers r !! client_id id = Some e -> s_id (s e) = id.
Proof.
  unfold id_same. intros Hid He. rewrite He in Hid. cbn in Hid. rewrite Id_eq_spec in Hid.
  by case_bool_decide.
Qed.

Lemma router_add_spec tf id o r :
  rwf (router r) ->
  let '(res, r') := router_add tf id o r in
  rwf (router r') /\ peers r' = peers r
  /\ forall tf' cid, Router.subscribed (router r') tf' cid
       = if decide (is_ok res = true /\ tf' = tf /\ cid = client_id id) then Some (id, o) else Router.subscribed (router r) tf' cid.
Proof.
  intros Hwf. unfold router_add. cbn [r_add default_router]. destruct (Router.add tf id o (router r)) as [rt|e] eqn:Ha.
  - cbn. split; [by eapply add_rwf|]. split; [done|]. intros tf' cid. rewrite (add_subscribed _ _ _ _ _ _ _ Ha).
    repeat case_decide; naive_solver.
  - cbn. split; [done|]. split; [done|]. intros. rewrite decide_False; naive_solver.
Qed.

Lemma router_remove_spec tf id r :
  rwf (router r) ->
  let r' := snd (router_remove tf id r) in
  rwf (router r') /\ peers r' = peers r
  /\ forall tf' cid, Router.subscribed (router r') tf' cid
       = if decide (tf' = tf /\ cid = client_id id /\ (fst <$> Router.subscribed (router r) tf cid) = Some id)
         then None else Router.subscribed (router r) tf' cid.
Proof.
  intros Hwf. unfold router_remove. cbn [r_remove default_router]. pose proof (remove_rwf tf id (router r) Hwf) as Hw.
  pose proof (fun tf' cid => remove_subscribed tf id (router r) tf' cid Hwf) as Hs.
  destruct (Router.remove tf id (router r)) as [res rt]. cbn in *. done.
Qed.

Lemma session_sub_update r cid f cid' tf :
  session_sub (update_session cid (with_subscriptions f) r) cid' tf
  = if decide (cid' = cid) then (e ← peers r !! cid; (fun o => (s_id (s e), o)) <$> f (s_subscriptions (s e)) !! tf)
    else session_sub r cid' tf.
Proof.
  unfold session_sub, update_session. cbn. rewrite lookup_alter. destruct (decide (cid' = cid)) as [->|Hne].
  - rewrite decide_True by done. by destruct (peers r !! cid).
  - by rewrite decide_False by done.
Qed.

Lemma update_session_ids cid f r :
  (forall cid e, peers r !! cid = Some e -> client_id (s_id (s e)) = cid /\ node_id (s_id (s e)) = this_node) ->
  forall c e, peers (update_session cid (with_subscriptions f) r) !! c = Some e ->
    client_id (s_id (s e)) = c /\ node_id (s_id (s e)) = this_node.
Proof.
  intros Hi c e. cbn. rewrite lookup_alter. case_decide as Hc; [subst|by apply Hi].
  destruct (peers r !! c) as [e0|] eqn:He; [|done]. intros [= <-]. by apply (Hi c e0).
Qed.

(** What is left over after a client's session has subscribed or unsubscribed. *)
Definition left_without (cid : ClientId) (tf : TopicFilter) left : Leftover :=
  fun c f => if decide (c = cid /\ f = tf) then None else left c f.

Lemma subscribe_consistent left sub id r :
  id_same id r <> Some false -> consistent left r ->
  consistent (if is_ok (fst (subscribe sub id r)) then left_without (client_id id) (topic_filter sub) left else left)
    (snd (subscribe sub id r)).
Proof.
  intros Hid Hc. unfold subscribe. destruct (peers r !! client_id id) as [e|] eqn:He; [|done].
  pose proof (own_session _ _ _ Hid He) as Hown. destruct Hc as [Hwf Hi Hl Hs]. destruct (negb (node_id (s_id (s e)) =? this_node)%Z); [done|].
  unfold and_then, bind, ret, subscriptions_add. pose proof (router_add_spec (topic_filter sub) id (opts sub) r Hwf) as Ha.
  destruct (router_add _ _ _ r) as [res r1]. destruct Ha as (Hwf1 & Hp & Hsub). destruct res as [[]|err]; cbn.
  - assert (forall cid tf, session_sub (update_session (client_id id) (with_subscriptions <[topic_filter sub:=opts sub]>) r1) cid tf
      = if decide (cid = client_id id /\ tf = topic_filter sub) then Some (id, opts sub) else session_sub r cid tf) as Hss.
    { intros cid tf. rewrite session_sub_update, Hp, He. cbn. unfold session_sub. rewrite Hp.
      destruct (decide (cid = client_id id)) as [->|Hne].
      - rewrite lookup_insert, He, Hown. cbn. repeat case_decide; naive_solver.
      - rewrite decide_False by naive_solver. done. }
    unfold left_without. split; [done| | |].
    + apply update_session_ids. by rewrite Hp.
    + intros cid tf. rewrite Hss. destruct (decide _) as [|]; [by intros [? ?]|]. apply Hl.
    + intros tf cid. rewrite Hsub, Hs, Hss. repeat case_decide; naive_solver.
  - split; [done|by rewrite Hp| |]; unfold session_sub; rewrite Hp; [done|].
    intros tf cid. rewrite Hsub, decide_False by naive_solver. rewrite Hs. done.
Qed.

Lemma unsubscribe_consistent left u id r :
  id_same id r <> Some false -> consistent left r ->
  let tf := unsub_topic_filter u in
  consistent (if exist (client_id id) r && bool_decide (fst <$> left (client_id id) tf = Some id)
              then left_without (client_id id) tf left else left) (snd (unsubscribe u id r)).
Proof.
  intros Hid Hc tf0. unfold unsubscribe, exist. destruct (peers r !! client_id id) as [e|] eqn:He; [|done].
  pose proof (own_session _ _ _ Hid He) as Hown. destruct Hc as [Hwf Hi Hl Hs].
  unfold bind, ret, subscriptions_remove. pose proof (router_remove_spec tf0 id r Hwf) as Ha. fold tf0.
  destruct (router_remove _ _ r) as [res r1]. cbn in *. destruct Ha as (Hwf1 & Hp & Hsub).
  assert (forall cid tf, session_sub (update_session (client_id id) (with_subscriptions (delete tf0)) r1) cid tf
    = if decide (cid = client_id id /\ tf = tf0) then None else session_sub r cid tf) as Hss.
  { intros cid tf. rewrite session_sub_update, Hp, He. cbn. unfold session_sub. rewrite Hp.
    destruct (decide (cid = client_id id)) as [->|Hne]; [|by rewrite decide_False by naive_solver].
    rewrite lookup_delete, He. cbn. repeat case_decide; naive_solver. }
  assert (session_sub r (client_id id) tf0 = (fun o => (id, o)) <$> s_subscriptions (s e) !! tf0) as Hown0
    by (unfold session_sub; rewrite He; cbn; by rewrite Hown).
  assert (fst <$> Router.subscribed (router r) tf0 (client_id id) = Some id
    <-> is_Some (session_sub r (client_id id) tf0) \/ fst <$> left (client_id id) tf0 = Some id) as Hid0.
  { rewrite Hs, Hown0. specialize (Hl (client_id id) tf0). rewrite Hown0 in Hl.
    destruct (left (client_id id) tf0) as [[id' o']|], (s_subscriptions (s e) !! tf0) as [o|]; cbn in *; naive_solver. }
  set (left' := if bool_decide _ then _ else _).
  assert (forall c f, left' c f = if decide (c = client_id id /\ f = tf0)
    then if bool_decide (fst <$> left (client_id id) tf0 = Some id) then None else left (client_id id) tf0 else left c f) as Hlf.
  { intros c f. subst left'. case_bool_decide; unfold left_without; repeat case_decide; naive_solver. }
  split; [done|by apply update_session_ids; rewrite Hp| |].
  - intros cid tf. rewrite Hss, Hlf. destruct (decide _); [done|]. apply Hl.
  - intros tf cid. rewrite Hsub, Hss, Hlf. destruct (decide (cid = client_id id /\ tf = tf0)) as [[-> ->]|Hne].
    + case_bool_decide as Hb; [rewrite decide_True; [done|]; repeat split; apply Hid0; by right|].
      destruct (left (client_id id) tf0) as [x|] eqn:Hx.
      * rewrite decide_False; [by rewrite Hs, Hx|]. intros (_ & _ & [Hr|Hr]%Hid0); [|done]. rewrite Hl in Hr by eauto. by destruct Hr.
      * case_decide as Hd; [done|]. rewrite Hs, Hx. destruct (session_sub r (client_id id) tf0) eqn:Hy; [|done].
        destruct Hd. repeat split. apply Hid0. left. by eauto.
    + rewrite decide_False by naive_solver. by rewrite Hs.
Qed.

Lemma update_session_missing cid f r : peers r !! cid = None -> update_session cid f r = r.
Proof.
  intros Hn. unfold update_session, set_peers. rewrite alter_id; [by destruct r|]. intros e. by rewrite Hn.
Qed.

Lemma _unsubscribe_missing self_id id tf r :
  peers r !! client_id self_id = None -> snd (_unsubscribe self_id id tf r) = snd (router_remove tf id r).
Proof.
  intros Hn. unfold _unsubscribe, and_then, bind, ret, subscriptions_remove.
  assert (peers (snd (router_remove tf id r)) = peers r) as Hp
    by (unfold router_remove; cbn [r_remove default_router]; destruct (Router.remove tf id (router r)); done).
  destruct (router_remove tf id r) as [[b|e] r1]; [|done]. simpl in *. apply update_session_missing. by rewrite Hp.
Qed.

(** The session is no longer registered: only the router is changed. *)
Lemma unsubscribe_all_spec self_id id tfs r :
  peers r !! client_id self_id = None -> rwf (router r) ->
  let r' := snd (unsubscribe_all self_id id tfs r) in
  rwf (router r') /\ peers r' = peers r
  /\ forall tf cid, Router.subscribed (router r') tf cid
       = if decide (tf ∈ tfs /\ cid = client_id id /\ (fst <$> Router.subscribed (router r) tf cid) = Some id)
         then None else Router.subscribed (router r) tf cid.
Proof.
  revert r. induction tfs as [|tf0 tfs IH]; intros r Hn Hwf.
  - split; [done|]. split; [done|]. intros. rewrite decide_False; [done|]. intros (Hin & _). by apply not_elem_of_nil in Hin.
  - cbn [unsubscribe_all]. unfold bind. pose proof (_unsubscribe_missing self_id id tf0 r Hn) as Hu.
    pose proof (router_remove_spec tf0 id r Hwf) as (Hwf1 & Hp1 & Hs1). rewrite <- Hu in Hwf1, Hp1, Hs1.
    destruct (_unsubscribe self_id id tf0 r) as [res r1]. cbn in Hwf1, Hp1, Hs1.
    specialize (IH r1). rewrite Hp1 in IH. specialize (IH Hn Hwf1) as (Hwf2 & Hp2 & Hs2). split; [done|].
    split; [done|]. intros tf cid. rewrite Hs2, Hs1.
    repeat case_decide; rewrite ?elem_of_cons in *; naive_solver.
Qed.

(** Taking a session out together with its subscriptions. *)
Lemma remove_if_consistent left keep self_id r :
  consistent left r -> consistent left (snd (remove_if keep true self_id r)).
Proof.
  intros Hc. unfold remove_if. destruct (peers r !! client_id self_id) as [e|] eqn:He; [|done].
  destruct (keep (s e)); [|done]. destruct Hc as [Hwf Hi Hl Hs]. pose proof (Hi _ _ He) as [Hcid _].
  unfold bind, ret.
  set (tfs := map fst (map_to_list (s_subscriptions (s e)))).
  pose proof (unsubscribe_all_spec self_id (s_id (s e)) tfs (set_peers (delete (client_id self_id)) r)) as Hu.
  destruct (unsubscribe_all self_id (s_id (s e)) tfs _) as [[] r']. cbn in *.
  destruct Hu as (Hwf' & Hp' & Hs'); [by rewrite lookup_delete_eq | done|].
  assert (forall cid tf, session_sub r' cid tf = if decide (cid = client_id self_id) then None else session_sub r cid tf) as Hss.
  { intros cid tf. unfold session_sub. rewrite Hp', lookup_delete. repeat case_decide; naive_solver. }
  split; [done| | |].
  - intros c e'. rewrite Hp', lookup_delete. case_decide; [done|]. apply Hi.
  - intros cid tf Hsome. rewrite Hss. case_decide; [done|]. by apply Hl.
  - intros tf cid. rewrite Hs', Hs, Hss, Hcid.
    destruct (decide (cid = client_id self_id)) as [->|Hne]; [|by rewrite decide_False by naive_solver].
    unfold session_sub. rewrite He. cbn. destruct (left (client_id self_id) tf) as [x|] eqn:Hlf.
    + rewrite decide_False; [done|]. intros (Hin & _). apply list_elem_of_fmap in Hin as ([tf' o] & -> & Hin).
      apply elem_of_map_to_list in Hin. assert (session_sub r (client_id self_id) tf' = None) as Hn by (apply Hl; eauto).
      unfold session_sub in Hn. rewrite He in Hn. cbn in *. by rewrite Hin in Hn.
    + destruct (s_subscriptions (s e) !! tf) as [o|] eqn:Ho; cbn; [|by case_decide].
      rewrite decide_True; [done|]. split; [|done]. unfold tfs. apply (list_elem_of_fmap_2 fst _ (tf, o)).
      by apply elem_of_map_to_list.
Qed.

(** ** Lemmas: taking a session over *)

Definition overlay (l : list (TopicFilter * SubscriptionOptions)) (m : gmap TopicFilter SubscriptionOptions)
    : gmap TopicFilter SubscriptionOptions := fold_left (fun m x => <[fst x := snd x]> m) l m.

Lemma overlay_lookup l m tf :
  overlay l m !! tf = match overlay l ∅ !! tf with Some o => Some o | None => m !! tf end.
Proof.
  revert m. induction l as [|x l IH]; intros m; [done|]. cbn. rewrite IH, (IH (<[fst x := snd x]> ∅)).
  destruct (overlay l ∅ !! tf); [done|]. rewrite !lookup_insert. by case_decide.
Qed.

Lemma overlay_cons tf o l tf' :
  overlay ((tf, o) :: l) ∅ !! tf'
  = match overlay l ∅ !! tf' with Some o => Some o | None => if decide (tf = tf') then Some o else None end.
Proof. change (overlay ((tf, o) :: l) ∅) with (overlay l (<[tf := o]> ∅)). by rewrite overlay_lookup, lookup_insert. Qed.

Lemma overlay_map_to_list m : overlay (map_to_list m) ∅ = m.
Proof.
  rewrite <- (list_to_map_to_list m) at 2. pose proof (NoDup_fst_map_to_list m) as Hnd.
  induction (map_to_list m) as [|[tf o] l IH]; [done|]. rewrite fmap_cons in Hnd. apply NoDup_cons in Hnd as [Hni Hnd].
  apply map_eq. intros tf'. rewrite overlay_cons, IH, list_to_map_cons, lookup_insert by done. cbn in Hni.
  case_decide as Htf; [subst|by destruct (list_to_map l !! tf')]. by rewrite not_elem_of_list_to_map_1.
Qed.

(** What [transfer_session_state] of the session does to the registry. *)
Fixpoint router_add_all (id : Id) (subs : list (TopicFilter * SubscriptionOptions)) : M Registry unit :=
  match subs with
  | [] => ret tt
  | (tf, o) :: subs' => let! _ := router_add tf id o in router_add_all id subs'
  end.

Lemma router_add_ok tf id o r : is_ok (fst (router_add tf id o r)) = is_ok (from_str tf).
Proof. unfold router_add. cbn [r_add default_router]. unfold Router.add. destruct (from_str tf) as [f|]; [|done]. cbn. by destruct (_ !! tf). Qed.

Lemma router_add_all_spec id subs r :
  rwf (router r) -> Forall (fun x => is_ok (from_str (fst x)) = true) subs ->
  let r' := snd (router_add_all id subs r) in
  rwf (router r') /\ peers r' = peers r
  /\ forall tf cid, Router.subscribed (router r') tf cid
       = match overlay subs ∅ !! tf with
         | Some o => if decide (cid = client_id id) then Some (id, o) else Router.subscribed (router r) tf cid
         | None => Router.subscribed (router r) tf cid
         end.
Proof.
  revert r. induction subs as [|[tf0 o0] subs IH]; intros r Hwf Hok; [done|].
  apply Forall_cons in Hok as [Hok0 Hok]. cbn [router_add_all]. unfold bind.
  pose proof (router_add_spec tf0 id o0 r Hwf) as Ha. pose proof (router_add_ok tf0 id o0 r) as Hr.
  destruct (router_add tf0 id o0 r) as [res r1]. destruct Ha as (Hwf1 & Hp1 & Hs1). cbn in Hr, Hok0.
  rewrite Hok0 in Hr. specialize (IH r1 Hwf1 Hok) as (Hwf2 & Hp2 & Hs2). split; [done|]. split; [by rewrite Hp2|].
  intros tf cid. rewrite Hs2, Hs1, overlay_cons, Hr.
  destruct (overlay subs ∅ !! tf); repeat case_decide; naive_solver.
Qed.

Lemma subscriptions_extend_spec cid subs r :
  subscriptions_extend cid subs r = update_session cid (with_subscriptions (overlay subs)) r.
Proof.
  revert r. unfold subscriptions_extend. induction subs as [|x subs IH]; intros r.
  - cbn. unfold update_session, set_peers. rewrite alter_id; [by destruct r|]. by intros [[] ?] _.
  - cbn [fold_left]. rewrite IH. unfold subscriptions_add, update_session, set_peers. cbn.
    apply (f_equal (fun m => mkRegistry (lockers r) m (router r))), map_eq. intros c. rewrite !lookup_alter.
    case_decide as Hc; [|done]. rewrite Hc, decide_True by done. by destruct (peers r !! c).
Qed.

(** ** Executions *)

(** A handshake registers a new session. *)
Definition register (o : OutInflight D) (id : Id) : M Registry unit :=
  set (mkEntry (mkSession id ∅ true [] o) (mkTx false [])) id.

(** A session's task takes over the subscriptions of its predecessor. *)
Definition transfer (info : OfflineInfo) (id : Id) : M Registry unit := fun r =>
  (tt, subscriptions_extend (client_id id) (off_subscriptions info)
         (snd (router_add_all id (off_subscriptions info) r))).

(** What happens to the registry, in any order. A handshake kicks: it tells the
    old session, waits and takes it out; then it registers the new one, unless
    it is refused by then; the new session takes the subscriptions over when its
    task gets to it. *)
Inductive Op : Type :=
| OpSubscribe (sub : Subscribe) (id : Id)
| OpUnsubscribe (u : Unsubscribe) (id : Id)
| OpForwards (from : MsgFrom) (p : Publish)
| OpPublish (from : MsgFrom) (p : Publish) (id : Id)
| OpKickSend (clean_start is_admin : bool) (id : Id)
| OpKickRemove (clean_session : bool) (id : Id)
| OpRegister (o : OutInflight D) (id : Id)
| OpTransfer (info : OfflineInfo) (id : Id)
| OpRemove (id : Id)
| OpRemoveWith (with_id id : Id)
| OpTask (cid : ClientId) (connected : bool) (queue : list (MsgFrom * Publish)) (o : OutInflight D) (t : Tx).

(** [OpTask]: the session's task receives, delivers, disconnects or ends. *)
Definition step (op : Op) (r : Registry) : Registry :=
  match op with
  | OpSubscribe sub id => snd (subscribe sub id r)
  | OpUnsubscribe u id => snd (unsubscribe u id r)
  | OpForwards from p => snd (forwards from p r)
  | OpPublish from p id => snd (publish from p id r)
  | OpKickSend cs adm id => snd (kick_send cs adm id r)
  | OpKickRemove cs id => snd (kick_remove cs cs id r)
  | OpRegister o id => snd (register o id r)
  | OpTransfer info id => snd (transfer info id r)
  | OpRemove id => snd (remove id r)
  | OpRemoveWith with_id id => snd (remove_with with_id id r)
  | OpTask cid connected queue o t =>
      set_peers (alter (fun e => mkEntry (mkSession (s_id (s e)) (s_subscriptions (s e)) connected queue o) t) cid) r
  end.

(** A session's task acts only while no other session of the client is
    registered, ids are of this node, and what is taken over are subscriptions
    of a session, whose filters are valid. *)
Definition op_ok (op : Op) (r : Registry) : Prop :=
  match op with
  | OpSubscribe _ id | OpUnsubscribe _ id => id_same id r <> Some false
  | OpTransfer info id =>
      id_same id r <> Some false /\ Forall (fun x => is_ok (from_str (fst x)) = true) (off_subscriptions info)
  | OpRegister _ id => node_id id = this_node
  | _ => True
  end.

Definition run_from (ops : list Op) (r : Registry) : Registry := fold_left (fun r op => step op r) ops r.

Definition run (ops : list Op) : Registry := run_from ops registry_new.

Fixpoint run_ok (ops : list Op) (r : Registry) : Prop :=
  match ops with
  | [] => True
  | op :: ops' => op_ok op r /\ run_ok ops' (step op r)
  end.

(** The subscriptions of the client's session, if any, are left over. *)
Definition abandon (cid : ClientId) (r : Registry) left : Leftover := fun c tf =>
  if decide (c = cid) then match session_sub r cid tf with Some x => Some x | None => left c tf end else left c tf.

(** Those that the session [id] takes over no longer are; without a session
    they become left over. *)
Definition left_taken (info : OfflineInfo) (id : Id) (r : Registry) left : Leftover := fun c tf =>
  if decide (c = client_id id) then
    match overlay (off_subscriptions info) ∅ !! tf with
    | Some o => if exist (client_id id) r then None else Some (id, o)
    | None => left c tf
    end
  else left c tf.

Definition left_after (op : Op) (r : Registry) left : Leftover :=
  match op with
  | OpSubscribe sub id =>
      if is_ok (fst (subscribe sub id r)) then left_without (client_id id) (topic_filter sub) left else left
  | OpUnsubscribe u id =>
      if exist (client_id id) r && bool_decide (fst <$> left (client_id id) (unsub_topic_filter u) = Some id)
      then left_without (client_id id) (unsub_topic_filter u) left else left
  | OpKickRemove false id | OpRegister _ id => abandon (client_id id) r left
  | OpTransfer info id => left_taken info id r left
  | _ => left
  end.

Fixpoint left_from (ops : list Op) (r : Registry) left : Leftover :=
  match ops with
  | [] => left
  | op :: ops' => left_from ops' (step op r) (left_after op r left)
  end.

(** What is left over after an execution. *)
Definition left_over (ops : list Op) : Leftover := left_from ops registry_new no_leftover.

Lemma forwards_same from p r : same_subscriptions r (snd (forwards from p r)).
Proof.
  pose proof (forwards_spec this_node now less_value set_subscription_ids from p r) as Hf.
  destruct (forwards from p r) as [res r']. destruct Hf as [Hf _]. by apply forwarded_to_same in Hf.
Qed.

Lemma publish_same from p id r : same_subscriptions r (snd (publish from p id r)).
Proof.
  unfold publish. destruct (peers r !! client_id id); [|done].
  pose proof (send_to_spec (client_id id) (Forward from p) r) as Hs. destruct (send_to _ _ r) as [res r'].
  destruct Hs as [Hf _]. by apply forwarded_to_same in Hf.
Qed.

Lemma register_consistent left o id r :
  node_id id = this_node -> consistent left r -> consistent (abandon (client_id id) r left) (snd (register o id r)).
Proof.
  intros Hn [Hwf Hi Hl Hs]. unfold register, set. cbn [snd].
  set (r' := set_peers _ r).
  assert (forall cid tf, session_sub r' cid tf = if decide (cid = client_id id) then None else session_sub r cid tf) as Hss.
  { intros cid tf. unfold session_sub, r'. cbn. rewrite lookup_insert. repeat case_decide; naive_solver. }
  unfold abandon. split; [done| | |].
  - intros c e. cbn. rewrite lookup_insert. case_decide as Hc; [by subst; intros [= <-]|apply Hi].
  - intros cid tf. rewrite Hss. destruct (decide (cid = client_id id)); [done|apply Hl].
  - intros tf cid. cbn [router r' set_peers]. rewrite Hs, Hss. destruct (decide (cid = client_id id)) as [->|]; [|done].
    specialize (Hl (client_id id) tf). destruct (left (client_id id) tf), (session_sub r (client_id id) tf); try done.
    by specialize (Hl ltac:(eauto)).
Qed.

Lemma kick_remove_consistent left (cs : bool) id r :
  consistent left r -> consistent (if cs then left else abandon (client_id id) r left) (snd (kick_remove cs cs id r)).
Proof.
  intros Hc. assert (snd (kick_remove cs cs id r) = snd (remove_if (fun _ => true) cs id r)) as ->.
  { unfold kick_remove, bind, ret, _remove. by destruct (remove_if _ _ _ r) as [[[]|] ?]. }
  destruct cs; [by apply remove_if_consistent|].
  assert (snd (remove_if (fun _ => true) false id r) = set_peers (delete (client_id id)) r) as ->.
  { unfold remove_if. destruct (peers r !! client_id id) as [e|] eqn:He; [done|]. cbn. unfold set_peers.
    rewrite delete_id by done. by destruct r. }
  destruct Hc as [Hwf Hi Hl Hs]. set (r' := set_peers _ r).
  assert (forall cid tf, session_sub r' cid tf = if decide (cid = client_id id) then None else session_sub r cid tf) as Hss.
  { intros cid tf. unfold session_sub, r'. cbn. rewrite lookup_delete. repeat case_decide; naive_solver. }
  unfold abandon. split; [done| | |].
  - intros c e. cbn. rewrite lookup_delete. case_decide; [done|apply Hi].
  - intros cid tf. rewrite Hss. destruct (decide (cid = client_id id)); [done|apply Hl].
  - intros tf cid. cbn [router r' set_peers]. rewrite Hs, Hss. destruct (decide (cid = client_id id)) as [->|]; [|done].
    specialize (Hl (client_id id) tf). destruct (left (client_id id) tf), (session_sub r (client_id id) tf); try done.
    by specialize (Hl ltac:(eauto)).
Qed.

(** The subscriptions of a session carry over to its successor. *)
Lemma transfer_consistent left info id r :
  id_same id r <> Some false -> Forall (fun x => is_ok (from_str (fst x)) = true) (off_subscriptions info) ->
  consistent left r -> consistent (left_taken info id r left) (snd (transfer info id r)).
Proof.
  intros Hid Hok [Hwf Hi Hl Hs]. unfold transfer. cbn [snd].
  pose proof (router_add_all_spec id (off_subscriptions info) r Hwf Hok) as (Hwf2 & Hp2 & Hs2).
  rewrite subscriptions_extend_spec. set (r2 := snd (router_add_all _ _ _)) in *.
  set (subs := overlay (off_subscriptions info)).
  assert (forall cid tf, session_sub (update_session (client_id id) (with_subscriptions subs) r2) cid tf
    = if decide (cid = client_id id) then
        if exist (client_id id) r then match subs ∅ !! tf with Some o => Some (id, o) | None => session_sub r cid tf end else None
      else session_sub r cid tf) as Hss.
  { intros cid tf. rewrite session_sub_update. unfold session_sub, exist. rewrite Hp2. destruct (decide (cid = client_id id)) as [->|]; [|done].
    destruct (peers r !! client_id id) as [e|] eqn:He; [|done]. cbn. rewrite (own_session _ _ _ Hid He). unfold subs.
    rewrite overlay_lookup. by destruct (overlay _ ∅ !! tf). }
  unfold left_taken. fold subs. split; [done| | |].
  - apply update_session_ids. by rewrite Hp2.
  - intros cid tf. rewrite Hss. destruct (decide (cid = client_id id)) as [->|]; [|apply Hl].
    destruct (exist (client_id id) r) eqn:He; [|done]. destruct (subs ∅ !! tf); [by intros [? ?]|apply Hl].
  - intros tf cid. cbn [router update_session set_peers]. rewrite Hs2, Hs, Hss. fold subs.
    destruct (decide (cid = client_id id)) as [->|]; [|by destruct (subs ∅ !! tf)].
    destruct (subs ∅ !! tf) as [o|]; [by destruct (exist _ _)|]. destruct (exist (client_id id) r) eqn:He; [done|].
    unfold session_sub. unfold exist in He. by destruct (peers r !! client_id id).
Qed.

Lemma step_consistent op left r : op_ok op r -> consistent left r -> consistent (left_after op r left) (step op r).
Proof.
  intros Hok Hc. destruct op; cbn [step op_ok left_after] in *.
  - by apply subscribe_consistent.
  - by apply unsubscribe_consistent.
  - by eapply consistent_same, Hc; apply forwards_same.
  - by eapply consistent_same, Hc; apply publish_same.
  - by eapply consistent_same, Hc; apply kick_send_same.
  - apply (kick_remove_consistent left clean_session id r Hc).
  - by apply register_consistent.
  - destruct Hok. by apply transfer_consistent.
  - by apply remove_if_consistent.
  - by apply remove_if_consistent.
  - eapply consistent_same, Hc. by apply alter_same.
Qed.

Lemma run_from_consistent ops left r :
  run_ok ops r -> consistent left r -> consistent (left_from ops r left) (run_from ops r).
Proof.
  revert left r. induction ops as [|op ops IH]; intros left r; [done|]. intros [Hok Hrun] Hc.
  cbn [left_from]. apply IH; [done|]. by apply step_consistent.
Qed.

Lemma registry_new_consistent : consistent no_leftover registry_new.
Proof.
  split; [apply router_new_rwf | done | done |]. intros tf cid. unfold Router.subscribed, session_sub. cbn. by rewrite !lookup_empty.
Qed.

Lemma run_consistent ops : run_ok ops registry_new -> consistent (left_over ops) (run ops).
Proof. intros Hok. apply run_from_consistent; [done|]. apply registry_new_consistent. Qed.

(** ** Theorems *)

(** C11: forwarding sends one copy for every subscription the message is for,
    in their order, to the channel of its client, and changes nothing else: no
    failing subscription keeps the others from their copy. A copy whose client
    has no session or a closed channel is given back with its reason; if there
    is one, the call returns exactly the copies that came back instead of the
    list of recipients. *)
Theorem forwards_exact from p r :
  let '(res, r') := forwards from p r in
  forwarded_to (copies from p (audience from p r)) r r'
  /\ res = match omap (bounced from p r) (audience from p r) with
           | [] => Ok (reported from p r)
           | errs => Err errs
           end.
Proof. apply (forwards_spec this_node now less_value set_subscription_ids from p r). Qed.

(** C9: after any sequence of subscriptions, publishes, kicks, registrations,
    takeovers and removals, in any order, a session's task acting only while no
    other session of its client is registered: the router has exactly the
    subscriptions of the registered sessions, each with its options and under
    the session's own id, and those that are left over, which no session has.
    Left over are the subscriptions of a session that was kicked to be resumed,
    from then until the client's new session takes them over or subscribes
    itself: for ever, if the handshake is refused after the kick. The
    assertion that a session is on this node never fails. *)
Theorem registry_consistent ops :
  run_ok ops registry_new ->
  (forall tf cid, Router.subscribed (router (run ops)) tf cid
     = match left_over ops cid tf with Some x => Some x | None => session_sub (run ops) cid tf end)
  /\ (forall cid tf, is_Some (left_over ops cid tf) -> session_sub (run ops) cid tf = None)
  /\ rwf (router (run ops))
  /\ (forall sub id, fst (subscribe sub id (run ops)) <> Err NodeException).
Proof.
  intros Hok. destruct (run_consistent ops Hok) as [Hwf Hi Hl Hs].
  split; [done|]. split; [done|]. split; [done|]. intros sub id. unfold subscribe.
  destruct (peers (run ops) !! client_id id) as [e|] eqn:He; [|done].
  destruct (Hi _ _ He) as [_ ->]. rewrite Z.eqb_refl. cbn [negb].
  unfold and_then, bind, ret, router_add. cbn [r_add default_router]. by destruct (Router.add _ _ _ _).
Qed.

(** C10: a message published to a topic, after any sequence of subscriptions,
    publishes, kicks, registrations, takeovers and removals, a session's task
    acting only while no other session of its client is registered: every session
    gets the copies that the matching subscriptions of its client ask for and no
    others: its own and those a predecessor has left over. It gets at least one when a
    subscription of its own outside shared groups matches, No Local apart; a
    copy is lost when the session's channel is closed. *)
Theorem published_reaches ops from p t cid e :
  run_ok ops registry_new -> target_clientid p = None ->
  from_str (topic p) = Ok t -> has_wildcard (topic p) = false ->
  peers (run ops) !! cid = Some e ->
  let wants id tf o := filter_matches tf (topic p) /\ ~ (no_local o = Some true /\ id = from_id from) in
  let own tf o := s_subscriptions (s e) !! tf = Some o /\ wants (s_id (s e)) tf o in
  exists ms, peers (snd (forwards from p (run ops))) !! cid = Some (receive ms e)
  /\ (forall m, m ∈ ms -> exists tf o ids, m = Forward from (forward_copy p o ids)
        /\ (own tf o \/ exists id, left_over ops cid tf = Some (id, o) /\ wants id tf o))
  /\ ((exists tf o, own tf o /\ shared_group o = None) -> ms <> []).
Proof.
  intros Hok Htarget Ht Hw He wants own.
  destruct (run_consistent ops Hok) as [Hwf Hi Hl Hs]. set (r := run ops) in *.
  assert (forall tf x id o, takes_part (router r) (from_id from) (topic p) tf x id o -> x = cid ->
    own tf o \/ exists id, left_over ops cid tf = Some (id, o) /\ wants id tf o) as Hpart.
  { intros tf x id o (Hsub & Hf & Hnl) ->. rewrite Hs in Hsub. destruct (left_over ops cid tf) as [[id' o']|] eqn:Hlo.
    { injection Hsub as -> ->. right. by exists id. }
    unfold session_sub in Hsub. rewrite He in Hsub. cbn in Hsub.
    destruct (s_subscriptions (s e) !! tf) as [o'|] eqn:Ho; [|done]. injection Hsub as <- <-. left. by unfold own, wants. }
  pose proof (forwards_spec this_node now less_value set_subscription_ids from p r) as Hf. destruct (forwards from p r) as [res r']. destruct Hf as [[Hp _ _] _].
  exists (copies from p (audience from p r) cid). cbn. split; [by rewrite Hp, He|].
  unfold Shared.audience, relations_of, router_matches. cbn [r_matches default_router]. rewrite Htarget.
  destruct (matches_routed (fun _ c => is_connected c r) (router r) (from_id from) (topic p) t Hwf Ht Hw)
    as (routes & won & Hm & Hrouted & _). rewrite Hm.
  pose proof (fun n rels rel => matches_sound _ _ _ _ _ _ n rels rel Hwf Ht Hw Hm) as Hsound. split.
  - intros m (tf & o & ids & g & Hin & ->)%copies_elem.
    destruct (routes !! this_node) as [rels|] eqn:Hr; [|by apply not_elem_of_nil in Hin].
    destruct (Hsound _ _ _ Hr Hin) as (id & Htp & _). exists tf, o, ids. split; [done|]. by eapply Hpart.
  - intros (tf & o & (Hsub & Hfm & Hnl) & Hg).
    destruct (proj2 (Hrouted this_node cid)) as (rels & [[[[tf' c] o'] ids] g] & Hr & Hin & <-).
    { left. exists tf, (s_id (s e)), o. split; [|split; [done | by destruct (Hi _ _ He)]]. split; [|done].
      assert (session_sub r cid tf = Some (s_id (s e), o)) as Hss by (unfold session_sub; rewrite He; cbn; by rewrite Hsub).
      rewrite Hs. destruct (left_over ops cid tf) eqn:Hlo; [|done]. rewrite Hl in Hss by eauto. done. }
    rewrite Hr. cbn. intros Hnil. eapply not_elem_of_nil. rewrite <- Hnil. apply copies_elem. by eauto 10.
Qed.

End local.

(** ** Witnesses *)

Module SharedExample.

#[local] Existing Instances InflightExample.Q_ops InflightExample.Q_laws.

Definition strategy : SharedSubscription := DefaultSharedSubscription (fun _ _ => true) (fun _ => 0%Z).
#[local] Existing Instance strategy.

Definition c1 (n : Z) : Id := mkId 1 n None None "c1" None n.
Definition c2 : Id := mkId 1 0 None None "c2" None 7.
Definition plain : SubscriptionOptions := OptV3 (mkV3 AtLeastOnce None).
Definition window : OutInflight InflightExample.Q := out_inflight_new 16 20 0.

(** A client subscribes and comes back under a new connection, while another
    one subscribes and goes; a third party takes part in neither. *)
Definition ops : list (@Op InflightExample.Q) :=
  [OpRegister window (c1 1); OpSubscribe (mkSubscribe "chat/+" plain) (c1 1);
   OpRegister window c2; OpSubscribe (mkSubscribe "chat/#" plain) c2;
   OpKickSend false false (c1 2); OpUnsubscribe (mkUnsubscribe "chat/#" None) c2;
   OpKickRemove false (c1 2); OpRegister window (c1 2);
   OpTransfer (mkOffline [("chat/+", plain)] [] []) (c1 2); OpRemove c2].

Definition less := SessionExample.less.
Definition same_ids (_ : list Z) (p : Publish) : Publish := p.
Definition executed : Registry := run 1 1000 less same_ids ops.

Lemma ops_ok : run_ok 1 1000 less same_ids ops (registry_new router_new).
Proof. vm_compute. repeat split; try discriminate. by repeat constructor. Qed.

(** A third client's handshake is refused after the kick, and it comes back
    with another subscription. *)
Definition c3 (n : Z) : Id := mkId 1 n None None "c3" None n.

Definition refused_ops : list (@Op InflightExample.Q) :=
  ops ++ [OpRegister window (c3 1); OpSubscribe (mkSubscribe "chat/#" plain) (c3 1);
          OpKickRemove false (c3 2); OpRegister window (c3 3)].

Lemma refused_ops_ok : run_ok 1 1000 less same_ids refused_ops (registry_new router_new).
Proof. vm_compute. repeat split; try discriminate. by repeat constructor. Qed.

Lemma registry_consistent_witness :
  Router.subscribed (router (run 1 1000 less same_ids refused_ops)) "chat/+" "c1" = Some (c1 2, plain)
  /\ Router.subscribed (router (run 1 1000 less same_ids refused_ops)) "chat/#" "c2" = None
  /\ Router.subscribed (router (run 1 1000 less same_ids refused_ops)) "chat/#" "c3" = Some (c3 1, plain).
Proof.
  destruct (registry_consistent 1 1000 less same_ids refused_ops refused_ops_ok) as (Hs & _ & _).
  rewrite !Hs. vm_compute. repeat split; reflexivity.
Defined.

Definition hello : Publish := publish_from (mkCodec false false ExactlyOnce "chat/x" None "hello").
Definition publisher : MsgFrom := mkFrom c2 FromCustom.

Definition c1_session : SessionRef := mkSession (c1 2) {["chat/+" := plain]} true [] window.

Lemma published_reaches_witness :
  exists m ms, (tx <$> peers (snd (forwards 1 1000 less same_ids publisher hello executed)) !! "c1")
               = Some (mkTx false (m :: ms)).
Proof.
  destruct (published_reaches 1 1000 less same_ids ops publisher hello [Normal "chat"; Normal "x"] "c1"
    (mkEntry c1_session (mkTx false [])) ops_ok) as (ms & Hp & _ & Hsome);
    [reflexivity | reflexivity | reflexivity | by vm_compute |].
  unfold executed. rewrite Hp. destruct ms as [|m ms]; [|by exists m, ms]. exfalso. apply Hsome; [|reflexivity].
  exists "chat/+", plain. split; [|reflexivity]. split; [reflexivity|]. split; [|intros [Hn _]; discriminate Hn].
  exists [Normal "chat"; SingleWildcard]. split; [reflexivity|]. split; [|reflexivity].
  vm_compute. apply (mm_level (Normal "chat")); [reflexivity|]. apply mm_single, mm_end.
Defined.

End SharedExample.
