(* ===== verification/Handshake.v ===== *)
(** * The handshake: [src/vendor/rmqtt/src/v3.rs], [v5.rs]

    A connection is admitted in steps: the checks of the listener, the hooks
    that authenticate the client, the lock of the client's id, the kick of the
    session it may already have, the new session, its limits, its registration
    and the messages that hand it the old session's state and its automatic
    subscriptions. Version 5 also refuses extended authentication and makes up
    a client id for everyone who sends none.

    When a handshake fails after the registration, the state of the new session
    is dropped and its entry stays ([or_drop], [answer]). [under_lock_run] shows
    that what a handshake does under the lock is one of the sequences of steps
    that the executions of [Shared] are made of.

    The executor that bounds the number of handshakes is taken to run them, and
    the checks before the lock see the registry at one moment. *)

From S2P Require Import Prelude Strs Topic Types Router Inflight Fitter Session Shared.
Local Open Scope string_scope.
Local Open Scope list_scope.

(** The reason in the answer to the client. *)
Inductive AckReason : Type :=
| ServiceUnavailable
| IdentifierRejected           (* version 5: [ClientIdentifierNotValid] *)
| BadAuthenticationMethod
| RefusedByHook.

Inductive Refusal : Type :=
| Overloaded
| NoConnectPacket
| InvalidClientId
| HandshakeTimeout
| ClientIdTooLong
| ExtendedAuth
| TooManySessions
| AuthenticationFailed
| EntryRefused (e : EntryError)
| KeepAliveRefused (e : string)
| SendRefused (e : string)
| AutoSubscriptionFailed (e : string)
| AckNotSent.

(** The fields of the connect packet that are read. *)
Record Connect : Type := mkConnect {
  co_client_id : ClientId;
  co_username : option string;
  co_password : option string;
  co_clean : bool;
  co_keep_alive : Z;
  co_auth_method : bool
}.

(** What a handshake meets: the load of the system, the packet, a fresh id, how
    long the first hook took, the answer of the authentication hooks, the number
    of sessions, the wait for a kicked session, the automatic subscriptions, and
    whether the answer reaches the client. *)
Record Arrival : Type := mkArrival {
  busy : bool;
  connect : option Connect;
  uuid : ClientId;
  late : bool;
  authenticated : bool;
  sessions : Z;
  kick_wait : KickWait;
  auto_subscription : option (result string (list Subscribe));
  ack_sent : bool
}.

Section handshake.
Context {D R : Type} `{DequeMap D} `{RouterOps R}.
Context (proto_ver : ConnectInfo -> Z) (receive_max : ConnectInfo -> option Z).
(** The server's limits, the listener's, and the listener itself. *)
Context (busy_check_enable : bool) (max_clientid_len max_sessions : Z) (cfg : ListenerConfig).
Context (retry_interval expiry_interval : Z).
Context (new_id : ClientId -> option string -> Id).
Context (a : Arrival) (meanwhile : @Registry D R -> @Registry D R).

Abbreviation Reg := (@Registry D R).
Abbreviation Refused := (AckReason * Refusal)%type.

Definition new_session (id : Id) (ci : ConnectInfo) : SessionRef :=
  mkSession id ∅ true [] (out_inflight_new (max_inflight receive_max ci cfg) retry_interval expiry_interval).

(** Through the sender of the new session, which the registry has as well. *)
Definition send_own (id : Id) (m : Message) : M Reg (result Refused unit) :=
  let! res := send_to (client_id id) m in
  ret match res with Ok _ => Ok tt | Err e => Err (ServiceUnavailable, SendRefused e) end.

(** A session whose state is dropped has nobody who receives. *)
Definition drop_receiver (cid : ClientId) (r : Reg) : Reg :=
  set_peers (alter (fun e => mkEntry (s e) (mkTx true [])) cid) r.

(** An error after the registration drops the state of the session, but not its
    entry. *)
Definition or_drop {B} (id : Id) (m : M Reg (result Refused B)) : M Reg (result Refused B) :=
  let! res := m in
  match res with
  | Ok x => ret (Ok x)
  | Err e => fun r => (Err e, drop_receiver (client_id id) r)
  end.

(** The messages that the new session finds first. *)
Definition send_first (id : Id) (clean_session : bool) (offline_info : option OfflineInfo) : M Reg (result Refused unit) :=
  try! _ :=
    match offline_info with
    | Some o => send_own id (SessionStateTransfer o clean_session)
    | None => ret (Ok tt)
    end in
  match auto_subscription a with
  | Some (Ok subs) => send_own id (Subscribes subs)
  | Some (Err e) => ret (Err (ServiceUnavailable, AutoSubscriptionFailed e))
  | None => ret (Ok tt)
  end.

(** The part that holds the client's lock. *)
Definition under_lock (id : Id) (ci : ConnectInfo) (co : Connect) : M Reg (result Refused (bool * Z)) :=
  let clean_session := co_clean co in
  let! kicked := kick (kick_wait a) meanwhile clean_session clean_session false id in
  match kicked with
  | Err e => ret (Err (ServiceUnavailable, EntryRefused e))
  | Ok offline =>
      let '(session_present, offline_info) :=
        match offline with
        | NotExist => (false, None)
        | Exist (Some offline_info) => (negb clean_session, Some offline_info)
        | Exist None => (false, None)
        end in
      match fst (keep_alive proto_ver ci cfg (co_keep_alive co)) with
      | Err e => ret (Err (ServiceUnavailable, KeepAliveRefused e))
      | Ok keep_alive =>
          let! _ := set (mkEntry (new_session id ci) (mkTx false [])) id in
          try! _ := or_drop id (send_first id clean_session offline_info) in
          ret (Ok (session_present, keep_alive))
      end
  end.

(** [try_lock]; the lock is given up on every way out. *)
Definition enter (id : Id) (ci : ConnectInfo) (co : Connect) : M Reg (result Refused (bool * Z)) :=
  let! locked := try_lock id in
  match locked with
  | Err e => ret (Err (ServiceUnavailable, EntryRefused e))
  | Ok _ =>
      let! res := under_lock id ci co in
      let! _ := drop id in
      ret res
  end.

Definition sessions_exceeded (id : Id) (r : Reg) : bool :=
  ((0 <? max_sessions) && (max_sessions <=? sessions a))%Z && negb (exist (client_id id) r).

Definition client_id_too_long (id : Id) : bool :=
  ((0 <? max_clientid_len) && (max_clientid_len <? Z.of_nat (String.length (client_id id))))%Z.

Definition _handshake_v3 (id : Id) (co : Connect) : M Reg (result Refused (bool * Z)) := fun r =>
  let connect_info := ConnV3 id (co_username co) (co_password co) in
  if late a then (Err (ServiceUnavailable, HandshakeTimeout), r)
  else if client_id_too_long id then (Err (IdentifierRejected, ClientIdTooLong), r)
  else if sessions_exceeded id r then (Err (ServiceUnavailable, TooManySessions), r)
  else if negb (authenticated a) then (Err (RefusedByHook, AuthenticationFailed), r)
  else enter id connect_info co r.

Definition _handshake_v5 (id : Id) (co : Connect) : M Reg (result Refused (bool * Z)) := fun r =>
  let connect_info := ConnV5 id (co_username co) (co_password co) in
  if late a then (Err (ServiceUnavailable, HandshakeTimeout), r)
  else if client_id_too_long id then (Err (IdentifierRejected, ClientIdTooLong), r)
  else if co_auth_method co then (Err (BadAuthenticationMethod, ExtendedAuth), r)
  else if sessions_exceeded id r then (Err (ServiceUnavailable, TooManySessions), r)
  else if negb (authenticated a) then (Err (RefusedByHook, AuthenticationFailed), r)
  else enter id connect_info co r.

(** The answer; without it the session's state is dropped. *)
Definition answer (id : Id) (accepted : bool * Z) : M Reg (result Refused (bool * Z)) := fun r =>
  if ack_sent a then (Ok accepted, r)
  else (Err (ServiceUnavailable, AckNotSent), drop_receiver (client_id id) r).

Definition with_client_id (cid : ClientId) (co : Connect) : Connect :=
  mkConnect cid (co_username co) (co_password co) (co_clean co) (co_keep_alive co) (co_auth_method co).

Definition is_empty_id (cid : ClientId) : bool := String.eqb cid "".

Definition handshake_v3 : M Reg (result Refused (bool * Z)) :=
  if busy_check_enable && busy a then ret (Err (ServiceUnavailable, Overloaded))
  else
    match connect a with
    | None => ret (Err (ServiceUnavailable, NoConnectPacket))
    | Some co =>
        if is_empty_id (co_client_id co) && negb (co_clean co) then ret (Err (IdentifierRejected, InvalidClientId))
        else
          let co := if is_empty_id (co_client_id co) then with_client_id (uuid a) co else co in
          let id := new_id (co_client_id co) (co_username co) in
          try! accepted := _handshake_v3 id co in
          answer id accepted
    end.

Definition handshake_v5 : M Reg (result Refused (bool * Z)) :=
  if busy_check_enable && busy a then ret (Err (ServiceUnavailable, Overloaded))
  else
    match connect a with
    | None => ret (Err (ServiceUnavailable, NoConnectPacket))
    | Some co =>
        let co := if is_empty_id (co_client_id co) then with_client_id (uuid a) co else co in
        let id := new_id (co_client_id co) (co_username co) in
        try! accepted := _handshake_v5 id co in
        answer id accepted
    end.

(** ** Lemmas *)

(** Refusals that come before the session of the client is touched. *)
Definition early (why : Refusal) : bool :=
  match why with
  | Overloaded | NoConnectPacket | InvalidClientId | HandshakeTimeout | ClientIdTooLong | ExtendedAuth
  | TooManySessions | AuthenticationFailed | EntryRefused LockHeld => true
  | _ => false
  end.

(** What every admitted connection has passed: for version 5 without extended
    authentication, and for version 3 with an id if it wants to resume. *)
Definition admitted (v5 : bool) (co : Connect) (cid : ClientId) (r : Reg) : Prop :=
  (busy_check_enable = true -> busy a = false) /\ late a = false
  /\ authenticated a = true
  /\ (0 < max_clientid_len -> Z.of_nat (String.length cid) <= max_clientid_len)%Z
  /\ ((0 < max_sessions)%Z -> (sessions a < max_sessions)%Z \/ is_Some (peers r !! cid))
  /\ (cid ∉ lockers r)
  /\ (if v5 then co_auth_method co = false else co_client_id co = "" -> co_clean co = true).

(** The client id of the session: the packet's, or a fresh one if it is empty. *)
Definition cid_of (co : Connect) : ClientId :=
  if decide (co_client_id co = "") then uuid a else co_client_id co.

(** The checks of [_handshake_v3] and [_handshake_v5]. *)
Definition passed (id : Id) (r : Reg) : Prop :=
  authenticated a = true /\ late a = false /\ client_id_too_long id = false /\ sessions_exceeded id r = false
  /\ client_id id ∉ lockers r.

(** The session that is registered for [id]. *)
Definition has_session (id : Id) (r : Reg) : Prop := exists e, peers r !! client_id id = Some e /\ s_id (s e) = id.

(** Either the connection is admitted and has its session, or it was refused
    early and in vain, or it was refused later. *)
Definition guarded (id : Id) (r : Reg) (m : M Reg (result Refused (bool * Z))) : Prop :=
  match m r with
  | (Ok _, r') => passed id r /\ has_session id r'
  | (Err (_, why), r') => if early why then r' = r else passed id r
  end.

Lemma passed_admitted (v5 : bool) co id r :
  (busy_check_enable && busy a = false) -> client_id id = cid_of co ->
  (if v5 then co_auth_method co = false else co_client_id co = "" -> co_clean co = true) ->
  passed id r -> admitted v5 co (cid_of co) r.
Proof.
  intros Hb Hid Hv (Ha & Hl & Hlen & Hs & Hlock). unfold client_id_too_long, sessions_exceeded, exist in *. rewrite Hid in *.
  repeat split; try done.
  - intros He. by rewrite He in Hb.
  - intros Hm. rewrite (proj2 (Z.ltb_lt _ _) Hm) in Hlen. by apply Z.ltb_ge in Hlen.
  - intros Hm. rewrite (proj2 (Z.ltb_lt _ _) Hm) in Hs. destruct (peers r !! cid_of co); [by right|].
    rewrite andb_true_r in Hs. apply Z.leb_gt in Hs. by left.
Qed.

(** A computation that is not refused early. *)
Definition not_early {B} (m : M Reg (result Refused B)) : Prop :=
  forall r, match fst (m r) with Err (_, why) => early why = false | Ok _ => True end.

Lemma not_early_ret {B} (res : result Refused B) :
  match res with Err (_, why) => early why = false | Ok _ => True end -> not_early (ret res).
Proof. by intros Hr r. Qed.

Lemma not_early_bind {A B} (P : A -> Prop) (m : M Reg A) (k : A -> M Reg (result Refused B)) :
  (forall r, P (fst (m r))) -> (forall x, P x -> not_early (k x)) -> not_early (bind m k).
Proof. intros Hm Hk r. unfold bind. specialize (Hm r). destruct (m r) as [x r']. by apply Hk. Qed.

Lemma not_early_try {B C} (m : M Reg (result Refused B)) (k : B -> M Reg (result Refused C)) :
  not_early m -> (forall x, not_early (k x)) -> not_early (and_then m k).
Proof.
  intros Hm Hk. apply (not_early_bind (fun res => match res with Err (_, why) => early why = false | Ok _ => True end) m _ Hm).
  intros [x|[w why]] Hx; [apply Hk | by apply not_early_ret].
Qed.

Lemma send_own_late id m : not_early (send_own id m).
Proof. apply (not_early_bind (fun _ => True)); [done|]. by intros [] _ r. Qed.

Lemma kick_not_held id cs cl adm r : fst (kick (kick_wait a) meanwhile cs cl adm id r) <> Err LockHeld.
Proof.
  unfold kick, and_then, bind, ret. destruct (kick_send _ _ id r) as [[] r1].
  - destruct (kick_wait a); cbn; [|done|]; by destruct (kick_remove _ _ id _).
  - by destruct (kick_remove _ _ id _).
Qed.

Lemma or_drop_late {B} id (m : M Reg (result Refused B)) : not_early m -> not_early (or_drop id m).
Proof.
  intros Hm. apply (not_early_bind (fun res => match res with Err (_, why) => early why = false | Ok _ => True end) m _ Hm).
  intros [x|[w why]] Hx r; [done | exact Hx].
Qed.

Lemma send_first_late id clean info : not_early (send_first id clean info).
Proof.
  apply not_early_try; [destruct info; [apply send_own_late | by apply not_early_ret]|]. intros _.
  destruct (auto_subscription a) as [[subs|e]|]; [apply send_own_late | by apply not_early_ret..].
Qed.

Lemma under_lock_late id ci co : not_early (under_lock id ci co).
Proof.
  apply (not_early_bind (fun res => res <> Err LockHeld)); [intros r; apply kick_not_held|].
  intros [offline|e] Hne; [|by apply not_early_ret; destruct e].
  destruct (match offline with NotExist => _ | Exist _ => _ end) as [present info].
  destruct (fst (keep_alive _ _ _ _)) as [k|e]; [|by apply not_early_ret].
  apply (not_early_bind (fun _ => True)); [done|]. intros _ _.
  apply not_early_try; [apply or_drop_late, send_first_late | by intros _; apply not_early_ret].
Qed.

Lemma drop_receiver_run cid e0 t (r : Reg) :
  peers r !! cid = Some (mkEntry e0 t) -> drop_receiver cid r = set_peers <[cid := mkEntry e0 (mkTx true [])]> r.
Proof.
  intros He. unfold drop_receiver, set_peers. f_equal. apply map_eq. intros c. rewrite lookup_alter, lookup_insert.
  case_decide as Hc; [|done]. by rewrite He.
Qed.

(** The first messages of a session that was just registered: they all arrive,
    unless the automatic subscriptions are not to be had. *)
Lemma send_first_run id e0 clean info r :
  peers r !! client_id id = Some (mkEntry e0 (mkTx false [])) ->
  or_drop id (send_first id clean info) r
  = let handed := match info with Some o => [SessionStateTransfer o clean] | None => [] end in
    match auto_subscription a with
    | Some (Err e) => (Err (ServiceUnavailable, AutoSubscriptionFailed e),
                       set_peers <[client_id id := mkEntry e0 (mkTx true [])]> r)
    | Some (Ok subs) => (Ok tt, set_peers <[client_id id := mkEntry e0 (mkTx false (handed ++ [Subscribes subs]))]> r)
    | None => (Ok tt, set_peers <[client_id id := mkEntry e0 (mkTx false handed)]> r)
    end.
Proof.
  intros He. assert (set_peers <[client_id id := mkEntry e0 (mkTx false [])]> r = r) as Hr.
  { unfold set_peers. rewrite insert_id by done. by destruct r. }
  unfold or_drop, send_first, and_then, bind, send_own, bind, ret, send_to. destruct info as [o|]; cbn.
  - rewrite He. cbn. destruct (auto_subscription a) as [[subs|err]|]; cbn; [| |done].
    + rewrite lookup_insert_eq. cbn. f_equal. unfold set_peers. cbn. by rewrite insert_insert_eq.
    + rewrite (drop_receiver_run _ e0 (mkTx false [SessionStateTransfer o clean])) by apply lookup_insert_eq. f_equal.
      unfold set_peers. cbn. by rewrite insert_insert_eq.
  - destruct (auto_subscription a) as [[subs|err]|]; cbn; [by rewrite He|by erewrite drop_receiver_run|by rewrite Hr].
Qed.

Lemma under_lock_registers id ci co r x r' : under_lock id ci co r = (Ok x, r') -> has_session id r'.
Proof.
  unfold under_lock, bind. destruct (kick _ _ _ _ _ _ _) as [[offline|e] r1]; [|done].
  destruct (match offline with NotExist => _ | Exist _ => _ end) as [present info].
  destruct (fst (keep_alive _ _ _ _)) as [k|e]; [|done]. unfold and_then, bind, set. cbn [fst snd].
  rewrite (send_first_run id (new_session id ci)) by apply lookup_insert_eq. cbn zeta.
  destruct (auto_subscription a) as [[subs|err]|]; cbn; [intros [= _ <-]|done|intros [= _ <-]];
    (eexists; split; [apply lookup_insert_eq | done]).
Qed.

Lemma enter_guarded id ci co r :
  authenticated a = true -> late a = false -> client_id_too_long id = false -> sessions_exceeded id r = false ->
  guarded id r (enter id ci co).
Proof.
  intros Ha Hl Hc Hs. unfold guarded, enter, bind, ret, try_lock. case_bool_decide as Hh; [done|].
  set (r1 := set_lockers (fun l => l ∪ {[client_id id]}) r).
  pose proof (under_lock_late id ci co r1) as Hlate.
  pose proof (under_lock_registers id ci co r1) as Hreg.
  destruct (under_lock id ci co r1) as [res r']. cbn in *. destruct res as [x|[w why]]; cbn.
  - split; [by repeat split|]. exact (Hreg x r' eq_refl).
  - rewrite Hlate. by repeat split.
Qed.

Lemma handshake_v3_guarded id co r : guarded id r (_handshake_v3 id co).
Proof.
  unfold guarded, _handshake_v3. destruct (late a) eqn:?; [done|]. destruct (client_id_too_long id) eqn:?; [done|].
  destruct (sessions_exceeded id r) eqn:?; [done|]. destruct (authenticated a) eqn:?; [|done]. by apply enter_guarded.
Qed.

Lemma handshake_v5_guarded id co r :
  guarded id r (_handshake_v5 id co)
  /\ (co_auth_method co = true -> exists why, fst (_handshake_v5 id co r) = Err why /\ early (snd why) = true).
Proof.
  unfold guarded, _handshake_v5. destruct (late a) eqn:?; [split; [done|]; intros _; by eexists|].
  destruct (client_id_too_long id) eqn:?; [split; [done|]; intros _; by eexists|].
  destruct (co_auth_method co); [split; [done|]; intros _; by eexists|].
  destruct (sessions_exceeded id r) eqn:?; [done|]. destruct (authenticated a) eqn:?; [|done].
  split; [by apply enter_guarded | done].
Qed.

Lemma answered_guarded id r m : guarded id r m -> guarded id r (try! accepted := m in answer id accepted).
Proof.
  unfold guarded, and_then, bind, ret, answer. destruct (m r) as [[x|[w why]] r']; [|done].
  destruct (ack_sent a); [done|]. by intros [? _].
Qed.

(** The registry when the wait for the kicked session is over, if there was one. *)
Definition after_wait (cs : bool) (id : Id) (r : Reg) : Reg :=
  let '(waits, r1) := kick_send cs false id r in if waits then meanwhile r1 else r1.

(** Kicking the session of a client that wants it back. *)
Lemma kick_hands_over id e r :
  let rw := after_wait false id r in
  peers rw !! client_id id = Some e -> kick_wait a <> SenderDropped ->
  kick (kick_wait a) meanwhile false false false id r
  = (Ok (Exist (Some (to_offline_info (s e)))), set_peers (delete (client_id id)) rw).
Proof.
  unfold after_wait, kick, and_then, bind, ret. destruct (kick_send false false id r) as [waits r1]. cbn zeta. intros He Hw.
  assert ((match kick_wait a with SenderDropped => Err KickReply | _ => Ok tt end : result EntryError unit) = Ok tt) as Hk
    by by destruct (kick_wait a).
  destruct waits; rewrite ?Hk; unfold kick_remove, _remove, remove_if, bind, ret; by rewrite He.
Qed.

(** ** Theorems *)

(** C8: a connection gets in only when the authentication hooks have accepted
    it, the client id of its packet, or a fresh one if that is empty, is short
    enough, there is room for its session and no other handshake of the same
    client id is under way, in version 3 and in version 5; and then the session
    that is registered under this client id is its own. A connection refused
    for one of these reasons leaves every session, subscription and lock
    as it was: the session that is running under the same client id is not
    disturbed. *)
Theorem handshake_guards (v5 : bool) r :
  (forall cid user, client_id (new_id cid user) = cid) ->
  match (if v5 then handshake_v5 else handshake_v3) r with
  | (Ok _, r') => exists co, connect a = Some co /\ admitted v5 co (cid_of co) r
      /\ exists e, peers r' !! cid_of co = Some e /\ s_id (s e) = new_id (cid_of co) (co_username co)
  | (Err (_, why), r') =>
      if early why then r' = r else exists co, connect a = Some co /\ admitted v5 co (cid_of co) r
  end.
Proof.
  intros Hnew.
  assert (forall co m, connect a = Some co -> busy_check_enable && busy a = false ->
    (forall x r', m r = (Ok x, r') -> if v5 then co_auth_method co = false else co_client_id co = "" -> co_clean co = true) ->
    (forall w why r', m r = (Err (w, why), r') -> early why = false ->
       if v5 then co_auth_method co = false else co_client_id co = "" -> co_clean co = true) ->
    guarded (new_id (cid_of co) (co_username co)) r m -> match m r with
    | (Ok _, r') => exists co, connect a = Some co /\ admitted v5 co (cid_of co) r
        /\ exists e, peers r' !! cid_of co = Some e /\ s_id (s e) = new_id (cid_of co) (co_username co)
    | (Err (_, why), r') => if early why then r' = r else exists co, connect a = Some co /\ admitted v5 co (cid_of co) r
    end) as Hg.
  { intros co m Hco Hb Hok Herr. unfold guarded, has_session. destruct (m r) as [[x|[w why]] r'].
    - intros [Hp (e & He & Hs)]. rewrite Hnew in He. exists co. split; [done|]. split; [|by eauto].
      eapply passed_admitted; [done|apply Hnew|by eapply Hok|done].
    - destruct (early why) eqn:Hw; [done|]. intros Hp. exists co. split; [done|].
      eapply passed_admitted; [done|apply Hnew|by eapply Herr|done]. }
  assert (forall co, co_client_id (if is_empty_id (co_client_id co) then with_client_id (uuid a) co else co) = cid_of co
    /\ co_username (if is_empty_id (co_client_id co) then with_client_id (uuid a) co else co) = co_username co
    /\ co_auth_method (if is_empty_id (co_client_id co) then with_client_id (uuid a) co else co) = co_auth_method co) as Hcid.
  { intros co. unfold is_empty_id, cid_of. destruct (String.eqb_spec (co_client_id co) "").
    - by rewrite decide_True.
    - by rewrite decide_False. }
  destruct v5; [unfold handshake_v5 | unfold handshake_v3]; (destruct (busy_check_enable && busy a) eqn:Hb; [done|]);
    (destruct (connect a) as [co|] eqn:Hco; [|done]); destruct (Hcid co) as (Hc & Hu & Hm).
  - cbn zeta. rewrite Hc, Hu. set (co' := if is_empty_id _ then _ else _) in *. set (id := new_id _ _).
    destruct (handshake_v5_guarded id co' r) as [Hguard Hauth].
    assert (forall res r', (try! accepted := _handshake_v5 id co' in answer id accepted) r = (res, r') ->
      (match res with Ok _ => True | Err (_, why) => early why = false end) -> co_auth_method co = false) as Hno.
    { intros res r' Hres Hl. rewrite <- Hm. destruct (co_auth_method co'); [|done].
      destruct (Hauth eq_refl) as ([w why] & He & Hw). revert Hres. unfold and_then, bind, ret.
      destruct (_handshake_v5 id co' r) as [res1 r1]. cbn in He. subst res1. intros [= <- _]. cbn in Hw. congruence. }
    apply (Hg co); [done|done| | |by apply answered_guarded].
    + intros x r' Hx. by apply (Hno _ _ Hx).
    + intros w why r' Hx Hw. by apply (Hno _ _ Hx).
  - destruct (is_empty_id (co_client_id co) && negb (co_clean co)) eqn:Hempty; [done|].
    assert (co_client_id co = "" -> co_clean co = true) as Hclean.
    { intros He. unfold is_empty_id in Hempty. rewrite He in Hempty. by apply negb_false_iff in Hempty. }
    cbn zeta. rewrite Hc, Hu. apply (Hg co); [done|done|done|done|]. apply answered_guarded, handshake_v3_guarded.
Qed.

(** The messages a new session finds in its channel. *)
Definition first_messages (e : EntryItem) : list Message :=
  SessionStateTransfer (to_offline_info (s e)) false
  :: match auto_subscription a with Some (Ok subs) => [Subscribes subs] | _ => [] end.

(** C14: a client comes back for its session, which is registered when
    the wait for it is over, whatever the other tasks did until then. If its
    keep-alive time is accepted and the automatic subscriptions are to be had,
    the new session is registered in place of the old one and finds in its
    channel the old one's subscriptions, its queue and its unacknowledged
    messages as they are then, and the client is told that its session was
    present. If that answer does not reach it, or without the automatic
    subscriptions, the new session stays registered with a closed channel and
    without a subscription, and nobody holds what the old one had. If the
    keep-alive time is refused, the old session is gone by then. In all these
    cases the router keeps the old session's subscriptions. It is assumed that
    no other handshake holds the client's lock and that the old session
    does not drop the kick unanswered (it answers, or the wait times out). *)
Theorem returning_client id ci co e r :
  let rw := after_wait false id (set_lockers (fun l => l ∪ {[client_id id]}) r) in
  co_clean co = false -> client_id id ∉ lockers r -> kick_wait a <> SenderDropped ->
  peers rw !! client_id id = Some e ->
  let '(res, r') := (try! accepted := enter id ci co in answer id accepted) r in
  let registered t := <[client_id id := mkEntry (new_session id ci) t]> (peers rw) in
  router r' = router rw /\ lockers r' = lockers rw ∖ {[client_id id]}
  /\ match fst (keep_alive proto_ver ci cfg (co_keep_alive co)), auto_subscription a with
     | Err err, _ => res = Err (ServiceUnavailable, KeepAliveRefused err) /\ peers r' = delete (client_id id) (peers rw)
     | Ok k, Some (Err err) =>
         res = Err (ServiceUnavailable, AutoSubscriptionFailed err) /\ peers r' = registered (mkTx true [])
     | Ok k, _ =>
         if ack_sent a then res = Ok (true, k) /\ peers r' = registered (mkTx false (first_messages e))
         else res = Err (ServiceUnavailable, AckNotSent) /\ peers r' = registered (mkTx true [])
     end.
Proof.
  intros rw Hclean Hlock Hw He. unfold and_then, enter, bind, ret, try_lock. rewrite bool_decide_eq_false_2 by done.
  unfold under_lock, bind, ret. rewrite Hclean, (kick_hands_over id e) by done. cbn [negb]. fold rw.
  unfold first_messages. destruct (fst (keep_alive proto_ver ci cfg (co_keep_alive co))) as [k|err]; cbn; [|done].
  unfold and_then, bind, set. cbn [fst snd].
  rewrite (send_first_run id (new_session id ci)) by apply lookup_insert_eq.
  unfold answer, drop_receiver. destruct (auto_subscription a) as [[subs|err]|]; cbn; [| |].
  2: by rewrite insert_insert_eq, insert_delete_eq.
  all: destruct (ack_sent a); cbn; [by rewrite insert_insert_eq, insert_delete_eq|].
  all: rewrite insert_insert_eq, insert_delete_eq; split; [done|]; split; [done|]; split; [done|].
  all: apply map_eq; intros c; rewrite lookup_alter, !lookup_insert; case_decide.
  all: by rewrite ?decide_True by done.
Qed.

End handshake.

(** ** What a handshake does to the registry *)

Section registry.
Context {D : Type} `{DequeMap D}.
Context (this_node now : Z) (less_value : QoS -> QoS -> QoS) (set_subscription_ids : list Z -> Publish -> Publish).
Context `{SharedSubscription}.

Abbreviation Reg := (@Registry D DefaultRouter).
Abbreviation run_from := (run_from this_node now less_value set_subscription_ids).

(** Registered with the messages [t]. *)
Definition registers (o : OutInflight D) (t : Tx) (id : Id) : list (@Op D) :=
  [OpRegister o id; OpTask (client_id id) true [] o t].

Lemma registers_run o t id (r : Reg) :
  run_from (registers o t id) r = set_peers <[client_id id := mkEntry (mkSession id ∅ true [] o) t]> r.
Proof.
  unfold registers. cbn [Shared.run_from fold_left step]. unfold Shared.run_from. cbn [fold_left step].
  unfold register, set, set_peers. cbn [snd peers lockers router]. f_equal. apply (map_eq (M := gmap ClientId)). intros c.
  rewrite lookup_alter, !lookup_insert. case_decide; [by rewrite ?decide_True by done|done].
Qed.

(** Under the client's lock a handshake is a sequence of the steps whose
    executions the registry's theorems are about. *)
Lemma under_lock_run proto_ver receive_max cfg retry expiry a ops id ci co (r : Reg) :
  exists tail, (tail = [] \/ tail = [OpKickRemove (co_clean co) id]
                \/ exists o t, tail = OpKickRemove (co_clean co) id :: registers o t id)
  /\ snd (under_lock proto_ver receive_max cfg retry expiry a (run_from ops) id ci co r)
     = run_from (OpKickSend (co_clean co) false id :: (if fst (kick_send (co_clean co) false id r) then ops else []) ++ tail) r.
Proof.
  assert (forall ops tail (r : Reg), run_from (ops ++ tail) r = run_from tail (run_from ops r)) as Happ
    by (intros; apply fold_left_app).
  assert (forall op tail (r : Reg), run_from (op :: tail) r
    = run_from tail (step this_node now less_value set_subscription_ids op r)) as Hcons by done.
  setoid_rewrite Hcons. setoid_rewrite Happ. cbn [step]. unfold under_lock, kick, and_then, bind, ret.
  destruct (kick_send (co_clean co) false id r) as [waits r1]. cbn [fst snd].
  set (rw := run_from (if waits then ops else []) r1).
  match goal with |- context [?x] => match x with (if waits then _ else _) r1 =>
    replace x with (if waits then match kick_wait a with SenderDropped => Err KickReply | _ => Ok tt end else Ok tt : result EntryError unit, rw)
      by by destruct waits end end.
  generalize (if waits then match kick_wait a with SenderDropped => Err KickReply | _ => Ok tt end else Ok tt : result EntryError unit).
  intros [[]|e]; [|by exists []; split; [left|]].

  pose proof (Hcons (OpKickRemove (co_clean co) id)) as Hrm. cbn [step] in Hrm.
  destruct (kick_remove (co_clean co) (co_clean co) id rw) as [offline r2] eqn:Hk.
  destruct (match offline with NotExist => _ | Exist _ => _ end) as [present info].
  destruct (fst (keep_alive proto_ver _ _ _)) as [k|e].
  2: { exists [OpKickRemove (co_clean co) id]. split; [by right; left|]. by rewrite Hrm, Hk. }
  unfold set. cbn [fst snd]. unfold and_then, bind.
  rewrite (send_first_run a id (new_session receive_max cfg retry expiry id ci)) by apply lookup_insert_eq. cbn zeta.
  set (o := out_inflight_new (max_inflight receive_max ci cfg) retry expiry).
  assert (forall t (r3 : Reg), r3 = set_peers <[client_id id := mkEntry (new_session receive_max cfg retry expiry id ci) t]>
      (set_peers <[client_id id := mkEntry (new_session receive_max cfg retry expiry id ci) (mkTx false [])]> r2) ->
    exists tail, (tail = [] \/ tail = [OpKickRemove (co_clean co) id]
      \/ exists o t, tail = OpKickRemove (co_clean co) id :: registers o t id) /\ r3 = run_from tail rw) as Hreg.
  { intros t r3 ->. exists (OpKickRemove (co_clean co) id :: registers o t id). split; [by right; right; eauto|].
    rewrite Hrm, Hk. cbn [snd]. rewrite registers_run. unfold set_peers. cbn. by rewrite insert_insert_eq. }
  destruct (auto_subscription a) as [[subs|err]|]; cbn [snd fst ret]; by eapply Hreg.
Qed.

End registry.

(** ** Witnesses *)

Module HandshakeExample.

#[local] Existing Instances InflightExample.Q_ops InflightExample.Q_laws SharedExample.strategy.

(** A listener that refuses a keep-alive time of zero. *)
Definition strict : ListenerConfig := mkListenerConfig false 0 65535 (keepalive_backoff a_config) 1000 (100, 10)%Z 16 7200 0 300 0.

Definition packet (k : Z) : Connect := mkConnect "c1" None None false k false.

Definition arrival (ok : bool) (k : Z) : Arrival := mkArrival false (Some (packet k)) "fresh" false ok 2 Answered None true.

Definition level (ci : ConnectInfo) : Z := match ci with ConnV3 _ _ _ => 4 | ConnV5 _ _ _ => 5 end.

Definition new_id (cid : ClientId) (user : option string) : Id := mkId 1 9 None None cid user 9.

Definition arrives (ok : bool) (k : Z) :=
  handshake_v3 (R := DefaultRouter) level (fun _ => None) false 64 100 strict 20 300 new_id (arrival ok k) (fun r => r).

Lemma new_id_client cid user : client_id (new_id cid user) = cid.
Proof. done. Qed.

(** Without the hooks' consent "c1" does not get in and its session stays; with
    it the session is the new one's. *)
Lemma handshake_guards_witness :
  snd (arrives false 60 SharedExample.executed) = SharedExample.executed
  /\ exists e, peers (snd (arrives true 60 SharedExample.executed)) !! "c1" = Some e /\ s_id (s e) = new_id "c1" None.
Proof.
  split.
  - pose proof (handshake_guards level (fun _ => None) false 64 100 strict 20 300 new_id (arrival false 60) (fun r => r)
      false SharedExample.executed new_id_client) as Hg. cbv iota in Hg. fold (arrives false 60) in Hg.
    assert (fst (arrives false 60 SharedExample.executed) = Err (RefusedByHook, AuthenticationFailed)) as Hres by (vm_compute; reflexivity).
    destruct (arrives false 60 SharedExample.executed) as [res r']. cbn [fst snd] in *. rewrite Hres in Hg. exact Hg.
  - pose proof (handshake_guards level (fun _ => None) false 64 100 strict 20 300 new_id (arrival true 60) (fun r => r)
      false SharedExample.executed new_id_client) as Hg. cbv iota in Hg. fold (arrives true 60) in Hg.
    assert (fst (arrives true 60 SharedExample.executed) = Ok (true, 90%Z)) as Hres by (vm_compute; reflexivity).
    destruct (arrives true 60 SharedExample.executed) as [res r']. cbn [fst snd] in *. rewrite Hres in Hg.
    destruct Hg as (co & [= <-] & _ & e & He & Hs). exists e. split; [exact He | exact Hs].
Defined.

Definition comes_back (ack : bool) (k : Z) :=
  let a := mkArrival false (Some (packet k)) "fresh" false true 2 Answered None ack in
  (try! accepted := enter level (fun _ => None) strict 20 300 a (fun r => r) (new_id "c1" None)
                      (ConnV3 (new_id "c1" None) None None) (packet k) in
   answer a (new_id "c1" None) accepted) SharedExample.executed.

(** With a keep-alive time of zero the session of "c1" is lost, and its
    subscription is still routed; with another one the new session has it to take
    over, unless the answer is not sent. *)
Lemma returning_client_witness :
  (peers (snd (comes_back true 0)) !! "c1" = None
   /\ Router.subscribed (router (snd (comes_back true 0))) "chat/+" "c1" = Some (SharedExample.c1 2, SharedExample.plain))
  /\ (sent ∘ tx <$> peers (snd (comes_back true 60)) !! "c1")
     = Some [SessionStateTransfer (to_offline_info SharedExample.c1_session) false]
  /\ (sent ∘ tx <$> peers (snd (comes_back false 60)) !! "c1") = Some [].
Proof.
  pose proof (fun ack k => returning_client level (fun _ => None) strict 20 300
    (mkArrival false (Some (packet k)) "fresh" false true 2 Answered None ack) (fun r => r) (new_id "c1" None)
    (ConnV3 (new_id "c1" None) None None) (packet k) (mkEntry SharedExample.c1_session (mkTx false [Kick (new_id "c1" None) false false]))
    SharedExample.executed
    eq_refl ltac:(by apply (bool_decide_unpack _); vm_compute) ltac:(discriminate) ltac:(vm_compute; reflexivity)) as Hr.
  unfold comes_back. split; [|split].
  - specialize (Hr true 0%Z). destruct (and_then _ _ _) as [res r']. destruct Hr as (Hrt & _ & Hk). cbn in Hk. destruct Hk as [_ Hp].
    cbn [snd]. rewrite Hp, Hrt. split; vm_compute; reflexivity.
  - specialize (Hr true 60%Z). destruct (and_then _ _ _) as [res r']. destruct Hr as (_ & _ & Hk). cbn in Hk. destruct Hk as [_ Hp].
    cbn [snd]. rewrite Hp. reflexivity.
  - specialize (Hr false 60%Z). destruct (and_then _ _ _) as [res r']. destruct Hr as (_ & _ & Hk). cbn in Hk. destruct Hk as [_ Hp].
    cbn [snd]. rewrite Hp. reflexivity.
Defined.

End HandshakeExample.
