(* ===== verification/Standalone.v ===== *)
(** * A node: sessions, registry and message store together

    The interface [Broker] of [Session], implemented for a node on its own by
    the registry of [Shared] (with its router) and by ciqadamq's message store
    ([src/src/msgstore.rs]), the way [message_load] of
    [src/vendor/rmqtt/src/shared.rs] and [extend.rs] connect them. The hooks, the
    client's connection and the queue of the session's own task stay behind an
    interface of their own. *)

From S2P Require Import Prelude Strs Topic Types Store Router Inflight Session Shared MsgStore.
Local Open Scope string_scope.
Local Open Scope list_scope.

Section node.
Context {D T : Type} `{DequeMap D} `{SharedSubscription}.
Context (this_node : NodeId) (less_value : QoS -> QoS -> QoS).
Context (set_subscription_ids : list Z -> Publish -> Publish).

Record Node : Type := mkNode {
  n_time : TimestampMillis;
  n_registry : @Registry D DefaultRouter;
  n_store : MessageStore T
}.

Abbreviation Cids := (list (ClientId * option (TopicFilter * SharedGroup))).

Context (rest : Broker Node Cids).

Definition on_registry {A} (f : TimestampMillis -> M (@Registry D DefaultRouter) A) : M Node A := fun n =>
  let '(x, r) := f (n_time n) (n_registry n) in (x, mkNode (n_time n) r (n_store n)).

Definition entry_error (e : EntryError) : Error :=
  match e with
  | SessionNotExist => Other "session is not exist"
  | NodeException => Other "session node exception"
  | RouterError e => TopicErr e
  | LockHeld => Other "lock held"
  | KickReply => Other "recv kick result"
  | ClusterError e => Other e
  end.

Definition entry_result {A} (r : result EntryError A) : result Error A :=
  match r with Ok x => Ok x | Err e => Err (entry_error e) end.

Section client.
Context (id : Id).

(** [message_load] of a node without peers: what the store has for the client. *)
Definition message_load (tf : TopicFilter) : M Node (list (Z * MsgFrom * Publish)) := fun n =>
  let '(out, st) := MsgStore.get (n_time n) (client_id id) tf (n_store n) in (out, mkNode (n_time n) (n_registry n) st).

(** [tx.unbounded_send] of the session's task. *)
Definition own_tx (m : Message) : M Node bool :=
  let! res := on_registry (fun _ => send_to (client_id id) m) in ret (is_ok res).

Definition node_broker : Broker Node Cids := {|
  hook_message_publish := hook_message_publish; hook_check_publish := hook_check_publish;
  hook_message_dropped := hook_message_dropped; hook_nonsubscribed := hook_nonsubscribed;
  hook_acked := hook_acked; hook_expiry := hook_expiry; hook_delivered := hook_delivered;
  hook_subscribe := hook_subscribe; hook_check_subscribe := hook_check_subscribe;
  hook_subscribed := hook_subscribed; hook_unsubscribe := hook_unsubscribe;
  hook_unsubscribed := hook_unsubscribed; hook_offline_message := hook_offline_message;
  hook_terminated := hook_terminated;
  mgr_enable := ret true;
  mgr_next_msg_id := fun n => let '(i, st) := MsgStore.next_msg_id (n_store n) in (i, mkNode (n_time n) (n_registry n) st);
  mgr_store := fun i from p expiry _ n =>
    (Ok tt, mkNode (n_time n) (n_registry n) (MsgStore.store (n_time n) i from p expiry (n_store n)));
  retain_enable := retain_enable; retain_set := retain_set; retain_get := retain_get; delayed_send := delayed_send;
  shared_forwards := fun from p => on_registry (fun now => Shared.forwards this_node now less_value set_subscription_ids from p);
  shared_subscribe := fun sub =>
    let! res := on_registry (fun _ => Shared.subscribe this_node sub id) in ret (entry_result res);
  shared_unsubscribe := fun u =>
    let! res := on_registry (fun _ => Shared.unsubscribe u id) in ret (entry_result res);
  shared_message_load := fun tf _ => let! out := message_load tf in ret (Ok out);
  shared_publish := fun from p => on_registry (fun _ => Shared.publish from p id);
  shared_id_same := fun n => (id_same id (n_registry n), n);
  shared_remove := let! _ := on_registry (fun _ => Shared.remove_with id id) in ret (Ok tt);
  subscriptions_len := fun n =>
    (Ok match peers (n_registry n) !! client_id id with
        | Some e => Z.of_nat (size (s_subscriptions (s e)))
        | None => 0%Z
        end, n);
  Session.subscriptions_extend := fun subs =>
    on_registry (fun _ r => (Ok tt, Shared.subscriptions_extend (client_id id) subs r));
  Session.router_add := fun tf o =>
    let! res := on_registry (fun _ => Shared.router_add tf id o) in ret (entry_result res);
  tx_forward := fun from p => let! sent := own_tx (Forward from p) in ret (if sent : bool then Ok tt else Err (from, p));
  tx_rerelease := fun m =>
    let! sent := own_tx (SendRerelease m) in ret (if sent : bool then Ok tt else Err (Other "send failed"));
  queue_send := queue_send;
  now_millis := fun n => (n_time n, n);
  send_publish_ack := send_publish_ack; send_publish_received := send_publish_received;
  send_publish_complete := send_publish_complete; send_publish_release := send_publish_release;
  sink_publish := sink_publish
|}.

(** ** Lemmas: what a session does to the node *)

Abbreviation NRun := (@Run Node Cids D).
Abbreviation NAct A := (M NRun A).
#[local] Existing Instance node_broker | 0.

(** The hooks that a subscription and a takeover reach leave the node alone. *)
Record quiet_hooks : Prop := mkQuiet {
  quiet_dropped to from p why n : snd (@hook_message_dropped _ _ rest to from p why n) = n;
  quiet_subscribe sub n : snd (@hook_subscribe _ _ rest sub n) = n;
  quiet_check sub n : snd (@hook_check_subscribe _ _ rest sub n) = n;
  quiet_subscribed sub n : snd (@hook_subscribed _ _ rest sub n) = n;
  quiet_expiry from p n : snd (@hook_expiry _ _ rest from p n) = n;
  quiet_nonsubscribed from n : snd (@hook_nonsubscribed _ _ rest from n) = n
}.
Context (Hquiet : quiet_hooks).

(** Messages to the client's channel, and nothing else. *)
Definition sent_own (ms : list Message) (n n' : Node) : Prop :=
  n_time n' = n_time n /\ n_store n' = n_store n
  /\ forwarded_to (fun c => if String.eqb (client_id id) c then ms else []) (n_registry n) (n_registry n').

Lemma sent_own_nil n : sent_own [] n n.
Proof. split; [done|]. split; [done|]. apply forwarded_to_nil. intros c. by destruct (String.eqb _ c). Qed.

Lemma sent_own_trans ms ms' n n' n'' : sent_own ms n n' -> sent_own ms' n' n'' -> sent_own (ms ++ ms') n n''.
Proof.
  intros (Ht & Hs & Hf) (Ht' & Hs' & Hf'). split; [congruence|]. split; [congruence|].
  eapply (forwarded_to_trans _ _ _ _ _ _ Hf Hf'). intros c. cbv beta. by destruct (String.eqb (client_id id) c).
Qed.

Lemma world_ask {A} (m : M Node A) (r : NRun) : world (snd (ask m r)) = snd (m (world r)).
Proof. by rewrite ask_run. Qed.

Lemma world_perform {A} e (m : M Node A) (r : NRun) : world (snd (perform e m r)) = snd (m (world r)).
Proof. by rewrite perform_run. Qed.

Lemma publish_sends from p (r : @Registry D DefaultRouter) :
  forwarded_to (fun c => if String.eqb (client_id id) c then [Forward from p] else []) r (snd (Shared.publish from p id r)).
Proof.
  unfold Shared.publish. destruct (peers r !! client_id id) as [e|] eqn:He.
  - pose proof (send_to_spec (client_id id) (Forward from p) r) as Hs. destruct (send_to _ _ r) as [res r']. by destruct Hs.
  - split; [|done..]. intros c. cbn [snd]. destruct (String.eqb_spec (client_id id) c) as [<-|Hne]; [by rewrite He|].
    destruct (peers r !! c); [|done]. cbn. by rewrite receive_nil.
Qed.

Lemma enqueue_sends from p (r : NRun) :
  sent_own [Forward from p] (world r) (world (snd (enqueue (H := node_broker) id from p r))).
Proof.
  unfold enqueue. rewrite bind_run.
  assert (sent_own [Forward from p] (world r)
    (world (snd (perform (fun _ => EEnqueue from p) (@shared_publish _ _ node_broker from p) r)))) as Hp.
  { rewrite world_perform. cbn. unfold on_registry. pose proof (publish_sends from p (n_registry (world r))) as Hs.
    destruct (Shared.publish from p id _) as [res r']. by repeat split; destruct Hs. }
  destruct (fst (perform _ _ r)) as [u|[[f q] why]]; [done|]. unfold message_dropped. rewrite world_perform.
  cbn. by rewrite (quiet_dropped Hquiet).
Qed.

Definition stored_copy (q : QoS) (x : Z * MsgFrom * Publish) : Message :=
  Forward (snd (fst x)) (stored_publish less_value q (snd x)).

Lemma send_storaged_sends q ms (r : NRun) :
  sent_own (map (stored_copy q) ms) (world r)
    (world (snd (_send_storaged_messages (H := node_broker) less_value id q None ms r))).
Proof.
  revert r. induction ms as [|[[i from] p] ms IH]; intros r; [apply sent_own_nil|].
  cbn [_send_storaged_messages excluded]. rewrite bind_run. cbn [map].
  eapply (sent_own_trans [_]); [apply enqueue_sends | apply IH].
Qed.

(** The stored messages of a filter: taken from the store, then sent. *)
Definition replayed (tf : TopicFilter) (q : QoS) (n n' : Node) : Prop :=
  let '(out, st) := MsgStore.get (n_time n) (client_id id) tf (n_store n) in
  sent_own (map (stored_copy q) out) (mkNode (n_time n) (n_registry n) st) n'.

Lemma load_run tf group (n : Node) :
  @shared_message_load _ _ node_broker tf group n
  = (Ok (fst (MsgStore.get (n_time n) (client_id id) tf (n_store n))),
     mkNode (n_time n) (n_registry n) (snd (MsgStore.get (n_time n) (client_id id) tf (n_store n)))).
Proof. cbn. unfold bind, message_load. by destruct (MsgStore.get (n_time n) (client_id id) tf (n_store n)). Qed.

Lemma send_storaged_replays tf q group (r : NRun) :
  let '(res, r') := send_storaged_messages (H := node_broker) less_value id tf q group None r in
  res = Ok tt /\ replayed tf q (world r) (world r').
Proof.
  unfold send_storaged_messages, and_then, replayed. rewrite bind_run, ask_run, load_run. cbn [fst snd].
  rewrite bind_run. cbn [fst snd ret]. unfold after. rewrite load_run.
  destruct (MsgStore.get (n_time (world r)) (client_id id) tf (n_store (world r))) as [out st]. cbn [fst snd].
  split; [done|]. apply (send_storaged_sends q out (mkRun (mkNode (n_time (world r)) (n_registry (world r)) st) _ _ _ _)).
Qed.

Lemma replayed_world tf q n n' n'' : replayed tf q n n' -> n'' = n' -> replayed tf q n n''.
Proof. by intros Hr ->. Qed.

Lemma after_subscribe_replays sub ret_ q (r : NRun) :
  success ret_ = Some q ->
  let '(res, r') := after_subscribe (H := node_broker) ciqadamq_build less_value id sub ret_ r in
  res = Ok ret_ /\ replayed (topic_filter sub) q (world r) (world r').
Proof.
  intros Hq. unfold after_subscribe. rewrite Hq. unfold and_then, send_retained, storage_available. cbn [f_retain f_msgstore ciqadamq_build].
  rewrite bind_run. cbn [fst snd ret]. rewrite bind_run, ask_run. cbn [fst snd].
  unfold mgr_enable at 1. cbn [node_broker fst ret].
  rewrite bind_run. set (r1 := after _ _ r).
  assert (world r1 = world r) as Hr1 by done.
  pose proof (send_storaged_replays (topic_filter sub) q (shared_group (opts sub)) r1) as Hs.
  destruct (send_storaged_messages _ _ _ _ _ _ r1) as [res r2]. destruct Hs as [-> Hs]. cbn [fst snd].
  rewrite bind_run, perform_run. cbn [fst snd ret]. split; [done|]. rewrite <- Hr1. eapply replayed_world; [done|].
  cbn. apply (quiet_subscribed Hquiet).
Qed.

Lemma limits_world ms ml sub (r : NRun) :
  world (snd (check_subscribe_limits (H := node_broker) ms ml sub r)) = world r.
Proof.
  unfold check_subscribe_limits, and_then. rewrite bind_run.
  assert (world (snd ((if (ms >? 0)%Z
    then let! res := ask (@subscriptions_len _ _ node_broker) in
         match res with Ok n => ret (if (n >=? ms)%Z then Err TooManySubscriptions else Ok tt) | Err e => ret (Err e) end
    else ret (Ok tt)) r)) = world r) as Hw.
  { destruct (ms >? 0)%Z; [|done]. rewrite bind_run, ask_run. cbn [fst snd]. by destruct (fst _). }
  revert Hw. generalize ((if (ms >? 0)%Z
    then let! res := ask (@subscriptions_len _ _ node_broker) in
         match res with Ok n => ret (if (n >=? ms)%Z then Err TooManySubscriptions else Ok tt) | Err e => ret (Err e) end
    else ret (Ok tt)) r). intros [res r'] Hw. cbn [fst snd] in *. by destruct res.
Qed.

Lemma subscribe_granted sub (r reg : @Registry D DefaultRouter) ret_ :
  Shared.subscribe this_node sub id r = (Ok ret_, reg) -> success ret_ = Some (qos (opts sub)).
Proof.
  unfold Shared.subscribe. destruct (peers r !! client_id id) as [e|]; [|done]. destruct (negb _); [done|].
  unfold and_then, bind, ret. destruct (Shared.router_add _ _ _ r) as [[[]|e'] r1]; [|done].
  destruct (subscriptions_add _ _ _ r1) as [prev r2]. intros [= <- _]. by destruct (qos (opts sub)).
Qed.

(** The subscription itself, and what follows it. *)
Definition subscribe_step (sub : Subscribe) : NAct (result Error SubscribeReturn) :=
  try! sub_ret := perform (fun _ => ESubscribe sub) (@shared_subscribe _ _ node_broker sub) in
  after_subscribe (H := node_broker) ciqadamq_build less_value id sub sub_ret.

Definition registered (sub : Subscribe) (ret_ : SubscribeReturn) (q : QoS) (n n' : Node) : Prop :=
  exists reg, Shared.subscribe this_node sub id (n_registry n) = (Ok ret_, reg) /\ qos (opts sub) = q
  /\ replayed (topic_filter sub) q (mkNode (n_time n) reg (n_store n)) n'.

Lemma subscribe_step_replays sub (r : NRun) ret_ q :
  let '(res, r') := subscribe_step sub r in
  res = Ok ret_ -> success ret_ = Some q -> registered sub ret_ q (world r) (world r').
Proof.
  unfold subscribe_step, and_then. rewrite bind_run, perform_run. cbn [fst snd].
  set (r1 := after _ _ r).
  assert (forall res reg, Shared.subscribe this_node sub id (n_registry (world r)) = (res, reg) ->
    fst (@shared_subscribe _ _ node_broker sub (world r)) = entry_result res
    /\ world r1 = mkNode (n_time (world r)) reg (n_store (world r))) as Hrun.
  { intros res reg Hs. unfold r1, after. cbn. unfold bind, on_registry. by rewrite Hs. }
  destruct (Shared.subscribe this_node sub id (n_registry (world r))) as [res reg] eqn:Hs.
  destruct (Hrun res reg eq_refl) as [-> Hw]. destruct res as [ret'|e]; [|done]. cbn [entry_result].
  pose proof (subscribe_granted _ _ _ _ Hs) as Hg.
  pose proof (after_subscribe_replays sub ret' _ r1 Hg) as Ha.
  destruct (after_subscribe _ _ _ _ _ r1) as [res r']. destruct Ha as [-> Ha]. intros [= ->] Hq.
  exists reg. split; [done|]. rewrite Hg in Hq. injection Hq as <-. split; [done|]. by rewrite <- Hw.
Qed.

(** The client's entry [e] before, and the messages [out] that the store gives
    for the filter: the session subscribed, and the channel with their copies. *)
Record replayed_to (sub : Subscribe) (q : QoS) (e : EntryItem) (out : list (Z * MsgFrom * Publish)) (n n' : Node)
    : Prop := mkReplayedTo {
  rt_router tf cid : Router.subscribed (router (n_registry n')) tf cid
    = if decide (tf = topic_filter sub /\ cid = client_id id) then Some (id, set_qos q (opts sub))
      else Router.subscribed (router (n_registry n)) tf cid;
  rt_entry : peers (n_registry n) !! client_id id = Some e;
  rt_channel : peers (n_registry n') !! client_id id
    = Some (receive (map (stored_copy q) out)
        (mkEntry (with_subscriptions <[topic_filter sub := set_qos q (opts sub)]> (s e)) (tx e)));
  rt_others cid : cid <> client_id id -> peers (n_registry n') !! cid = peers (n_registry n) !! cid;
  rt_once : NoDup (map (fun x => fst (fst x)) out);
  rt_pending x : x ∈ out <-> pending (n_time n) (client_id id) (topic_filter sub)
    (evict (n_time n) (max_msgs (n_store n)) (max_bytes (n_store n)) (state (n_store n))) x;
  rt_given x : x ∈ out -> delivered (client_id id) (fst (fst x)) (state (n_store n'))
}.

(** The same filter and options but for the quality of service. *)
Definition same_request (s' sub : Subscribe) : Prop :=
  topic_filter s' = topic_filter sub /\ forall q, set_qos q (opts s') = set_qos q (opts sub).

Lemma same_request_qos q s' sub : same_request s' sub -> same_request (set_opts_qos q s') sub.
Proof. intros [Ht Ho]. split; [done|]. intros q'. rewrite <- Ho. cbn. by destruct (opts s'). Qed.

Lemma set_own_qos o : set_qos (qos o) o = o.
Proof. by destruct o as [[]|[]]. Qed.

Lemma registered_replays s' sub ret_ q n n' :
  same_request s' sub -> rwf (router (n_registry n)) -> wf (state (n_store n)) ->
  registered s' ret_ q n n' -> exists e out, replayed_to sub q e out n n'.
Proof.
  intros [Ht Ho] Hr Hwf (reg & Hsub & Hq & Hrep). specialize (Ho q). rewrite <- Hq, set_own_qos, Hq in Ho.
  unfold Shared.subscribe in Hsub. destruct (peers (n_registry n) !! client_id id) as [e|] eqn:He; [|done].
  destruct (negb _); [done|]. unfold and_then, bind, ret in Hsub.
  pose proof (router_add_spec (topic_filter s') id (opts s') (n_registry n) Hr) as Ha.
  destruct (Shared.router_add _ _ _ _) as [[[]|err] r1]; [|done]. destruct Ha as (_ & Hp & Hs).
  unfold subscriptions_add in Hsub. injection Hsub as _ <-. unfold replayed in Hrep.
  cbn [n_time n_store n_registry] in Hrep.
  destruct (evict_spec (n_time n) (max_msgs (n_store n)) (max_bytes (n_store n)) _ Hwf) as [Hwf' _].
  pose proof (fun x => get_mem_out (n_time n) (client_id id) (topic_filter s') _ x Hwf') as Hout.
  pose proof (fun x => get_mem_marks (n_time n) (client_id id) (topic_filter s')
    (evict (n_time n) (max_msgs (n_store n)) (max_bytes (n_store n)) (state (n_store n))) x) as Hmarks.
  destruct (MsgStore.get _ _ _ _) as [out st] eqn:Hg.
  assert (fst (MsgStore.get (n_time n) (client_id id) (topic_filter s') (n_store n)) = out) as Hgo by by rewrite Hg.
  assert (snd (MsgStore.get (n_time n) (client_id id) (topic_filter s') (n_store n)) = st) as Hgs by by rewrite Hg.
  destruct Hrep as (_ & Hst & Hf). cbn [n_registry n_store] in *. destruct Hf as [Hfp Hfr _].
  assert (forall c, peers (update_session (client_id id) (with_subscriptions <[topic_filter s':=opts s']>) r1) !! c
    = if decide (c = client_id id) then Some (mkEntry (with_subscriptions <[topic_filter sub:=set_qos q (opts sub)]> (s e)) (tx e))
      else peers (n_registry n) !! c) as Hup.
  { intros c. cbn. rewrite Hp, lookup_alter, Ht, Ho. destruct (decide (client_id id = c)) as [<-|Hc].
    - by rewrite (decide_True (P := client_id id = client_id id)), He by done.
    - by rewrite (decide_False (P := c = client_id id)) by congruence. }
  exists e, out. split.
  - intros tf cid. rewrite Hfr. cbn [router update_session set_peers]. rewrite Hs, Ht, Ho. cbn [is_ok]. clear. repeat case_decide; tauto.
  - done.
  - rewrite Hfp, Hup, decide_True by done. cbn [fmap option_fmap option_map]. by rewrite String.eqb_refl.
  - intros c Hc. rewrite Hfp, Hup, decide_False by done. rewrite (proj2 (String.eqb_neq _ _)) by done.
    destruct (peers _ !! c); [|done]. cbn. by rewrite receive_nil.
  - rewrite <- Hgo. by apply omap_fst_nodup, candidates_nodup.
  - rewrite <- Ht, <- Hgo. exact Hout.
  - rewrite Hst, <- Hgs, <- Hgo. exact Hmarks.
Qed.

(** *** Taking a session over *)

(** Up to channels and the store, the session's task leaves the registry [reg]. *)
Definition leaves {A} (m : NAct A) (f : @Registry D DefaultRouter -> @Registry D DefaultRouter) : Prop :=
  forall r, same_subscriptions (f (n_registry (world r))) (n_registry (world (snd (m r)))).

Lemma leaves_bind {A B} (m : NAct A) (k : A -> NAct B) f g :
  leaves m f -> (forall x, leaves (k x) g) ->
  (forall a b, same_subscriptions a b -> same_subscriptions (g a) (g b)) ->
  leaves (bind m k) (fun reg => g (f reg)).
Proof.
  intros Hm Hk Hg r. rewrite bind_run. etransitivity; [apply Hg, Hm | apply Hk].
Qed.

Lemma leaves_ret {A} (x : A) : leaves (ret x) (fun reg => reg).
Proof. done. Qed.

Lemma leaves_then {A B} (m : NAct A) (k : A -> NAct B) :
  leaves m (fun reg => reg) -> (forall x, leaves (k x) (fun reg => reg)) -> leaves (bind m k) (fun reg => reg).
Proof. intros Hm Hk. by apply (leaves_bind m k (fun reg => reg) (fun reg => reg)). Qed.

Lemma leaves_ask {A} (m : M Node A) f :
  (forall n, same_subscriptions (f (n_registry n)) (n_registry (snd (m n)))) -> leaves (ask m) f.
Proof. intros Hm r. rewrite world_ask. apply Hm. Qed.

Lemma leaves_perform {A} e (m : M Node A) f :
  (forall n, same_subscriptions (f (n_registry n)) (n_registry (snd (m n)))) -> leaves (perform e m) f.
Proof. intros Hm r. rewrite world_perform. apply Hm. Qed.

Lemma leaves_dropped to from p why : leaves (message_dropped (H := node_broker) to from p why) (fun reg => reg).
Proof. apply leaves_perform. intros n. cbn. by rewrite (quiet_dropped Hquiet). Qed.

Lemma own_tx_same m n : same_subscriptions (n_registry n) (n_registry (snd (own_tx m n))).
Proof.
  unfold own_tx, bind, on_registry, ret. pose proof (send_to_spec (client_id id) m (n_registry n)) as Hs.
  destruct (send_to _ _ _) as [res reg]. destruct Hs as [Hs _]. by eapply forwarded_to_same.
Qed.

Lemma leaves_forward from p : leaves (forward (H := node_broker) id from p) (fun reg => reg).
Proof.
  apply leaves_then.
  - apply leaves_perform. intros n. cbn. unfold bind. pose proof (own_tx_same (Forward from p) n) as Hs.
    by destruct (own_tx _ n).
  - intros [[]|[f q]]; [apply leaves_ret | apply leaves_dropped].
Qed.

Lemma leaves_reforward m : leaves (reforward (H := node_broker) id m) (fun reg => reg).
Proof.
  unfold reforward. destruct (moment m).
  1,2: by apply leaves_then; [apply leaves_forward | intros _; apply leaves_ret].
  apply leaves_then; [apply leaves_ask; intros n; cbn; by rewrite (quiet_expiry Hquiet)|].
  intros expiry. destruct (is_expiry expiry); [apply leaves_ret|]. apply leaves_ask. intros n. cbn. unfold bind.
  pose proof (own_tx_same (SendRerelease m) n) as Hs. by destruct (own_tx _ n).
Qed.

Lemma leaves_reforward_all ms : leaves (reforward_all (H := node_broker) id ms) (fun reg => reg).
Proof.
  induction ms as [|m ms IH]; [apply leaves_ret|]. cbn [reforward_all]. apply leaves_then; [|by intros _].
  destruct (moment m); [| |apply leaves_ret].
  1,2: by apply leaves_then; [apply leaves_reforward | intros _; apply leaves_ret].
Qed.

Lemma leaves_forward_all ms : leaves (forward_all (H := node_broker) id ms) (fun reg => reg).
Proof.
  induction ms as [|[from p] ms IH]; [apply leaves_ret|]. cbn [forward_all].
  apply leaves_then; [apply leaves_forward | by intros _].
Qed.

Lemma sent_own_same ms n n' : sent_own ms n n' -> same_subscriptions (n_registry n) (n_registry n').
Proof. intros (_ & _ & Hf). by eapply forwarded_to_same. Qed.

Lemma leaves_storaged tf q group :
  leaves (send_storaged_messages (H := node_broker) less_value id tf q group None) (fun reg => reg).
Proof.
  intros r. pose proof (send_storaged_replays tf q group r) as Hs.
  destruct (send_storaged_messages _ _ _ _ _ _ r) as [res r']. destruct Hs as [_ Hs]. unfold replayed in Hs.
  destruct (MsgStore.get _ _ _ _). by apply sent_own_same in Hs.
Qed.

Lemma router_add_same tf o (a b : @Registry D DefaultRouter) :
  same_subscriptions a b -> same_subscriptions (snd (Shared.router_add tf id o a)) (snd (Shared.router_add tf id o b)).
Proof.
  intros [Hr Hp]. unfold Shared.router_add. cbn [r_add default_router]. rewrite Hr. by destruct (Router.add tf id o (router a)).
Qed.

Lemma router_add_all_same subs (a b : @Registry D DefaultRouter) :
  same_subscriptions a b -> same_subscriptions (snd (router_add_all id subs a)) (snd (router_add_all id subs b)).
Proof.
  revert a b. induction subs as [|[tf o] subs IH]; intros a b Hab; [done|]. cbn [router_add_all]. unfold bind.
  pose proof (router_add_same tf o a b Hab) as Hs.
  destruct (Shared.router_add tf id o a), (Shared.router_add tf id o b). by apply IH.
Qed.

Lemma extend_same cid subs (a b : @Registry D DefaultRouter) :
  same_subscriptions a b ->
  same_subscriptions (Shared.subscriptions_extend cid subs a) (Shared.subscriptions_extend cid subs b).
Proof.
  intros [Hr Hp]. rewrite !subscriptions_extend_spec. split; [done|]. intros c. specialize (Hp c). cbn.
  rewrite !lookup_alter. case_decide as Hc; [subst|done].
  destruct (peers a !! c) as [ea|], (peers b !! c) as [eb|]; cbn in *; try done. by injection Hp as -> ->.
Qed.

Lemma leaves_transfer_subscriptions subs :
  leaves (transfer_subscriptions (H := node_broker) ciqadamq_build less_value id subs)
    (fun reg => snd (router_add_all id subs reg)).
Proof.
  induction subs as [|[tf o] subs IH]; [apply leaves_ret|]. cbn [transfer_subscriptions f_msgstore ciqadamq_build].
  intros r. assert (forall reg, snd (router_add_all id ((tf, o) :: subs) reg)
    = snd (router_add_all id subs (snd (Shared.router_add tf id o reg)))) as ->
    by (intros reg; cbn; unfold bind; by destruct (Shared.router_add tf id o reg)).
  revert r. apply (leaves_bind _ _ (fun reg => snd (Shared.router_add tf id o reg)) (fun reg => snd (router_add_all id subs reg))).
  - apply leaves_perform. intros n. cbn. unfold bind, on_registry, ret. by destruct (Shared.router_add tf id o _).
  - intros _. apply (leaves_bind _ _ (fun reg => reg) (fun reg => snd (router_add_all id subs reg)));
      [apply leaves_then; [apply leaves_storaged | intros _; apply leaves_ret] | by intros _ | apply router_add_all_same].
  - apply router_add_all_same.
Qed.

(** *** Publishing into the store *)

(** Computations that do not reach the store. *)
Definition off_store {A} (m : NAct A) : Prop :=
  forall r, n_time (world (snd (m r))) = n_time (world r) /\ n_store (world (snd (m r))) = n_store (world r).

Lemma off_store_ret {A} (x : A) : off_store (ret x).
Proof. done. Qed.

Lemma off_store_bind {A B} (m : NAct A) (k : A -> NAct B) :
  off_store m -> (forall x, off_store (k x)) -> off_store (bind m k).
Proof. intros Hm Hk r. rewrite bind_run. destruct (Hm r) as [<- <-]. apply Hk. Qed.

Lemma off_store_perform {A} e (m : M Node A) :
  (forall n, n_time (snd (m n)) = n_time n /\ n_store (snd (m n)) = n_store n) -> off_store (perform e m).
Proof. intros Hm r. rewrite world_perform. apply Hm. Qed.

Lemma off_store_drop_all errs : off_store (drop_all (H := node_broker) errs).
Proof.
  induction errs as [|[[[to from] p] why] errs IH]; [apply off_store_ret|]. cbn [drop_all].
  apply off_store_bind; [|done]. apply off_store_perform. intros n. cbn. by rewrite (quiet_dropped Hquiet).
Qed.

Lemma next_id_run (r : NRun) :
  bind (ask (@mgr_next_msg_id _ _ node_broker)) (fun i => ret (Some i)) r
  = (Some (fst (MsgStore.next_msg_id (n_store (world r)))),
     after (@mgr_next_msg_id _ _ node_broker) [] r).
Proof. rewrite bind_run, ask_run. cbn. by destruct (MsgStore.next_msg_id (n_store (world r))). Qed.

(** The message goes to the writer with a fresh id, whoever received it. *)
Lemma inner_forwards_stores from p e (r : NRun) :
  let st := n_store (world r) in
  n_store (world (snd (inner_forwards (H := node_broker) ciqadamq_build from p true (Some e) r)))
  = MsgStore.store (n_time (world r)) (fst (MsgStore.next_msg_id st)) from p e (snd (MsgStore.next_msg_id st)).
Proof.
  intros st. unfold inner_forwards. cbn [f_msgstore ciqadamq_build andb]. rewrite bind_run, next_id_run.
  set (r1 := after _ _ r). fold st.
  assert (n_time (world r1) = n_time (world r) /\ n_store (world r1) = snd (MsgStore.next_msg_id st)) as [<- <-]
    by (unfold r1, after; cbn; unfold st; by destruct (MsgStore.next_msg_id (n_store (world r)))).
  cbn [fst snd]. set (i := fst (MsgStore.next_msg_id st)). clearbody i. clearbody r1. clear r st.
  unfold and_then, set_retain. cbn [f_retain ciqadamq_build]. rewrite bind_run. cbn [fst snd ret].
  assert (forall (m : NAct (result (list (Id * MsgFrom * Publish * SessionReason)) (option Cids)))
      (k : result (list (Id * MsgFrom * Publish * SessionReason)) (option Cids) -> NAct (option Cids)) (r : NRun),
    off_store m -> (forall x, off_store (k x)) ->
    n_store (world (snd (bind m (fun res => bind (k res) (fun cids =>
      let! _ := perform (fun _ => EStore i from p e cids) (mgr_store i from p e cids) in ret (Ok (E := Error) tt))) r)))
    = MsgStore.store (n_time (world r)) i from p e (n_store (world r))) as Hgen.
  { intros m k r Hm Hk. rewrite bind_run. destruct (Hm r) as [<- <-]. generalize (snd (m r)). intros r2.
    rewrite bind_run. destruct (Hk (fst (m r)) r2) as [<- <-]. by rewrite bind_run, perform_run. }
  apply (Hgen _ (fun res => match res with
    | Ok None => let! _ := perform (fun _ => ENonsubscribed from) (hook_nonsubscribed from) in ret None
    | Ok (Some sub_cids) => ret (Some sub_cids)
    | Err errs => let! _ := drop_all errs in ret None
    end)).
  - apply off_store_perform. intros n. cbn. unfold on_registry. by destruct (Shared.forwards _ _ _ _ _ _ _).
  - intros [[cids|]|errs]; [apply off_store_ret| |].
    + apply off_store_bind; [|intros _; apply off_store_ret]. apply off_store_perform. intros n. cbn.
      by rewrite (quiet_nonsubscribed Hquiet).
    + apply off_store_bind; [apply off_store_drop_all | intros _; apply off_store_ret].
Qed.

(** ** Theorems *)

(** When a new session takes over the state of an old one, the registry and the
    router end with the old subscriptions under the new session's id, which is
    the step [transfer] of the executions of [Shared]; stored messages, the
    queue and the unacknowledged messages only go to the session's own channel. *)
Theorem transfer_is_transfer info (r : NRun) :
  same_subscriptions
    (snd (Shared.transfer info id (n_registry (world r))))
    (n_registry (world (snd (transfer_session_state (H := node_broker) ciqadamq_build less_value id false info r)))).
Proof.
  revert r. unfold transfer_session_state, Shared.transfer. cbn [snd].
  apply (leaves_bind _ _ (fun reg => snd (router_add_all id (off_subscriptions info) reg))
           (Shared.subscriptions_extend (client_id id) (off_subscriptions info)));
    [apply leaves_transfer_subscriptions | | apply extend_same].
  intros _. apply (leaves_bind _ _ _ (fun reg => reg));
    [apply leaves_ask; intros n; done | | done].
  intros [[]|e]; [|apply leaves_ret]. apply leaves_then; [apply leaves_reforward_all|]. intros _.
  apply leaves_then; [apply leaves_forward_all | intros _; apply leaves_ret].
Qed.

(** C13: a client's subscription that succeeds, with plugins that leave the node
    and the filter as they are. The session and the router have it afterwards,
    with the options that were asked for at the granted quality of service, and
    the router and the other clients are otherwise as they were. The client's
    channel gets the stored messages, as far as it is open: exactly those that
    the store keeps, of topics the filter matches, not expired and not given to
    the client from the store before, each once; they are marked as
    given. Whether the client received a message when it was published does not
    matter. *)
Theorem subscription_replays max_subscriptions max_topic_levels max_qos sub (r : NRun) ret_ q :
  rwf (router (n_registry (world r))) -> wf (state (n_store (world r))) ->
  (forall s n, fst (@hook_subscribe _ _ rest s n) = None) ->
  let '(res, r') := _subscribe (H := node_broker) ciqadamq_build max_subscriptions max_topic_levels max_qos less_value id sub r in
  res = Ok ret_ -> success ret_ = Some q ->
  exists e out, replayed_to sub q e out (world r) (world r').
Proof.
  intros Hr Hwf Hname. unfold _subscribe. unfold and_then at 1. rewrite bind_run.
  pose proof (limits_world max_subscriptions max_topic_levels sub r) as Hl.
  destruct (check_subscribe_limits _ _ sub r) as [[[]|e] r1]; cbn [fst snd] in *; [|done]. rewrite <- Hl in *.
  set (s1 := set_opts_qos _ sub). rewrite bind_run, ask_run. cbn [fst snd].
  set (r2 := after _ _ r1). assert (world r2 = world r1) as Hw2 by apply (quiet_subscribe Hquiet).
  assert (fst (@hook_subscribe _ _ node_broker s1 (world r1)) = None) as -> by apply Hname.
  rewrite bind_run, perform_run. cbn [fst snd default]. set (s2 := mkSubscribe _ _).
  set (r3 := after _ _ r2). assert (world r3 = world r2) as Hw3 by apply (quiet_check Hquiet).
  rewrite Hw2 in Hw3. rewrite <- Hw3 in Hr, Hwf |- *.
  assert (forall s', same_request s' sub -> let '(res, r') := subscribe_step s' r3 in
    res = Ok ret_ -> success ret_ = Some q -> exists e out, replayed_to sub q e out (world r3) (world r')) as Hs.
  { intros s' Hreq. pose proof (subscribe_step_replays s' r3 ret_ q) as Hs. destruct (subscribe_step s' r3) as [res r'].
    intros -> Hq. by apply (registered_replays s' sub ret_ q _ _ Hreq Hr Hwf), Hs. }
  assert (same_request s2 sub) as Hs2 by by apply (same_request_qos _ sub sub).
  match goal with |- context [match ?x with Some _ => _ | None => _ end] => destruct x as [ack|] end.
  - destruct (success ack) as [q'|] eqn:Hack.
    + apply (Hs (set_opts_qos (less_value (qos (opts s2)) q') s2)). by apply same_request_qos.
    + cbn. intros [= ->]. by rewrite Hack.
  - by apply (Hs s2).
Qed.

(** C12: a message published with an expiry is kept for everyone. Once the writer
    has taken it, and as long as it is neither expired nor evicted, the store
    has it for every client and every filter that matches its topic, also for
    a client that received it when it was published; so by the previous
    theorem such a client gets it again with its next subscription. *)
Theorem published_is_kept from p e (r : NRun) t1 t2 cid tf :
  let st := n_store (world r) in
  let i := fst (MsgStore.next_msg_id st) in
  let st2 := writer_step t1
    (n_store (world (snd (inner_forwards (H := node_broker) ciqadamq_build from p true (Some e) r)))) in
  channel st = [] -> wf (state st) -> msgs (state st) !! i = None ->
  (total_size (msgs (state st)) + approx_size (mkMsg from p (i64_sat_add (n_time (world r)) (as_i64 e)) ∅) <= usize_max)%Z ->
  (t2 < i64_sat_add (n_time (world r)) (as_i64 e))%Z ->
  msgs (evict t2 (max_msgs st2) (max_bytes st2) (state st2)) !! i <> None ->
  topic_matches (topic p) tf = true ->
  (i, from, p) ∈ fst (MsgStore.get t2 cid tf st2).
Proof.
  intros st i st2 Hch Hwf Hnone Hfit Ht Hkept Hm. unfold st2 in *. rewrite inner_forwards_stores in *.
  by apply stored_kept.
Qed.

End client.
End node.

(** ** Witnesses *)

Module StandaloneExample.

#[local] Existing Instances InflightExample.Q_ops InflightExample.Q_laws SharedExample.strategy.

Abbreviation ANode := (@Node InflightExample.Q (gmap Z Bytes)).

Definition hooks : Broker ANode (list (ClientId * option (TopicFilter * SharedGroup))) := SessionExample.sample_broker None.

Lemma hooks_quiet : quiet_hooks hooks.
Proof. by split. Qed.

(** The client "c1" with its subscription to "chat/+", an empty store. *)
Definition the_node : ANode := mkNode 1000 SharedExample.executed StoreExample.opened.

Definition start (n : ANode) : @Run ANode (list (ClientId * option (TopicFilter * SharedGroup))) InflightExample.Q :=
  mkRun n (in_new 16) (out_inflight_new 16 20 0) None [].

(** A message to "chat/x", for which "c1" is subscribed. *)
Definition publish_it :=
  inner_forwards (H := node_broker 1 SharedExample.less SharedExample.same_ids hooks SharedExample.c2) ciqadamq_build
    SharedExample.publisher SharedExample.hello true (Some 60000%Z) (start the_node).

Definition channel_of (n : ANode) (cid : ClientId) : list Message :=
  match peers (n_registry n) !! cid with Some e => sent (tx e) | None => [] end.

Definition after_publish : ANode := world (snd publish_it).

Definition after_write : ANode :=
  mkNode 2000 (n_registry after_publish) (writer_step 1500 (n_store after_publish)).

Lemma published_is_kept_witness :
  (0x1000000000000%Z, SharedExample.publisher, SharedExample.hello)
    ∈ fst (MsgStore.get 2000 "c1" "chat/+" (n_store after_write)).
Proof.
  assert (fst (MsgStore.next_msg_id (n_store (world (start the_node)))) = 0x1000000000000%Z) as <- by (vm_compute; reflexivity).
  unfold after_write. cbn [n_store]. unfold after_publish, publish_it.
  apply (published_is_kept 1 SharedExample.less SharedExample.same_ids hooks SharedExample.c2 hooks_quiet
    SharedExample.publisher SharedExample.hello 60000 (start the_node) 1500 2000 "c1" "chat/+").
  - reflexivity.
  - exact StoreExample.opened_wf.
  - reflexivity.
  - vm_compute. discriminate.
  - reflexivity.
  - vm_compute. discriminate.
  - reflexivity.
Defined.

(** "c1" subscribes again: it has the message twice. *)
Definition subscribe_again :=
  _subscribe (H := node_broker 1 SharedExample.less SharedExample.same_ids hooks (SharedExample.c1 2)) ciqadamq_build
    0 0 ExactlyOnce SharedExample.less (SharedExample.c1 2) (mkSubscribe "chat/+" SharedExample.plain)
    (start after_write).

Example received_twice : length (channel_of (world (snd subscribe_again)) "c1") = 2.
Proof. vm_compute. reflexivity. Qed.

Lemma again_granted : fst subscribe_again = Ok (new_success AtLeastOnce (Some SharedExample.plain)).
Proof. vm_compute. reflexivity. Qed.

Lemma after_write_router : rwf (router (n_registry (world (start after_write)))).
Proof.
  replace (router (n_registry (world (start after_write)))) with (router SharedExample.executed) by (vm_compute; reflexivity).
  apply (run_consistent 1 1000 SharedExample.less SharedExample.same_ids _ SharedExample.ops_ok).
Qed.

Lemma after_publish_state : state (n_store after_publish) = state StoreExample.opened.
Proof. vm_compute. reflexivity. Qed.

Lemma after_publish_wf : wf (state (n_store after_publish)).
Proof. rewrite after_publish_state. exact StoreExample.opened_wf. Qed.

Lemma after_publish_fits : op_fits (T := gmap Z Bytes) (OpWriter 1500) (n_store after_publish).
Proof. vm_compute. discriminate. Qed.

Lemma after_publish_same : op_same_topic (T := gmap Z Bytes) (OpWriter 1500) (n_store after_publish).
Proof.
  unfold op_same_topic. rewrite after_publish_state. destruct (channel _) as [|[key msg] rest]; [done|].
  intros old Hold. by vm_compute in Hold.
Qed.

#[local] Opaque after_publish.

Lemma after_write_wf : wf (state (n_store (world (start after_write)))).
Proof.
  pose proof (step_wf (T := gmap Z Bytes) StoreExample.no_encode (OpWriter 1500) (n_store after_publish)
    after_publish_wf after_publish_fits after_publish_same) as Hwf.
  unfold start, after_write. cbn [world n_store step] in *. exact Hwf.
Qed.

#[local] Opaque after_write.

Lemma let_pair {A B} (x : A * B) (P : A -> B -> Prop) : (let '(a, b) := x in P a b) -> P (fst x) (snd x).
Proof. by destruct x. Qed.

(** The stored message that the client has had already comes again. *)
Lemma subscription_replays_witness :
  exists e out, replayed_to (T := gmap Z Bytes) SharedExample.less (SharedExample.c1 2)
    (mkSubscribe "chat/+" SharedExample.plain) AtLeastOnce e out (world (start after_write)) (world (snd subscribe_again)).
Proof.
  apply (let_pair subscribe_again
    (fun res r' => res = Ok (new_success AtLeastOnce (Some SharedExample.plain)) ->
       success (new_success AtLeastOnce (Some SharedExample.plain)) = Some AtLeastOnce ->
       exists e out, replayed_to (T := gmap Z Bytes) SharedExample.less (SharedExample.c1 2)
         (mkSubscribe "chat/+" SharedExample.plain) AtLeastOnce e out (world (start after_write)) (world r'))).
  - apply (subscription_replays 1 SharedExample.less SharedExample.same_ids hooks (SharedExample.c1 2)
      hooks_quiet 0 0 ExactlyOnce (mkSubscribe "chat/+" SharedExample.plain) (start after_write)).
    + exact after_write_router.
    + exact after_write_wf.
    + reflexivity.
  - exact again_granted.
  - reflexivity.
Defined.

End StandaloneExample.
