(* ===== verification/Cluster.v ===== *)
(** * The sessions of a cluster: [vendor/rmqtt-cluster-raft/src/shared.rs],
      [handler.rs] and the [Router] of [router.rs]

    Every node has a registry of its own sessions and a replica of the router.
    The nodes share a log, which the raft library replicates: a subscription is
    made by a proposal to the log, an unsubscription by a task that proposes it
    later. A handshake locks the client through the log, kicks the session
    wherever it is and reports the new one to the log. A published message is
    routed by the publisher's replica; what is for other nodes is sent to them,
    and arrives later, or never.

    The raft library is modelled by what it promises: one log, of which every
    node applies a prefix, each with its own clock, and a leader that has
    applied all of it when it answers. A proposal can fail, with or without its
    message in the log. [GrpcClients] is the set of nodes a node can reach. *)

From S2P Require Import Prelude Strs Topic Trie Types Store Router.
From S2P Require ClusterRouter.
From S2P Require Import Inflight Session Shared.
Local Open Scope string_scope.
Local Open Scope list_scope.

Abbreviation RaftMessage := ClusterRouter.Message.
Abbreviation Replica := ClusterRouter.ClusterRouter.

(** What becomes of a proposal that is not answered. *)
Inductive Fate : Type := Accepted | Lost (committed : bool).

(** The group: the log, how much of it each node has applied, the node that
    answers, the proposals of running tasks, and the fates of the next ones. *)
Record Raft : Type := mkRaft {
  log : list RaftMessage;
  applied : gmap NodeId nat;
  leader : NodeId;
  tasks : list RaftMessage;
  fates : list Fate
}.

Definition with_tasks (f : list RaftMessage -> list RaftMessage) (g : Raft) : Raft :=
  mkRaft (log g) (applied g) (leader g) (f (tasks g)) (fates g).

Section raft.
Context `{ClusterRouter.Bincode} `{SharedSubscription}.
(** The clocks of the nodes when they apply the entries of the log, the
    settings, and how often a proposal that fails is tried again. *)
Context (clock : NodeId -> nat -> Z * Z) (try_lock_timeout : Z) (compression : option ClusterRouter.Compression).
Context (attempts : nat).

(** The router of a node: the prefix of the log it has applied. *)
Definition state_of (n : NodeId) (ms : list RaftMessage) : Replica :=
  ClusterRouter.apply_log (clock n) 0 ms (ClusterRouter.cluster_new try_lock_timeout compression).

Definition replica (n : NodeId) (g : Raft) : Replica :=
  state_of n (take (default 0 (applied g !! n)) (log g)).

(** A message enters the log and the leader applies what it has not yet. *)
Definition commit (m : RaftMessage) (g : Raft) : Raft :=
  mkRaft (log g ++ [m]) (<[leader g := S (length (log g))]> (applied g)) (leader g) (tasks g) (tail (fates g)).

Definition answer_of (m : RaftMessage) (g : Raft) : result ClusterRouter.RaftError Bytes :=
  let '(t_check, t_new) := clock (leader g) (length (log g)) in
  let? a := fst (ClusterRouter.apply_message t_check t_new m (state_of (leader g) (log g))) in
  ClusterRouter.answer_encode a.

(** [Mailbox::send_proposal] of an encoded message. *)
Definition send_proposal (m : RaftMessage) : M Raft (result string Bytes) := fun g =>
  match (let? b := ClusterRouter.ser_message m in ClusterRouter.de_message b) with
  | Err e => (Err e, g)
  | Ok m =>
      match head (fates g) with
      | Some (Lost committed) =>
          (Err "no answer", if committed then commit m g else mkRaft (log g) (applied g) (leader g) (tasks g) (tail (fates g)))
      | _ => (match answer_of m g with Ok b => Ok b | Err _ => Err "refused by the state machine" end, commit m g)
      end
  end.

(** [retry] of the backoff library: [n] more attempts after a failure. *)
Fixpoint retry (n : nat) (m : RaftMessage) : M Raft (result string unit) :=
  let! reply := send_proposal m in
  match reply, n with
  | Ok _, _ => ret (Ok tt)
  | Err e, O => ret (Err e)
  | Err _, S n' => retry n' m
  end.

Definition spawn (m : RaftMessage) (g : Raft) : Raft := with_tasks (fun l => l ++ [m]) g.

(** [Router for ClusterRouter], on node [n]. *)
Definition router_add (tf : TopicFilter) (id : Id) (o : SubscriptionOptions) : M Raft (result EntryError unit) :=
  let! res := retry attempts (ClusterRouter.Add tf id o) in
  ret match res with Ok _ => Ok tt | Err e => Err (ClusterError e) end.

Definition router_remove (tf : TopicFilter) (id : Id) : M Raft (result EntryError bool) := fun g =>
  match ClusterRouter.ser_message (ClusterRouter.Remove tf id) with
  | Err e => (Err (ClusterError e), g)
  | Ok _ => (Ok true, spawn (ClusterRouter.Remove tf id) g)
  end.

Definition cluster_router (n : NodeId) : RouterOps Raft := {|
  r_add := router_add;
  r_remove := router_remove;
  r_matches _ this_id t g :=
    _matches (fun node cid => ClusterRouter.is_online node cid (replica n g)) this_id t
      (ClusterRouter.inner (replica n g))
|}.

(** A task makes its proposal and is over. *)
Definition run_task (i : nat) (g : Raft) : Raft :=
  match tasks g !! i with
  | Some m => snd (retry attempts m (with_tasks (delete i) g))
  | None => g
  end.

(** A node applies more of the log. *)
Definition catch_up (n : NodeId) (k : nat) (g : Raft) : Raft :=
  mkRaft (log g) (<[n := default 0 (applied g !! n) + k]> (applied g)) (leader g) (tasks g) (fates g).

(** ** Lemmas: the log *)

Lemma replica_router n ms : ClusterRouter.inner (state_of n ms) = router_run (ClusterRouter.log_ops ms).
Proof. apply ClusterRouter.apply_log_inner. Qed.

Lemma replica_rwf n g : rwf (ClusterRouter.inner (replica n g)).
Proof. unfold replica. rewrite replica_router. apply router_run_spec. Qed.

Lemma replica_subscribed n ms tf cid :
  Router.subscribed (ClusterRouter.inner (state_of n ms)) tf cid = fold_left sub_step (ClusterRouter.log_ops ms) ∅ !! (tf, cid).
Proof. rewrite replica_router. apply router_run_spec. Qed.

(** The messages that leave a subscription as it is. Removing one names the
    session it was made by. *)
Definition keeps (tf : TopicFilter) (id : Id) (m : RaftMessage) : Prop :=
  match m with
  | ClusterRouter.Add tf' id' _ => ~ (tf' = tf /\ client_id id' = client_id id)
  | ClusterRouter.Remove tf' id' => ~ (tf' = tf /\ id' = id)
  | _ => True
  end.

Lemma keeps_subscribed (tf : TopicFilter) (id : Id) (o : SubscriptionOptions) (ms : list RaftMessage) (m : sub_map) :
  Forall (keeps tf id) ms -> m !! (tf, client_id id) = Some (id, o) ->
  fold_left sub_step (ClusterRouter.log_ops ms) m !! (tf, client_id id) = Some (id, o).
Proof.
  unfold ClusterRouter.log_ops. revert m. induction ms as [|msg ms IH]; intros m; [done|]. intros [Hk Hms]%Forall_cons Hm. cbn.
  destruct msg as [i|i|i|i|tf' id' o'|tf' id'|cid|]; cbn in *; try by apply IH.
  - apply IH; [done|]. case_match; [|done]. rewrite lookup_insert_ne; [done|]. intros [= -> Hc]. by destruct Hk.
  - apply IH; [done|]. destruct (m !! (tf', client_id id')) as [[sid o1]|] eqn:He; [|done].
    case_decide as Hs; [|done]. rewrite Hs in He. rewrite lookup_delete_ne; [done|]. intros [= -> Hc].
    rewrite Hc, Hm in He. injection He as -> _. by destruct Hk.
Qed.

Lemma added_subscribed (tf : TopicFilter) (id : Id) (o : SubscriptionOptions) (k : nat) (m : sub_map) :
  is_ok (from_str tf) = true ->
  fold_left sub_step (ClusterRouter.log_ops (replicate (S k) (ClusterRouter.Add tf id o))) m !! (tf, client_id id) = Some (id, o).
Proof.
  intros Hok. unfold ClusterRouter.log_ops. revert m. induction k as [|k IH]; intros m; cbn -[replicate].
  - cbn. rewrite Hok. by rewrite lookup_insert_eq.
  - change (replicate (S (S k)) ?x) with (x :: replicate (S k) x). cbn -[replicate]. apply IH.
Qed.

Section answers.
Context `{!ClusterRouter.BincodeLaws}.

Lemma decoded m : (let? b := ClusterRouter.ser_message m in ClusterRouter.de_message b) = Ok m.
Proof. destruct (ClusterRouter.message_inverse m) as (b & -> & Hb). done. Qed.

Lemma reply_encoded m :
  exists b, ClusterRouter.answer_encode (ClusterRouter.Reply m) = Ok b /\ b <> [] /\ ClusterRouter.de_reply b = Ok m.
Proof.
  destruct (ClusterRouter.reply_inverse m) as (b & Hb & Hd). exists b. cbn. rewrite Hb. split; [done|]. split; [|done].
  intros ->. by eapply ClusterRouter.reply_nonempty.
Qed.

(** A proposal puts its message into the log at most once, and does when it is
    answered. *)
Lemma send_proposal_spec m g :
  let '(res, g') := send_proposal m g in
  exists k, log g' = log g ++ replicate k m /\ tasks g' = tasks g
  /\ match res with Ok b => k = 1 /\ answer_of m g = Ok b | Err _ => k <= 1 end.
Proof.
  unfold send_proposal. rewrite decoded.
  destruct (head (fates g)) as [[|[]]|]; (try destruct (answer_of m g) as [b|e] eqn:Ha);
    first [exists 1; repeat split; try done; lia | exists 0; cbn; rewrite app_nil_r; repeat split; lia].
Qed.

Lemma retry_spec n m g :
  let '(res, g') := retry n m g in
  exists k, log g' = log g ++ replicate k m /\ tasks g' = tasks g
  /\ (is_ok res = true -> exists k' g'', k = S k' /\ is_ok (answer_of m g'') = true).
Proof.
  revert g. induction n as [|n IH]; intros g; cbn [retry]; unfold bind, ret;
    pose proof (send_proposal_spec m g) as Hs; destruct (send_proposal m g) as [[b|e] g1];
    destruct Hs as (k & Hl & Ht & Hk).
  1,3: exists k; split; [done|]; split; [done|]; intros _; exists 0, g; destruct Hk as [-> ->]; done.
  - exists k. split; [done|]. split; done.
  - specialize (IH g1). destruct (retry n m g1) as [res g2]. destruct IH as (k2 & Hl2 & Ht2 & Hk2).
    exists (k + k2). rewrite Hl2, Hl, replicate_add, app_assoc. split; [done|]. split; [congruence|].
    intros Hok. destruct (Hk2 Hok) as (k' & g'' & -> & Ha). exists (k + k'), g''. split; [lia|done].
Qed.

Lemma commit_state m g n :
  state_of n (log (commit m g))
  = snd (ClusterRouter.apply_message (fst (clock n (length (log g)))) (snd (clock n (length (log g)))) m (state_of n (log g))).
Proof.
  unfold state_of, commit. cbn [log].
  assert (forall k ms r, ClusterRouter.apply_log (clock n) k (ms ++ [m]) r
    = snd (ClusterRouter.apply_message (fst (clock n (k + length ms))) (snd (clock n (k + length ms))) m
             (ClusterRouter.apply_log (clock n) k ms r))) as Hgen; [|apply (Hgen 0)].
  intros k ms. revert k. induction ms as [|m0 ms IH]; intros k r; cbn [app ClusterRouter.apply_log length].
  - by rewrite Nat.add_0_r.
  - rewrite IH. by rewrite <- Nat.add_succ_comm.
Qed.

(** While nothing fails, the leader answers. *)
Lemma proposal_answered m g b : fates g = [] -> answer_of m g = Ok b -> send_proposal m g = (Ok b, commit m g).
Proof. intros Hf Ha. unfold send_proposal. by rewrite decoded, Hf, Ha. Qed.

Lemma lock_answered id st g :
  fates g = [] -> ClusterRouter.client_states (state_of (leader g) (log g)) !! client_id id = Some st ->
  ClusterRouter.handshaking (fst (clock (leader g) (length (log g)))) try_lock_timeout st = false ->
  exists b, send_proposal (ClusterRouter.HandshakeTryLock id) g = (Ok b, commit (ClusterRouter.HandshakeTryLock id) g)
  /\ ClusterRouter.try_lock_reply b = Ok (Some (node_id (ClusterRouter.st_id st)))
  /\ exists st', ClusterRouter.client_states (state_of (leader g) (log (commit (ClusterRouter.HandshakeTryLock id) g))) !! client_id id
                 = Some st' /\ ClusterRouter.st_id st' = id.
Proof.
  intros Hf Hst Hh. rewrite commit_state. set (k := clock (leader g) (length (log g))) in *.
  assert (ClusterRouter.try_lock_timeout (state_of (leader g) (log g)) = try_lock_timeout) as Ht
    by (unfold state_of; by rewrite ClusterRouter.apply_log_timeout).
  assert (ClusterRouter.handshake_try_lock (fst k) (snd k) id (state_of (leader g) (log g))
    = (ClusterRouter.ReplyTryLock (Some (ClusterRouter.st_id st)),
       ClusterRouter.with_states <[client_id id := ClusterRouter.status_new (snd k) id false true]> (state_of (leader g) (log g)))) as Hl.
  { unfold ClusterRouter.handshake_try_lock. by rewrite Hst, Ht, Hh. }
  destruct (reply_encoded (ClusterRouter.ReplyTryLock (Some (ClusterRouter.st_id st)))) as (b & Hb & Hne & Hd).
  exists b. split; [|split].
  - apply proposal_answered; [done|]. unfold answer_of. fold k. destruct k as [t1 t2]. cbn -[ClusterRouter.answer_encode] in *.
    by rewrite Hl.
  - unfold ClusterRouter.try_lock_reply. by rewrite decide_False, Hd by done.
  - eexists. cbn -[ClusterRouter.handshake_try_lock]. rewrite Hl. cbn. by rewrite lookup_insert_eq.
Qed.

Lemma connected_answered id st g :
  fates g = [] -> ClusterRouter.client_states (state_of (leader g) (log g)) !! client_id id = Some st -> ClusterRouter.st_id st = id ->
  send_proposal (ClusterRouter.Connected id) g = (Ok [], commit (ClusterRouter.Connected id) g)
  /\ exists st', ClusterRouter.client_states (state_of (leader g) (log (commit (ClusterRouter.Connected id) g))) !! client_id id = Some st'
     /\ ClusterRouter.st_id st' = id /\ ClusterRouter.st_online st' = true /\ ClusterRouter.st_handshaking st' = false.
Proof.
  intros Hf Hst Hid. rewrite commit_state. set (k := clock (leader g) (length (log g))).
  assert (ClusterRouter.connected (snd k) id (state_of (leader g) (log g))
    = (None, ClusterRouter.with_states <[client_id id := ClusterRouter.mkStatus id true false (ClusterRouter.handshak_duration st)]>
               (state_of (leader g) (log g)))) as Hc.
  { unfold ClusterRouter.connected. rewrite Hst, Hid. by rewrite Id_eq_spec, bool_decide_eq_true_2. }
  split.
  - apply proposal_answered; [done|]. unfold answer_of. fold k. destruct k as [t1 t2]. cbn -[ClusterRouter.connected] in *.
    by rewrite Hc.
  - eexists. cbn -[ClusterRouter.connected]. rewrite Hc. cbn. by rewrite lookup_insert_eq.
Qed.

Lemma add_answer tf id o g : is_ok (answer_of (ClusterRouter.Add tf id o) g) = true -> is_ok (from_str tf) = true.
Proof.
  unfold answer_of. destruct (clock _ _) as [t1 t2]. cbn. unfold Router.add. by destruct (from_str tf).
Qed.

Lemma router_add_log tf id o g :
  let '(res, g') := router_add tf id o g in
  is_ok res = true -> exists k, log g' = log g ++ replicate (S k) (ClusterRouter.Add tf id o) /\ is_ok (from_str tf) = true.
Proof.
  unfold router_add, bind, ret. pose proof (retry_spec attempts (ClusterRouter.Add tf id o) g) as Hr.
  destruct (retry _ _ g) as [res g']. destruct Hr as (k & Hl & _ & Hk). destruct res as [[]|e]; [|done]. intros _.
  destruct (Hk eq_refl) as (k' & g'' & -> & Ha). exists k'. split; [done|]. by eapply add_answer.
Qed.

End answers.
End raft.

(** ** The cluster *)

(** A message on its way to another node, [GrpcMessage::ForwardsTo]. *)
Record Packet : Type := mkPacket {
  pk_to : NodeId;
  pk_from : MsgFrom;
  pk_publish : Publish;
  pk_relations : list SubRelation
}.

(** How a call to another node ends: it does not get there, or it does, and
    its answer comes back or not. *)
Inductive Call : Type := Unsent | Handled (answered : bool).

Section cluster.
Context {D : Type} `{DequeMap D} `{ClusterRouter.Bincode} `{SharedSubscription}.
Context (clock : NodeId -> nat -> Z * Z) (try_lock_timeout : Z) (compression : option ClusterRouter.Compression).
Context (attempts : nat).
Context (grpc_clients : NodeId -> gset NodeId).
Context (now : TimestampMillis) (less_value : QoS -> QoS -> QoS).
Context (set_subscription_ids : list Z -> Publish -> Publish).

(** The nodes' registries, which share the group, the packets on their way and
    the copies that were reported dropped where they arrived. *)
Record Cluster : Type := mkCluster {
  raft : Raft;
  nodes : gmap NodeId (gset ClientId * gmap ClientId (@EntryItem D));
  network : list Packet;
  dropped : list (Id * MsgFrom * Publish * SessionReason)
}.

Definition registry_of (n : NodeId) (c : Cluster) : @Registry D Raft :=
  let '(locks, ps) := default (∅, ∅) (nodes c !! n) in mkRegistry locks ps (raft c).

(** A step of node [n]'s registry. *)
Definition at_node {A} (n : NodeId) (f : M (@Registry D Raft) A) : M Cluster A := fun c =>
  let '(x, r) := f (registry_of n c) in
  (x, mkCluster (router r) (<[n := (lockers r, peers r)]> (nodes c)) (network c) (dropped c)).

Definition on_raft {A} (f : M Raft A) : M Cluster A := fun c =>
  let '(x, g) := f (raft c) in (x, mkCluster g (nodes c) (network c) (dropped c)).

Definition with_network (f : list Packet -> list Packet) (c : Cluster) : Cluster :=
  mkCluster (raft c) (nodes c) (f (network c)) (dropped c).

Definition can_reach (n m : NodeId) : bool := bool_decide (m ∈ grpc_clients n).

(** The operations of [Shared] on node [n], over the replicated router. *)
Abbreviation ops n := (cluster_router clock try_lock_timeout compression attempts n).

(** ** [ClusterLockEntry] *)

(** [try_lock]: first the log, then the node's own lock; it returns the node
    of the session before, which the entry keeps. *)
Definition try_lock (n : NodeId) (id : Id) : M Cluster (result EntryError (option NodeId)) :=
  let! reply := on_raft (send_proposal clock try_lock_timeout compression (ClusterRouter.HandshakeTryLock id)) in
  match (let? b := reply in ClusterRouter.try_lock_reply b) with
  | Err e => ret (Err (ClusterError e))
  | Ok prev_node_id =>
      try! _ := at_node n (Shared.try_lock id) in
      ret (Ok prev_node_id)
  end.

Definition set (n : NodeId) (e : EntryItem) (id : Id) : M Cluster (result EntryError unit) :=
  let! reply := on_raft (send_proposal clock try_lock_timeout compression (ClusterRouter.Connected (s_id (s e)))) in
  match (let? b := reply in ClusterRouter.set_reply b) with
  | Err e => ret (Err (ClusterError e))
  | Ok _ => let! _ := at_node n (Shared.set e id) in ret (Ok tt)
  end.

(** [LockEntry::kick] on node [n]; [meanwhile] is what the cluster does while
    it waits. *)
Definition kick_at (n : NodeId) (wait : KickWait) (meanwhile : Cluster -> Cluster)
    (clean_start clear_subscriptions is_admin : bool) (id : Id) : M Cluster (result EntryError OfflineSession) :=
  let! waits := at_node n (kick_send clean_start is_admin id) in
  try! _ :=
    if waits then fun c => (match wait with SenderDropped => Err KickReply | _ => Ok tt end, meanwhile c)
    else ret (Ok tt) in
  let! offline := at_node n (kick_remove (H0 := ops n) clean_start clear_subscriptions id) in
  ret (Ok offline).

(** [get_client_node_id]: the group answers from [queried]'s replica. *)
Definition get_client_node_id (queried : NodeId) (cid : ClientId) (c : Cluster) : result string (option NodeId) :=
  let? b := ClusterRouter.ser_message (ClusterRouter.GetClientNodeId cid) in
  match ClusterRouter.query b (replica clock try_lock_timeout compression queried (raft c)) with
  | Ok reply => ClusterRouter.node_reply reply
  | Err _ => Err "query failed"
  end.

(** A session of another node is always kicked with its subscriptions; a call
    that fails counts as no session. *)
Definition kick (n : NodeId) (prev_node_id : option NodeId) (queried : NodeId) (call : Call) (wait : KickWait)
    (meanwhile : Cluster -> Cluster) (clean_start clear_subscriptions is_admin : bool) (id : Id)
    : M Cluster (result EntryError OfflineSession) := fun c =>
  match (if is_admin then get_client_node_id queried (client_id id) c else Ok None) with
  | Err e => (Err (ClusterError e), c)
  | Ok found =>
      let prev := ClusterRouter.kick_node id prev_node_id found is_admin in
      if (prev =? node_id id)%Z then kick_at n wait meanwhile clean_start clear_subscriptions is_admin id c
      else if can_reach n prev then
        match call with
        | Unsent => (Ok NotExist, c)
        | Handled answered =>
            let '(res, c) := kick_at prev wait meanwhile clean_start true is_admin id c in
            (match res with Ok o => if answered then Ok o else Ok NotExist | Err _ => Ok NotExist end, c)
        end
      else (Err (ClusterError "kick error, grpc_client is not exist"), c)
  end.

Definition online (n : NodeId) (id : Id) (c : Cluster) : bool :=
  ClusterRouter.is_online 0 (client_id id) (replica clock try_lock_timeout compression n (raft c)).

Definition subscriptions (n : NodeId) (call : Call) (id : Id) (c : Cluster) : option (list SubsSearchResult) :=
  match ClusterRouter.status (client_id id) (replica clock try_lock_timeout compression n (raft c)) with
  | None => None
  | Some st =>
      let m := node_id (ClusterRouter.st_id st) in
      if (m =? n)%Z then entry_subscriptions id (registry_of n c)
      else if can_reach n m then
        match call with
        | Handled true => entry_subscriptions (Id_from now m (client_id id)) (registry_of m c)
        | _ => None
        end
      else None
  end.

(** ** [ClusterShared] *)

Abbreviation Undelivered := (list (Id * MsgFrom * Publish * SessionReason)).
Abbreviation SubscriptionClientIds := (option (list (ClientId * option (TopicFilter * SharedGroup)))).

Definition forwards_to (n : NodeId) (from : MsgFrom) (p : Publish) (relations : list SubRelation)
    : M Cluster (result Undelivered unit) :=
  at_node n (Shared.forwards_to now less_value set_subscription_ids from p relations).

(** To another node, unless there is no client for it. *)
Definition send_packet (n : NodeId) (pk : Packet) (c : Cluster) : Cluster :=
  if can_reach n (pk_to pk) then with_network (fun l => l ++ [pk]) c else c.

Definition forward_to_target_client (n : NodeId) (from : MsgFrom) (p : Publish) (target : ClientId)
    : M Cluster (result Undelivered SubscriptionClientIds) := fun c =>
  let relations := [target_relation p target] in
  let target_node := default n (ClusterRouter._client_node_id target (replica clock try_lock_timeout compression n (raft c))) in
  (try! _ :=
     if (target_node =? n)%Z then forwards_to n from p relations
     else fun c => (Ok tt, send_packet n (mkPacket target_node from p relations) c) in
   ret (Ok (Some [(target, None)]))) c.

Definition routes_of (n : NodeId) (from : MsgFrom) (p : Publish) (c : Cluster) : gmap NodeId (list SubRelation) :=
  relations_of (H0 := ops n) from p (registry_of n c).

Definition packets (from : MsgFrom) (p : Publish) (routes : gmap NodeId (list SubRelation)) : list Packet :=
  map (fun x => mkPacket (fst x) from p (snd x)) (map_to_list routes).

Definition forward_to_subscriptions (n : NodeId) (from : MsgFrom) (p : Publish)
    : M Cluster (result Undelivered SubscriptionClientIds) := fun c =>
  let relations_map := routes_of n from p c in
  let sub_client_ids := _collect_subscription_client_ids relations_map in
  (let! errs :=
     match relations_map !! n with
     | Some relations => let! res := forwards_to n from p relations in ret (match res with Ok _ => [] | Err e => e end)
     | None => ret []
     end in
   let! _ := fun c => (tt, fold_left (fun c pk => send_packet n pk c) (packets from p (delete n relations_map)) c) in
   ret (match errs with [] => Ok sub_client_ids | _ => Err errs end)) c.

Definition forwards (n : NodeId) (from : MsgFrom) (p : Publish) : M Cluster (result Undelivered SubscriptionClientIds) :=
  match target_clientid p with
  | Some target => forward_to_target_client n from p target
  | None => forward_to_subscriptions n from p
  end.

(** ** [HookHandler] *)

(** [ForwardsTo] arrives. *)
Definition handle_forwards (pk : Packet) : M Cluster unit :=
  let! res := forwards_to (pk_to pk) (pk_from pk) (pk_publish pk) (pk_relations pk) in
  fun c => (tt, match res with
                | Ok _ => c
                | Err errs => mkCluster (raft c) (nodes c) (network c) (dropped c ++ errs)
                end).

(** The [i]-th packet is received, or lost. *)
Definition receive (i : nat) (c : Cluster) : Cluster :=
  match network c !! i with
  | Some pk => snd (handle_forwards pk (with_network (delete i) c))
  | None => c
  end.

Definition lose (i : nat) (c : Cluster) : Cluster := with_network (delete i) c.

(** What the end of a connection and of a session proposes. *)
Definition client_disconnected (id : Id) (why : SessionReason) (g : Raft) : Raft :=
  match why with
  | ConnectKicked false => g
  | _ => if is_ok (ClusterRouter.ser_message (ClusterRouter.Disconnected id)) then spawn (ClusterRouter.Disconnected id) g else g
  end.

Definition session_terminated (id : Id) (g : Raft) : Raft :=
  if is_ok (ClusterRouter.ser_message (ClusterRouter.SessionTerminated id)) then spawn (ClusterRouter.SessionTerminated id) g else g.

(** ** A client's subscription and its handshake *)

(** [Entry::subscribe] of a client's session on node [n]. *)
Definition subscribe (n : NodeId) (sub : Subscribe) (id : Id) : M Cluster (result EntryError SubscribeReturn) :=
  at_node n (Shared.subscribe (H0 := ops n) n sub id).

(** The calls of a handshake on its entry, in their order: the client is
    locked, its session kicked, the new session registered and the lock given
    up. The rest of it, with a keep-alive time that may be refused between the
    kick and the registration, is in [Handshake]. *)
Definition hand_over (n : NodeId) (call : Call) (wait : KickWait) (clean : bool) (e : EntryItem) (id : Id)
    : M Cluster (result EntryError OfflineSession) :=
  try! prev_node_id := try_lock n id in
  let! kicked :=
    try! offline := kick n prev_node_id n call wait (fun c => c) clean clean false id in
    try! _ := set n e id in
    ret (Ok offline) in
  let! _ := at_node n (Shared.drop id) in
  ret kicked.

(** ** Lemmas: nodes *)

Lemma at_node_here {A} n (f : M (@Registry D Raft) A) c :
  registry_of n (snd (at_node n f c)) = snd (f (registry_of n c)).
Proof.
  unfold at_node. destruct (f (registry_of n c)) as [x r] eqn:Hf. cbn. unfold registry_of. cbn.
  rewrite lookup_insert_eq. cbn. by destruct r.
Qed.

Lemma at_node_elsewhere {A} n m (f : M (@Registry D Raft) A) c :
  m <> n -> registry_of m (snd (at_node n f c))
            = mkRegistry (lockers (registry_of m c)) (peers (registry_of m c)) (router (snd (f (registry_of n c)))).
Proof.
  intros Hne. unfold at_node. destruct (f (registry_of n c)) as [x r] eqn:Hf. cbn. unfold registry_of. cbn.
  rewrite lookup_insert_ne by done. by destruct (default _ _).
Qed.

Lemma at_node_network {A} n (f : M (@Registry D Raft) A) c :
  network (snd (at_node n f c)) = network c /\ dropped (snd (at_node n f c)) = dropped c
  /\ raft (snd (at_node n f c)) = router (snd (f (registry_of n c))).
Proof. unfold at_node. by destruct (f (registry_of n c)). Qed.

Lemma at_node_result {A} n (f : M (@Registry D Raft) A) c : fst (at_node n f c) = fst (f (registry_of n c)).
Proof. unfold at_node. by destruct (f (registry_of n c)). Qed.

Lemma registry_router n c : router (registry_of n c) = raft c.
Proof. unfold registry_of. by destruct (default _ _). Qed.

(** ** Lemmas: forwarding *)

Lemma send_packets n pks c :
  fold_left (fun c pk => send_packet n pk c) pks c
  = with_network (fun l => l ++ List.filter (fun pk => can_reach n (pk_to pk)) pks) c.
Proof.
  revert c. induction pks as [|pk pks IH]; intros c; cbn.
  - unfold with_network. rewrite app_nil_r. by destruct c.
  - rewrite IH. unfold send_packet. destruct (can_reach n (pk_to pk)); [|done]. unfold with_network. cbn.
    by rewrite <- app_assoc.
Qed.

Lemma packets_elem from p (routes : gmap NodeId (list SubRelation)) m rels :
  routes !! m = Some rels -> mkPacket m from p rels ∈ packets from p routes.
Proof.
  intros Hr. unfold packets. apply (list_elem_of_fmap_2 (fun x => mkPacket (fst x) from p (snd x)) _ (m, rels)).
  by apply elem_of_map_to_list.
Qed.

(** What the publisher's node does for the subscriptions of another one. *)
Lemma forwards_sends n m from p rels c :
  target_clientid p = None -> m <> n -> can_reach n m = true -> routes_of n from p c !! m = Some rels ->
  mkPacket m from p rels ∈ network (snd (forwards n from p c)).
Proof.
  intros Htarget Hne Hreach Hr. unfold forwards. rewrite Htarget. unfold forward_to_subscriptions, bind at 1.
  match goal with |- context [match ?local c with (_, _) => _ end] => destruct (local c) as [errs c1] end.
  unfold bind, ret. rewrite send_packets. cbn. apply elem_of_app. right.
  apply list_elem_of_In, filter_In. split; [|done]. apply list_elem_of_In, packets_elem. by rewrite lookup_delete_ne.
Qed.

(** What the node it is for does with it. *)
Lemma receive_delivers i pk c :
  network c !! i = Some pk ->
  forwarded_to (Shared.copies less_value set_subscription_ids (pk_from pk) (pk_publish pk) (pk_relations pk))
    (registry_of (pk_to pk) c) (registry_of (pk_to pk) (receive i c)).
Proof.
  intros Hi. unfold receive. rewrite Hi. unfold handle_forwards, bind. set (c0 := with_network _ c).
  assert (registry_of (pk_to pk) c0 = registry_of (pk_to pk) c) as Hc0 by done.
  pose proof (forward_each_spec now less_value set_subscription_ids (pk_from pk) (pk_publish pk) (pk_relations pk)
    (registry_of (pk_to pk) c)) as Hf.
  unfold forwards_to, at_node, Shared.forwards_to, bind, ret. rewrite Hc0.
  destruct (forward_each _ _ _ _ _ _ _) as [errs r]. destruct Hf as [Hf _].
  destruct r as [lk ps g]. destruct errs; cbn; unfold registry_of; cbn; rewrite lookup_insert_eq; exact Hf.
Qed.

(** ** Lemmas: subscriptions *)

Section answers.
Context `{!ClusterRouter.BincodeLaws}.

Lemma subscribe_log n sub id c ret_ c1 :
  subscribe n sub id c = (Ok ret_, c1) ->
  exists k, log (raft c1) = log (raft c) ++ replicate (S k) (ClusterRouter.Add (topic_filter sub) id (opts sub))
            /\ is_ok (from_str (topic_filter sub)) = true.
Proof.
  unfold subscribe, at_node, Shared.subscribe. destruct (peers (registry_of n c) !! client_id id) as [e|]; [|done].
  destruct (negb _); [done|]. unfold and_then, bind, ret, Shared.router_add. cbn [r_add cluster_router].
  rewrite registry_router.
  pose proof (router_add_log clock try_lock_timeout compression attempts (topic_filter sub) id (opts sub) (raft c)) as Ha.
  destruct (router_add _ _ _ _ _ _ _ (raft c)) as [[[]|e1] g]; [|done]. destruct (Ha eq_refl) as (k & Hl & Hok).
  unfold subscriptions_add. cbn. intros [= _ <-]. cbn. by exists k.
Qed.

(** A node that has applied the log past a subscription has it, whatever else
    the log has, as long as nothing removes or replaces it. *)
Lemma subscription_replicated n a sub id c ret_ c1 ms g :
  subscribe n sub id c = (Ok ret_, c1) -> log g = log (raft c1) ++ ms -> Forall (keeps (topic_filter sub) id) ms ->
  length (log (raft c1)) <= default 0 (applied g !! a) ->
  Router.subscribed (ClusterRouter.inner (replica clock try_lock_timeout compression a g)) (topic_filter sub) (client_id id)
  = Some (id, opts sub).
Proof.
  intros Hs Hl Hk Ha. apply subscribe_log in Hs as (k & Hl1 & Hok). unfold replica. rewrite replica_subscribed, Hl.
  rewrite take_app_ge by done. unfold ClusterRouter.log_ops. rewrite omap_app, fold_left_app.
  apply (keeps_subscribed _ id (opts sub)); [by apply Forall_take|]. rewrite Hl1. rewrite omap_app, fold_left_app.
  by apply added_subscribed.
Qed.

(** ** Lemmas: handing a session over *)

Lemma unsubscribe_all_spawns n self_id id tfs (r : @Registry D Raft) :
  peers r !! client_id self_id = None ->
  snd (unsubscribe_all (H0 := ops n) self_id id tfs r)
  = mkRegistry (lockers r) (peers r)
      (with_tasks (fun l => l ++ map (fun tf => ClusterRouter.Remove tf id) tfs) (router r)).
Proof.
  revert r. induction tfs as [|tf tfs IH]; intros r Hn.
  - cbn. unfold with_tasks. rewrite app_nil_r. by destruct r as [? ? []].
  - cbn [unsubscribe_all]. unfold bind at 1, _unsubscribe, and_then, bind, ret, Shared.router_remove. cbn [r_remove cluster_router].
    unfold router_remove. destruct (ClusterRouter.message_inverse (ClusterRouter.Remove tf id)) as (b & -> & _).
    unfold subscriptions_remove. cbn [set_router peers router lockers].
    assert (update_session (client_id self_id) (with_subscriptions (delete tf))
      (set_router (spawn (ClusterRouter.Remove tf id) (router r)) r) = set_router (spawn (ClusterRouter.Remove tf id) (router r)) r) as ->.
    { unfold update_session, set_peers. rewrite alter_id; [done|]. intros e. cbn. by rewrite Hn. }
    rewrite IH by done. cbn. unfold spawn, with_tasks. cbn. by rewrite <- app_assoc.
Qed.

(** The tasks that remove a session's subscriptions. *)
Definition removals (s : SessionRef (D := D)) : list RaftMessage :=
  map (fun tf => ClusterRouter.Remove tf (s_id s)) (map fst (map_to_list (s_subscriptions s))).

Lemma kick_remove_hands_over n id e (r : @Registry D Raft) :
  peers r !! client_id id = Some e ->
  kick_remove (H0 := ops n) false true id r
  = (Exist (Some (to_offline_info (s e))),
     mkRegistry (lockers r) (delete (client_id id) (peers r)) (with_tasks (fun l => l ++ removals (s e)) (router r))).
Proof.
  intros He. unfold kick_remove, _remove, remove_if, bind, ret. rewrite He.
  pose proof (unsubscribe_all_spawns n id (s_id (s e)) (map fst (map_to_list (s_subscriptions (s e))))
    (set_peers (delete (client_id id)) r)) as Hu.
  destruct (unsubscribe_all _ _ _ _) as [[] r']. cbn [snd] in Hu. rewrite Hu by apply lookup_delete_eq. done.
Qed.

Lemma kick_at_hands_over b wait is_admin id c lk ps e :
  nodes c !! b = Some (lk, ps) -> ps !! client_id id = Some e -> wait <> SenderDropped ->
  kick_at b wait (fun c => c) false true is_admin id c
  = (Ok (Exist (Some (to_offline_info (s e)))),
     mkCluster (with_tasks (fun l => l ++ removals (s e)) (raft c)) (<[b := (lk, delete (client_id id) ps)]> (nodes c))
       (network c) (dropped c)).
Proof.
  intros Hb He Hw. unfold kick_at, and_then, bind at 1, at_node at 1, kick_send.
  assert (registry_of b c = mkRegistry lk ps (raft c)) as Hreg by (unfold registry_of; by rewrite Hb).
  rewrite Hreg. cbn [peers]. rewrite He. cbn [mbind option_bind]. unfold unbounded_send.
  assert (forall e0 (c0 : Cluster), s e0 = s e -> c0 = mkCluster (raft c) (<[b := (lk, <[client_id id := e0]> ps)]> (nodes c)) (network c) (dropped c) ->
    at_node b (kick_remove (H0 := ops b) false true id) c0
    = (Exist (Some (to_offline_info (s e))),
       mkCluster (with_tasks (fun l => l ++ removals (s e)) (raft c)) (<[b := (lk, delete (client_id id) ps)]> (nodes c))
       (network c) (dropped c))) as Hrem.
  { intros e0 c0 Hs ->. unfold at_node, registry_of. cbn. rewrite lookup_insert_eq. cbn.
    rewrite (kick_remove_hands_over b id e0) by (cbn; by rewrite lookup_insert_eq). cbn.
    by rewrite insert_insert_eq, delete_insert_eq, Hs. }
  destruct (tx_closed (tx e)); cbn -[kick_remove at_node]; unfold bind, ret; cbn -[kick_remove at_node].
  - rewrite (Hrem e); [done..|]. by rewrite (insert_id ps).
  - destruct wait; [| done |]; (rewrite (Hrem (mkEntry (s e) (mkTx false (sent (tx e) ++ [Kick id false is_admin])))); done).
Qed.

(** What a node that calls another one learns, and what the call leaves. *)
Definition learned (call : Call) (e : EntryItem) : OfflineSession :=
  match call with Handled true => Exist (Some (to_offline_info (s e))) | _ => NotExist end.

Definition after_call (call : Call) (b : NodeId) (cid : ClientId) (lk : gset ClientId) (ps : gmap ClientId EntryItem)
    (e : EntryItem) (c : Cluster) : Cluster :=
  match call with
  | Unsent => c
  | Handled _ =>
      mkCluster (with_tasks (fun l => l ++ removals (s e)) (raft c)) (<[b := (lk, delete cid ps)]> (nodes c))
        (network c) (dropped c)
  end.

Lemma kick_elsewhere n b call wait id c lk ps e :
  b <> node_id id -> can_reach n b = true -> nodes c !! b = Some (lk, ps) -> ps !! client_id id = Some e -> wait <> SenderDropped ->
  kick n (Some b) n call wait (fun c => c) false false false id c
  = (Ok (learned call e), after_call call b (client_id id) lk ps e c).
Proof.
  intros Hne Hreach Hb He Hw. unfold kick, ClusterRouter.kick_node. change (default (node_id id) (Some b)) with b.
  rewrite (proj2 (Z.eqb_neq b (node_id id)) Hne), Hreach. destruct call as [|answered]; [done|].
  rewrite (kick_at_hands_over b wait false id c lk ps e) by done. by destruct answered.
Qed.

Lemma registry_of_node n c : exists lk ps, registry_of n c = mkRegistry lk ps (raft c) /\ default (∅, ∅) (nodes c !! n) = (lk, ps).
Proof. unfold registry_of. destruct (default _ _) as [lk ps]. by exists lk, ps. Qed.

(** The leader's view of a client. *)
Definition leader_status (cid : ClientId) (g : Raft) : option ClusterRouter.ClientStatus :=
  ClusterRouter.client_states (state_of clock try_lock_timeout compression (leader g) (log g)) !! cid.

(** The group answers, and takes the client for one that may be locked. *)
Definition may_lock (cid : ClientId) (st : ClusterRouter.ClientStatus) (g : Raft) : Prop :=
  fates g = [] /\ leader_status cid g = Some st
  /\ ClusterRouter.handshaking (fst (clock (leader g) (length (log g)))) try_lock_timeout st = false.

Lemma try_lock_granted n id st c lk ps :
  may_lock (client_id id) st (raft c) -> default (∅, ∅) (nodes c !! n) = (lk, ps) -> client_id id ∉ lk ->
  try_lock n id c
  = (Ok (Some (node_id (ClusterRouter.st_id st))),
     mkCluster (commit (ClusterRouter.HandshakeTryLock id) (raft c)) (<[n := (lk ∪ {[client_id id]}, ps)]> (nodes c)) (network c) (dropped c)).
Proof.
  intros (Hf & Hst & Hh) Hn Hlk.
  destruct (lock_answered clock try_lock_timeout compression id st (raft c) Hf Hst Hh) as (b & Hb & Hr & _).
  unfold try_lock, bind at 1, on_raft. rewrite Hb. cbn [result_bind]. rewrite Hr.
  unfold and_then, bind, at_node, registry_of. cbn [nodes raft]. rewrite Hn. unfold Shared.try_lock. cbn [lockers].
  by rewrite bool_decide_eq_false_2.
Qed.

Lemma set_connects n e st c lk ps :
  fates (raft c) = [] -> leader_status (client_id (s_id (s e))) (raft c) = Some st -> ClusterRouter.st_id st = s_id (s e) ->
  default (∅, ∅) (nodes c !! n) = (lk, ps) ->
  set n e (s_id (s e)) c
  = (Ok tt, mkCluster (commit (ClusterRouter.Connected (s_id (s e))) (raft c))
              (<[n := (lk, <[client_id (s_id (s e)) := e]> ps)]> (nodes c)) (network c) (dropped c)).
Proof.
  intros Hf Hst Hid Hn.
  destruct (connected_answered clock try_lock_timeout compression (s_id (s e)) st (raft c) Hf Hst Hid) as (Hb & _).
  unfold set, bind at 1, on_raft. rewrite Hb. cbn [result_bind]. unfold ClusterRouter.set_reply. rewrite decide_True by done.
  unfold bind, at_node, registry_of. cbn [nodes raft]. by rewrite Hn.
Qed.

(** The end of a handshake, once the old session is kicked. *)
Definition registered (n : NodeId) (e : EntryItem) (id : Id) (offline : OfflineSession)
    : M Cluster (result EntryError OfflineSession) :=
  let! kicked := (try! _ := set n e id in ret (Ok offline)) in
  let! _ := at_node n (Shared.drop id) in
  ret kicked.

Lemma register_and_unlock n e st c la pa offline :
  fates (raft c) = [] -> leader_status (client_id (s_id (s e))) (raft c) = Some st -> ClusterRouter.st_id st = s_id (s e) ->
  client_id (s_id (s e)) ∉ la -> default (∅, ∅) (nodes c !! n) = (la ∪ {[client_id (s_id (s e))]}, pa) ->
  registered n e (s_id (s e)) offline c
  = (Ok offline, mkCluster (commit (ClusterRouter.Connected (s_id (s e))) (raft c))
      (<[n := (la, <[client_id (s_id (s e)) := e]> pa)]> (nodes c)) (network c) (dropped c)).
Proof.
  intros Hf Hst Hid Hla Hn. unfold registered, bind at 1, and_then, bind at 1.
  rewrite (set_connects n e st c (la ∪ {[client_id (s_id (s e))]}) pa) by done.
  unfold bind, ret, at_node, registry_of. cbn. rewrite lookup_insert_eq. cbn. by rewrite insert_insert_eq, unlocked.
Qed.

(** ** Theorems *)

(** C15: a client subscribes on node [b], outside shared groups, and no entry
    that the log gets from then on replaces this subscription or removes it under
    the session's own id; removals for earlier sessions of the same client may
    still come. (A removal under the session's own id can: an unsubscription
    spawns it, and it may be applied after the client has subscribed again.) A
    message that is not addressed to one client, matches, and is not the
    client's own under No Local, published on another node [a] that has applied
    the log so far and has a client for [b], is sent to [b]; and whenever it
    arrives there and the client's channel is open, the client gets it: at least
    one copy, each for a matching subscription of the client. *)
Theorem cross_node_delivery a b sub id c ret_ c1 ms c2 from p t :
  subscribe b sub id c = (Ok ret_, c1) ->
  log (raft c2) = log (raft c1) ++ ms -> Forall (keeps (topic_filter sub) id) ms ->
  length (log (raft c1)) <= default 0 (applied (raft c2) !! a) ->
  b <> a -> can_reach a b = true -> node_id id = b ->
  target_clientid p = None -> from_str (topic p) = Ok t -> has_wildcard (topic p) = false ->
  filter_matches (topic_filter sub) (topic p) -> shared_group (opts sub) = None ->
  ~ (no_local (opts sub) = Some true /\ id = from_id from) ->
  let routed := ClusterRouter.inner (replica clock try_lock_timeout compression a (raft c2)) in
  exists pk, pk ∈ network (snd (forwards a from p c2)) /\ pk_to pk = b
  /\ forall c3 i e, network c3 !! i = Some pk -> peers (registry_of b c3) !! client_id id = Some e ->
     exists copies, copies <> []
     /\ peers (registry_of b (receive i c3)) !! client_id id = Some (Shared.receive copies e)
     /\ forall m, m ∈ copies -> exists tf id' o ids,
          takes_part routed (from_id from) (topic p) tf (client_id id) id' o
          /\ m = Forward from (forward_copy less_value set_subscription_ids p o ids).
Proof.
  intros Hs Hl Hk Ha Hne Hreach Hid Htarget Ht Hw Hf Hg Hnl routed.
  pose proof (subscription_replicated b a sub id c ret_ c1 ms (raft c2) Hs Hl Hk Ha) as Hsub. fold routed in Hsub.
  assert (rwf routed) as Hwf by apply replica_rwf.
  destruct (matches_routed (fun node cid => ClusterRouter.is_online node cid (replica clock try_lock_timeout compression a (raft c2)))
    routed (from_id from) (topic p) t Hwf Ht Hw) as (routes & won & Hm & Hrouted & _).
  assert (routes_of a from p c2 = routes) as Hroutes.
  { unfold routes_of, relations_of, router_matches. cbn [r_matches cluster_router]. rewrite registry_router. fold routed. by rewrite Hm. }
  destruct (proj2 (Hrouted b (client_id id))) as (rels & [[[[tf' x] o'] ids] g] & Hr & Hin & Hx).
  { left. by exists (topic_filter sub), id, (opts sub). }
  cbn in Hx. subst x. exists (mkPacket b from p rels). split; [|split; [done|]].
  { apply forwards_sends; [done..|]. by rewrite Hroutes. }
  intros c3 i e Hi He. exists (Shared.copies less_value set_subscription_ids from p rels (client_id id)).
  split; [|split].
  - intros Hnil. eapply not_elem_of_nil. rewrite <- Hnil. apply copies_elem. by exists tf', o', ids, g.
  - destruct (receive_delivers i _ c3 Hi) as [Hp _ _]. cbn [pk_to pk_from pk_publish pk_relations] in Hp. by rewrite Hp, He.
  - intros m (tf & o & ids' & g' & Hin' & ->)%copies_elem.
    destruct (matches_sound _ _ _ _ _ _ b rels _ Hwf Ht Hw Hm Hr Hin') as (id' & Htp & _). by exists tf, id', o, ids'.
Qed.


End answers.

End cluster.

(** ** Witnesses *)

Module ClusterNodesExample.

#[local] Existing Instances InflightExample.Q_ops InflightExample.Q_laws SharedExample.strategy
  ClusterRouter.ClusterExample.toy_bincode ClusterRouter.ClusterExample.toy_laws.

Definition clock (n : NodeId) (k : nat) : Z * Z := (Z.of_nat k, Z.of_nat k).
Definition clients (n : NodeId) : gset NodeId := {[1; 2; 3]}%Z ∖ {[n]}.

Definition sensor (n t : Z) : Id := mkId n 0 None None "sensor" None t.
Definition sensor_session (n t : Z) (subs : gmap TopicFilter SubscriptionOptions) : EntryItem :=
  mkEntry (mkSession (sensor n t) subs true [] SharedExample.window) (mkTx false []).

(** A client with a session on node 2; node 1 leads and the log has its
    connection. *)
Definition start : Cluster (D := InflightExample.Q) :=
  mkCluster (mkRaft [ClusterRouter.Connected (sensor 2 5)] {[1%Z := 1]} 1 [] [])
    {[2%Z := (∅, {["sensor" := sensor_session 2 5 ∅]})]} [] [].

Definition sub : Subscribe := mkSubscribe "chat/+" SharedExample.plain.

Definition subscribed : Cluster := snd (subscribe clock 1000 None 3 2 sub (sensor 2 5) start).

(** An earlier session's subscription is removed meanwhile, and node 3 applies
    the log. *)
Definition later : Cluster :=
  snd (on_raft (fun g => (tt, catch_up 3 2 (snd (send_proposal clock 1000 None (ClusterRouter.Remove "chat/+" (sensor 1 1)) g)))) subscribed).

Definition publisher : MsgFrom := mkFrom (mkId 3 0 None None "publisher" None 7) FromCustom.

Definition published : Cluster :=
  snd (forwards clock 1000 None 3 clients 9 SharedExample.less SharedExample.same_ids 3 publisher SharedExample.hello later).

Lemma cross_node_delivery_witness :
  exists copies, copies <> []
  /\ peers (registry_of 2 (receive 9 SharedExample.less SharedExample.same_ids 0 published)) !! "sensor"
     = Some (Shared.receive copies (sensor_session 2 5 {["chat/+" := SharedExample.plain]})).
Proof.
  destruct (cross_node_delivery clock 1000 None 3 clients 9 SharedExample.less SharedExample.same_ids 3 2 sub (sensor 2 5)
    start (new_success AtLeastOnce None) subscribed [ClusterRouter.Remove "chat/+" (sensor 1 1)] later publisher SharedExample.hello
    [Normal "chat"; Normal "x"]) as (pk & Hin & _ & Hr).
  - vm_compute. reflexivity.
  - vm_compute. reflexivity.
  - repeat constructor. intros [_ Hid]. discriminate Hid.
  - vm_compute. lia.
  - discriminate.
  - vm_compute. reflexivity.
  - reflexivity.
  - reflexivity.
  - reflexivity.
  - reflexivity.
  - exists [Normal "chat"; SingleWildcard]. split; [reflexivity|]. split; [|reflexivity].
    vm_compute. apply (mm_level (Normal "chat")); [reflexivity|]. apply mm_single, mm_end.
  - reflexivity.
  - intros [Hn _]. discriminate Hn.
  - change (pk ∈ network published) in Hin.
    assert (network published !! 0 = Some pk) as Hpk.
    { assert (exists x, network published = [x]) as [x Hx] by (eexists; vm_compute; reflexivity).
      rewrite Hx in Hin |- *. apply list_elem_of_singleton in Hin as ->. reflexivity. }
    destruct (Hr published 0 (sensor_session 2 5 {["chat/+" := SharedExample.plain]}) Hpk) as (copies & Hne & Hp & _);
      [vm_compute; reflexivity|].
    exists copies. split; assumption.
Defined.

Definition waiting : ClusterRouter.ClientStatus := ClusterRouter.mkStatus (sensor 2 5) true false 0.


End ClusterNodesExample.
