(* ===== verification/Plugin.v ===== *)
(** * The cluster plugin: [vendor/rmqtt-cluster-raft/src/lib.rs] and the health
      of a cluster, [shared.rs]

    When a node starts it looks for the leader of the group it is to join. The
    node the settings name as leader leads only if it finds no other one. Then
    it waits for raft to be up, registers its hooks, watches its health and
    makes sure that a proposal comes through.

    What the raft library answers, one question after the other, is an
    argument; resolving addresses, the sleeps and the raft thread are left
    out. *)

From S2P Require Import Prelude Strs Types Store Router.
From S2P Require ClusterRouter.
Local Open Scope string_scope.
Local Open Scope list_scope.

(** ** Settings *)

Record NodeAddr : Type := mkNodeAddr { na_id : NodeId; na_addr : string }.

Record PluginConfig : Type := mkConfig {
  node_grpc_addrs : list NodeAddr;
  raft_peer_addrs : list NodeAddr;
  leader_id : NodeId;
  laddr : option string;
  exit_on_node_unavailable : bool;
  exit_code : Z;
  max_continuous_unavailable_count : nat
}.

Definition with_id (id : NodeId) (a : NodeAddr) : bool := (na_id a =? id)%Z.

Definition leader (cfg : PluginConfig) : result string (option NodeAddr) :=
  if (leader_id cfg =? 0)%Z then Ok None
  else match List.find (with_id (leader_id cfg)) (raft_peer_addrs cfg) with
       | Some a => Ok (Some a)
       | None => Err "Leader does not exist"
       end.

(** The clients for other nodes, and the names of all: [connects] is whether a
    client can be made. *)
Fixpoint grpc_clients_from (this_node : NodeId) (connects : NodeAddr -> bool) (addrs : list NodeAddr)
    (clients : gmap NodeId string) : result string (gmap NodeId string) :=
  match addrs with
  | [] => Ok clients
  | a :: addrs' =>
      if (na_id a =? this_node)%Z then grpc_clients_from this_node connects addrs' clients
      else if connects a then grpc_clients_from this_node connects addrs' (<[na_id a := na_addr a]> clients)
      else Err "grpc client"
  end.

Definition new_grpc_clients (this_node : NodeId) (connects : NodeAddr -> bool) (cfg : PluginConfig)
    : result string (gmap NodeId string) :=
  grpc_clients_from this_node connects (node_grpc_addrs cfg) ∅.

Definition raft_node_addr (this_node : NodeId) (cfg : PluginConfig) : result string string :=
  match List.find (with_id this_node) (raft_peer_addrs cfg) with
  | Some a => Ok (na_addr a)
  | None => Err "raft listening address does not exist"
  end.

(** Where raft listens. *)
Definition raft_laddr (this_node : NodeId) (cfg : PluginConfig) : result string string :=
  let? addr := raft_node_addr this_node cfg in
  Ok (match laddr cfg with Some l => l | None => addr end).

(** The nodes that are asked for the leader: the node itself is not. *)
Definition peer_addrs (this_node : NodeId) (cfg : PluginConfig) : list string :=
  map na_addr (List.filter (fun a => negb (with_id this_node a)) (raft_peer_addrs cfg)).

(** A node has no client for itself: a session it has itself is never kicked
    and never sent a message by a call. *)
Lemma no_client_for_itself this_node connects cfg clients :
  new_grpc_clients this_node connects cfg = Ok clients -> clients !! this_node = None.
Proof.
  unfold new_grpc_clients. generalize (node_grpc_addrs cfg). intros addrs.
  assert (forall m, m !! this_node = None -> grpc_clients_from this_node connects addrs m = Ok clients -> clients !! this_node = None)
    as Hgen; [|by apply Hgen].
  induction addrs as [|a addrs IH]; intros m Hm; cbn.
  - by intros [= <-].
  - destruct (Z.eqb_spec (na_id a) this_node); [by apply IH|]. destruct (connects a); [|done]. apply IH.
    by rewrite lookup_insert_ne.
Qed.

(** ** The search for a leader *)

Definition LeaderInfo : Type := NodeId * string.

Section search.
(** What the peers answer to the [k]-th question who leads; the state is the
    number of questions asked. *)
Context (find_leader_info : nat -> result string (option LeaderInfo)).

Definition ask : M nat (result string (option LeaderInfo)) := fun k => (find_leader_info k, S k).

Fixpoint find_actual_leader (rounds : nat) : M nat (result string (option LeaderInfo)) :=
  match rounds with
  | O => ret (Ok None)
  | S rounds' =>
      try! actual_leader_info := ask in
      match actual_leader_info with
      | Some l => ret (Ok (Some l))
      | None => find_actual_leader rounds'
      end
  end.

Section node.
Context (id : NodeId).

Definition is_other (l : option LeaderInfo) : bool :=
  match l with Some (lid, _) => negb (lid =? id)%Z | None => false end.

(** The loop of the node that is to lead, [left] rounds before it gives up. *)
Fixpoint wait_for_other (left : nat) (actual_leader_info : option LeaderInfo) : M nat (result string (option LeaderInfo)) :=
  if is_other actual_leader_info then ret (Ok actual_leader_info)
  else
    match left with
    | O => ret (Ok None)
    | S left' => try! l := find_actual_leader 1 in wait_for_other left' l
    end.

Definition max_rounds (l : option LeaderInfo) : nat := match l with Some _ => 120 | None => 10 end.

(** [leader_info] of [start_raft]: the leader to join, or none to lead. *)
Definition leader_info (cfg : PluginConfig) : M nat (result string (option LeaderInfo)) :=
  match leader cfg with
  | Err e => ret (Err e)
  | Ok (Some l) =>
      if (id =? na_id l)%Z then
        try! actual_leader_info := find_actual_leader 30 in
        wait_for_other (max_rounds actual_leader_info) actual_leader_info
      else
        try! actual_leader_info := find_actual_leader 60 in
        ret match actual_leader_info with Some l => Ok (Some l) | None => Err "Leader does not exist" end
  | Ok None => ask
  end.

(** [start_raft]: the address first, then the leader. *)
Definition start_raft (cfg : PluginConfig) : M nat (result string (string * option LeaderInfo)) :=
  match raft_laddr id cfg with
  | Err e => ret (Err e)
  | Ok addr => try! l := leader_info cfg in ret (Ok (addr, l))
  end.

(** ** Lemmas *)

(** From question [k] to question [k'] nobody named another node. *)
Definition no_other (k k' : nat) : Prop :=
  forall i, k <= i < k' -> exists l, find_leader_info i = Ok l /\ is_other l = false.

Lemma find_actual_leader_spec rounds k :
  let '(res, k') := find_actual_leader rounds k in
  k <= k' <= k + rounds
  /\ match res with
     | Ok (Some l) => exists i, k' = S i /\ k <= i /\ find_leader_info i = Ok (Some l) /\ (forall j, k <= j < i -> find_leader_info j = Ok None)
     | Ok None => k' = k + rounds /\ forall i, k <= i < k' -> find_leader_info i = Ok None
     | Err e => exists i, find_leader_info i = Err e
     end.
Proof.
  revert k. induction rounds as [|rounds IH]; intros k; cbn [find_actual_leader].
  - unfold ret. split; [lia|]. split; [lia|]. intros. lia.
  - unfold and_then, bind, ask, ret. destruct (find_leader_info k) as [[l|]|e] eqn:Hk.
    + split; [lia|]. exists k. repeat split; first [lia | done].
    + specialize (IH (S k)). destruct (find_actual_leader rounds (S k)) as [res k']. destruct IH as [Hb Hres].
      split; [lia|]. assert (forall j, k <= j -> ~ S k <= j -> find_leader_info j = Ok None) as Hfirst
        by (intros j ??; by assert (j = k) as -> by lia).
      destruct res as [[l|]|e]; [|split; [lia|]|done].
      * destruct Hres as (i & -> & Hi & Hl & Hj). exists i. split; [done|]. split; [lia|]. split; [done|].
        intros j Hkj. destruct (decide (S k <= j)); [apply Hj; lia | apply Hfirst; lia].
      * intros i Hi. destruct (decide (S k <= i)); [apply Hres; lia | apply Hfirst; lia].
    + split; [lia|]. by exists k.
Qed.

Lemma wait_for_other_spec left l k :
  let '(res, k') := wait_for_other left l k in
  k <= k' <= k + left
  /\ match res with
     | Ok (Some (lid, addr)) => lid <> id /\ (l = Some (lid, addr) \/ exists i, find_leader_info i = Ok (Some (lid, addr)))
     | Ok None => k' = k + left /\ is_other l = false /\ no_other k k'
     | Err e => exists i, find_leader_info i = Err e
     end.
Proof.
  revert l k. induction left as [|left IH]; intros l k; cbn [wait_for_other].
  - destruct (is_other l) eqn:Hl; unfold ret; (split; [lia|]).
    + destruct l as [[lid addr]|]; [|done]. cbn in Hl. apply negb_true_iff, Z.eqb_neq in Hl. split; [done|]. by left.
    + split; [lia|]. split; [done|]. intros i Hi. lia.
  - destruct (is_other l) eqn:Hl; [unfold ret|].
    { split; [lia|]. destruct l as [[lid addr]|]; [|done]. cbn in Hl. apply negb_true_iff, Z.eqb_neq in Hl. split; [done|]. by left. }
    unfold and_then, bind, ret. pose proof (find_actual_leader_spec 1 k) as Hf.
    destruct (find_actual_leader 1 k) as [[l1|e] k1]; [|by destruct Hf as [? ?]; split; [lia|]].
    specialize (IH l1 k1). destruct (wait_for_other left l1 k1) as [res k2]. destruct Hf as [Hb Hf], IH as [Hb2 IH].
    split; [lia|]. destruct res as [[[lid addr]|]|e]; [| |done].
    + destruct IH as [Hne Hor]. split; [done|]. right. destruct Hor as [->|Hor]; [|done].
      destruct Hf as (i & _ & _ & Hi & _). by exists i.
    + destruct IH as (-> & Hl1 & Hno). assert (k1 = S k) as ->.
      { destruct l1 as [l1|]; [destruct Hf as (i & -> & ? & _); lia | lia]. }
      split; [lia|]. split; [done|]. intros i Hi. destruct (decide (i = k)) as [->|]; [|apply Hno; lia].
      exists l1. split; [|done]. destruct l1 as [l1|].
      * destruct Hf as (i & [= ->] & _ & Hi2 & _). done.
      * apply Hf. lia.
Qed.

(** ** Theorems: the search *)

(** C17: the node the settings name as leader never joins itself: whatever the
    peers say, the leader it joins is another node, one of them named it, and
    it decides after at most 150 questions. It leads only when nobody named
    another node at all, in 40 questions or more; when a question fails, the
    start fails. *)
Theorem never_joins_itself cfg a :
  leader cfg = Ok (Some a) -> na_id a = id ->
  let '(res, k) := leader_info cfg 0 in
  k <= 150
  /\ match res with
     | Ok (Some (lid, addr)) => lid <> id /\ exists i, find_leader_info i = Ok (Some (lid, addr))
     | Ok None => no_other 0 k /\ 40 <= k
     | Err e => exists i, find_leader_info i = Err e
     end.
Proof.
  intros Hl Hid. unfold leader_info. rewrite Hl, Hid, Z.eqb_refl. unfold and_then, bind.
  pose proof (find_actual_leader_spec 30 0) as Hf. destruct (find_actual_leader 30 0) as [[l|e] k1].
  2: { destruct Hf as [? ?]. split; [lia | done]. }
  pose proof (wait_for_other_spec (max_rounds l) l k1) as Hw. destruct (wait_for_other (max_rounds l) l k1) as [res k2].
  destruct Hf as [Hb Hf], Hw as [Hb2 Hw]. split; [unfold max_rounds in *; destruct l; lia|].
  destruct res as [[[lid addr]|]|e]; [| |done].
  - destruct Hw as [Hne [->|Hor]]; [|done]. split; [done|]. destruct Hf as (i & _ & _ & Hi & _). by exists i.
  - destruct Hw as (-> & Ho & Hno). destruct l as [l|]; cbn [max_rounds] in *.
    + destruct Hf as (i & -> & _ & Hi & Hj). split; [|lia]. intros j Hj2. destruct (decide (S i <= j)); [apply Hno; lia|].
      destruct (decide (j = i)) as [->|]; [by exists (Some l)|]. exists None. split; [apply Hj; lia | done].
    + destruct Hf as (-> & Hj). split; [|lia]. intros j Hj2. destruct (decide (30 <= j)); [apply Hno; lia|].
      exists None. split; [apply Hj; lia | done].
Qed.

(** The other nodes take whoever the first answer names, and that may be the
    node itself. *)
Theorem others_join_anyone cfg a addr :
  leader cfg = Ok (Some a) -> na_id a <> id -> find_leader_info 0 = Ok (Some (id, addr)) ->
  leader_info cfg 0 = (Ok (Some (id, addr)), 1).
Proof.
  intros Hl Hid Hf. unfold leader_info. rewrite Hl, (proj2 (Z.eqb_neq id (na_id a))) by congruence.
  unfold and_then, bind. cbn [find_actual_leader]. unfold and_then, bind, ask. by rewrite Hf.
Qed.

End node.
End search.

(** ** Starting *)

(** What the raft library tells about itself. *)
Record RaftStatus : Type := mkRaftStatus {
  rs_id : NodeId;
  rs_started : bool;
  rs_available : bool;
  rs_leader_id : NodeId
}.

Inductive HookType : Type := ClientDisconnected | SessionTerminated | GrpcMessageReceived.

Inductive Step : Type :=
| SetRaftMailbox
| RegisterHook (t : HookType)
| StartCheckHealth
| InstallRouter
| InstallShared
| StartHooks.

(** The first of [n] answers, from the [k]-th on, that says raft has started. *)
Fixpoint wait_started (statuses : nat -> result string RaftStatus) (n k : nat) : bool :=
  match n with
  | O => false
  | S n' =>
      match statuses k with
      | Ok status => if rs_started status then true else wait_started statuses n' (S k)
      | Err _ => wait_started statuses n' (S k)
      end
  end.

Definition init (start_raft : result string unit) (statuses : nat -> result string RaftStatus)
    : M (list Step) (result string unit) :=
  match start_raft with
  | Err e => ret (Err e)
  | Ok _ =>
      if wait_started statuses 60 0 then
        let! _ := emit SetRaftMailbox in
        let! _ := emit (RegisterHook ClientDisconnected) in
        let! _ := emit (RegisterHook SessionTerminated) in
        let! _ := emit (RegisterHook GrpcMessageReceived) in
        let! _ := emit StartCheckHealth in
        ret (Ok tt)
      else ret (Err "init failed")
  end.

Section starting.
Context `{ClusterRouter.Bincode}.

(** The loop of pings: the answers to the proposals from the [k]-th on. *)
Fixpoint ping_loop (replies : nat -> result string Bytes) (n k : nat) : result string unit :=
  match n with
  | O => Err "Raft cluster status is unavailable"
  | S n' =>
      match replies k with
      | Ok reply =>
          match ClusterRouter.de_reply reply with
          | Err e => Err e
          | Ok ClusterRouter.ReplyPing => Ok tt
          | Ok _ => ping_loop replies n' (S k)
          end
      | Err _ => ping_loop replies n' (S k)
      end
  end.

Definition start (status : result string RaftStatus) (replies : nat -> result string Bytes)
    : M (list Step) (result string unit) :=
  let! _ := emit InstallRouter in
  let! _ := emit InstallShared in
  let! _ := emit StartHooks in
  match status with
  | Err e => ret (Err e)
  | Ok status =>
      if negb (rs_started status) then ret (Err "Raft cluster status is abnormal")
      else match ClusterRouter.ser_message ClusterRouter.Ping with
           | Err e => ret (Err e)
           | Ok _ => ret (ping_loop replies 100 0)
           end
  end.

(** A reply that does not end the pings. *)
Definition tries_again (r : result string Bytes) : Prop :=
  match r with
  | Ok b => exists m, ClusterRouter.de_reply b = Ok m /\ m <> ClusterRouter.ReplyPing
  | Err _ => True
  end.

Lemma ping_loop_ok replies n k :
  ping_loop replies n k = Ok tt
  <-> exists i b, k <= i < k + n /\ replies i = Ok b /\ ClusterRouter.de_reply b = Ok ClusterRouter.ReplyPing
      /\ forall j, k <= j < i -> tries_again (replies j).
Proof.
  revert k. induction n as [|n IH]; intros k; cbn [ping_loop].
  { split; [done|]. intros (i & b & Hi & _). lia. }
  assert (tries_again (replies k) -> ping_loop replies n (S k) = Ok tt
    <-> exists i b, k <= i < k + S n /\ replies i = Ok b /\ ClusterRouter.de_reply b = Ok ClusterRouter.ReplyPing
      /\ forall j, k <= j < i -> tries_again (replies j)) as Hgo.
  { intros Hk. rewrite IH. split; intros (i & b & Hi & Hb & Hd & Hj).
    - exists i, b. split; [lia|]. split; [done|]. split; [done|]. intros j Hkj.
      destruct (decide (j = k)) as [->|]; [done | apply Hj; lia].
    - exists i, b. destruct (decide (i = k)) as [->|].
      + unfold tries_again in Hk. rewrite Hb in Hk. destruct Hk as (m & Hm & Hne). congruence.
      + split; [lia|]. split; [done|]. split; [done|]. intros j Hkj. apply Hj. lia. }
  destruct (replies k) as [b|e] eqn:Hk; [|by apply Hgo].
  destruct (ClusterRouter.de_reply b) as [[e|p|]|e] eqn:Hd; [by apply Hgo; exists (ClusterRouter.ReplyError e) | by apply Hgo; exists (ClusterRouter.ReplyTryLock p)| |].
  - split; [|done]. intros _. exists k, b. split; [lia|]. split; [done|]. split; [done|]. intros. lia.
  - split; [done|]. intros (i & b' & Hi & Hb' & Hd' & Hj). exfalso. destruct (decide (i = k)) as [->|]; [congruence|].
    specialize (Hj k ltac:(lia)). unfold tries_again in Hj. rewrite Hk in Hj. destruct Hj as (m & Hm & _). congruence.
Qed.

(** By the time the plugin knows whether the cluster works, the server's router
    and sessions are the cluster's and its hooks run; it starts when raft is up
    and a ping comes back before anything that cannot be read, in a hundred
    tries. *)
Theorem start_spec status replies steps :
  (exists b, ClusterRouter.ser_message ClusterRouter.Ping = Ok b) ->
  let '(res, steps') := start status replies steps in
  steps' = steps ++ [InstallRouter; InstallShared; StartHooks]
  /\ (res = Ok tt <-> exists st i b, status = Ok st /\ rs_started st = true
        /\ i < 100 /\ replies i = Ok b /\ ClusterRouter.de_reply b = Ok ClusterRouter.ReplyPing
        /\ forall j, j < i -> tries_again (replies j)).
Proof.
  intros [b0 Hb0]. unfold start, emit, bind, ret. rewrite Hb0. destruct status as [st|e].
  2: { rewrite <- !app_assoc. split; [done|]. split; [done|]. by intros (? & ? & ? & ? & _). }
  destruct (rs_started st) eqn:Hst; cbn [negb]; rewrite <- !app_assoc; (split; [done|]).
  - rewrite ping_loop_ok. split.
    + intros (i & b & Hi & Hb & Hd & Hj). exists st, i, b. repeat split; try done; [lia|]. intros j Hji. apply Hj. lia.
    + intros (st' & i & b & _ & _ & Hi & Hb & Hd & Hj). exists i, b. split; [lia|]. split; [done|]. split; [done|].
      intros j Hji. apply Hj. lia.
  - split; [done|]. intros (st' & i & b & [= <-] & Hs & _). congruence.
Qed.

End starting.

(** ** Health *)

Record NodeHealthStatus : Type := mkHealth {
  h_node_id : NodeId;
  h_running : bool;
  h_leader_id : option NodeId;
  h_descr : option string
}.

Record HealthInfo : Type := mkHealthInfo {
  hi_running : bool;
  hi_descr : option string;
  hi_nodes : list NodeHealthStatus
}.

Definition health_status (status : result string RaftStatus) : result string NodeHealthStatus :=
  let? status := status in
  let '(running, leader) := if rs_available status then (true, rs_leader_id status) else (false, 0%Z) in
  Ok (mkHealth (rs_id status) running (Some leader) None).

(** What another node answers: data, which may not be readable, or an error. *)
Inductive Reply : Type :=
| DataReply (data : result string NodeHealthStatus)
| ErrorReply (err : string)
| OtherReply.

Definition add_leader (s : NodeHealthStatus) (leader_ids : gset NodeId) : gset NodeId :=
  match h_leader_id s with
  | Some l => if (0 <? l)%Z then leader_ids ∪ {[l]} else leader_ids
  | None => leader_ids
  end.

Fixpoint read_replys (replys : list (NodeId * result string Reply)) (leader_ids : gset NodeId)
    (infos : list NodeHealthStatus) : result string (gset NodeId * list NodeHealthStatus) :=
  match replys with
  | [] => Ok (leader_ids, infos)
  | (node, reply) :: replys' =>
      match reply with
      | Ok (DataReply data) =>
          let? o_status := data in
          read_replys replys' (add_leader o_status leader_ids) (infos ++ [o_status])
      | Ok (ErrorReply err) => read_replys replys' leader_ids (infos ++ [mkHealth node false None (Some err)])
      | Ok OtherReply => read_replys replys' leader_ids infos
      | Err e => read_replys replys' leader_ids (infos ++ [mkHealth node false None (Some e)])
      end
  end.

Definition check_health (own : result string RaftStatus) (replys : list (NodeId * result string Reply))
    : result string HealthInfo :=
  let? status := health_status own in
  let? x := read_replys replys (add_leader status ∅) [status] in
  let '(leader_ids, infos) := x in
  let '(running, descr) :=
    if negb (size leader_ids =? 1)%nat then (false, "Leader ID exception")
    else if bool_decide (head (elements leader_ids) = Some 0%Z) then (false, "Leader does not exist")
    else (true, "Ok") in
  Ok (mkHealthInfo running (Some descr) infos).

(** The leaders the statuses name. *)
Definition names (infos : list NodeHealthStatus) (l : NodeId) : Prop :=
  (0 < l)%Z /\ exists s, s ∈ infos /\ h_leader_id s = Some l.

Lemma add_leader_spec s leader_ids infos :
  (forall l, l ∈ leader_ids <-> names infos l) -> forall l, l ∈ add_leader s leader_ids <-> names (infos ++ [s]) l.
Proof.
  intros Hl l. assert (names (infos ++ [s]) l <-> names infos l \/ (0 < l)%Z /\ h_leader_id s = Some l) as ->.
  { unfold names. setoid_rewrite elem_of_app. setoid_rewrite list_elem_of_singleton. naive_solver. }
  rewrite <- Hl. unfold add_leader. destruct (h_leader_id s) as [l0|]; [|naive_solver].
  destruct (Z.ltb_spec 0 l0); [rewrite elem_of_union, elem_of_singleton|]; naive_solver lia.
Qed.

Lemma names_silent s infos l : h_leader_id s = None -> names (infos ++ [s]) l <-> names infos l.
Proof. intros Hs. unfold names. setoid_rewrite elem_of_app. setoid_rewrite list_elem_of_singleton. naive_solver. Qed.

Lemma read_replys_spec replys leader_ids infos leader_ids' infos' :
  (forall l, l ∈ leader_ids <-> names infos l) -> read_replys replys leader_ids infos = Ok (leader_ids', infos') ->
  forall l, l ∈ leader_ids' <-> names infos' l.
Proof.
  revert leader_ids infos. induction replys as [|[node [[[o|e]|err|]|e]] replys IH]; intros leader_ids infos Hl; cbn; try done.
  - by intros [= <- <-].
  - apply IH. by apply add_leader_spec.
  - apply IH. intros l. rewrite names_silent by done. apply Hl.
  - by apply IH.
  - apply IH. intros l. rewrite names_silent by done. apply Hl.
Qed.

(** The cluster counts as running exactly when the nodes that answered name one
    leader between them, whatever the state of those that did not answer; the
    description for a missing leader is never given. *)
Theorem check_health_spec own replys info :
  check_health own replys = Ok info ->
  (hi_running info = true <-> exists l, forall l', names (hi_nodes info) l' <-> l' = l)
  /\ hi_descr info = Some (if hi_running info then "Ok" else "Leader ID exception").
Proof.
  unfold check_health. destruct (health_status own) as [status|e]; [|done]. cbn [result_bind].
  destruct (read_replys replys (add_leader status ∅) [status]) as [[leader_ids infos]|e] eqn:Hr; [|done]. cbn [result_bind].
  pose proof (read_replys_spec replys (add_leader status ∅) [status] leader_ids infos) as Hs.
  assert (forall l, l ∈ leader_ids <-> names infos l) as Hl.
  { apply Hs; [|done]. apply (add_leader_spec status ∅ []). intros l. unfold names. set_solver. }
  clear Hs Hr. destruct (Nat.eqb_spec (size leader_ids) 1) as [H1|H1]; cbn [negb].
  - apply size_1_elem_of in H1 as [l Hll]. assert (leader_ids = {[l]}) as -> by (by apply leibniz_equiv).
    assert (l <> 0%Z) as Hl0 by (destruct (proj1 (Hl l) ltac:(by apply elem_of_singleton)); lia).
    rewrite elements_singleton, bool_decide_eq_false_2 by (cbn; congruence). intros [= <-]. cbn. split; [|done].
    split; [|done]. intros _. exists l. intros l'. rewrite <- Hl. apply elem_of_singleton.
  - intros [= <-]. cbn. split; [|done]. split; [done|]. intros [l Hn]. destruct H1.
    assert (leader_ids = {[l]}) as ->; [|apply size_singleton].
    apply leibniz_equiv. intros l'. rewrite Hl, Hn. by rewrite elem_of_singleton.
Qed.

(** ** Watching *)

(** The loop that exits the program after enough failures in a row; [count] is
    the number so far, and the result the code it exits with, if it does. *)
Fixpoint watch (cfg : PluginConfig) (count : nat) (statuses : list (result string RaftStatus)) : option Z :=
  match statuses with
  | [] => None
  | Err _ :: statuses' => watch cfg count statuses'
  | Ok s :: statuses' =>
      if rs_available s then watch cfg 0 statuses'
      else
        let count := S count in
        if exit_on_node_unavailable cfg && (max_continuous_unavailable_count cfg <=? count)%nat
        then Some (exit_code cfg)
        else watch cfg count statuses'
  end.

(** The failures since the last success; a status that cannot be read is
    neither. *)
Definition failures (count : nat) (statuses : list (result string RaftStatus)) : nat :=
  fold_left (fun n s => match s with Ok s => if rs_available s then 0 else S n | Err _ => n end) statuses count.

Lemma watch_exits cfg count statuses :
  is_Some (watch cfg count statuses)
  <-> exit_on_node_unavailable cfg = true
      /\ exists pre s post, statuses = pre ++ Ok s :: post /\ rs_available s = false
         /\ max_continuous_unavailable_count cfg <= S (failures count pre).
Proof.
  revert count. induction statuses as [|[s|e] statuses IH]; intros count; cbn [watch].
  - split; [by intros []|]. intros (_ & [|] & s & post & Heq & _); discriminate.
  - set (next := if rs_available s then 0 else S count).
    assert (forall pre s' post, Ok s :: statuses = pre ++ Ok s' :: post <->
      (pre = [] /\ s' = s /\ post = statuses) \/ exists pre', pre = Ok s :: pre' /\ statuses = pre' ++ Ok s' :: post) as Hsplit.
    { intros [|x pre] s' post; split; naive_solver. }
    setoid_rewrite Hsplit. destruct (rs_available s) eqn:Hs.
    + rewrite IH. split; intros (He & pre & s' & post & Heq & Hs' & Hm); (split; [done|]).
      * exists (Ok s :: pre), s', post. split; [right; by exists pre|]. split; [done|]. cbn. by rewrite Hs.
      * destruct Heq as [(-> & -> & ->)|(pre' & -> & Heq)]; [congruence|]. exists pre', s', post. split; [done|]. split; [done|].
        cbn in Hm. by rewrite Hs in Hm.
    + destruct (exit_on_node_unavailable cfg) eqn:He; cbn [andb]; [|rewrite IH; naive_solver].
      destruct (Nat.leb_spec (max_continuous_unavailable_count cfg) (S count)) as [Hle|Hgt].
      * split; [|by eexists]. intros _. split; [done|]. exists [], s, statuses. split; [by left|]. done.
      * rewrite IH. split; intros (_ & pre & s' & post & Heq & Hs' & Hm); (split; [done|]).
        -- exists (Ok s :: pre), s', post. split; [right; by exists pre|]. split; [done|]. cbn. by rewrite Hs.
        -- destruct Heq as [(-> & -> & ->)|(pre' & -> & Heq)]; [cbn in Hm; lia|]. exists pre', s', post. split; [done|].
           split; [done|]. cbn in Hm. by rewrite Hs in Hm.
  - rewrite IH. split; intros (He & pre & s' & post & Heq & Hs' & Hm); (split; [done|]).
    + exists (Err e :: pre), s', post. subst. done.
    + destruct pre as [|x pre]; [done|]. injection Heq as <- ->. exists pre, s', post. done.
Qed.

(** ** Witnesses *)

Module PluginExample.

Definition cfg : PluginConfig :=
  mkConfig [] [mkNodeAddr 1 "n1"; mkNodeAddr 2 "n2"] 1 None true 1 3.

(** The peers first name the node itself, then another one. *)
Definition peers_say (k : nat) : result string (option LeaderInfo) :=
  Ok (if (k <? 5)%nat then Some (1%Z, "n1") else Some (2%Z, "n2")).

Lemma never_joins_itself_witness :
  fst (leader_info peers_say 1 cfg 0) = Ok (Some (2%Z, "n2")) /\ 2%Z <> 1%Z.
Proof.
  pose proof (never_joins_itself peers_say 1 cfg (mkNodeAddr 1 "n1") eq_refl eq_refl) as Hn.
  assert (fst (leader_info peers_say 1 cfg 0) = Ok (Some (2%Z, "n2"))) as Hr by (vm_compute; reflexivity).
  destruct (leader_info peers_say 1 cfg 0) as [res k]. cbn [fst] in *. rewrite Hr in Hn.
  destruct Hn as [_ [Hne _]]. split; [exact Hr | exact Hne].
Defined.

Lemma others_join_anyone_witness : leader_info peers_say 1 (mkConfig [] [mkNodeAddr 2 "n2"] 2 None true 1 3) 0 = (Ok (Some (1%Z, "n1")), 1).
Proof. apply (others_join_anyone peers_say 1 _ (mkNodeAddr 2 "n2") "n1"); [reflexivity | discriminate | reflexivity]. Defined.

End PluginExample.
