(* ===== verification/Perf.v ===== *)
(** * The delivery load generator: [src/bin/perf.rs]

    For each number of subscribers of its settings the program runs a round:
    it connects the subscribers, publishes its messages from several
    publishers, waits until as many deliveries as it expects have arrived or
    nothing has for fifteen seconds, and reports rates and latency percentiles.

    A [Round] is what the outside does during one round: the connections, the
    instants of the clock readings, which publishes the client takes. The
    deliveries and latencies are those the receiving tasks see in their event
    loops. A publish happens at an instant, [wall] turns instants into the
    system clock's nanoseconds. *)

From Stdlib Require Import Ascii.
From stdpp Require Import sorting pretty.
From S2P Require Import Prelude Strs F64 Charts Config LoadGen.
Local Open Scope string_scope.
Local Open Scope list_scope.
Local Open Scope Z_scope.

Record Settings : Type := mkSettings {
  nodes : list (string * Z);
  api : string;
  token : string;
  sub_counts : list Z;
  messages : Z;
  devices_per_user : Z;
  payload_size : Z;
  publishers : Z;
  inflight : Z;
  channel_cap : Z;
  out : string
}.

Record RoundResult : Type := mkResult {
  rr_subscribers : Z;
  rr_users : Z;
  rr_published : Z;
  rr_expected : Z;
  rr_delivered : Z;
  duration_secs : f64;
  delivered_per_sec : f64;
  p50_ms : f64;
  p95_ms : f64;
  p99_ms : f64
}.

Definition load_settings (env : string -> option string) : result error Settings :=
  let? nodes := parse_nodes env in
  let? sub_counts :=
    parse_counts "PERF_SUBS must be integers" (env_or env "PERF_SUBS" "100,500,1000,2500,5000,10000") in
  let? messages := parse_int usize_max (env_or env "PERF_MSGS" "10000") in
  let? devices_per_user := parse_int usize_max (env_or env "PERF_DEVICES_PER_USER" "1") in
  let? payload_size := parse_int usize_max (env_or env "PERF_PAYLOAD" "256") in
  let? publishers := parse_int usize_max (env_or env "PERF_PUBLISHERS" "8") in
  let? inflight := parse_int u16_max (env_or env "PERF_INFLIGHT" "1000") in
  let? channel_cap := parse_int usize_max (env_or env "PERF_CHANNEL" "2000") in
  Ok (mkSettings nodes (env_or env "PERF_API" "http://127.0.0.1:8090") (env_or env "API_TOKEN" "change-me")
        sub_counts messages devices_per_user payload_size publishers inflight channel_cap
        (env_or env "PERF_OUT" "perf-results.svg")).

(** ** Payloads and latencies *)

Definition payload (nanos : Z) (padding : string) : string := (show_uint nanos ++ "|" ++ padding)%string.

(** The receiving task's latency for a payload received at [recv_ns]. *)
Definition latency (recv_ns : Z) (p : string) : option Z :=
  if utf8_valid p then
    s ← head (split_on "|" p);
    sent ← parse_uint usize_max s;
    Some (usize_sat_sub recv_ns sent)
  else None.

(** ** A round *)

Record Round : Type := mkRound {
  subscriber : Login -> string -> Peer; (* a subscriber's connections, by its topic *)
  publisher : Login -> Attempt;        (* a publisher's connection *)
  publish_at : Z -> Z;                 (* the instant message [seq] is built *)
  publish_ok : Z -> bool;              (* whether the client takes it *)
  start : Z;                           (* [Instant::now()] before publishing *)
  wait_start : Z;                      (* ... and before waiting *)
  wait_clock : nat -> nat -> Z;        (* reading [j] of round [k] of the wait *)
  duration_at : Z;                     (* [start.elapsed()] *)
  drain_at : Z;                        (* the latencies are taken *)
  count_at : Z                         (* the deliveries are read for the result *)
}.

Section round.
Context (wall : Z -> Z).
Context (s : Settings) (run_id : string) (rd : Round).

(** The number of the publishers. *)
Definition num_pubs : Z := Z.max 1 (publishers s).

(** [messages.div_ceil(num_pubs)]. *)
Definition per_publisher : Z :=
  messages s / num_pubs + (if messages s mod num_pubs =? 0 then 0 else 1).

(** The messages of publisher [p]: [begin..end]. *)
Definition share (p : Z) : list Z :=
  let begin_ := wrap_u64 (p * per_publisher) in
  let end_ := Z.min (wrap_u64 ((p + 1) * per_publisher)) (messages s) in
  map (Z.add begin_) (range (end_ - begin_)).

Definition message (users : Z) (padding : string) (seq : Z) : string * string :=
  (chat_topic (userid run_id (seq mod users)), payload (wall (publish_at rd seq)) padding).

(** A publisher's task: what it hands to the client, up to the first refusal;
    [None] when it panics ([seq % users] with no users), which ends the task
    only. *)
Fixpoint publish_loop (users : Z) (padding : string) (seqs : list Z) : option (list (string * string)) :=
  match seqs with
  | [] => Some []
  | seq :: seqs' =>
      if users =? 0 then None
      else if publish_ok rd seq then cons (message users padding seq) <$> publish_loop users padding seqs'
      else Some []
  end.

(** The messages all the publishers hand over. *)
Definition published (users : Z) (padding : string) : list (string * string) :=
  concat (map (fun p => default [] (publish_loop users padding (share p))) (range num_pubs)).

(** ** Waiting for the deliveries *)

Inductive WaitEnd : Type :=
| Complete
| Stalled (count : Z).

Definition stall : Z := secs 15.
Definition hard_limit : Z := secs 180.

(** The loop from round [k] on; in a round the clock is read when the counter
    is ([0]), when it has changed ([1]), for the stall ([2]) and for the
    deadline ([3]). *)
Fixpoint wait_loop (boxes : list EventLoop) (expected : Z) (fuel k : nat) (last_progress last_count : Z)
    : option (WaitEnd * nat) :=
  match fuel with
  | O => None
  | S fuel' =>
      let count := delivered_at (wait_clock rd k 0) boxes in
      if expected <=? count then Some (Complete, k)
      else
        let '(last_progress, last_count) :=
          if count =? last_count then (last_progress, last_count) else (wait_clock rd k 1, count) in
        if (stall <? wait_clock rd k 2 - last_progress) || (wait_start rd + hard_limit <? wait_clock rd k 3)
        then Some (Stalled count, k)
        else wait_loop boxes expected fuel' (S k) last_progress last_count
  end.

(** Rounds are at least 50 milliseconds apart, so that 3602 are enough. *)
Definition wait_fuel : nat := 3602.

Definition wait (boxes : list EventLoop) (expected : Z) : option (WaitEnd * nat) :=
  wait_loop boxes expected wait_fuel 0 (wait_start rd) 0.

(** ** Results *)

(** The latencies sent to the channel by instant [now], sorted. *)
Definition latencies_at (now : Z) (boxes : list EventLoop) : list Z :=
  merge_sort Z.le
    (omap (fun d => latency (wall (fst d)) (snd d))
       (filter (fun d => (fst d <= now)%Z) (concat (map receive boxes)))).

(** The index [pct] computes; the list is not empty. *)
Definition pct_index (len : Z) (p : f64) : Z := to_uint usize_max (mul (sub (of_Z len) f_one) p).

(** [pct]; [None]: the index is out of bounds. *)
Definition pct (latencies : list Z) (p : f64) : option f64 :=
  match latencies with
  | [] => Some f_zero
  | _ =>
      l ← latencies !! Z.to_nat (pct_index (Z.of_nat (length latencies)) p);
      Some (div (of_Z l) (of_Z 1000000))
  end.

Definition expected_deliveries : Z := wrap_u64 (messages s * devices_per_user s).

(** Subscriber [i]: its connection and its topic; [None]: an index out of
    bounds. *)
Definition plan (users i : Z) : option (Login * string) :=
  let user_idx := user_of (devices_per_user s) i in
  if user_idx <? users then
    node ← node_of (nodes s) i;
    Some (mkLogin node ("perf-" ++ run_id ++ "-" ++ show_uint i)%string (username run_id user_idx),
          chat_topic (userid run_id user_idx))
  else None.

(** Connects the subscribers; all of them are started, the first error in
    order counts. *)
Fixpoint connect_all (l : list (Login * string)) : Run (result Stop (list EventLoop)) :=
  match l with
  | [] => ret (Ok [])
  | (login, topic) :: l' =>
      let! r := connect_subscriber (login_id login) (subscriber rd login topic) in
      let! rs := connect_all l' in
      ret (let? el := r in let? els := rs in Ok (snd el :: els))
  end.

(** Connects a publisher. *)
Definition connect_publisher (a : Attempt) : result error (Z * EventLoop) :=
  poll_until
    (fun p => match p with
              | ConnAck (Some code) => Some (Err [("publisher rejected: " ++ code)%string])
              | ConnAck None => Some (Ok tt)
              | _ => None
              end)
    (fun e => [("publisher connect failed: " ++ e)%string])
    "publisher connack timeout" (started a + secs 30) (events a).

Definition publisher_plan (subscribers p : Z) : option Login :=
  node ← node_of (nodes s) p;
  Some (mkLogin node ("perf-pub-" ++ run_id ++ "-" ++ show_uint subscribers ++ "-" ++ show_uint p)%string
          ("tok-pub-" ++ run_id)%string).

(** The publishers connect one after the other. *)
Fixpoint connect_publishers (subscribers : Z) (ps : list Z) : result Stop unit :=
  match ps with
  | [] => Ok tt
  | p :: ps' =>
      match publisher_plan subscribers p with
      | None => Err (Panicked "attempt to calculate the remainder with a divisor of zero")
      | Some login =>
          let? _ := fail_on (connect_publisher (publisher rd login)) in connect_publishers subscribers ps'
      end
  end.

Definition round_result (subscribers users : Z) (boxes : list EventLoop) : result Stop RoundResult :=
  let latencies := latencies_at (drain_at rd) boxes in
  let delivered := delivered_at (count_at rd) boxes in
  let duration := as_secs_f64 (duration_at rd - start rd) in
  match pct latencies (lit 50 2), pct latencies (lit 95 2), pct latencies (lit 99 2) with
  | Some p50, Some p95, Some p99 =>
      Ok (mkResult subscribers users (messages s) expected_deliveries delivered duration
            (div (of_Z delivered) duration) p50 p95 p99)
  | _, _, _ => Err (Panicked "index out of bounds")
  end.

(** What follows once everyone is connected. *)
Definition measure (subscribers users : Z) (boxes : list EventLoop) : Run (result Stop RoundResult) :=
  let! _ := act (Sleep 500) in
  let! _ := act (Publishing (published users (repeat_char "x" (Z.to_nat (payload_size s))))) in
  let! _ :=
    match wait boxes expected_deliveries with
    | Some (Stalled count, _) =>
        act (Log ("round " ++ show_uint subscribers ++ ": stalled at " ++ show_uint count
                  ++ "/" ++ show_uint expected_deliveries ++ " delivered"))
    | _ => ret tt
    end in
  let! _ := act (Sleep 300) in
  ret (round_result subscribers users boxes).

Definition run_round (subscribers : Z) : Run (result Stop RoundResult) :=
  match ceil_div subscribers (devices_per_user s) with
  | None => ret (Err (Panicked "attempt to divide by zero"))
  | Some users =>
      match mapM (plan users) (range subscribers) with
      | None => ret (Err (Panicked "index out of bounds"))
      | Some l =>
          let! conns := connect_all l in
          match conns with
          | Err e => ret (Err e)
          | Ok boxes =>
              match connect_publishers subscribers (range num_pubs) with
              | Err e => ret (Err e)
              | Ok _ => measure subscribers users boxes
              end
          end
      end
  end.

End round.

(** ** Reports *)

Definition csv_header : string :=
  "subscribers,users,published,expected,delivered,duration_secs,delivered_per_sec,p50_ms,p95_ms,p99_ms".

(** The fields of a row, in the order of the header. *)
Definition csv_fields (r : RoundResult) : list string :=
  [ show_uint (rr_subscribers r); show_uint (rr_users r); show_uint (rr_published r);
    show_uint (rr_expected r); show_uint (rr_delivered r);
    show_fixed 3 (duration_secs r); show_fixed 1 (delivered_per_sec r);
    show_fixed 2 (p50_ms r); show_fixed 2 (p95_ms r); show_fixed 2 (p99_ms r) ].

Definition csv (results : list RoundResult) : string :=
  (csv_header ++ newline
   ++ foldr (fun r rest => join "," (csv_fields r) ++ newline ++ rest) "" results)%string.

Definition csv_path (s : Settings) : string := replace ".svg" ".csv" (out s).

Definition legend_x : f64 := sub (add ml plot_w) (of_Z 90).

Definition panels (results : list RoundResult) : list Panel :=
  [ mkPanel "messages delivered to end users / second"
      [ mkSeries "msg/s" "#1f77b4" (map delivered_per_sec results) ];
    mkPanel "end-to-end delivery latency (ms)"
      [ mkSeries "p50" "#2ca02c" (map p50_ms results);
        mkSeries "p95" "#ff7f0e" (map p95_ms results);
        mkSeries "p99" "#d62728" (map p99_ms results) ] ].

Definition render_svg (results : list RoundResult) : string :=
  render legend_x (map (fun r => of_Z (rr_subscribers r)) results) (panels results).

Definition summary (r : RoundResult) : string :=
  ("  delivered " ++ show_uint (rr_delivered r) ++ "/" ++ show_uint (rr_expected r)
   ++ " in " ++ show_fixed 2 (duration_secs r) ++ "s -> " ++ show_fixed 0 (delivered_per_sec r)
   ++ " msg/s, p50 " ++ show_fixed 1 (p50_ms r) ++ "ms p95 " ++ show_fixed 1 (p95_ms r)
   ++ "ms p99 " ++ show_fixed 1 (p99_ms r) ++ "ms")%string.

(** ** [main] *)

Section main.
Context (h : Host) (wall : Z -> Z).
(** What happens in the [n]-th round. *)
Context (rounds : nat -> Round).

Definition provision (s : Settings) (run_id : string) (max_users : Z) : Run (result error unit) :=
  try! _ := create_user h (api s) (token s) ("tok-pub-" ++ run_id)%string "svc-perf" true in
  join_all (fun i => create_user h (api s) (token s) (username run_id i) (userid run_id i) false)
    (range max_users).

(** The rounds from the [n]-th on; the first error ends them. *)
Fixpoint run_rounds (s : Settings) (run_id : string) (n : nat) (counts : list Z)
    : Run (result Stop (list RoundResult)) :=
  match counts with
  | [] => ret (Ok [])
  | c :: counts' =>
      let! _ := act (Print ("round: " ++ show_uint c ++ " subscribers (" ++ show_uint (messages s) ++ " msgs)...")) in
      try! r := run_round wall s run_id (rounds n) c in
      let! _ := act (Print (summary r)) in
      try! rs := run_rounds s run_id (S n) counts' in
      ret (Ok (r :: rs))
  end.

Definition cleanup (s : Settings) (run_id : string) (max_users : Z) : Run unit :=
  let! _ := act (Print "cleaning up users") in
  let! _ := delete_user h (api s) (token s) ("tok-pub-" ++ run_id)%string in
  for_each (fun i => delete_user h (api s) (token s) (username run_id i)) (range max_users).

Definition report (s : Settings) (results : list RoundResult) : Run (result error unit) :=
  try! _ := write h (csv_path s) (csv results) in
  try! _ := write h (out s) (render_svg results) in
  let! _ := act (Print ("wrote " ++ out s ++ " and " ++ csv_path s)) in
  ret (Ok tt).

Definition main : Run (result Stop unit) :=
  try! s := ret (fail_on (load_settings (environment h))) in
  let run_id := run_id_of h in
  match ceil_div (max_of (sub_counts s)) (devices_per_user s) with
  | None => ret (Err (Panicked "attempt to divide by zero"))
  | Some max_users =>
      let! _ := act (Print ("run " ++ run_id ++ ": provisioning " ++ show_uint max_users ++ " users + 1 publisher")) in
      try! _ := lift (provision s run_id max_users) in
      let! _ := act (Print ("provisioned in " ++ show_fixed 1 (as_secs_f64 (provisioning h)) ++ "s")) in
      try! results := run_rounds s run_id 0 (sub_counts s) in
      let! _ := cleanup s run_id max_users in
      lift (report s results)
  end.

End main.

(** ** Lemmas: sharing the messages out *)

Lemma seq_Z_app a b : 0 <= a -> 0 <= b ->
  range (a + b) = range a ++ map (Z.add a) (range b).
Proof.
  intros Ha Hb. unfold range. rewrite Z2Nat.inj_add, seq_app, map_app by done. f_equal.
  replace (0 + Z.to_nat a)%nat with (Z.to_nat a + 0)%nat by lia.
  rewrite <- fmap_add_seq, !map_map. apply map_ext_in. intros x _. lia.
Qed.

Lemma range_succ n : 0 <= n -> range (n + 1) = range n ++ [n].
Proof. intros Hn. rewrite seq_Z_app by lia. f_equal. unfold range. simpl. f_equal. lia. Qed.

Section shares.
Context (s : Settings).
Hypothesis Hmsgs : 0 <= messages s.
Hypothesis Hwidth : messages s + num_pubs s <= 2 ^ 64.

Lemma num_pubs_pos : 1 <= num_pubs s.
Proof. unfold num_pubs. lia. Qed.

Lemma per_publisher_bounds :
  0 <= per_publisher s /\ messages s <= per_publisher s * num_pubs s < messages s + num_pubs s.
Proof.
  unfold per_publisher. pose proof num_pubs_pos.
  pose proof (Z.div_mod (messages s) (num_pubs s) ltac:(lia)).
  pose proof (Z.mod_pos_bound (messages s) (num_pubs s) ltac:(lia)).
  pose proof (Z.div_pos (messages s) (num_pubs s) ltac:(lia) ltac:(lia)).
  destruct (Z.eqb_spec (messages s mod num_pubs s) 0); nia.
Qed.

Lemma shares_upto k : 0 <= k <= num_pubs s ->
  concat (map (share s) (range k)) = range (Z.min (k * per_publisher s) (messages s)).
Proof.
  pose proof per_publisher_bounds as [Hp0 [Hp1 Hp2]].
  intros [Hk0 Hk]. revert Hk. pattern k. apply natlike_ind; [|clear k Hk0; intros k Hk0 IH Hk | done].
  - intros _. rewrite Z.min_l by lia. done.
  - change (Z.succ k) with (k + 1). rewrite range_succ, map_app, concat_app, IH by lia. cbn [map concat].
    rewrite app_nil_r. unfold share.
    assert (0 <= k * per_publisher s < 2 ^ 64) by nia. assert (0 <= (k + 1) * per_publisher s < 2 ^ 64) by nia.
    rewrite !wrap_u64_small by (unfold u64_modulus; lia).
    destruct (Z.le_gt_cases (k * per_publisher s) (messages s)) as [Hle|Hgt].
    + rewrite (Z.min_l (k * _)) by lia. rewrite <- seq_Z_app by nia. f_equal. lia.
    + rewrite (Z.min_r (k * _)) by lia. rewrite !Z.min_r by nia.
      replace (range (messages s - k * per_publisher s)) with (@nil Z); [apply app_nil_r|].
      unfold range. by replace (Z.to_nat (messages s - k * per_publisher s)) with 0%nat by lia.
Qed.

End shares.

(** *** The topics *)

Lemma show_uint_inj a b : 0 <= a -> 0 <= b -> show_uint a = show_uint b -> a = b.
Proof. unfold show_uint. intros Ha Hb H%(inj pretty). lia. Qed.

Lemma append_cancel_r a b c : (a ++ c)%string = (b ++ c)%string -> a = b.
Proof.
  revert b. induction a as [|x a IH]; intros [|y b] H; [done| | |].
  - exfalso. apply (f_equal String.length) in H. cbn in H. rewrite length_append_str in H. lia.
  - exfalso. apply (f_equal String.length) in H. cbn in H. rewrite length_append_str in H. lia.
  - injection H as -> H. f_equal. by apply IH.
Qed.

Lemma topic_inj run_id a b : 0 <= a -> 0 <= b ->
  chat_topic (userid run_id a) = chat_topic (userid run_id b) -> a = b.
Proof.
  unfold chat_topic, userid. intros Ha Hb H%append_cancel_l%append_cancel_r.
  apply append_cancel_l, append_cancel_l, append_cancel_l in H. by apply show_uint_inj.
Qed.

(** ** Lemmas: what arrives *)

(** The deliveries of [ms] to subscribers with the plans [l]: one for each
    message and each subscriber of its topic. *)
Definition reach (l : list (Login * string)) (ms : list (string * string)) : Z :=
  foldr Z.add 0 (map (fun m => Z.of_nat (length (filter (fun c => snd c = fst m) l))) ms).

(** The subscribers of user [u]. *)
Definition devices_of (s : Settings) (subscribers u : Z) : Z :=
  Z.of_nat (length (filter (fun i => user_of (devices_per_user s) i = u) (range subscribers))).

Lemma filter_length_app {A} (P : A -> Prop) `{forall x, Decision (P x)} (l l' : list A) :
  length (filter P (l ++ l')) = (length (filter P l) + length (filter P l'))%nat.
Proof. by rewrite filter_app, length_app. Qed.

Lemma devices_of_spec s subscribers u :
  0 < devices_per_user s -> 0 <= subscribers -> 0 <= u ->
  devices_of s subscribers u
  = Z.max 0 (Z.min (devices_per_user s) (subscribers - u * devices_per_user s)).
Proof.
  intros Hd Hn Hu. set (d := devices_per_user s) in *.
  revert subscribers Hn. apply natlike_ind; [unfold devices_of; simpl; nia|].
  intros n Hn IH. change (Z.succ n) with (n + 1). unfold devices_of in *.
  rewrite range_succ, filter_length_app by lia. rewrite Nat2Z.inj_add, IH. clear IH.
  unfold user_of. fold d. pose proof (Z.div_mod n d ltac:(lia)) as E.
  pose proof (Z.mod_pos_bound n d ltac:(lia)) as B. rewrite filter_cons, filter_nil.
  case_decide as Hq; cbn [length].
  - subst u. nia.
  - assert (n / d < u \/ u < n / d) as [?|?] by lia; nia.
Qed.

Lemma devices_of_le s subscribers u :
  0 < devices_per_user s -> 0 <= subscribers -> 0 <= u ->
  devices_of s subscribers u <= devices_per_user s.
Proof. intros. rewrite devices_of_spec by done. lia. Qed.

Lemma publish_loop_all run_id wall rd users padding seqs :
  0 < users -> (forall seq, publish_ok rd seq = true) ->
  publish_loop wall run_id rd users padding seqs = Some (map (message wall run_id rd users padding) seqs).
Proof.
  intros Hu Hok. induction seqs as [|q seqs IH]; [done|]. cbn [publish_loop].
  destruct (Z.eqb_spec users 0); [lia|]. by rewrite Hok, IH.
Qed.

Lemma published_all wall s run_id rd users padding :
  0 <= messages s -> messages s + num_pubs s <= 2 ^ 64 ->
  0 < users -> (forall seq, publish_ok rd seq = true) ->
  published wall s run_id rd users padding
  = map (message wall run_id rd users padding) (range (messages s)).
Proof.
  intros Hm Hw Hu Hok. unfold published. rewrite <- (Z.min_r (num_pubs s * per_publisher s) (messages s)).
  2:{ pose proof (per_publisher_bounds s Hm Hw). lia. }
  rewrite <- shares_upto by (done || pose proof (num_pubs_pos s); lia).
  rewrite concat_map, map_map. f_equal. apply map_ext. intros p.
  by rewrite publish_loop_all.
Qed.

Lemma mapM_Some_map {A B} (f : A -> option B) l l' :
  mapM f l = Some l' -> Forall2 (fun x y => f x = Some y) l l'.
Proof. apply mapM_Some_1. Qed.

(** A message of user [u] reaches exactly the devices of [u]. *)
Lemma plan_topic_count s run_id users subscribers l u :
  0 < devices_per_user s -> 0 <= u ->
  mapM (plan s run_id users) (range subscribers) = Some l ->
  Z.of_nat (length (filter (fun c => snd c = chat_topic (userid run_id u)) l)) = devices_of s subscribers u.
Proof.
  intros Hd Hu Hl%mapM_Some_1. unfold devices_of. f_equal.
  assert (Forall (fun i => 0 <= i) (range subscribers)) as Hnn.
  { apply Forall_forall. intros i Hi%range_spec. lia. }
  induction Hl as [|i c js l Hc Hl IH]; [done|]. apply Forall_cons in Hnn as [Hi Hnn].
  rewrite !filter_cons. unfold plan in Hc.
  destruct (user_of (devices_per_user s) i <? users); [|done].
  destruct (node_of (nodes s) i); [|done]. injection Hc as <-. cbn [snd].
  assert (0 <= user_of (devices_per_user s) i) by (apply Z.div_pos; lia).
  case_decide as E1; case_decide as E2; cbn [length].
  - by rewrite IH.
  - exfalso. apply E2. apply (topic_inj run_id); done.
  - by rewrite E2 in E1.
  - by rewrite IH.
Qed.

Lemma sum_le (f g : Z -> Z) l : Forall (fun i => f i <= g i) l ->
  foldr Z.add 0 (map f l) <= foldr Z.add 0 (map g l).
Proof. induction 1; simpl; lia. Qed.

Lemma sum_lt (f g : Z -> Z) l i : Forall (fun i => f i <= g i) l -> i ∈ l -> f i < g i ->
  foldr Z.add 0 (map f l) < foldr Z.add 0 (map g l).
Proof.
  intros Hl Hi Hlt. induction Hl as [|j l Hj Hl IH]; [by apply not_elem_of_nil in Hi|].
  simpl. apply elem_of_cons in Hi as [->|Hi].
  - pose proof (sum_le f g l Hl). lia.
  - specialize (IH Hi). lia.
Qed.

Lemma sum_const c n : 0 <= n -> foldr Z.add 0 (map (fun _ => c) (range n)) = n * c.
Proof.
  revert n. apply natlike_ind; [done|]. intros n Hn IH. change (Z.succ n) with (n + 1).
  rewrite range_succ, map_app, foldr_app by done. cbn [map foldr].
  assert (forall l a, foldr Z.add a (map (fun _ : Z => c) l) = a + foldr Z.add 0 (map (fun _ => c) l)) as H.
  { clear. induction l as [|x l IH]; intros a; simpl; [lia|]. rewrite IH. lia. }
  rewrite H, IH. lia.
Qed.

Lemma reach_published wall s run_id rd users padding subscribers l :
  0 < devices_per_user s -> 0 <= messages s -> messages s + num_pubs s <= 2 ^ 64 ->
  0 < users -> (forall seq, publish_ok rd seq = true) ->
  mapM (plan s run_id users) (range subscribers) = Some l ->
  reach l (published wall s run_id rd users padding)
  = foldr Z.add 0 (map (fun seq => devices_of s subscribers (seq mod users)) (range (messages s))).
Proof.
  intros Hd Hm Hw Hu Hok Hl. unfold reach. rewrite published_all, map_map by done. f_equal.
  apply map_ext. intros q. unfold message. cbn [fst].
  apply (plan_topic_count _ _ users); [done | apply Z.mod_pos_bound; lia | done].
Qed.

(** ** Lemmas: the wait *)

(** The clock readings of the wait: in order, and fifty milliseconds of sleep
    between two rounds. *)
Definition paced (rd : Round) : Prop :=
  wait_start rd <= wait_clock rd 0 0
  /\ forall k, wait_clock rd k 0 <= wait_clock rd k 1 <= wait_clock rd k 2
       /\ wait_clock rd k 2 <= wait_clock rd k 3
       /\ wait_clock rd k 3 + 50 * 10 ^ 6 <= wait_clock rd (S k) 0.

Section wait.
Context (rd : Round) (boxes : list EventLoop) (expected : Z).
Hypothesis Hpaced : paced rd.

Local Abbreviation count k := (delivered_at (wait_clock rd k 0) boxes).

(** The counter as the previous round left it. *)
Definition previous (k : nat) : Z := match k with O => 0 | S k' => count k' end.

(** The counter has changed in round [k]. *)
Definition moved (k : nat) : Prop := count k <> previous k.

Lemma paced_after k : wait_start rd + Z.of_nat k * (50 * 10 ^ 6) <= wait_clock rd k 0.
Proof.
  destruct Hpaced as [H0 H]. induction k as [|k IH]; [lia|]. pose proof (H k). lia.
Qed.

(** What the loop knows in round [k]: the last count, and that no change is
    later than [last_progress]. *)
Definition tracks (k : nat) (last_progress last_count : Z) : Prop :=
  last_count = previous k /\ wait_start rd <= last_progress
  /\ (forall j, (j < k)%nat -> moved j -> wait_clock rd j 1 <= last_progress)
  /\ (last_progress = wait_start rd \/ exists j, (j < k)%nat /\ moved j /\ last_progress = wait_clock rd j 1).

Lemma tracks_init : tracks 0 (wait_start rd) 0.
Proof. split; [done|]. split; [lia|]. split; [lia | by left]. Qed.

Lemma clock_ordered j k : (j < k)%nat -> wait_clock rd j 1 <= wait_clock rd k 1.
Proof.
  destruct Hpaced as [_ H]. induction 1 as [|k' Hk IH].
  - pose proof (H j). pose proof (H (S j)). lia.
  - pose proof (H k'). pose proof (H (S k')). lia.
Qed.

Lemma tracks_step k lp lc :
  tracks k lp lc ->
  let '(lp', lc') := if count k =? lc then (lp, lc) else (wait_clock rd k 1, count k) in
  tracks (S k) lp' lc'.
Proof.
  intros (Hlc & Hlp & Hall & Hex). destruct (Z.eqb_spec (count k) lc) as [E|E].
  - split; [done|]. split; [done|]. split.
    + intros j Hj Hm. destruct (decide (j = k)) as [->|]; [exfalso; apply Hm; congruence | apply Hall; [lia|done]].
    + destruct Hex as [?|(j & ? & ?)]; [by left | right; exists j; split; [lia|done]].
  - assert (moved k) by (unfold moved; congruence). pose proof (paced_after k). destruct Hpaced as [_ Hc].
    split; [done|]. split; [pose proof (Hc k); lia|]. split.
    + intros j Hj _. destruct (decide (j = k)) as [->|]; [lia | apply clock_ordered; lia].
    + right. exists k. split; [lia|done].
Qed.

Lemma wait_loop_unfold fuel k lp lc :
  wait_loop rd boxes expected (S fuel) k lp lc =
  if expected <=? count k then Some (Complete, k)
  else
    let '(lp', lc') := if count k =? lc then (lp, lc) else (wait_clock rd k 1, count k) in
    if (stall <? wait_clock rd k 2 - lp') || (wait_start rd + hard_limit <? wait_clock rd k 3)
    then Some (Stalled (count k), k)
    else wait_loop rd boxes expected fuel (S k) lp' lc'.
Proof. reflexivity. Qed.

Lemma wait_loop_total fuel k lp lc :
  (wait_fuel <= fuel + k)%nat -> (k < wait_fuel)%nat -> is_Some (wait_loop rd boxes expected fuel k lp lc).
Proof.
  revert k lp lc. induction fuel as [|fuel IH]; intros k lp lc Hf Hk; [lia|].
  rewrite wait_loop_unfold. destruct (expected <=? count k); [by eexists|].
  destruct (if count k =? lc then _ else _) as [lp' lc'].
  destruct (orb _ _) eqn:E; [by eexists|]. apply orb_false_iff in E as [_ E%Z.ltb_ge].
  apply IH; [lia|]. pose proof (paced_after k). destruct Hpaced as [_ Hc]. pose proof (Hc k).
  unfold hard_limit, secs in E. unfold wait_fuel in *. lia.
Qed.

(** What the two ends mean. *)
Definition wait_means (r : WaitEnd * nat) : Prop :=
  let '(e, k) := r in
  match e with
  | Complete => expected <= count k
  | Stalled c =>
      c = count k /\ c < expected
      /\ (wait_start rd + hard_limit < wait_clock rd k 3
          \/ exists from, stall < wait_clock rd k 2 - from
             /\ (from = wait_start rd \/ exists j, (j <= k)%nat /\ moved j /\ from = wait_clock rd j 1)
             /\ forall j, (j <= k)%nat -> moved j -> wait_clock rd j 1 <= from)
  end.

Lemma wait_loop_means fuel k lp lc r :
  tracks k lp lc -> wait_loop rd boxes expected fuel k lp lc = Some r -> wait_means r.
Proof.
  revert k lp lc. induction fuel as [|fuel IH]; intros k lp lc Ht; [done|].
  rewrite wait_loop_unfold. destruct (Z.leb_spec expected (count k)) as [Hc|Hc].
  - intros [= <-]. done.
  - apply tracks_step in Ht. destruct (if count k =? lc then _ else _) as [lp' lc'].
    destruct (orb _ _) eqn:E; [|intros H; by apply (IH _ _ _ Ht)].
    intros [= <-]. split; [done|]. split; [done|].
    apply orb_true_iff in E as [E%Z.ltb_lt|E%Z.ltb_lt]; [right | by left].
    destruct Ht as (_ & _ & Hall & Hex). exists lp'. split; [done|]. split.
    + destruct Hex as [?|(j & ? & ?)]; [by left | right; exists j; split; [lia|done]].
    + intros j Hj. apply Hall. lia.
Qed.

(** Up to round [k] the counter has moved within every fifteen seconds and the
    three minutes are not over. *)
Definition progressing (k : nat) : Prop :=
  wait_clock rd k 3 <= wait_start rd + hard_limit
  /\ (wait_clock rd k 2 - wait_start rd <= stall
      \/ exists j, (j <= k)%nat /\ moved j /\ wait_clock rd k 2 - wait_clock rd j 1 <= stall).

Lemma wait_loop_completes last fuel k lp lc :
  tracks k lp lc -> (k <= last)%nat -> (last < fuel + k)%nat ->
  (forall i, (i < last)%nat -> progressing i) -> expected <= count last ->
  exists n, (n <= last)%nat /\ wait_loop rd boxes expected fuel k lp lc = Some (Complete, n).
Proof.
  revert k lp lc. induction fuel as [|fuel IH]; intros k lp lc Ht Hk Hf Hp Hl; [lia|].
  rewrite wait_loop_unfold. destruct (Z.leb_spec expected (count k)) as [Hc|Hc]; [by exists k|].
  assert (k <> last) by (intros ->; lia). apply tracks_step in Ht.
  destruct (if count k =? lc then _ else _) as [lp' lc'].
  destruct (Hp k ltac:(lia)) as [Hd Hs]. destruct (orb _ _) eqn:E; [exfalso | apply IH; [done|lia|lia|done|done]].
  destruct Ht as (_ & Hlp & Hall & _).
  apply orb_true_iff in E as [E%Z.ltb_lt|E%Z.ltb_lt]; [|lia].
  destruct Hs as [?|(j & Hj & Hm & ?)]; [lia|]. specialize (Hall j ltac:(lia) Hm). lia.
Qed.

Lemma progressing_bound last : (forall i, (i < last)%nat -> progressing i) -> (last < wait_fuel)%nat.
Proof.
  intros H. destruct last as [|k]; [unfold wait_fuel; lia|]. destruct (H k ltac:(lia)) as [Hd _].
  pose proof (paced_after k). destruct Hpaced as [_ Hc]. pose proof (Hc k).
  unfold hard_limit, secs in Hd. unfold wait_fuel. lia.
Qed.

End wait.

(** ** Lemmas: percentiles *)

Lemma pct_literals :
  lit 50 2 = SpecFloat.S754_finite false 4503599627370496 (-53)
  /\ lit 95 2 = SpecFloat.S754_finite false 8556839292003942 (-53)
  /\ lit 99 2 = SpecFloat.S754_finite false 8917127262193582 (-53).
Proof. by vm_compute. Qed.

Lemma pct_index_bounds len :
  1 <= len <= 2 ^ 52 ->
  0 <= pct_index len (lit 50 2) <= pct_index len (lit 95 2)
  /\ pct_index len (lit 95 2) <= pct_index len (lit 99 2) < len.
Proof.
  intros Hl. unfold pct_index. destruct pct_literals as (-> & -> & ->).
  destruct (decide (len = 1)) as [->|]; [by vm_compute|].
  pose proof (sub_one_denotes len ltac:(lia)) as D.
  destruct (mul_index usize_max _ _ 4503599627370496 D ltac:(lia) ltac:(lia)) as (N1 & -> & B1 & P1).
  destruct (mul_index usize_max _ _ 8556839292003942 D ltac:(lia) ltac:(lia)) as (N2 & -> & B2 & P2).
  destruct (mul_index usize_max _ _ 8917127262193582 D ltac:(lia) ltac:(lia)) as (N3 & -> & B3 & P3).
  assert (N1 <= N2 <= N3) as [L1 L2] by lia. assert (N3 < len * 2 ^ 105) as L3 by lia.
  pose proof (Z.div_pos N1 (2 ^ 105) ltac:(lia) ltac:(lia)).
  pose proof (Z.div_le_mono N1 N2 (2 ^ 105) ltac:(lia) L1). pose proof (Z.div_le_mono N2 N3 (2 ^ 105) ltac:(lia) L2).
  assert (N3 / 2 ^ 105 < len) by (apply Z.div_lt_upper_bound; lia).
  unfold usize_max. lia.
Qed.

Lemma latencies_sorted wall now boxes : StronglySorted Z.le (latencies_at wall now boxes).
Proof. apply StronglySorted_merge_sort; apply _. Qed.

Lemma sorted_lookup_le (l : list Z) i j x y :
  StronglySorted Z.le l -> (i <= j)%nat -> l !! i = Some x -> l !! j = Some y -> x <= y.
Proof.
  intros Hs. revert i j. induction Hs as [|a l Hs IH Ha]; intros i j Hij Hx Hy; [done|].
  destruct i as [|i], j as [|j]; simpl in *; simplify_eq; [lia | | lia | by apply (IH i j); try lia].
  apply list_elem_of_lookup_2 in Hy. rewrite Forall_forall in Ha. by apply Ha.
Qed.

(** ** Lemmas: payloads *)

Definition ascii_text (s : string) : Prop := all_chars (fun c => in_range 0 127 c) s = true.

Lemma utf8_valid_ascii s : ascii_text s -> utf8_valid s = true.
Proof.
  unfold ascii_text. rewrite all_chars_spec. induction s as [|c s IH]; [done|].
  cbn [any_char utf8_valid]. intros [Hc Hs]%orb_false_iff. apply negb_false_iff in Hc. rewrite Hc. by apply IH.
Qed.

Lemma latency_payload recv_ns nanos n :
  0 <= nanos <= usize_max ->
  latency recv_ns (payload nanos (repeat_char "x" n)) = Some (usize_sat_sub recv_ns nanos).
Proof.
  intros Hn. unfold latency.
  assert (Hx : any_char (fun c => negb (in_range 0 127 c)) (repeat_char "x" n) = false) by (induction n; done).
  rewrite utf8_valid_ascii.
  2:{ apply all_chars_spec. unfold payload. rewrite !any_char_append, Hx. cbn [any_char].
      rewrite !orb_false_r. pose proof (show_uint_digits nanos) as Hd. apply all_chars_spec in Hd.
      apply (any_char_false_impl _ (fun c => negb (is_ascii_digit c))); [|done].
      intros c Hc. apply negb_true_iff in Hc. apply negb_true_iff.
      destruct (is_ascii_digit c) eqn:E; [|done]. unfold is_ascii_digit, in_range in *.
      apply andb_true_iff in E as [_ E%N.leb_le]. apply andb_false_iff in Hc as [?%N.leb_gt|?%N.leb_gt]; lia. }
  unfold payload. change ("|" ++ repeat_char "x" n)%string with (String "|" (repeat_char "x" n)).
  rewrite split_on_app_sep by (by apply show_uint_no_char). cbn [head].
  cbn [mbind option_bind]. by rewrite parse_show_uint.
Qed.

(** ** Lemmas: settings *)

(** What the rest of the program relies on. *)
Record well_formed (s : Settings) : Prop := {
  wf_nodes : nodes s <> [];
  wf_ports : Forall (fun n => 0 <= snd n <= u16_max) (nodes s);
  wf_counts : sub_counts s <> [] /\ Forall (fun c => 0 <= c <= usize_max) (sub_counts s);
  wf_numbers : Forall (fun n => 0 <= n <= usize_max)
                 [messages s; devices_per_user s; payload_size s; publishers s; channel_cap s];
  wf_inflight : 0 <= inflight s <= u16_max
}.

Lemma load_settings_wf env s : load_settings env = Ok s -> well_formed s.
Proof.
  unfold load_settings. intros H.
  repeat (apply result_bind_ok in H as (? & ? & H)). injection H as <-.
  repeat match goal with
  | E : parse_int _ _ = Ok _ |- _ => apply parse_int_bounds in E; [|unfold usize_max, u16_max; lia]
  | E : parse_nodes _ = Ok _ |- _ => apply parse_nodes_wf in E as [? ?]
  | E : parse_counts _ _ = Ok _ |- _ => apply parse_counts_wf in E
  end.
  split; try done. cbn. repeat (apply Forall_cons_2; [lia|]). apply Forall_nil_2.
Qed.

(** The variables whose value is parsed. *)
Definition parsed_keys : list string :=
  ["PERF_NODES"; "PERF_SUBS"; "PERF_MSGS"; "PERF_DEVICES_PER_USER"; "PERF_PAYLOAD";
   "PERF_PUBLISHERS"; "PERF_INFLIGHT"; "PERF_CHANNEL"].

(** Their defaults parse. *)
Lemma defaults_load env e : load_settings env = Err e -> exists key, key ∈ parsed_keys /\ is_Some (env key).
Proof.
  intros H. destruct (decide (Exists (fun key => is_Some (env key)) parsed_keys)) as [Hex|Hno].
  - apply Exists_exists in Hex as (key & Hin & Hs). eauto.
  - exfalso. assert (forall key d, key ∈ parsed_keys -> env_or env key d = d) as Hd.
    { intros key d Hin. unfold env_or. destruct (env key) eqn:Ek; [|done].
      destruct Hno. apply Exists_exists. exists key. rewrite Ek. eauto. }
    revert H. unfold load_settings, parse_nodes. rewrite !Hd by (apply list_elem_of_In; cbn; tauto).
    by vm_compute.
Qed.

(** ** Lemmas: the requests of a run *)

Lemma quiet_connect_all rd l : quiet (connect_all rd l).
Proof.
  induction l as [|[login topic] l IH]; cbn [connect_all]; [apply emits_ret|].
  apply emits_bind_nil; [apply quiet_connect_loop|]. intros r. apply emits_bind_nil; [done | auto with ciqada].
Qed.

Lemma quiet_measure wall s run_id rd subscribers users boxes :
  quiet (measure wall s run_id rd subscribers users boxes).
Proof.
  unfold measure. apply emits_bind_nil; [by apply emits_none|]. intros _. apply emits_bind_nil; [by apply emits_none|].
  intros _. apply emits_bind_nil; [|intros _; apply emits_bind_nil; [by apply emits_none | auto with ciqada]].
  destruct (wait rd boxes _) as [[[|c] k]|]; [apply emits_ret | by apply emits_none | apply emits_ret].
Qed.

Lemma quiet_run_round wall s run_id rd subscribers : quiet (run_round wall s run_id rd subscribers).
Proof.
  unfold run_round. destruct (ceil_div _ _); [|apply emits_ret].
  destruct (mapM _ _); [|apply emits_ret]. apply emits_bind_nil; [apply quiet_connect_all|].
  intros [boxes|e]; [|apply emits_ret]. destruct (connect_publishers _ _ _ _ _); [|apply emits_ret].
  apply quiet_measure.
Qed.

Lemma quiet_run_rounds wall rounds s run_id n counts : quiet (run_rounds wall rounds s run_id n counts).
Proof.
  revert n. induction counts as [|c counts IH]; intros n; cbn [run_rounds]; [apply emits_ret|].
  apply emits_bind_nil; [by apply emits_none|]. intros _. apply emits_try; [apply quiet_run_round|]. intros r.
  apply emits_bind_nil; [by apply emits_none|]. intros _. apply emits_try; [apply IH | auto with ciqada].
Qed.

Lemma quiet_report h s results : quiet (report h s results).
Proof.
  apply emits_try; [apply quiet_write|]. intros _. apply emits_try; [apply quiet_write|]. intros _.
  apply emits_bind_nil; [by apply emits_none | auto with ciqada].
Qed.

(** The creations and the deletions of a run. *)
Definition creations (s : Settings) (run_id : string) (max_users : Z) : list HttpRequest :=
  create_request (api s) (token s) ("tok-pub-" ++ run_id) "svc-perf" true
  :: map (fun i => create_request (api s) (token s) (username run_id i) (userid run_id i) false) (range max_users).

Definition deletions (s : Settings) (run_id : string) (max_users : Z) : list HttpRequest :=
  delete_request (api s) (token s) ("tok-pub-" ++ run_id)
  :: map (fun i => delete_request (api s) (token s) (username run_id i)) (range max_users).

Lemma makes_cleanup h s run_id max_users :
  makes (cleanup h s run_id max_users) (deletions s run_id max_users).
Proof.
  apply (emits_bind _ _ _ []); [by apply emits_none|]. intros _.
  apply (emits_bind _ _ _ [_]); [apply makes_delete_user|]. intros _.
  apply makes_for_each. intros i. apply makes_delete_user.
Qed.

Lemma provision_requests h s run_id max_users tr :
  wp (provision h s run_id max_users)
    (fun r tr' => exists n, requests tr' = requests tr ++ take n (creations s run_id max_users)
                  /\ (r = Ok tt -> n = length (creations s run_id max_users))) tr.
Proof.
  unfold provision, and_then. apply wp_bind. eapply wp_mono; [apply makes_create_user|]. cbn.
  intros [[]|e] tr1 H1.
  - eapply wp_mono; [apply (makes_join_all _ (fun i => create_request (api s) (token s) (username run_id i) (userid run_id i) false));
      intros i; apply makes_create_user|].
    cbn. intros r tr2 ->. exists (length (creations s run_id max_users)). split; [|done].
    by rewrite firstn_all, H1, <- app_assoc.
  - apply wp_ret. exists 1%nat. by split.
Qed.

(** ** Properties *)

(** the publishers share the messages out: one after the other, their
    shares are exactly the messages [0..messages], each once, however many
    publishers there are and also when some get none. *)
Theorem shares_partition s :
  0 <= messages s -> messages s + num_pubs s <= 2 ^ 64 ->
  concat (map (share s) (range (num_pubs s))) = range (messages s).
Proof.
  intros Hm Hw. rewrite shares_upto by (done || pose proof (num_pubs_pos s); lia).
  f_equal. pose proof (per_publisher_bounds s Hm Hw). lia.
Qed.

(** the number of deliveries a round waits for is the number of messages
    times the devices of a user; when every publish is taken, the subscribers
    are owed at most that many deliveries, and exactly that many if and only
    if the subscribers fill all users: with subscribers that are not a
    multiple of the devices per user, a round with at least as many messages
    as users can never receive what it waits for. *)
Theorem expected_reachable wall s run_id rd subscribers users padding l :
  0 < devices_per_user s -> 0 < subscribers -> subscribers + devices_per_user s <= 2 ^ 64 ->
  users <= messages s -> messages s + num_pubs s <= 2 ^ 64 ->
  messages s * devices_per_user s < 2 ^ 64 ->
  (forall seq, publish_ok rd seq = true) ->
  ceil_div subscribers (devices_per_user s) = Some users ->
  mapM (plan s run_id users) (range subscribers) = Some l ->
  reach l (published wall s run_id rd users padding) <= expected_deliveries s
  /\ (reach l (published wall s run_id rd users padding) = expected_deliveries s
      <-> subscribers mod devices_per_user s = 0).
Proof.
  intros Hd Hsub Hb Hum Hw He Hok Hq Hl. set (d := devices_per_user s) in *.
  destruct (ceil_div_spec subscribers d ltac:(lia) Hd Hb) as (q & Hq' & Q1 & Q2 & Q3).
  assert (q = users) as -> by congruence. assert (0 < users) by nia.
  rewrite (reach_published wall s run_id rd users padding subscribers l) by (done || lia).
  unfold expected_deliveries. rewrite wrap_u64_small by (unfold u64_modulus; fold d; nia). fold d.
  rewrite <- (sum_const d (messages s)) by lia.
  assert (Forall (fun i => devices_of s subscribers (i mod users) <= d) (range (messages s))) as Hle.
  { apply Forall_forall. intros i _. apply devices_of_le; [done | lia | apply Z.mod_pos_bound; lia]. }
  split; [by apply (sum_le (fun seq => devices_of s subscribers (seq mod users)) (fun _ => d))|].
  pose proof (Z.div_mod subscribers d ltac:(lia)) as Hdm. pose proof (Z.mod_pos_bound subscribers d ltac:(lia)).
  split.
  - intros Heq. destruct (Z.eq_dec (subscribers mod d) 0) as [|Hne]; [done|]. exfalso.
    enough (foldr Z.add 0 (map (fun seq => devices_of s subscribers (seq mod users)) (range (messages s)))
            < foldr Z.add 0 (map (fun _ => d) (range (messages s)))) by lia.
    apply (sum_lt _ (fun _ => d) _ (users - 1)); [done | apply range_spec; lia |].
    rewrite Z.mod_small by lia. rewrite devices_of_spec by lia. fold d.
    assert (subscribers <> users * d) by (intros E; apply Hne; rewrite E; apply Z.mod_mul; lia). lia.
  - intros Hmod. f_equal. apply map_ext. intros i. pose proof (Z.mod_pos_bound i users ltac:(lia)).
    rewrite devices_of_spec by lia. fold d. rewrite Hmod in Hdm.
    assert (users = subscribers / d) as -> by (destruct (Z.lt_trichotomy users (subscribers / d)) as [?|[?|?]]; nia).
    nia.
Qed.

(** the wait for the deliveries ends within its fuel of 3602 rounds, that
    is within three minutes of rounds fifty milliseconds apart: complete only
    when the counter has reached the expected number, stalled only when it has
    not and either the three minutes are over or the counter has not moved for
    fifteen seconds. *)
Theorem wait_terminates rd boxes expected :
  paced rd -> exists r, wait rd boxes expected = Some r /\ wait_means rd boxes expected r.
Proof.
  intros Hp. destruct (wait_loop_total rd boxes expected Hp wait_fuel 0 (wait_start rd) 0) as [r Hr];
    [lia | unfold wait_fuel; lia |].
  exists r. split; [done|]. by apply (wait_loop_means rd boxes expected Hp _ _ _ _ _ (tracks_init rd boxes) Hr).
Qed.

(** C39: a round whose deliveries keep coming is not given up: if the counter
    moves within every fifteen seconds and reaches the expected number within
    the three minutes, the wait ends complete, not later than that. *)
Theorem wait_completes rd boxes expected last :
  paced rd -> (forall i, (i < last)%nat -> progressing rd boxes i) ->
  expected <= delivered_at (wait_clock rd last 0) boxes ->
  exists n, (n <= last)%nat /\ wait rd boxes expected = Some (Complete, n).
Proof.
  intros Hp Hprog Hlast. pose proof (progressing_bound rd boxes Hp last Hprog).
  apply (wait_loop_completes rd boxes expected Hp last); [apply tracks_init | lia | lia | done | done].
Qed.

(** the percentiles of up to [2^52] latencies never index outside the list:
    computed in floating point, the three indices are in bounds and in order,
    so each percentile is one of the sorted latencies, in milliseconds, and
    p50 <= p95 <= p99. *)
Theorem percentiles_defined wall now boxes :
  let l := latencies_at wall now boxes in
  1 <= Z.of_nat (length l) <= 2 ^ 52 ->
  exists a b c, a ∈ l /\ b ∈ l /\ c ∈ l /\ a <= b <= c
    /\ pct l (lit 50 2) = Some (div (of_Z a) (of_Z 1000000))
    /\ pct l (lit 95 2) = Some (div (of_Z b) (of_Z 1000000))
    /\ pct l (lit 99 2) = Some (div (of_Z c) (of_Z 1000000)).
Proof.
  cbn zeta. intros Hl. pose proof (latencies_sorted wall now boxes) as Hs.
  destruct (pct_index_bounds _ Hl) as [[B0 B1] [B2 B3]].
  set (l := latencies_at wall now boxes) in *. set (n := Z.of_nat (length l)) in *.
  assert (Hget : forall p, 0 <= pct_index n p < n -> exists x, l !! Z.to_nat (pct_index n p) = Some x
    /\ x ∈ l /\ pct l p = Some (div (of_Z x) (of_Z 1000000))).
  { intros p Hp. destruct (lookup_lt_is_Some_2 l (Z.to_nat (pct_index n p)) ltac:(lia)) as [x Hx].
    exists x. split; [done|]. split; [by eapply list_elem_of_lookup_2|].
    unfold pct. destruct l as [|y l']; [simpl in *; lia|]. fold n. by rewrite Hx. }
  destruct (Hget (lit 50 2) ltac:(lia)) as (a & La & Ea & Pa).
  destruct (Hget (lit 95 2) ltac:(lia)) as (b & Lb & Eb & Pb).
  destruct (Hget (lit 99 2) ltac:(lia)) as (c & Lc & Ec & Pc).
  exists a, b, c. repeat split; try done.
  - apply (sorted_lookup_le l _ _ _ _ Hs) with (2 := La) (3 := Lb). lia.
  - apply (sorted_lookup_le l _ _ _ _ Hs) with (2 := Lb) (3 := Lc). lia.
Qed.

(** the time a publisher writes into a payload is the time the subscriber
    reads from it, whatever the padding's length: the latency is the receiving
    time minus the sending time, and zero if the clock went back. *)
Theorem latency_roundtrip recv_ns nanos n :
  0 <= nanos <= usize_max ->
  latency recv_ns (payload nanos (repeat_char "x" n)) = Some (Z.max 0 (recv_ns - nanos)).
Proof. intros Hn. by rewrite latency_payload. Qed.

(** no subscriber's index is out of bounds: with settings that were loaded,
    at least one device per user and no more subscribers than were
    provisioned, every subscriber gets a node and a user, and the user is one
    that was created. *)
Theorem plan_total env s run_id subscribers users max_users :
  load_settings env = Ok s -> 0 < devices_per_user s -> 0 <= subscribers ->
  subscribers <= max_of (sub_counts s) -> max_of (sub_counts s) + devices_per_user s <= 2 ^ 64 ->
  ceil_div subscribers (devices_per_user s) = Some users ->
  ceil_div (max_of (sub_counts s)) (devices_per_user s) = Some max_users ->
  exists l, mapM (plan s run_id users) (range subscribers) = Some l
    /\ Forall (fun c => exists i, 0 <= i < max_users /\ login_user (fst c) = username run_id i
                 /\ login_node (fst c) ∈ nodes s) l.
Proof.
  intros Hs Hd Hn0 Hn Hb Hu Hm. apply load_settings_wf in Hs.
  set (P := fun i => exists c, plan s run_id users i = Some c
    /\ exists j, 0 <= j < max_users /\ login_user (fst c) = username run_id j /\ login_node (fst c) ∈ nodes s).
  assert (Forall P (range subscribers)) as HP.
  { apply Forall_forall. intros i Hi%range_spec.
    pose proof (user_of_bound subscribers _ users i Hd Hu ltac:(lia) Hi) as B.
    pose proof (user_of_bound (max_of (sub_counts s)) _ max_users i Hd Hm ltac:(lia) ltac:(lia)) as B'.
    destruct (node_of_Some (nodes s) i (wf_nodes s Hs) ltac:(lia)) as [node Hnode].
    unfold P, plan. destruct (Z.ltb_spec (user_of (devices_per_user s) i) users); [|lia].
    rewrite Hnode. eexists. split; [done|]. exists (user_of (devices_per_user s) i).
    split; [lia|]. split; [done|]. by eapply list_elem_of_lookup_2. }
  induction HP as [|i js (c & Hc & Hj) _ (l & Hl & HF)]; [by exists []|].
  exists (c :: l). split; [|by constructor]. cbn. by rewrite Hc, Hl.
Qed.

(** C40: settings that load are well formed: at least one node, every port and
    window within 16 bits, every count within 64 bits, at least one round. They
    always load unless the environment sets one of the variables that are
    parsed: the defaults are valid. *)
Theorem load_settings_well_formed env :
  match load_settings env with
  | Ok s => well_formed s
  | Err _ => exists key, key ∈ parsed_keys /\ is_Some (env key)
  end.
Proof.
  destruct (load_settings env) as [s|e] eqn:E; [by apply (load_settings_wf env)|].
  apply (defaults_load env e E).
Qed.

(** the users of a run: a run that returns normally has asked for the
    creation of the publisher's user and of every subscriber's user, then for
    the deletion of exactly these, in the same order; a run that ends in an
    error has asked for a prefix of the creations and deleted either none of
    the users or, when writing the report failed, all of them. *)
Theorem main_requests h wall rounds s max_users :
  load_settings (environment h) = Ok s ->
  ceil_div (max_of (sub_counts s)) (devices_per_user s) = Some max_users ->
  let run_id := run_id_of h in
  let '(r, tr) := main h wall rounds [] in
  match r with
  | Ok _ => requests tr = creations s run_id max_users ++ deletions s run_id max_users
  | Err _ => (exists n, requests tr = take n (creations s run_id max_users))
             \/ requests tr = creations s run_id max_users ++ deletions s run_id max_users
  end.
Proof.
  intros Hs Hm run_id.
  enough (wp (main h wall rounds) (fun r tr => match r with
    | Ok _ => requests tr = creations s run_id max_users ++ deletions s run_id max_users
    | Err _ => (exists n, requests tr = take n (creations s run_id max_users))
               \/ requests tr = creations s run_id max_users ++ deletions s run_id max_users end) []) as H
    by (unfold wp in H; by destruct (main h wall rounds [])).
  unfold main, and_then. apply wp_bind, wp_ret. rewrite Hs. cbn [fail_on]. fold run_id. rewrite Hm.
  apply wp_bind. eapply wp_mono; [by apply (emits_none request_of)|]. cbn. intros _ tr1 H1. apply wp_bind, wp_bind.
  eapply wp_mono; [apply provision_requests|]. intros r tr2 (n & H2 & Hn). apply wp_ret.
  change (requests [] ++ []) with (@nil HttpRequest) in H1. rewrite H1, app_nil_l in H2. destruct r as [[]|e]; cbn [fail_on]; [|apply wp_ret; left; eauto].
  specialize (Hn eq_refl). subst n. rewrite firstn_all in H2.
  apply wp_bind. eapply wp_mono; [by apply (emits_none request_of)|]. cbn. intros _ tr3 H3. rewrite app_nil_r, H2 in H3.
  apply wp_bind. eapply wp_mono; [apply quiet_run_rounds|]. cbn. intros rr tr4 H4. rewrite app_nil_r, H3 in H4.
  destruct rr as [results|e]; [|apply wp_ret; left; exists (length (creations s run_id max_users)); by rewrite firstn_all].
  apply wp_bind. eapply wp_mono; [apply makes_cleanup|]. cbn. intros _ tr5 H5. rewrite H4 in H5.
  apply wp_bind. eapply wp_mono; [apply quiet_report|]. cbn. intros r tr6 H6. rewrite app_nil_r, H5 in H6.
  destruct r as [[]|e]; [done | by right].
Qed.

Lemma join_no_char c ws :
  c <> ","%char -> Forall (fun w => any_char (fun d => bool_decide (d = c)) w = false) ws ->
  any_char (fun d => bool_decide (d = c)) (join "," ws) = false.
Proof.
  intros Hc H. induction H as [|w ws Hw _ IH]; [done|]. destruct ws as [|w' ws]; [done|].
  rewrite join_cons, !any_char_append, Hw, IH by done. cbn [any_char orb].
  rewrite !orb_false_r. apply bool_decide_eq_false_2. congruence.
Qed.

Lemma csv_fields_no_char c r : float_char c = false ->
  Forall (fun w => any_char (fun d => bool_decide (d = c)) w = false) (csv_fields r).
Proof.
  intros Hc. unfold csv_fields.
  repeat (apply Forall_cons_2; [apply float_char_absent; [done | apply show_uint_float || apply show_fixed_float]|]).
  apply Forall_nil_2.
Qed.

Definition line_feed : ascii := ascii_of_nat 10.

Lemma csv_lines results :
  split_on line_feed (csv results) = csv_header :: map (fun r => join "," (csv_fields r)) results ++ [""].
Proof.
  unfold csv. change (newline ++ ?x)%string with (String line_feed x).
  rewrite split_on_app_sep by done. f_equal.
  induction results as [|r rs IH]; [done|]. cbn [foldr map app].
  change (newline ++ ?x)%string with (String line_feed x).
  rewrite split_on_app_sep; [by rewrite IH | apply join_no_char; [done | by apply csv_fields_no_char]].
Qed.

(** The field of column [name] of a line of the report. *)
Definition column (name line : string) : option string :=
  i ← position (fun c => bool_decide (c = name)) (split_on "," csv_header);
  split_on "," line !! i.

(** the CSV report is a table: a header line, a line for every round in
    order, each with as many fields as the header, and the field of each
    column is the value its name says. *)
Theorem csv_table results :
  split_on line_feed (csv results) = csv_header :: map (fun r => join "," (csv_fields r)) results ++ [""]
  /\ forall r, length (split_on "," (join "," (csv_fields r))) = length (split_on "," csv_header)
     /\ let field name := column name (join "," (csv_fields r)) in
        field "subscribers" = Some (show_uint (rr_subscribers r))
        /\ field "users" = Some (show_uint (rr_users r))
        /\ field "published" = Some (show_uint (rr_published r))
        /\ field "expected" = Some (show_uint (rr_expected r))
        /\ field "delivered" = Some (show_uint (rr_delivered r))
        /\ field "duration_secs" = Some (show_fixed 3 (duration_secs r))
        /\ field "delivered_per_sec" = Some (show_fixed 1 (delivered_per_sec r))
        /\ field "p50_ms" = Some (show_fixed 2 (p50_ms r))
        /\ field "p95_ms" = Some (show_fixed 2 (p95_ms r))
        /\ field "p99_ms" = Some (show_fixed 2 (p99_ms r)).
Proof.
  split; [apply csv_lines|]. intros r.
  assert (split_on "," (join "," (csv_fields r)) = csv_fields r) as E by (apply split_on_join; [done | by apply csv_fields_no_char]).
  unfold column. rewrite E. repeat split.
Qed.

(** ** Witnesses *)

Definition quiet_peer : Peer := mkPeer (fun _ => mkAttempt 0 []) (Ok tt).

(** A peer that accepts the connection and the subscription at once and sends
    the publishes with the given instants and payloads. *)
Definition sending_peer (l : list (Z * string)) : Peer :=
  mkPeer (fun _ => mkAttempt 0 ([(1, Ok (Incoming (ConnAck None))); (2, Ok (Incoming (SubAck [true])))]
                      ++ map (fun m => (fst m, Ok (Incoming (Publish (snd m))))) l))
    (Ok tt).

Definition demo_settings : Settings :=
  mkSettings [("127.0.0.1", 1883); ("127.0.0.1", 1884)] "http://a" "t" [3] 4 2 3 3 10 10 "p.svg".

Definition demo_round (box : list (Z * string)) : Round :=
  mkRound (fun _ _ => sending_peer box) (fun _ => mkAttempt 0 [(1, Ok (Incoming (ConnAck None)))])
    (fun seq => 100 + seq) (fun _ => true) 90 110
    (fun k j => 110 + Z.of_nat k * (60 * 10 ^ 6) + Z.of_nat j) (10 ^ 9) (10 ^ 9) (10 ^ 9).

Lemma demo_paced box : paced (demo_round box).
Proof. split; [done|]. intros k. unfold demo_round, wait_clock. lia. Qed.

Lemma shares_partition_witness :
  map (share demo_settings) (range (num_pubs demo_settings)) = [[0; 1]; [2; 3]; []]
  /\ concat (map (share demo_settings) (range (num_pubs demo_settings))) = range 4.
Proof. split; [by vm_compute|]. apply (shares_partition demo_settings); by vm_compute. Defined.

(** Three subscribers of two devices each: eight deliveries are waited for, six
    are owed. *)
Lemma expected_reachable_witness :
  exists l, mapM (plan demo_settings "r" 2) (range 3) = Some l
  /\ expected_deliveries demo_settings = 8
  /\ reach l (published (fun t => t) demo_settings "r" (demo_round []) 2 "xxx") <= 8
  /\ (reach l (published (fun t => t) demo_settings "r" (demo_round []) 2 "xxx") = 8 <-> 3 mod 2 = 0).
Proof.
  eexists. split; [by vm_compute|]. split; [done|].
  apply (expected_reachable (fun t => t) demo_settings "r" (demo_round []) 3 2 "xxx"); done || by vm_compute.
Defined.

Lemma wait_terminates_witness :
  exists r, wait (demo_round []) [] 8 = Some r /\ wait_means (demo_round []) [] 8 r.
Proof. apply wait_terminates. apply demo_paced. Defined.

Lemma wait_completes_witness :
  exists n, (n <= 1)%nat
    /\ wait (demo_round []) [[(10 ^ 6, Ok (Incoming (Publish "1|x")))]] 1 = Some (Complete, n).
Proof.
  apply (wait_completes (demo_round [])); [apply demo_paced | | by vm_compute].
  intros i Hi. assert (i = 0%nat) as -> by lia. split; [by vm_compute | left; by vm_compute].
Defined.

Lemma percentiles_defined_witness :
  exists a b c, a <= b <= c
    /\ pct (latencies_at (fun t => t) 50 [[(20, Ok (Incoming (Publish "5|x"))); (30, Ok (Incoming (Publish "7|x")))]])
         (lit 99 2) = Some (div (of_Z c) (of_Z 1000000)).
Proof.
  destruct (percentiles_defined (fun t => t) 50
    [[(20, Ok (Incoming (Publish "5|x"))); (30, Ok (Incoming (Publish "7|x")))]]) as (a & b & c & _ & _ & _ & H & _ & _ & P);
    [by vm_compute | by exists a, b, c].
Defined.

Lemma latency_roundtrip_witness : latency 900 (payload 400 (repeat_char "x" 5)) = Some (Z.max 0 (900 - 400)).
Proof. apply latency_roundtrip. unfold usize_max. lia. Defined.

Definition demo_env (key : string) : option string :=
  if bool_decide (key = "PERF_SUBS") then Some "3, 5"
  else if bool_decide (key = "PERF_DEVICES_PER_USER") then Some "2"
  else if bool_decide (key = "PERF_MSGS") then Some "4" else None.

Definition demo_host : Host :=
  mkHost demo_env (fun _ => Ok 201) show_uint (fun _ => Ok tt) (10 ^ 9) (10 ^ 9).

Definition demo_loaded : Settings :=
  match load_settings demo_env with Ok s => s | Err _ => demo_settings end.

Lemma plan_total_witness :
  exists l, mapM (plan demo_loaded "r" 2) (range 3) = Some l
    /\ Forall (fun c => exists i, 0 <= i < 3 /\ login_user (fst c) = username "r" i
                 /\ login_node (fst c) ∈ nodes demo_loaded) l.
Proof. apply (plan_total demo_env demo_loaded "r" 3 2 3); by vm_compute. Defined.

(** Creating the users succeeds, but no subscriber gets through: the run ends
    in an error and the users stay. *)
Definition failing_rounds (n : nat) : Round :=
  mkRound (fun _ _ => quiet_peer) (fun _ => mkAttempt 0 []) (fun _ => 0) (fun _ => true) 0 0 (fun _ _ => 0) 0 0 0.

Definition failing_run : result Stop unit * list Action :=
  main demo_host (fun t => t) failing_rounds [].

Lemma main_requests_witness :
  is_ok (fst failing_run) = false
  /\ requests (snd failing_run) = creations demo_loaded (run_id_of demo_host) 3
  /\ let '(r, tr) := failing_run in
     match r with
     | Ok _ => requests tr = creations demo_loaded (run_id_of demo_host) 3 ++ deletions demo_loaded (run_id_of demo_host) 3
     | Err _ => (exists n, requests tr = take n (creations demo_loaded (run_id_of demo_host) 3))
                \/ requests tr = creations demo_loaded (run_id_of demo_host) 3 ++ deletions demo_loaded (run_id_of demo_host) 3
     end.
Proof.
  split; [by vm_compute|]. split; [by vm_compute|].
  apply (main_requests demo_host (fun t => t) failing_rounds demo_loaded 3); by vm_compute.
Defined.
