(* ===== verification/PerfResources.v ===== *)
(** * The resource load generator: [src/bin/perf_resources.rs]

    The program connects more and more subscribers and, at each level, measures
    the processor time and memory of the brokers' containers in three
    scenarios: idle, and with every subscriber publishing at a fixed rate with
    QoS 1 and with QoS 2. It writes a table and two charts for each scenario.

    Docker is an argument: the output of [docker ps] for a service and of the
    [n]-th [docker stats]. The order in which a hash map is searched is one as
    well ([iter]). *)

From Stdlib Require Import Ascii.
From stdpp Require Import sorting pretty.
From S2P Require Import Prelude Strs F64 Charts Config LoadGen.
Local Open Scope string_scope.
Local Open Scope list_scope.
Local Open Scope Z_scope.

Record Settings : Type := mkSettings {
  nodes : list (string * Z);
  api : string;
  token : string;
  sub_levels : list Z;
  devices_per_user : Z;
  services : list string;
  settle_secs : Z;
  samples : Z;
  msg_rate : Z;
  payload_size : Z;
  out : string
}.

Record LevelResult : Type := mkLevel {
  lr_subscribers : Z;
  cpu_pct : list f64;
  mem_mb : list f64;
  cpu_total_pct : f64;
  mem_total_mb : f64;
  msg_per_sec : f64
}.

Record Scenario : Type := mkScenario { sc_tag : string; sc_label : string; sc_qos : option QoS }.

Definition u32_max : Z := 2 ^ 32 - 1.

(** [Vec::dedup]. *)
Fixpoint dedup (l : list Z) : list Z :=
  match l with
  | x :: ((y :: _) as l') => if x =? y then dedup l' else x :: dedup l'
  | _ => l
  end.

Definition load_settings (env : string -> option string) : result error Settings :=
  let? nodes := parse_nodes env in
  let? sub_levels :=
    parse_counts "PERF_RES_SUBS must be integers" (env_or env "PERF_RES_SUBS" "0,1000,2500,5000") in
  let sub_levels := dedup (merge_sort Z.le sub_levels) in
  let services := map trim (split_on "," (env_or env "PERF_SERVICES" "node1,node2,node3")) in
  let? devices_per_user := parse_int usize_max (env_or env "PERF_DEVICES_PER_USER" "1") in
  let? settle_secs := parse_int usize_max (env_or env "PERF_SETTLE_SECS" "10") in
  let? samples := parse_int usize_max (env_or env "PERF_SAMPLES" "3") in
  let? msg_rate := parse_int u32_max (env_or env "PERF_RES_MSG_RATE" "10") in
  let? payload_size := parse_int usize_max (env_or env "PERF_RES_PAYLOAD" "64") in
  Ok (mkSettings nodes (env_or env "PERF_API" "http://127.0.0.1:8090") (env_or env "API_TOKEN" "change-me")
        sub_levels devices_per_user services settle_secs samples msg_rate payload_size
        (env_or env "PERF_RES_OUT" "perf-resources.svg")).

(** A connected subscriber: its topic and what its event loop will bring. *)
Record Subscriber : Type := mkSubscriber { topic : string; inbox : EventLoop }.

(** The eight attempts and the subscription, which keeps its topic. *)
Definition connect_subscriber (client_id topic : string) (p : Peer) : Run (result Stop Subscriber) :=
  try! c := LoadGen.connect_subscriber client_id p in
  ret (Ok (mkSubscriber topic (snd c))).

(** ** The publishing tasks *)

(** The period of the ticks in microseconds. *)
Definition period (rate : Z) : Z := 1000000 / Z.max 1 rate.

(** A task: each round checks the flag, waits for a tick, checks the flag
    again and publishes; the round's three entries are the instants of the
    first check and of the tick, and whether the client takes the message.
    The result is the instants of the messages; a zero period panics when the
    ticker is made ([None]). *)
Fixpoint publish_rounds (running : Z -> bool) (rounds : list (Z * Z * bool)) : list Z :=
  match rounds with
  | [] => []
  | (checked, ticked, taken) :: rounds' =>
      if running checked && running ticked then
        if taken : bool then ticked :: publish_rounds running rounds' else []
      else []
  end.

Definition publisher_task (rate : Z) (running : Z -> bool) (rounds : list (Z * Z * bool)) : option (list Z) :=
  if period rate =? 0 then None else Some (publish_rounds running rounds).

(** ** Docker *)

(** The output of a command: whether it succeeded, its two streams. *)
Record Output : Type := mkOutput { success : bool; stdout : string; stderr : string }.

Record Lab : Type := mkLab {
  docker_ps : string -> result error Output;
  docker_stats : nat -> result error Output;
  iter : nat -> gmap string (f64 * f64) -> list (string * (f64 * f64));
  lab_subscriber : Login -> string -> Peer;
  (* of the [m]-th measurement: the counter is read, and the window begins
     and ends *)
  delivered_from : nat -> Z;
  delivered_to : nat -> Z;
  window : nat -> Z
}.

Definition container_id (stdout : string) : string :=
  trim (default "" (head (lines (from_utf8_lossy stdout)))).

Definition ps_args (svc : string) : list string :=
  ["docker"; "ps"; "--filter"; ("label=com.docker.compose.service=" ++ svc)%string; "--format"; "{{.ID}}"].

Definition stats_args (ids : list string) : list string :=
  ["docker"; "stats"; "--no-stream"; "--format"; "{{.ID}};{{.CPUPerc}};{{.MemUsage}}"] ++ ids.

Fixpoint resolve_containers (lab : Lab) (svcs : list string) : Run (result error (list string)) :=
  match svcs with
  | [] => ret (Ok [])
  | svc :: svcs' =>
      let! _ := act (Exec (ps_args svc)) in
      match context "running docker ps" (docker_ps lab svc) with
      | Err e => ret (Err e)
      | Ok out =>
          if negb (success out) then ret (Err [("docker ps failed: " ++ from_utf8_lossy (stderr out))%string])
          else
            let id := container_id (stdout out) in
            if str_is_empty id then
              ret (Err [("no running container for compose service " ++ svc)%string])
            else try! ids := resolve_containers lab svcs' in ret (Ok (id :: ids))
      end
  end.

Definition scales : list (string * f64) :=
  [ ("TiB", mul (of_Z 1024) (of_Z 1024)); ("GiB", of_Z 1024); ("MiB", of_Z 1);
    ("KiB", div (of_Z 1) (of_Z 1024)); ("B", div (of_Z 1) (mul (of_Z 1024) (of_Z 1024))) ].

(** The first suffix of the list that fits decides. *)
Fixpoint parse_scaled (l : list (string * f64)) (s : string) : result error f64 :=
  match l with
  | [] => Err [("cannot parse memory value: " ++ s)%string]
  | (suffix, scale) :: l' =>
      match strip_suffix suffix s with
      | Some num =>
          match parse_f64 (trim num) with
          | Some x => Ok (mul x scale)
          | None => Err ["invalid float literal"]
          end
      | None => parse_scaled l' s
      end
  end.

Definition parse_mem_mb (s : string) : result error f64 := parse_scaled scales s.

(** One line of the statistics; [None]: not of three fields, skipped. *)
Definition stats_line (line : string) : result error (option (string * (f64 * f64))) :=
  match split_on ";" (trim line) with
  | [p0; p1; p2] =>
      let cpu := default f_zero (parse_f64 (trim_end_matches "%" (trim p1))) in
      let? mem := parse_mem_mb (trim (default "" (head (split_on "/" p2)))) in
      Ok (Some (trim p0, (cpu, mem)))
  | _ => Ok None
  end.

Fixpoint stats_map (ls : list string) (by_id : gmap string (f64 * f64))
    : result error (gmap string (f64 * f64)) :=
  match ls with
  | [] => Ok by_id
  | l :: ls' =>
      let? entry := stats_line l in
      stats_map ls' (match entry with Some (k, v) => <[k := v]> by_id | None => by_id end)
  end.

(** The entry of container [id]: the first, in the map's order, whose key is a
    prefix of [id] or the other way round. *)
Definition same_container (id k : string) : bool := starts_with k id || starts_with id k.

Definition find_stats (entries : list (string * (f64 * f64))) (id : string) : result error (f64 * f64) :=
  match list_find (fun e => same_container id (fst e)) entries with
  | Some (_, (_, v)) => Ok v
  | None => Err [("no stats for container " ++ id)%string]
  end.

(** The [n]-th call. *)
Definition sample_stats (lab : Lab) (n : nat) (ids : list string) : Run (result error (list (f64 * f64))) :=
  let! _ := act (Exec (stats_args ids)) in
  ret (let? out := context "running docker stats" (docker_stats lab n) in
       if negb (success out) then Err [("docker stats failed: " ++ from_utf8_lossy (stderr out))%string]
       else
         let? by_id := stats_map (lines (from_utf8_lossy (stdout out))) ∅ in
         collect_results (map (find_stats (iter lab n by_id)) ids)).

(** ** Measuring *)

(** The samples of one measurement, [calls] being the numbers of the calls;
    the sums per container. *)
Fixpoint sample_loop (lab : Lab) (ids : list string) (calls : list nat) (sums : list (f64 * f64))
    : Run (result error (list (f64 * f64))) :=
  match calls with
  | [] => ret (Ok sums)
  | n :: calls' =>
      try! stats := sample_stats lab n ids in
      sample_loop lab ids calls'
        (zip_with (fun a b => (add (fst a) (fst b), add (snd a) (snd b))) sums stats)
  end.

(** The calls of measurement [m]. *)
Definition calls_of (s : Settings) (m : nat) : list nat :=
  seq (m * Z.to_nat (samples s)) (Z.to_nat (samples s)).

Definition delivered_rate (lab : Lab) (m : nat) (boxes : list EventLoop) : f64 :=
  let elapsed := as_secs_f64 (window lab m) in
  let delta := usize_sat_sub (delivered_at (delivered_to lab m) boxes) (delivered_at (delivered_from lab m) boxes) in
  if ltb f_zero elapsed then div (of_Z delta) elapsed else f_zero.

Definition measure_level (s : Settings) (lab : Lab) (m : nat) (ids : list string) (subscribers : Z)
    (boxes : list EventLoop) : Run (result error LevelResult) :=
  let! _ := act (Sleep (1000 * settle_secs s)) in
  try! sums := sample_loop lab ids (calls_of s m) (repeat (f_zero, f_zero) (length ids)) in
  let cpu := map (fun v => div (fst v) (of_Z (samples s))) sums in
  let mem := map (fun v => div (snd v) (of_Z (samples s))) sums in
  ret (Ok (mkLevel subscribers cpu mem (f_sum cpu) (f_sum mem) (delivered_rate lab m boxes))).

(** The flag goes up with the tasks and down again whatever the measurement
    returns. *)
Definition measure_scenario (s : Settings) (lab : Lab) (m : nat) (ids : list string)
    (subs : list Subscriber) (subscribers : Z) (qos : option QoS) : Run (result error LevelResult) :=
  let! _ := act (Running true) in
  let! _ := match qos with Some q => act (Spawn q (map topic subs)) | None => ret tt end in
  let! result := measure_level s lab m ids subscribers (map inbox subs) in
  let! _ := act (Running false) in
  ret result.

Definition scenarios (s : Settings) : list Scenario :=
  [ mkScenario "idle" "idle subscribers" None;
    mkScenario "qos1" ("subscribers sending " ++ show_uint (msg_rate s) ++ " msg/s qos1") (Some AtLeastOnce);
    mkScenario "qos2" ("subscribers sending " ++ show_uint (msg_rate s) ++ " msg/s qos2") (Some ExactlyOnce) ]%string.

(** ** Reports *)

Definition per_1k (total rate : f64) : f64 :=
  if ltb f_zero rate then div (mul total (of_Z 1000)) rate else f_zero.

Definition per_1k_users (total : f64) (subscribers : Z) : f64 :=
  if 0 <? subscribers then div total (div (of_Z subscribers) (of_Z 1000)) else f_zero.

Definition csv_header (svcs : list string) : string :=
  ("subscribers" ++ cat (map (fun svc => "," ++ svc ++ "_cpu_pct," ++ svc ++ "_mem_mb") svcs)
   ++ ",total_cpu_pct,total_mem_mb,msg_per_sec,cpu_pct_per_1k_msgs,cpu_pct_per_1k_users,mem_mb_per_1k_users")%string.

(** The fields of a row; [None]: a service without a measurement, which panics. *)
Definition csv_fields (svcs : list string) (r : LevelResult) : option (list string) :=
  nodes ← mapM (fun i => c ← cpu_pct r !! i; m ← mem_mb r !! i; Some [show_fixed 2 c; show_fixed 2 m])
            (seq 0 (length svcs));
  Some ([show_uint (lr_subscribers r)] ++ concat nodes
        ++ [ show_fixed 2 (cpu_total_pct r); show_fixed 2 (mem_total_mb r); show_fixed 0 (msg_per_sec r);
             show_fixed 2 (per_1k (cpu_total_pct r) (msg_per_sec r));
             show_fixed 2 (per_1k_users (cpu_total_pct r) (lr_subscribers r));
             show_fixed 2 (per_1k_users (mem_total_mb r) (lr_subscribers r)) ]).

Definition csv (svcs : list string) (results : list LevelResult) : option string :=
  rows ← mapM (csv_fields svcs) results;
  Some (csv_header svcs ++ newline ++ cat (map (fun row => join "," row ++ newline) rows))%string.

Definition svg_path (s : Settings) (scenario : Scenario) : string :=
  if bool_decide (sc_tag scenario = "idle") then out s
  else replace ".svg" ("-" ++ sc_tag scenario ++ ".svg")%string (out s).

Definition csv_path (svg : string) : string := replace ".svg" ".csv" svg.
Definition peruser_path (svg : string) : string := replace ".svg" "-peruser.svg" svg.

Definition legend_x : f64 := add ml (of_Z 12).

Definition node_colors : list string := ["#1f77b4"; "#2ca02c"; "#ff7f0e"; "#9467bd"; "#8c564b"; "#e377c2"].

Definition render_panels (panels : list Panel) (xs : list f64) : string := render legend_x xs panels.

Definition level_xs (results : list LevelResult) : list f64 := map (fun r => of_Z (lr_subscribers r)) results.

(** The series of the containers; [None]: an index out of bounds, which panics. *)
Definition node_series (svcs : list string) (results : list LevelResult) (values : LevelResult -> list f64)
    : option (list Series) :=
  mapM (fun '(i, svc) =>
      color ← node_colors !! (i mod 6)%nat;
      vals ← mapM (fun r => values r !! i) results;
      Some (mkSeries svc color vals))
    (imap pair svcs).

Definition render_svg (svcs : list string) (results : list LevelResult) (lbl : string) : option string :=
  cpu ← node_series svcs results cpu_pct;
  mem ← node_series svcs results mem_mb;
  Some (render_panels
    [ mkPanel ("broker cpu usage on " ++ lbl ++ " (%, docker stats)")
        (cpu ++ [mkSeries "total" "#d62728" (map cpu_total_pct results)]);
      mkPanel ("broker memory usage on " ++ lbl ++ " (MB)")
        (mem ++ [mkSeries "total" "#d62728" (map mem_total_mb results)]) ]
    (level_xs results)).

Definition render_peruser_svg (results : list LevelResult) (lbl : string) : string :=
  render_panels
    [ mkPanel ("broker cpu per 1k msgs on " ++ lbl ++ " (%)")
        [mkSeries "cpu%/1k msgs" "#1f77b4" (map (fun r => per_1k (cpu_total_pct r) (msg_per_sec r)) results)];
      mkPanel ("broker memory per 1k msgs on " ++ lbl ++ " (MB)")
        [mkSeries "MB/1k msgs" "#2ca02c" (map (fun r => per_1k (mem_total_mb r) (msg_per_sec r)) results)] ]
    (level_xs results).

Definition per_node (s : Settings) (r : LevelResult) : string :=
  join ", " (map (fun '(svc, (c, m)) => svc ++ " " ++ show_fixed 1 c ++ "%/" ++ show_fixed 0 m ++ "MB")%string
               (zip (services s) (zip (cpu_pct r) (mem_mb r)))).

Definition summary (s : Settings) (sc : Scenario) (r : LevelResult) : string :=
  ("  [" ++ sc_tag sc ++ "] " ++ show_uint (lr_subscribers r) ++ " subscribers -> cpu "
   ++ show_fixed 1 (cpu_total_pct r) ++ "% mem " ++ show_fixed 1 (mem_total_mb r) ++ " MB, "
   ++ show_fixed 0 (msg_per_sec r) ++ " msg/s, " ++ show_fixed 2 (per_1k (cpu_total_pct r) (msg_per_sec r))
   ++ " cpu%/1k msgs (" ++ per_node s r ++ ")")%string.

(** ** [main] *)

Section main.
Context (h : Host) (lab : Lab) (s : Settings) (run_id : string).

(** Subscriber [i]; [None]: no node, a remainder by zero. *)
Definition plan (i : Z) : option (Login * string) :=
  let user_idx := user_of (devices_per_user s) i in
  node ← node_of (nodes s) i;
  Some (mkLogin node ("perfres-" ++ run_id ++ "-" ++ show_uint i)%string (username run_id user_idx),
        chat_topic (userid run_id user_idx)).

Fixpoint connect_all (l : list (Login * string)) : Run (result Stop (list Subscriber)) :=
  match l with
  | [] => ret (Ok [])
  | (login, topic) :: l' =>
      let! r := connect_subscriber (login_id login) topic (lab_subscriber lab login topic) in
      let! rs := connect_all l' in
      ret (let? sub := r in let? subs := rs in Ok (sub :: subs))
  end.

(** Connects the subscribers [len..level] that are missing. *)
Definition ramp (level : Z) (subs : list Subscriber) : Run (result Stop (list Subscriber)) :=
  let len := Z.of_nat (length subs) in
  if len <? level then
    let! _ := act (Print ("ramping to " ++ show_uint level ++ " subscribers...")) in
    match mapM plan (map (Z.add len) (range (level - len))) with
    | None => ret (Err (Panicked "attempt to calculate the remainder with a divisor of zero"))
    | Some l => try! more := connect_all l in ret (Ok (subs ++ more))
    end
  else ret (Ok subs).

(** The scenarios at one level, the first being measurement [m]. *)
Fixpoint measure_scenarios (ids : list string) (level : Z) (subs : list Subscriber) (m : nat)
    (scs : list Scenario) : Run (result error (list LevelResult)) :=
  match scs with
  | [] => ret (Ok [])
  | sc :: scs' =>
      try! r := measure_scenario s lab m ids subs level (sc_qos sc) in
      let! _ := act (Print (summary s sc r)) in
      try! rs := measure_scenarios ids level subs (S m) scs' in
      ret (Ok (r :: rs))
  end.

(** [results[si].push(r)] for every scenario. *)
Definition push_results (results : list (list LevelResult)) (rs : list LevelResult) : list (list LevelResult) :=
  zip_with (fun l r => l ++ [r]) results rs.

Fixpoint level_loop (ids : list string) (k : nat) (levels : list Z) (subs : list Subscriber)
    (results : list (list LevelResult)) : Run (result Stop (list (list LevelResult))) :=
  match levels with
  | [] => ret (Ok results)
  | level :: levels' =>
      try! subs := ramp level subs in
      try! rs := lift (measure_scenarios ids level subs (3 * k) (scenarios s)) in
      level_loop ids (S k) levels' subs (push_results results rs)
  end.

(** Every user is a superuser: it publishes on its own topic. *)
Definition create_user (username userid : string) : Run (result error unit) :=
  LoadGen.create_user h (api s) (token s) username userid true.

Definition delete_user (username : string) : Run unit := LoadGen.delete_user h (api s) (token s) username.

Definition provision (max_users : Z) : Run (result error unit) :=
  join_all (fun i => create_user (username run_id i) (userid run_id i)) (range max_users).

Definition cleanup (max_users : Z) : Run unit :=
  let! _ := act (Print "cleaning up users") in
  for_each (fun i => delete_user (username run_id i)) (range max_users).

Definition report_scenario (sc : Scenario) (res : list LevelResult) : Run (result Stop unit) :=
  let svg := svg_path s sc in
  match csv (services s) res with
  | None => ret (Err (Panicked "index out of bounds"))
  | Some table =>
      try! _ := lift (write h (csv_path svg) table) in
      match render_svg (services s) res (sc_label sc) with
      | None => ret (Err (Panicked "index out of bounds"))
      | Some chart =>
          try! _ := lift (write h svg chart) in
          try! _ := lift (write h (peruser_path svg) (render_peruser_svg res (sc_label sc))) in
          let! _ := act (Print ("wrote " ++ svg ++ ", " ++ peruser_path svg ++ " and " ++ csv_path svg)) in
          ret (Ok tt)
      end
  end.

Fixpoint report (l : list (Scenario * list LevelResult)) : Run (result Stop unit) :=
  match l with
  | [] => ret (Ok tt)
  | (sc, res) :: l' => try! _ := report_scenario sc res in report l'
  end.

(** The users for the highest level; none for no subscribers. *)
Definition max_users : option Z :=
  let max_subs := max_of (sub_levels s) in
  if max_subs =? 0 then Some 0 else ceil_div max_subs (devices_per_user s).

(** [main] from the provisioning on. *)
Definition run (ids : list string) (users : Z) : Run (result Stop unit) :=
  let! _ := act (Print ("run " ++ run_id ++ ": provisioning " ++ show_uint users ++ " users")) in
  try! _ := lift (provision users) in
  let! _ := act (Print ("provisioned in " ++ show_fixed 1 (as_secs_f64 (provisioning h)) ++ "s")) in
  try! results := level_loop ids 0 (sub_levels s) [] (map (fun _ => []) (scenarios s)) in
  let! _ := cleanup users in
  report (zip (scenarios s) results).

End main.

Definition main (h : Host) (lab : Lab) : Run (result Stop unit) :=
  try! s := ret (fail_on (load_settings (environment h))) in
  try! ids := lift (resolve_containers lab (services s)) in
  match max_users s with
  | None => ret (Err (Panicked "attempt to divide by zero"))
  | Some users => run h lab s (run_id_of h) ids users
  end.

(** ** Lemmas: settings *)

Lemma dedup_elem l x : x ∈ dedup l <-> x ∈ l.
Proof.
  induction l as [|a l IH]; [done|]. cbn [dedup]. destruct l as [|b l]; [done|].
  destruct (Z.eqb_spec a b) as [->|Hne]; rewrite ?elem_of_cons, IH, ?elem_of_cons; naive_solver.
Qed.

Lemma dedup_sorted l : StronglySorted Z.le l -> StronglySorted Z.lt (dedup l).
Proof.
  induction 1 as [|a l Hl IH Ha]; [constructor|]. cbn [dedup]. destruct l as [|b l]; [by repeat constructor|].
  destruct (Z.eqb_spec a b) as [->|Hne]; [done|]. constructor; [done|].
  rewrite Forall_forall in *. intros x Hx. apply (proj1 (dedup_elem _ _)) in Hx.
  inversion_clear Hl as [|? ? _ Hb]. rewrite Forall_forall in Hb.
  apply elem_of_cons in Hx as [->|Hx]; [pose proof (Ha b ltac:(left)); lia|].
  pose proof (Hb x Hx). pose proof (Ha b ltac:(left)). lia.
Qed.

(** What the rest of the program relies on; the levels go up. *)
Record well_formed (s : Settings) : Prop := {
  wf_nodes : nodes s <> [];
  wf_levels : StronglySorted Z.lt (sub_levels s);
  wf_counts : Forall (fun c => 0 <= c <= usize_max) (sub_levels s);
  wf_services : services s <> [];
  wf_rate : 0 <= msg_rate s <= u32_max;
  wf_numbers : Forall (fun n => 0 <= n <= usize_max)
                 [devices_per_user s; settle_secs s; samples s; payload_size s]
}.

Lemma resource_settings_wf env s : load_settings env = Ok s -> well_formed s.
Proof.
  unfold load_settings. intros H.
  apply result_bind_ok in H as (nodes & Hn & H). apply result_bind_ok in H as (counts & Hc & H). cbn zeta in H.
  repeat (apply result_bind_ok in H as (? & ? & H)). injection H as <-.
  repeat match goal with
  | E : parse_int _ _ = Ok _ |- _ => apply parse_int_bounds in E; [|unfold usize_max, u32_max; lia]
  end.
  apply parse_nodes_wf in Hn as [? ?]. apply parse_counts_wf in Hc as [_ Hc]. split; try done; cbn.
  - apply dedup_sorted, StronglySorted_merge_sort; apply _.
  - rewrite Forall_forall in *. intros c Hx. apply (proj1 (dedup_elem _ _)) in Hx.
    rewrite merge_sort_Permutation in Hx. by apply Hc.
  - intros E%map_eq_nil. by apply split_on_nonempty in E.
  - repeat (apply Forall_cons_2; [lia|]). apply Forall_nil_2.
Qed.

(** ** Lemmas: the publishing tasks *)

Lemma publish_rounds_running running rounds :
  Forall (fun t => running t = true) (publish_rounds running rounds).
Proof.
  induction rounds as [|[[c t] ok] rounds IH]; cbn [publish_rounds]; [constructor|].
  destruct (running c) eqn:Ec; [|constructor]. destruct (running t) eqn:Et; [|constructor].
  destruct ok; [by constructor | constructor].
Qed.

Definition spawn_of (a : Action) : option (QoS * nat) :=
  match a with Spawn q topics => Some (q, length topics) | _ => None end.

Definition flag_of (a : Action) : option bool := match a with Running on => Some on | _ => None end.

Section measuring.
Context {B : Type} (f : Action -> option B).
Hypothesis Hsleep : forall ms, f (Sleep ms) = None.
Hypothesis Hexec : forall args, f (Exec args) = None.

Lemma emits_sample_loop lab ids calls sums : emits f (sample_loop lab ids calls sums) [].
Proof.
  revert sums. induction calls as [|n calls IH]; intros sums; cbn [sample_loop]; [apply emits_ret|].
  apply emits_try; [|intros stats; apply IH].
  apply emits_bind_nil; [apply emits_none, Hexec | intros _; apply emits_ret].
Qed.

Lemma emits_measure_level s lab m ids subscribers boxes :
  emits f (measure_level s lab m ids subscribers boxes) [].
Proof.
  apply emits_bind_nil; [apply emits_none, Hsleep|]. intros _.
  apply emits_try; [apply emits_sample_loop | intros sums; apply emits_ret].
Qed.

Lemma emits_scenario s lab m ids subs subscribers qos :
  emits f (measure_scenario s lab m ids subs subscribers qos)
    (omap f ([Running true] ++ match qos with Some q => [Spawn q (map topic subs)] | None => [] end ++ [Running false])).
Proof.
  unfold measure_scenario. rewrite !omap_app_list. apply emits_bind; [apply emits_omap|]. intros _.
  apply emits_bind; [destruct qos; [apply emits_omap | apply emits_ret]|]. intros _.
  apply (emits_bind f _ _ []); [apply emits_measure_level|]. intros r.
  apply emits_then_ret, emits_omap.
Qed.
End measuring.


Lemma wp_emits {B A} (f : Action -> option B) (m : Run A) bs (Q : A -> Prop) tr :
  emits f m bs -> (forall tr, wp m (fun a _ => Q a) tr) ->
  wp m (fun a tr' => Q a /\ omap f tr' = omap f tr ++ bs) tr.
Proof. intros H1 H2. specialize (H1 tr). specialize (H2 tr). unfold wp in *. by destruct (m tr). Qed.

Lemma connect_all_length lab l tr :
  wp (connect_all lab l) (fun r _ => forall subs, r = Ok subs -> length subs = length l) tr.
Proof.
  revert tr. induction l as [|[login t] l IH]; intros tr; cbn [connect_all].
  - apply wp_ret. by intros ? [= <-].
  - apply wp_bind. eapply wp_mono; [apply wp_any|]. cbv beta. intros r tr1 _. apply wp_bind. eapply wp_mono; [apply IH|]. cbv beta. intros rs tr2 Hrs. apply wp_ret. intros subs.
    destruct r as [sub|]; [|done]. destruct rs as [ss|]; [|done]. intros [= <-]. cbn. f_equal. by apply Hrs.
Qed.

Lemma emits_connect_all {B} (f : Action -> option B) lab l :
  (forall line, f (Log line) = None) -> (forall ms, f (Sleep ms) = None) -> emits f (connect_all lab l) [].
Proof.
  intros Hlog Hsleep. induction l as [|[login t] l IH]; cbn [connect_all]; [apply emits_ret|].
  apply emits_bind_nil; [apply emits_try; [by apply emits_connect_loop | intros; apply emits_ret]|]. intros r.
  apply emits_bind_nil; [done | intros rs; apply emits_ret].
Qed.

Lemma ramp_spec {B} (f : Action -> option B) lab s run_id level subs tr :
  (forall line, f (Log line) = None) -> (forall ms, f (Sleep ms) = None) -> (forall l, f (Print l) = None) ->
  Z.of_nat (length subs) <= level ->
  wp (ramp lab s run_id level subs)
    (fun r tr' => (forall subs', r = Ok subs' -> Z.of_nat (length subs') = level)
                  /\ omap f tr' = omap f tr ++ []) tr.
Proof.
  intros Hlog Hsleep Hprint Hle. unfold ramp. destruct (Z.ltb_spec (Z.of_nat (length subs)) level) as [Hlt|Hge].
  2:{ apply wp_ret. rewrite app_nil_r. split; [|done]. intros ? [= <-]. lia. }
  apply wp_bind. eapply wp_mono; [by apply (emits_none f)|]. cbv beta. intros _ tr1 H1. rewrite app_nil_r in H1.
  destruct (mapM _ _) as [l|] eqn:El; [|apply wp_ret; rewrite app_nil_r; by split].
  apply wp_bind. eapply wp_mono; [apply (wp_emits f _ []); [by apply emits_connect_all | intros tr'; apply connect_all_length]|].
  cbv beta. intros r tr2 [Hr H2]. rewrite app_nil_r in H2. destruct r as [more|]; apply wp_ret; rewrite app_nil_r; (split; [|congruence]).
  - intros ? [= <-]. rewrite length_app, Nat2Z.inj_add. rewrite (Hr more) by done.
    apply length_mapM in El. rewrite <- El, length_map. unfold range. rewrite length_map, length_seq. lia.
  - done.
Qed.

(** The tasks started at one level with [n] subscribers. *)
Definition level_spawns (n : nat) : list (QoS * nat) := [(AtLeastOnce, n); (ExactlyOnce, n)].

Lemma scenarios_spawns s lab ids level subs m scs tr :
  wp (measure_scenarios lab s ids level subs m scs)
    (fun r tr' => forall rs, r = Ok rs ->
       omap spawn_of tr' = omap spawn_of tr
         ++ omap (fun sc => (fun q => (q, length subs)) <$> sc_qos sc) scs) tr.
Proof.
  revert m tr. induction scs as [|sc scs IH]; intros m tr; cbn [measure_scenarios].
  - apply wp_ret. intros rs _. by rewrite app_nil_r.
  - apply wp_bind. eapply wp_mono; [by apply (emits_scenario spawn_of)|]. cbv beta. intros r tr1 H1.
    destruct r as [x|]; [|by apply wp_ret]. apply wp_bind.
    eapply wp_mono; [by apply (emits_none spawn_of)|]. cbv beta. intros _ tr2 H2. rewrite app_nil_r in H2.
    apply wp_bind. eapply wp_mono; [apply IH|]. cbv beta. intros rs tr3 H3. destruct rs as [l|]; apply wp_ret; [|done].
    intros ? _. rewrite (H3 l eq_refl), H2, H1, <- app_assoc. f_equal.
    destruct (sc_qos sc) as [q|] eqn:Eq; cbn; rewrite Eq; cbn; by rewrite ?length_map.
Qed.

Lemma level_loop_spawns lab s run_id ids k levels subs results tr :
  StronglySorted Z.lt levels -> Forall (fun l => Z.of_nat (length subs) <= l) levels ->
  wp (level_loop lab s run_id ids k levels subs results)
    (fun r tr' => forall rs, r = Ok rs ->
       omap spawn_of tr' = omap spawn_of tr ++ concat (map (fun l => level_spawns (Z.to_nat l)) levels)) tr.
Proof.
  intros Hs. revert k subs results tr. induction Hs as [|l levels Hs IH Hl]; intros k subs results tr Hle; cbn [level_loop].
  - apply wp_ret. intros ? _. by rewrite app_nil_r.
  - apply Forall_cons in Hle as [Hle0 _]. apply wp_bind.
    eapply wp_mono; [by apply (ramp_spec spawn_of)|]. cbv beta. intros r tr1 [Hr H1]. rewrite app_nil_r in H1.
    destruct r as [subs'|]; [|by apply wp_ret]. specialize (Hr subs' eq_refl).
    apply wp_bind. apply wp_bind. eapply wp_mono; [apply scenarios_spawns|]. cbv beta. intros r tr2 H2.
    apply wp_ret. destruct r as [rs|]; cbn [fail_on]; [|by apply wp_ret]. specialize (H2 rs eq_refl).
    eapply wp_mono; [apply IH|].
    + rewrite Hr. rewrite Forall_forall in *. intros x Hx. specialize (Hl x Hx). lia.
    + cbv beta. intros r tr3 H3 rs' ->. rewrite (H3 rs' eq_refl), H2, H1, <- app_assoc. do 2 f_equal.
      cbn. unfold level_spawns. by replace (Z.to_nat l) with (length subs') by lia.
Qed.

(** ** Lemmas: no panic *)

(** A measurement of [n] containers. *)
Definition shaped (n : nat) (r : LevelResult) : Prop := length (cpu_pct r) = n /\ length (mem_mb r) = n.

Lemma sample_stats_length lab n ids tr :
  wp (sample_stats lab n ids) (fun r _ => forall stats, r = Ok stats -> length stats = length ids) tr.
Proof.
  unfold sample_stats. apply wp_bind. eapply wp_mono; [apply wp_any|]. intros _ tr1 _. apply wp_ret. intros stats H.
  apply result_bind_ok in H as (o & _ & H). destruct (negb (success o)); [done|].
  apply result_bind_ok in H as (by_id & _ & H).
  by apply (collect_results_Forall _ (fun _ => True)) in H as [_ ?].
Qed.

Lemma sample_loop_length lab ids calls sums tr :
  length sums = length ids ->
  wp (sample_loop lab ids calls sums) (fun r _ => forall l, r = Ok l -> length l = length ids) tr.
Proof.
  revert sums tr. induction calls as [|n calls IH]; intros sums tr Hs; cbn [sample_loop].
  - apply wp_ret. by intros ? [= <-].
  - apply wp_bind. eapply wp_mono; [apply sample_stats_length|]. cbv beta. intros r tr1 Hr.
    destruct r as [stats|]; [|by apply wp_ret]. apply IH. rewrite length_zip_with, Hs, (Hr stats) by done. lia.
Qed.

Lemma measure_scenario_shaped s lab m ids subs subscribers qos tr :
  wp (measure_scenario s lab m ids subs subscribers qos)
    (fun r _ => forall x, r = Ok x -> shaped (length ids) x) tr.
Proof.
  unfold measure_scenario. apply wp_bind. eapply wp_mono; [apply wp_any|]. intros _ tr1 _.
  apply wp_bind. eapply wp_mono; [apply wp_any|]. intros _ tr2 _. apply wp_bind.
  apply wp_bind. eapply wp_mono; [apply wp_any|]. intros _ tr3 _. apply wp_bind.
  eapply wp_mono; [apply sample_loop_length; by rewrite repeat_length|]. cbv beta. intros r tr4 Hr.
  destruct r as [sums|]; apply wp_ret; apply wp_bind; (eapply wp_mono; [apply wp_any|]); intros _ tr5 _; apply wp_ret; [|done].
  intros x [= <-]. unfold shaped. cbn. by rewrite !length_map, Hr.
Qed.

Lemma scenarios_shaped lab s ids level subs m scs tr :
  wp (measure_scenarios lab s ids level subs m scs)
    (fun r _ => forall rs, r = Ok rs -> Forall (shaped (length ids)) rs) tr.
Proof.
  revert m tr. induction scs as [|sc scs IH]; intros m tr; cbn [measure_scenarios].
  - apply wp_ret. intros ? [= <-]. constructor.
  - apply wp_bind. eapply wp_mono; [apply measure_scenario_shaped|]. cbv beta. intros r tr1 Hr.
    destruct r as [x|]; [|by apply wp_ret]. apply wp_bind. eapply wp_mono; [apply wp_any|]. intros _ tr2 _.
    apply wp_bind. eapply wp_mono; [apply IH|]. cbv beta. intros rs tr3 Hrs.
    destruct rs as [l|]; apply wp_ret; [|done]. intros ? [= <-]. constructor; [by apply Hr | by apply Hrs].
Qed.

Lemma connect_all_safe lab l : safe (connect_all lab l) (fun _ => True).
Proof.
  induction l as [|[login t] l IH]; cbn [connect_all]; [by apply safe_ret|].
  intros tr. apply wp_bind.
  eapply wp_mono; [apply (safe_try _ _ _ (fun _ => True) (connect_subscriber_safe _ _)); intros; by apply safe_ret|]. intros r tr1 [Hr _].
  apply wp_bind. eapply wp_mono; [apply IH|]. intros rs tr2 [Hrs _]. apply wp_ret. split; [|done].
  destruct r as [el|e]; cbn; [|intros msg [= ->]; by apply (Hr msg)].
  destruct rs as [ss|e]; cbn; [by intros msg | intros msg [= ->]; by apply (Hrs msg)].
Qed.

Lemma ramp_safe lab s run_id level subs :
  nodes s <> [] -> safe (ramp lab s run_id level subs) (fun _ => True).
Proof.
  intros Hn. unfold ramp. destruct (Z.ltb_spec (Z.of_nat (length subs)) level); [|by apply safe_ret].
  apply safe_then. intros _.
  assert (is_Some (mapM (plan s run_id)
     (map (Z.add (Z.of_nat (length subs))) (range (level - Z.of_nat (length subs)))))) as [l ->].
  { apply mapM_is_Some, Forall_map, Forall_forall. intros i Hi%range_spec. unfold plan, compose.
    destruct (node_of_Some (nodes s) (Z.of_nat (length subs) + i) Hn ltac:(lia)) as [node ->]. by eexists. }
  eapply safe_try; [apply connect_all_safe|]. intros more _. by apply safe_ret.
Qed.

Lemma level_loop_safe lab s run_id ids k levels subs results :
  nodes s <> [] -> Forall (Forall (shaped (length ids))) results ->
  safe (level_loop lab s run_id ids k levels subs results) (Forall (Forall (shaped (length ids)))).
Proof.
  intros Hn. revert k subs results. induction levels as [|l levels IH]; intros k subs results Hr; cbn [level_loop].
  - by apply safe_ret.
  - eapply safe_try; [by apply ramp_safe|]. intros subs' _.
    eapply safe_try; [apply safe_lift; intros tr; apply scenarios_shaped|]. intros rs Hrs. apply IH.
    unfold push_results. clear -Hr Hrs. revert rs Hrs. induction Hr as [|x results Hx Hr IH]; intros [|r rs] Hrs; cbn; constructor.
    + apply Forall_app. split; [done|]. by apply Forall_cons in Hrs as [? _]; constructor.
    + apply IH. by apply Forall_cons in Hrs as [_ ?].
Qed.

Lemma csv_total svcs results : Forall (shaped (length svcs)) results -> is_Some (csv svcs results).
Proof.
  intros H. unfold csv. assert (is_Some (mapM (csv_fields svcs) results)) as [rows ->]; [|by eexists].
  apply mapM_is_Some. eapply Forall_impl; [done|]. intros r [Hc Hm]. unfold compose, csv_fields.
  match goal with |- context [mapM ?f ?l] => assert (is_Some (mapM f l)) as [ns ->]; [|by eexists] end.
  apply mapM_is_Some, Forall_forall. unfold compose. intros i Hi%list_elem_of_In%in_seq.
  destruct (lookup_lt_is_Some_2 (cpu_pct r) i ltac:(lia)) as [c ->].
  destruct (lookup_lt_is_Some_2 (mem_mb r) i ltac:(lia)) as [m ->]. by eexists.
Qed.

Lemma node_series_total svcs results values :
  Forall (fun r => length (values r) = length svcs) results -> is_Some (node_series svcs results values).
Proof.
  intros H. apply mapM_is_Some, Forall_forall. unfold compose. intros [i svc] Hi.
  apply list_elem_of_lookup in Hi as [j Hj]. rewrite list_lookup_imap in Hj.
  destruct (svcs !! j) eqn:Es; [|done]. injection Hj as -> ->. apply lookup_lt_Some in Es.
  destruct (lookup_lt_is_Some_2 node_colors (i mod 6)%nat) as [color ->].
  { change (length node_colors) with 6%nat. apply Nat.mod_upper_bound. lia. }
  match goal with |- context [mapM ?f ?l] => assert (is_Some (mapM f l)) as [vs Hvs] end.
  { apply mapM_is_Some. eapply Forall_impl; [done|]. intros r Hr. unfold compose. apply lookup_lt_is_Some. cbv beta in Hr. lia. }
  cbn [mbind option_bind]. rewrite Hvs. by eexists.
Qed.

Lemma report_scenario_safe h s sc res :
  Forall (shaped (length (services s))) res -> safe (report_scenario h s sc res) (fun _ => True).
Proof.
  intros H. unfold report_scenario. destruct (csv_total _ _ H) as [table ->].
  eapply safe_try; [apply (safe_lift _ (fun _ => True)); intros tr; eapply wp_mono; [apply wp_any | done]|]. intros _ _.
  unfold render_svg.
  destruct (node_series_total (services s) res cpu_pct) as [cs ->]; [eapply Forall_impl; [done|]; by intros r []|].
  destruct (node_series_total (services s) res mem_mb) as [ms ->]; [eapply Forall_impl; [done|]; by intros r []|].
  cbn [mbind option_bind].
  do 2 (eapply safe_try; [apply (safe_lift _ (fun _ => True)); intros tr; eapply wp_mono; [apply wp_any | done]|]; intros _ _).
  apply safe_then. intros _. by apply safe_ret.
Qed.

Lemma report_safe h s l :
  Forall (fun x => Forall (shaped (length (services s))) (snd x)) l -> safe (report h s l) (fun _ => True).
Proof.
  induction 1 as [|[sc res] l Hx Hl IH]; cbn [report]; [by apply safe_ret|].
  eapply safe_try; [by apply report_scenario_safe | done].
Qed.

Lemma resolve_containers_length lab svcs tr :
  wp (resolve_containers lab svcs) (fun r _ => forall ids, r = Ok ids -> length ids = length svcs) tr.
Proof.
  revert tr. induction svcs as [|svc svcs IH]; intros tr; cbn [resolve_containers].
  - apply wp_ret. by intros ? [= <-].
  - apply wp_bind. eapply wp_mono; [apply wp_any|]. intros _ tr1 _.
    destruct (context _ _) as [o|]; [|by apply wp_ret]. destruct (negb (success o)); [by apply wp_ret|].
    cbn zeta. destruct (str_is_empty _); [by apply wp_ret|]. apply wp_bind.
    eapply wp_mono; [apply IH|]. cbv beta. intros r tr2 Hr. destruct r; apply wp_ret; [|done].
    intros ? [= <-]. cbn. f_equal. by apply Hr.
Qed.

(** ** Lemmas: the table *)

Definition line_feed : ascii := ascii_of_nat 10.

Definition plain (s : string) : Prop :=
  any_char (fun d => bool_decide (d = ","%char)) s = false /\ any_char (fun d => bool_decide (d = line_feed)) s = false.

Lemma plain_float d x : plain (show_fixed d x).
Proof. split; (apply float_char_absent; [done | apply show_fixed_float]). Qed.

Lemma plain_uint n : plain (show_uint n).
Proof. split; (apply float_char_absent; [done | apply show_uint_float]). Qed.

Lemma csv_fields_plain svcs r row : csv_fields svcs r = Some row ->
  Forall plain row /\ length row = (7 + 2 * length svcs)%nat.
Proof.
  unfold csv_fields. destruct (mapM _ _) as [ns|] eqn:E; [|done]. intros [= <-].
  assert (Forall plain (concat ns) /\ length (concat ns) = (2 * length svcs)%nat) as [Hp Hl].
  { apply mapM_Some_1 in E. rewrite <- (length_seq (length svcs) 0) at 1.
    induction E as [|i l js ls Hi _ [IHp IHl]]; [by split|].
    destruct (cpu_pct r !! i); [|done]. destruct (mem_mb r !! i); [|done]. injection Hi as <-. split.
    - cbn [concat app]. by repeat (apply Forall_cons_2; [apply plain_float|]).
    - cbn in *. lia. }
  split.
  - apply Forall_cons_2; [apply plain_uint|]. apply Forall_app. split; [done|]. by repeat (apply Forall_cons_2; [apply plain_float|]).
  - cbn [length]. rewrite !length_app, Hl. cbn. lia.
Qed.

Lemma plain_join_line ws : Forall plain ws ->
  any_char (fun d => bool_decide (d = line_feed)) (join "," ws) = false.
Proof.
  induction 1 as [|w ws [_ Hw] _ IH]; [done|]. destruct ws as [|w' ws]; [done|].
  by rewrite join_cons, !any_char_append, Hw, IH.
Qed.

(** The columns of the header. *)
Definition node_columns (svcs : list string) : list string :=
  concat (map (fun svc => [svc ++ "_cpu_pct"; svc ++ "_mem_mb"]%string) svcs).

Definition header_columns (svcs : list string) : list string :=
  ["subscribers"] ++ node_columns svcs
  ++ ["total_cpu_pct"; "total_mem_mb"; "msg_per_sec"; "cpu_pct_per_1k_msgs"; "cpu_pct_per_1k_users"; "mem_mb_per_1k_users"].

Lemma header_rest svcs rest : rest <> [] ->
  (cat (map (fun svc => "," ++ svc ++ "_cpu_pct," ++ svc ++ "_mem_mb") svcs) ++ "," ++ join "," rest)%string
  = ("," ++ join "," (node_columns svcs ++ rest)%list)%string.
Proof.
  intros Hr. induction svcs as [|svc svcs IH]; [done|]. unfold node_columns in *. cbn [map cat foldr concat app].
  rewrite !join_cons by (destruct svcs; simpl; congruence).
  change (foldr String.append "" ?l) with (cat l). rewrite append_assoc_str, IH.
  rewrite !append_assoc_str. done.
Qed.

Lemma csv_header_columns svcs : csv_header svcs = join "," (header_columns svcs).
Proof.
  unfold csv_header, header_columns. cbn [app]. rewrite join_cons by (destruct (node_columns svcs); done).
  f_equal. by rewrite <- header_rest.
Qed.

Lemma header_columns_plain svcs : Forall plain svcs -> Forall plain (header_columns svcs).
Proof.
  intros H. unfold header_columns. apply Forall_app. split; [by repeat constructor|].
  apply Forall_app. split; [|by repeat constructor].
  unfold node_columns. induction H as [|svc svcs [H1 H2] _ IH]; [constructor|]. cbn [map concat app].
  do 2 (apply Forall_cons_2; [split; rewrite any_char_append, ?H1, ?H2; done|]). done.
Qed.

Lemma csv_rows rows : Forall (Forall plain) rows ->
  split_on line_feed (cat (map (fun row => join "," row ++ newline)%string rows)) = map (join ",") rows ++ [""].
Proof.
  induction 1 as [|row rows Hr _ IH]; [done|]. cbn [map cat foldr].
  change (foldr String.append "" ?l) with (cat l). rewrite append_assoc_str.
  change (newline ++ ?x)%string with (String line_feed x).
  rewrite split_on_app_sep by (by apply plain_join_line). cbn [app]. by rewrite IH.
Qed.

(** ** Lemmas: memory sizes *)

Lemma unit_mismatch p1 q1 num : p1 <> q1 ->
  strip_suffix (String p1 "iB") (num ++ String q1 "iB")%string = None.
Proof.
  intros Hne. unfold strip_suffix. rewrite str_rev_app.
  change (str_rev (String ?x "iB")) with (String "B" (String "i" (String x ""))).
  cbn [String.append strip_prefix]. by rewrite !decide_True, decide_False by done.
Qed.

Lemma byte_unit p1 d n0 : d <> "i"%char ->
  strip_suffix (String p1 "iB") ((n0 ++ String d "") ++ "B")%string = None.
Proof.
  intros Hd. unfold strip_suffix. rewrite !str_rev_app.
  change (str_rev (String p1 "iB")) with (String "B" (String "i" (String p1 ""))).
  change (str_rev "B") with "B". change (str_rev (String d "")) with (String d "").
  cbn [String.append strip_prefix]. rewrite decide_True by done. by rewrite decide_False.
Qed.

(** ** Properties *)

(** the levels go up and every measurement is made with as many clients as
    it says: in a run of the measurements that succeeds, exactly [L] publishing
    tasks are started at level [L] for each of the two publishing scenarios,
    in the order of the levels, however the levels were written. *)
Theorem levels_measured h lab s run_id ids results tr :
  load_settings (environment h) = Ok s ->
  wp (level_loop lab s run_id ids 0 (sub_levels s) [] results)
    (fun r tr' => forall rs, r = Ok rs ->
       omap spawn_of tr' = omap spawn_of tr ++ concat (map (fun l => level_spawns (Z.to_nat l)) (sub_levels s))) tr.
Proof.
  intros Hs. apply resource_settings_wf in Hs. apply level_loop_spawns; [apply (wf_levels s Hs)|].
  eapply Forall_impl; [apply (wf_counts s Hs)|]. cbn. lia.
Qed.

(** publishing stops with the measurement: whatever a measurement returns,
    the flag that keeps the tasks running goes up once and then down; a task
    publishes nothing at or after the instant the flag goes down, and ends in
    the first round that finds it down. *)
Theorem publishers_stop s lab m ids subs subscribers qos :
  emits flag_of (measure_scenario s lab m ids subs subscribers qos) [true; false]
  /\ forall rate stop rounds l,
       publisher_task rate (fun t => t <? stop) rounds = Some l ->
       Forall (fun t => t < stop) l
       /\ forall c t ok rest, stop <= c \/ stop <= t ->
            publisher_task rate (fun t => t <? stop) (rounds ++ (c, t, ok) :: rest) = Some l.
Proof.
  split.
  - pose proof (emits_scenario flag_of ltac:(done) ltac:(done) s lab m ids subs subscribers qos) as H.
    by destruct qos.
  - intros rate stop rounds l. unfold publisher_task. destruct (period rate =? 0); [done|]. intros [= <-]. split.
    + eapply Forall_impl; [apply publish_rounds_running|]. cbn. intros t. apply Z.ltb_lt.
    + intros c t ok rest Hst. f_equal. induction rounds as [|[[c' t'] ok'] rounds IH]; cbn [app publish_rounds].
      * destruct (Z.ltb_spec c stop), (Z.ltb_spec t stop); try done. lia.
      * destruct ((c' <? stop) && (t' <? stop)); [|done]. destruct ok'; [by rewrite IH | done].
Qed.

(** memory sizes: a number with one of docker's binary units is the number
    times the unit's scale, with [B] alone the number of bytes; the longer
    suffixes are tried before [B], which ends all of them. Without a [B] at the
    end there is an error. *)
Theorem parse_mem_units num x :
  parse_f64 (trim num) = Some x ->
  parse_mem_mb (num ++ "TiB") = Ok (mul x (of_Z (2 ^ 20)))
  /\ parse_mem_mb (num ++ "GiB") = Ok (mul x (of_Z 1024))
  /\ parse_mem_mb (num ++ "MiB") = Ok (mul x (of_Z 1))
  /\ parse_mem_mb (num ++ "KiB") = Ok (mul x (div (of_Z 1) (of_Z 1024)))
  /\ (forall n0 d, num = (n0 ++ String d "")%string -> d <> "i"%char ->
        parse_mem_mb (num ++ "B") = Ok (mul x (div (of_Z 1) (of_Z (2 ^ 20)))))
  /\ (forall s c, c <> "B"%char ->
        parse_mem_mb (s ++ String c "") = Err [("cannot parse memory value: " ++ s ++ String c "")%string]).
Proof.
  intros Hx. unfold parse_mem_mb, scales. cbn [parse_scaled].
  change (mul (of_Z 1024) (of_Z 1024)) with (of_Z (2 ^ 20)).
  rewrite !strip_suffix_app, Hx, !unit_mismatch by done. repeat split.
  - intros n0 d -> Hd. by rewrite !byte_unit.
  - intros s c Hc. pose proof (fun p => strip_suffix_last p "B" c s ltac:(congruence)) as H.
    pose proof (H "Ti") as H1. pose proof (H "Gi") as H2. pose proof (H "Mi") as H3.
    pose proof (H "Ki") as H4. pose proof (H "") as H5. cbn [String.append] in H1, H2, H3, H4, H5.
    by rewrite H1, H2, H3, H4, H5.
Qed.

(** a container's statistics do not depend on the order in which the hash
    map is searched: when the container ids docker prints have the same length
    as the id looked for, the entry found is the one of that id, and an id
    docker did not print is an error. *)
Theorem stats_by_id entries (by_id : gmap string (f64 * f64)) id :
  entries ≡ₚ map_to_list by_id ->
  (forall k v, by_id !! k = Some v -> String.length k = String.length id) ->
  find_stats entries id
  = match by_id !! id with Some v => Ok v | None => Err [("no stats for container " ++ id)%string] end.
Proof.
  intros Hp Hlen. assert (Hin : forall k v, (k, v) ∈ entries <-> by_id !! k = Some v).
  { intros k v. by rewrite Hp, elem_of_map_to_list. }
  assert (Hsame : forall k v, (k, v) ∈ entries -> same_container id k = bool_decide (k = id)).
  { intros k v Hk%Hin. unfold same_container. pose proof (Hlen k v Hk).
    rewrite !starts_with_same_length by done. case_bool_decide; case_bool_decide; naive_solver. }
  unfold find_stats. destruct (list_find _ _) as [[i [k v]]|] eqn:E.
  - apply list_find_Some in E as (Hi & Hk & _). apply list_elem_of_lookup_2 in Hi.
    cbn in Hk. rewrite (Hsame k v Hi) in Hk. apply bool_decide_unpack in Hk as ->. apply Hin in Hi. by rewrite Hi.
  - apply list_find_None in E. destruct (by_id !! id) as [v|] eqn:Ev; [|done]. exfalso.
    apply Hin in Ev. rewrite Forall_forall in E. apply (E _ Ev). cbn. rewrite (Hsame id v Ev).
    by rewrite bool_decide_eq_true_2.
Qed.

(** the resource table is rectangular: for services whose names contain no
    comma or line feed, and a value of each for every service, there is a
    table; its first line names two columns for each service, and every line
    has as many fields as there are columns. *)
Theorem resource_table svcs results :
  Forall plain svcs -> Forall (shaped (length svcs)) results ->
  exists table rows, csv svcs results = Some table
    /\ split_on line_feed table = csv_header svcs :: map (join ",") rows ++ [""]
    /\ split_on "," (csv_header svcs) = header_columns svcs
    /\ length rows = length results
    /\ Forall (fun row => split_on "," (join "," row) = row /\ length row = length (header_columns svcs)) rows.
Proof.
  intros Hs Hr. destruct (csv_total svcs results Hr) as [table Ht]. unfold csv in Ht.
  destruct (mapM _ _) as [rows|] eqn:E; [|done]. injection Ht as <-.
  pose proof (header_columns_plain svcs Hs) as Hh.
  assert (Forall (fun row => Forall plain row /\ length row = (7 + 2 * length svcs)%nat) rows) as Hrows.
  { apply mapM_Some_1 in E. clear -E. induction E as [|r row rs rows Hrow _ IH]; constructor; [|done].
    by apply csv_fields_plain in Hrow. }
  exists (csv_header svcs ++ newline ++ cat (map (fun row => join "," row ++ newline) rows))%string, rows.
  unfold csv. rewrite E. split; [done|]. split; [|split; [|split]].
  - change (newline ++ ?x)%string with (String line_feed x). rewrite split_on_app_sep.
    + f_equal. apply csv_rows. eapply Forall_impl; [exact Hrows|]. by intros ? [].
    + rewrite csv_header_columns. by apply plain_join_line.
  - rewrite csv_header_columns. apply split_on_join; [done|]. eapply Forall_impl; [exact Hh|]. by intros ? [].
  - apply length_mapM in E. done.
  - eapply Forall_impl; [exact Hrows|]. intros row [Hp Hl]. split.
    + apply split_on_join; [intros ->; discriminate|]. eapply Forall_impl; [exact Hp|]. by intros ? [].
    + rewrite Hl. unfold header_columns. rewrite !length_app. cbn [length].
      assert (length (node_columns svcs) = (2 * length svcs)%nat) as ->.
      { clear. unfold node_columns. induction svcs as [|x l IH]; [done|]. cbn in *. lia. }
      lia.
Qed.

(** with at least one device per user the program does not panic, short of
    running out of memory: whatever docker prints, the brokers answer and the
    disk does, every index is in bounds and every division has a divisor; it
    ends normally or with an error. *)
Theorem main_never_panics h lab s :
  load_settings (environment h) = Ok s -> 0 < devices_per_user s ->
  no_panic (fst (main h lab [])).
Proof.
  intros Hs Hd. pose proof (resource_settings_wf _ _ Hs) as Hwf.
  enough (safe (main h lab) (fun _ => True)) as H by (specialize (H []); by apply wp_run in H as [? _]).
  unfold main. eapply (safe_try _ _ (fun x => x = s)); [rewrite Hs; by apply safe_ret|]. intros ? ->.
  eapply safe_try; [apply safe_lift, resolve_containers_length|]. cbv beta. intros ids Hids.
  assert (is_Some (max_users s)) as [users ->].
  { unfold max_users. destruct (_ =? 0); [by eexists|]. unfold ceil_div. by destruct (Z.eqb_spec (devices_per_user s) 0); [lia|eexists]. }
  unfold run. apply safe_then. intros _.
  eapply safe_try; [apply (safe_lift _ (fun _ => True)); intros tr; eapply wp_mono; [apply wp_any | done]|]. intros _ _.
  apply safe_then. intros _.
  eapply safe_try; [apply level_loop_safe; [apply (wf_nodes s Hwf) | by repeat constructor]|].
  cbv beta. intros results Hres. apply safe_then. intros _. apply report_safe. rewrite <- Hids.
  apply Forall_forall. intros [sc res] Hin%elem_of_zip_r. cbn. rewrite Forall_forall in Hres. by apply Hres.
Qed.

(** ** Witnesses *)

Definition demo_env (key : string) : option string :=
  if bool_decide (key = "PERF_RES_SUBS") then Some "2,0,1,2"
  else if bool_decide (key = "PERF_SERVICES") then Some "n1, n2"
  else if bool_decide (key = "PERF_SAMPLES") then Some "2" else None.

Definition demo_host : Host := mkHost demo_env (fun _ => Ok 201) show_uint (fun _ => Ok tt) (10 ^ 9) (10 ^ 9).

Definition accepting_peer : Peer :=
  mkPeer (fun _ => mkAttempt 0 [(1, Ok (Incoming (ConnAck None))); (2, Ok (Incoming (SubAck [true])))]) (Ok tt).

Definition demo_lab : Lab :=
  mkLab (fun svc => Ok (mkOutput true (if bool_decide (svc = "n1") then "aaaa" else "bbbb") ""))
    (fun _ => Ok (mkOutput true ("bbbb;1.50%;200MiB / 2GiB" ++ newline ++ "aaaa;0.25%;1GiB / 2GiB") ""))%string
    (fun _ m => map_to_list m) (fun _ _ => accepting_peer) (fun _ => 0) (fun _ => 0) (fun _ => 10 ^ 9).

Definition demo_loaded : Settings :=
  match load_settings demo_env with
  | Ok s => s
  | Err _ => mkSettings [] "" "" [] 0 [] 0 0 0 0 ""
  end.

(** The levels [2,0,1,2] are measured as [0], [1] and [2], with that many
    tasks. *)
Lemma levels_measured_witness :
  sub_levels demo_loaded = [0; 1; 2]
  /\ exists rs tr', level_loop demo_lab demo_loaded "r" ["aaaa"; "bbbb"] 0 (sub_levels demo_loaded) [] [[]; []; []] []
       = (Ok rs, tr')
     /\ omap spawn_of tr' = concat (map (fun l => level_spawns (Z.to_nat l)) [0; 1; 2]).
Proof.
  split; [by vm_compute|].
  pose proof (levels_measured demo_host demo_lab demo_loaded "r" ["aaaa"; "bbbb"] [[]; []; []] []
    ltac:(by vm_compute)) as H.
  unfold wp in H.
  assert (is_ok (fst (level_loop demo_lab demo_loaded "r" ["aaaa"; "bbbb"] 0 (sub_levels demo_loaded) [] [[]; []; []] [])) = true)
    as Hok by (by vm_compute).
  destruct (level_loop _ _ _ _ _ _ _ _ _) as [r tr']. destruct r as [rs|]; [|done].
  exists rs, tr'. split; [done|]. by apply (H rs).
Defined.

(** At ten messages a second a task publishes at 0 and 0.1 s and is done when
    the flag goes down. *)
Lemma publishers_stop_witness :
  publisher_task 10 (fun t => t <? 2 * 10 ^ 8) [(0, 0, true); (10 ^ 8, 10 ^ 8, true)] = Some [0; 10 ^ 8]
  /\ publisher_task 10 (fun t => t <? 2 * 10 ^ 8)
       ([(0, 0, true); (10 ^ 8, 10 ^ 8, true)] ++ [(2 * 10 ^ 8, 2 * 10 ^ 8, true); (3 * 10 ^ 8, 3 * 10 ^ 8, true)])
     = Some [0; 10 ^ 8].
Proof.
  assert (publisher_task 10 (fun t => t <? 2 * 10 ^ 8) [(0, 0, true); (10 ^ 8, 10 ^ 8, true)] = Some [0; 10 ^ 8]) as E
    by (by vm_compute).
  split; [exact E|].
  destruct (publishers_stop demo_loaded demo_lab 0 ["aaaa"; "bbbb"] [] 2 None) as [_ Hstop].
  destruct (Hstop 10 (2 * 10 ^ 8) _ _ E) as [_ Hrest]. apply Hrest. by left.
Defined.

Lemma parse_mem_units_witness :
  parse_mem_mb ("1.5" ++ "GiB") = Ok (mul (lit 15 1) (of_Z 1024)) /\ show (mul (lit 15 1) (of_Z 1024)) = "1536".
Proof.
  split; [|by vm_compute]. apply (parse_mem_units "1.5" (lit 15 1)). by vm_compute.
Defined.

Lemma stats_by_id_witness :
  find_stats (map_to_list (<["aaaa" := (f_one, f_one)]> (<["bbbb" := (f_zero, f_zero)]> (∅ : gmap string (f64 * f64))))) "bbbb"
  = Ok (f_zero, f_zero).
Proof.
  rewrite (stats_by_id _ (<["aaaa" := (f_one, f_one)]> (<["bbbb" := (f_zero, f_zero)]> ∅))); [done | done |].
  intros k v. rewrite !lookup_insert_Some, lookup_empty. by intros [[<- _]|[_ [[<- _]|[_ [=]]]]].
Defined.

Definition demo_level : LevelResult :=
  mkLevel 2 [lit 25 2; lit 15 1] [of_Z 1024; of_Z 200] (lit 175 2) (of_Z 1224) (of_Z 20).

Lemma resource_table_witness :
  exists table rows, csv ["n1"; "n2"] [demo_level] = Some table
    /\ split_on line_feed table = csv_header ["n1"; "n2"] :: map (join ",") rows ++ [""]
    /\ length rows = 1%nat.
Proof.
  destruct (resource_table ["n1"; "n2"] [demo_level]) as (table & rows & H1 & H2 & _ & H3 & _).
  - by repeat constructor.
  - by repeat constructor.
  - by exists table, rows.
Defined.

Lemma main_never_panics_witness : no_panic (fst (main demo_host demo_lab [])).
Proof. apply (main_never_panics demo_host demo_lab demo_loaded); by vm_compute. Defined.

(** No samples: the averages are not numbers, and so is the table. *)
Example no_samples_nan :
  map (fun v => show_fixed 2 (div v (of_Z 0))) [f_zero] = ["NaN"].
Proof. by vm_compute. Qed.
