(* ===== verification/LoadAccess.v ===== *)
(** * The load generators against the broker

    What the load generators do is accepted by the broker they measure: the
    users they create pass the checks of the management API, and the topics
    they subscribe to and publish on are granted by the access rules of these
    users. So a refused user or subscription in a run is not the fault of the
    names the programs choose. The theorem composes the model of the programs
    with those of the management API and of access control. *)

From Stdlib Require Import Ascii.
From stdpp Require Import pretty.
From S2P Require Import Prelude Strs Topic Types Acl Store Config Db Vault Api Access Auth LoadGen.
Local Open Scope string_scope.
Local Open Scope list_scope.
Local Open Scope Z_scope.

(** The management API's reading of a creation's JSON body; [admin] is not in
    it and is false by default. *)
Definition api_request (b : NewUserBody) : CreateUser :=
  mkCreateUser (nu_username b) (nu_userid b) (nu_password b) (nu_superuser b) false.

(** ** The characters and the length of the generated names *)

(** The run's id is at most sixteen hexadecimal digits. *)
Lemma run_id_word h :
  0 <= wall_at_start h < 2 ^ 64 ->
  all_chars is_ascii_alphanumeric (run_id_of h) = true /\ str_len (run_id_of h) <= 16.
Proof.
  intros Hw. assert (0 <= wall_at_start h / 10 ^ 6 < 16 ^ Z.of_nat 16) as Hb.
  { split; [apply Z.div_pos; lia|]. apply Z.div_lt_upper_bound; lia. }
  unfold run_id_of, show_hex, str_len. split.
  - apply show_hex_go_word; [lia | done].
  - pose proof (show_hex_go_length (S (Z.to_nat (Z.log2 (wall_at_start h / 10 ^ 6))))
      (wall_at_start h / 10 ^ 6) "" 16 ltac:(lia) Hb) as Hl. cbn [String.length] in Hl. lia.
Qed.

(** A printed number is of letters and digits too. *)
Lemma show_uint_word n : all_chars is_ascii_alphanumeric (show_uint n) = true.
Proof.
  apply (all_chars_impl is_ascii_digit); [|apply show_uint_digits].
  intros c Hc. by destruct c as [[] [] [] [] [] [] [] []].
Qed.

Lemma word_graphic c : is_ascii_alphanumeric c = true -> is_ascii_graphic c = true.
Proof. destruct c as [[] [] [] [] [] [] [] []]; done. Qed.

Section names.
Context (h : Host) (i : Z).
Context (Hw : 0 <= wall_at_start h < 2 ^ 64) (Hi : 0 <= i < 2 ^ 64).

Lemma name_length pre :
  str_len (pre ++ run_id_of h ++ "-" ++ show_uint i)%string <= str_len pre + 37.
Proof.
  destruct (run_id_word h Hw) as [_ Hr]. rewrite !str_len_app. change (str_len "-") with 1.
  pose proof (show_uint_length i 20 ltac:(lia) ltac:(cbn; lia)). lia.
Qed.

Lemma name_chars p pre :
  (forall c, is_ascii_alphanumeric c = true -> p c = true) -> p "-"%char = true -> all_chars p pre = true ->
  all_chars p (pre ++ run_id_of h ++ "-" ++ show_uint i)%string = true.
Proof.
  intros Hp Hd Hpre. destruct (run_id_word h Hw) as [Hr _]. rewrite !all_chars_app, Hpre.
  rewrite (all_chars_impl _ p _ Hp Hr), (all_chars_impl _ p _ Hp (show_uint_word i)).
  unfold all_chars. cbn. by rewrite Hd.
Qed.

Lemma username_valid : valid_username (username (run_id_of h) i) = true.
Proof.
  unfold valid_username, username. rewrite name_chars by (done || apply word_graphic).
  pose proof (name_length "tok-") as Hl. change (str_len "tok-") with 4 in Hl.
  cbn [String.append str_is_empty negb andb]. rewrite andb_true_r. apply Z.leb_le.
  change (str_len ("tok-" ++ run_id_of h ++ "-" ++ show_uint i)%string <= 128). lia.
Qed.

Lemma userid_valid : valid_segment (userid (run_id_of h) i) = true.
Proof.
  unfold valid_segment, userid. rewrite name_chars; [|by intros c ->|done|done].
  pose proof (name_length "uid-") as Hl. change (str_len "uid-") with 4 in Hl.
  cbn [String.append str_is_empty negb andb]. rewrite andb_true_r. apply Z.leb_le.
  change (str_len ("uid-" ++ run_id_of h ++ "-" ++ show_uint i)%string <= 64). lia.
Qed.

Lemma publisher_valid : valid_username ("tok-pub-" ++ run_id_of h) = true.
Proof.
  destruct (run_id_word h Hw) as [Hr Hl]. unfold valid_username.
  rewrite all_chars_app, (all_chars_impl _ is_ascii_graphic _ word_graphic Hr).
  rewrite str_len_app. change (str_len "tok-pub-") with 8.
  cbn [String.append str_is_empty negb andb]. rewrite !andb_true_r. apply Z.leb_le. lia.
Qed.

(** The topic's levels. *)
Lemma chat_topic_levels :
  split_on "/" (chat_topic (userid (run_id_of h) i)) = ["chat"; userid (run_id_of h) i; "m"; "all"].
Proof.
  assert (all_chars (fun c => negb (bool_decide (c = "/"%char))) (userid (run_id_of h) i) = true) as Hc.
  { apply name_chars; [|done|done]. intros c Hc. by destruct (bool_decide_reflect (c = "/"%char)) as [->|]. }
  apply (split_on_join "/" ["chat"; userid (run_id_of h) i; "m"; "all"]); [done|].
  repeat constructor. apply all_chars_spec in Hc. revert Hc. apply any_char_false_impl.
  intros c Hq. by rewrite Hq.
Qed.

Lemma chat_topic_plain : plain (chat_topic (userid (run_id_of h) i)) = true.
Proof. apply plain_Forall. rewrite chat_topic_levels. by repeat constructor. Qed.

End names.

(** ** Theorem *)

Section accepted.
Context {T : Type} `{KvTable T string Bytes}.
Context (bincode_encode : UserRecord -> result string Bytes).
Context {Params : Type} (params_new : Z -> Z -> Z -> result string Params).
Context (argon2_hash : Params -> Bytes -> string -> result string string).
Context (hmac_sha256 : Bytes -> Bytes -> Bytes).
Context {J : Type} (to_value : ReplOp -> result string J).
Context (cfg : Settings) (w : World).

(** the users of a run are good users of the broker: the management API
    finds nothing to object to in the requests that create them, whatever the
    state it is in, each subscriber is granted its subscription by the access
    rules of its own record under every configuration, and the publisher may
    publish to every topic. *)
Theorem load_users_accepted h i api token hash ci opts p b :
  0 <= wall_at_start h < 2 ^ 64 -> 0 <= i < 2 ^ 64 ->
  let run := run_id_of h in
  Forall (fun r => forall req, api_request <$> json r = Some req ->
      status (fst (Api.create_user bincode_encode params_new argon2_hash hmac_sha256 to_value cfg w req b))
      <> BAD_REQUEST)
    [ create_request api token ("tok-pub-" ++ run) "svc-perf" true;
      create_request api token (username run i) (userid run i) false;
      create_request api token (username run i) (userid run i) true ]
  /\ grants_subscribe (subscribe_check cfg
       (Some (build_auth_info (mkUser (username run i) (userid run i) hash false false) (acl cfg) ci))
       (mkSubscribe (chat_topic (userid run i)) opts)) = true
  /\ grants_publish (publish_check cfg
       (Some (build_auth_info (mkUser ("tok-pub-" ++ run) "svc-perf" hash true false) (acl cfg) ci)) p) = true.
Proof.
  intros Hw Hi run. split_and!.
  - assert (forall u d su, valid_username u = true -> valid_segment d = true ->
      forall req, api_request <$> json (create_request api token u d su) = Some req ->
      status (fst (Api.create_user bincode_encode params_new argon2_hash hmac_sha256 to_value cfg w req b))
      <> BAD_REQUEST) as Hreq.
    { intros u d su Hu Hd req [= <-]. apply (wp_run _ (fun r _ => status r <> BAD_REQUEST)).
      apply create_user_accepts. unfold valid_request. cbn. by rewrite Hu, Hd. }
    repeat apply Forall_cons_2; [..|apply Forall_nil_2]; apply Hreq;
      (by apply username_valid) || (by apply userid_valid) || (by apply publisher_valid) || done.
  - apply (own_topics_granted _ _ _ _ "chat" ["m"; "all"]); [by apply userid_valid|..]; cbn [topic_filter].
    + by apply chat_topic_plain.
    + by apply chat_topic_levels.
  - unfold publish_check. by destruct (acl_enabled (acl cfg)).
Qed.

End accepted.

Definition a_host : Host :=
  mkHost (fun _ => None) (fun _ => Ok 201) (fun _ => "") (fun _ => Ok tt) (1700000000000 * 10 ^ 6) 0.

Lemma load_users_accepted_witness :
  status (fst (Api.create_user toy_encode (fun _ _ _ => Ok tt) AuthExample.toy_hash AuthExample.toy_hmac
    (fun op => Ok op) AuthExample.settings AuthExample.world
    (mkCreateUser "tok-18bcfe56800-7" "uid-18bcfe56800-7" "perf-pass" false false) AuthExample.init))
  <> BAD_REQUEST.
Proof.
  destruct (load_users_accepted toy_encode (fun _ _ _ => Ok tt) AuthExample.toy_hash AuthExample.toy_hmac
    (fun op => Ok op) AuthExample.settings AuthExample.world a_host 7 "http://n1:6060" "tok" "hash"
    AuthExample.conn opts_default (publish_from (mkCodec false false AtMostOnce "t" None "x"))
    AuthExample.init) as [Hreq _]; [done..|].
  apply Forall_cons in Hreq as [_ Hreq]. apply Forall_cons in Hreq as [Hreq _].
  apply Hreq. by vm_compute.
Defined.
