(* ===== verification/Fuzz.v ===== *)
(** * The fuzz targets: [src/fuzz/fuzz_targets]

    Each target is a function of the fuzzer's input; what its [assert!] tests
    is the boolean it returns. The calls whose results the targets discard are
    total functions here. *)

From S2P Require Import Prelude Strs Topic Store Db.
Local Open Scope string_scope.
Local Open Scope list_scope.

(** [auth_verify.rs]. *)
Record Input : Type := mkInput {
  stored_hash : string;
  fz_pepper : Bytes;
  fz_username : string;
  fz_password : string;
  stored : Bytes
}.

Section auth_verify.
Context {Phc : Type}.
Context (phc_parse : string -> option Phc).
Context (argon2_verify : Phc -> Bytes -> bool).
Context (hmac_sha256 : Bytes -> Bytes -> Bytes).

Definition auth_verify (i : Input) : bool :=
  let _ := verify_password phc_parse argon2_verify (stored_hash i) (fz_password i) in
  let v := compute_verifier hmac_sha256 (fz_pepper i) (fz_username i) (fz_password i) in
  let asserted := verify_fast hmac_sha256 (fz_pepper i) (fz_username i) (fz_password i) v in
  let _ := verify_fast hmac_sha256 (fz_pepper i) (fz_username i) (fz_password i) (stored i) in
  asserted.

End auth_verify.

(** [topic_match.rs] asserts nothing. *)
Definition topic_match (data : string * string) : bool * bool :=
  let '(topic, filter) := data in (topic_matches topic filter, has_wildcard filter).

(** the fuzzer finds nothing: for every input, whatever argon2 and the MAC do,
    the assertion of [auth_verify] holds. *)
Theorem auth_verify_passes {Phc} (phc_parse : string -> option Phc) argon2_verify hmac i :
  auth_verify phc_parse argon2_verify hmac i = true.
Proof. unfold auth_verify, verify_fast. rewrite ct_eq_spec. by apply bool_decide_eq_true. Qed.
